(* ===== verification/_CoqProject ===== *)
-Q . S2P
Prelude.v
Primitives.v
StateKeys.v
Codec.v
Hash.v
Sha256.v
OrdMap.v
Ssz.v
SszRun.v
Wire.v
State.v
StateSpec.v
Validation.v
Crypto.v
Mempool.v
Violations.v
Execution.v
Consensus.v
Signing.v
Network.v
Fixtures.v
VectorFiles.v
Cli.v
EndToEnd.v
Commitments.v
Chain.v
Costs.v
RunErrors.v
Testing.v
ConformancePrimitives.v
ConformanceBackends.v
ConformancePipelines.v
FixtureVectors.v
DirectoryTests.v
ScenarioTests.v
RuntimeTests.v
FixtureData.v
Vectors.v
DirectoryData.v
ScenarioData.v
RuntimeData.v
