(* ===== verification/Prelude.v ===== *)
(** * shell-chain: a verification development (root file)

    The program under [src/crates] is the reference harness of a stateless blockchain
    protocol.  Its crates, and the files that model them:

    - shell-primitives (types, domains, errors, structural validation, SSZ hashing and
      the wire codec): [Primitives], [StateKeys], [Codec], [Ssz], [SszRun] (the Merkle
      routines with their slices and recursion as they run), [Wire] (bytes to roots),
      [Validation];
    - shell-state (in-memory accumulator, witnesses, state transitions, appliers):
      [OrdMap] (the [BTreeMap] operations it uses), [State], and [StateSpec] (the
      [StateAccumulator] trait and the abstract ledger it promises);
    - shell-crypto (verifier registry, Ed25519 scheme, dispatch limits): [Crypto], and
      [Signing] (what a holder of signing keys gets from admission and import);
    - shell-mempool (fee and nonce policy, admission pipeline): [Mempool], and
      [Violations] (the table of rules admission is equivalent to);
    - shell-execution (block execution loop, receipts, planned executor): [Execution];
    - shell-consensus (header, body and sidecar checks, block import): [Consensus];
    - shell-network (fetch policy, announcement filter, peer actions): [Network];
    - shell-fixtures (hex and vector decoding, reference roots, scenarios): [Fixtures],
      [VectorFiles] (listing and loading the vector files), [FixtureVectors] (the
      remaining vector records and the drivers that read them);
    - shell-cli (the local reference runtime and its gossip adapters): [Cli],
      [EndToEnd] (the runtime against the ledgers of its scenario), [Commitments] (what
      an accepted header binds), [Chain] (runs that follow one another), [Costs] (the
      signature verifications of a run) and [RunErrors] (how a run fails).

    [Hash] states the boundary to SHA-256, [Sha256] gives a concrete SHA-256 (and a
    cheap digest for large examples).  [Testing], [ConformancePrimitives],
    [ConformanceBackends] and [ConformancePipelines] translate the unit tests of the
    crates, with their test doubles, to boolean definitions and evaluate them.
    [DirectoryTests] and [ScenarioTests] translate the integration tests that go through
    a directory of [src/vectors], [RuntimeTests] those of shell-cli; [FixtureData],
    [Vectors], [DirectoryData], [ScenarioData] and [RuntimeData] hold the vectors,
    evaluate the tests on all of them and contain the end-to-end examples.  This file is
    the prelude: results, the [?] operator and the [From] conversions it applies, the effect monad, fixed-size arrays and machine integers, little- and big-endian bytes,
    byte-string order, and the shared list lemmas and tactics.

    ** How the code is modelled

    - [Result<T, E>] is [result T E] with [let?] for [?], whose error conversion is the
      class [From] with one instance per [impl]; [Option] is [option]; a panic
      is [None] of an outer [option].  Error enums and structs keep the constructors and
      fields of the source (prefixed where Rocq needs distinct projections).
    - [[u8; n]] is [array n] (a list of bytes with its length), [u32] and [u64] are
      bounded naturals with wrap-around ([uint]), [usize] lengths are [N] with the 64-bit
      limit [usize_limit] written out where the code can overflow.
    - Calls through trait objects ([SignatureVerifier], [ProposerCredentialResolver],
      [TransactionRevalidator], [WitnessPreparer], [BlockExecutionEngine],
      [TransactionExecutor], [StateTransitionApplier]) may have interior state: they run
      in the state-and-error monad [M W E A] over a world [W].  "No call was made" is
      then "the world is unchanged", which is how the cheap-checks-first theorems are
      stated.  The traits that components promise to each other are classes
      ([SignatureDispatcher], [WitnessVerifier], [StateTransitionApplier],
      [TransactionExecutor], [CanonicalSsz], [ProtocolObject]) and the reference
      implementations are their instances.
    - [InMemoryAccumulator] keeps its [BTreeMap] as a list sorted by encoded key; its
      abstract state is the finite map [abs] from state keys to values.
    - Everything is executable.  Recursion is structural, so there is no fuel: [merkleize]
      recurses on the (binary) limit, the decoders on the offset table they have read.
      Only [SszRun.merkleize_run] takes fuel, since there termination is the claim: the
      number of nested calls, of which [log2 limit + 1] are enough and necessary (64 for
      every [usize]).

    ** What the theorems show

    - Encodings: the payload and envelope codecs are canonical in both directions, with
      their exact failure conditions; the state-key encoding is self-delimiting and its
      order is a strict total order.
    - Roots: [merkleize] is the padded binary Merkle root; payload, envelope, signing,
      state, receipts, witnesses and transactions roots bind what they commit to, given
      no SHA-256 collision among the strings actually hashed (each hashing function has
      a [_queries] function listing them); inputs over the declared byte-list limit are the
      exception, and release builds hash two such payloads alike.  An envelope root
      identifies the bytes on the wire.  The recursion of
      [merkleize] ends and neither it nor [pack_bytes] slices out of range; a build with
      debug assertions panics exactly on the inputs its comment excludes.
    - State: [apply_transition] refines the update of the abstract map and is
      all-or-nothing; roots are history independent; witness verification and generation
      are characterised exactly; the applier enforces root continuity.  On every sequence
      of requests the accumulator answers as the abstract ledger does, and stays well
      formed.
    - Pipelines: dispatch, screening, admission, block execution and block import succeed
      exactly under the conjunction of their checks, in order; each failure names its
      stage; checks that need no cryptography run before those that do.  Screening reports
      the first violation of an explicit rule table, and the ways admission can fail are
      listed completely.
    - Network: peer actions follow the validation verdicts, and sidecar fetching agrees
      with the import prefilter.
    - Signing: under the laws of the signature library, transactions signed with Ed25519
      are admitted and headers signed with it pass the header check.
    - End to end: the reference runtime accepts a scenario exactly when its submissions
      are admitted, its block commits to the ledgers of the scenario and its signatures
      and revalidations succeed; a resolved scenario is consistent and is accepted when
      the header commits to the planned post-state and receipts; a run is an admission
      followed by gossip of the block.  The ways a run can fail are listed completely.
      Accepted headers that agree on their roots carry the same witnesses, lead to the
      same post-state and report the same receipts.  Along a chain of accepted blocks
      linked by their state roots, every block starts from what the earlier ones left and
      the last root commits to all their patches in order.  A run performs at most one
      verification per submitted authorization, one for the proposer and one per
      authorization looked up for a block transaction, and exactly that many if accepted.
    - Vector files: the files a category lists are exactly those its non-empty ids name,
      each named by its stem; the verdict of a directory test does not depend on the order
      of the listing.
    - Four theorems describe behaviour that departs from the documents or from the rest
      of the code: over-limit payloads that share a root ([Ssz]), block revalidation that
      does not look at the block's own authorizations ([Cli]), blocks whose envelopes can
      be replaced under an accepted header ([Commitments]), and a peer disconnected for an
      internal error ([Network]).

    ** What is not modelled

    The crates sha2 and ed25519-dalek are parameters ([Sha256], [Ed25519Dalek]), and so is
    serde_json (the class [Deserialize]): a vector is the record [serde] fills in.  The
    file system is what [std::fs] shows of [vectors/], a record of two functions.  The
    two negative Ed25519 tests are stated with what they ask of the curve.  [Debug] and
    [Clone] derivations, re-exports, and constructors and accessors that only wrap or
    return a field (the record's own are used) are left out, and there is no executable to
    model: shell-cli is a library.  An
    [AdmissionStateView] is a pure function of the envelope, so a view that changes
    between two reads is not covered.  Strings carried by errors are kept where the source
    fixes them. *)

From stdpp Require Export base list gmap strings sorting.
From Stdlib Require Export NArith ZArith Lia.
From Stdlib Require Strings.Byte.

Abbreviation byte := Corelib.Init.Byte.byte.

Declare Scope shell_scope.
Delimit Scope shell_scope with shell.
Open Scope shell_scope.

(* ------------------------------------------------------------------ *)
(** ** [Result<A, E>] and the [?] operator *)

Inductive result (A E : Type) : Type :=
| Ok (a : A)
| Err (e : E).
Arguments Ok {A E} a.
Arguments Err {A E} e.

Definition bind_result {A B E} (r : result A E) (k : A -> result B E) : result B E :=
  match r with
  | Ok a => k a
  | Err e => Err e
  end.

Definition map_err {A E F} (f : E -> F) (r : result A E) : result A F :=
  match r with
  | Ok a => Ok a
  | Err e => Err (f e)
  end.

Definition map_ok {A B E} (f : A -> B) (r : result A E) : result B E :=
  match r with
  | Ok a => Ok (f a)
  | Err e => Err e
  end.

(** The trait [From], by which [?] converts the error it returns: one instance for each
    [impl] between error types. *)
Class From (A B : Type) : Type := from : A -> B.
#[global] Arguments from {A B _} _ : simpl never.

(** [Option::ok_or]. *)
Definition ok_or {A E} (o : option A) (e : E) : result A E :=
  match o with
  | Some a => Ok a
  | None => Err e
  end.

Definition is_ok {A E} (r : result A E) : bool :=
  match r with Ok _ => true | Err _ => false end.

Notation "'let?' x := e 'in' k" := (bind_result e (fun x => k))
  (at level 10, x pattern, e at level 100, k at level 200,
   format "'[v' 'let?'  x  :=  e  'in' '/' k ']'") : shell_scope.
Notation "e '?;;' k" := (bind_result e (fun _ => k))
  (at level 100, k at level 200, right associativity) : shell_scope.

#[export] Instance result_eq_dec {A E} `{EqDecision A, EqDecision E} : EqDecision (result A E).
Proof. solve_decision. Defined.

(** A [for] loop over a slice whose body ends in [?]. *)
Fixpoint for_each {A E} (f : A -> result unit E) (l : list A) : result unit E :=
  match l with
  | [] => Ok tt
  | x :: l => f x ?;; for_each f l
  end.

(** [iter().map(f).collect::<Result<Vec<_>, _>>()]. *)
Fixpoint collect {A B E} (f : A -> result B E) (l : list A) : result (list B) E :=
  match l with
  | [] => Ok []
  | x :: l => let? y := f x in let? ys := collect f l in Ok (y :: ys)
  end.

(** [slice.windows(2).enumerate()]. *)
Definition windows2_enumerate {A} (l : list A) : list (nat * (A * A)) :=
  zip (seq 0 (length l - 1)) (zip l (tail l)).

Lemma Ok_inj {A E} (a b : A) : @Ok A E a = Ok b -> a = b.
Proof. by intros [=]. Qed.

Lemma bind_result_ok {A B E} (r : result A E) (k : A -> result B E) b :
  bind_result r k = Ok b <-> exists a, r = Ok a /\ k a = Ok b.
Proof. destruct r; naive_solver. Qed.

Lemma then_ok {B E} (r : result unit E) (k : result B E) b :
  (r ?;; k) = Ok b <-> r = Ok tt /\ k = Ok b.
Proof. destruct r as [[]|]; naive_solver. Qed.

Lemma bind_result_err {A B E} (r : result A E) (k : A -> result B E) e :
  bind_result r k = Err e <-> r = Err e \/ exists a, r = Ok a /\ k a = Err e.
Proof. destruct r; naive_solver. Qed.

Lemma map_err_ok {A E F} (f : E -> F) (r : result A E) a :
  map_err f r = Ok a <-> r = Ok a.
Proof. destruct r; naive_solver. Qed.

Lemma map_err_err {A E F} (f : E -> F) (r : result A E) e :
  map_err f r = Err e <-> exists e', r = Err e' /\ e = f e'.
Proof. destruct r; naive_solver. Qed.

Lemma map_ok_ok {A B E} (f : A -> B) (r : result A E) b :
  map_ok f r = Ok b <-> exists a, r = Ok a /\ b = f a.
Proof. destruct r; naive_solver. Qed.

Lemma map_ok_err {A B E} (f : A -> B) (r : result A E) e :
  map_ok f r = Err e <-> r = Err e.
Proof. destruct r; naive_solver. Qed.

Lemma ok_or_ok {A E} (o : option A) (e : E) a : ok_or o e = Ok a <-> o = Some a.
Proof. destruct o; naive_solver. Qed.

Lemma ok_or_err {A E} (o : option A) (e e' : E) : ok_or o e = Err e' <-> o = None /\ e' = e.
Proof. destruct o; naive_solver. Qed.

Lemma for_each_ok {A E} (f : A -> result unit E) l :
  for_each f l = Ok tt <-> Forall (fun x => f x = Ok tt) l.
Proof.
  induction l as [|x l IH]; simpl; [split; auto|].
  rewrite bind_result_ok, Forall_cons. split.
  - intros ([] & ? & ?). naive_solver.
  - intros []. exists tt. naive_solver.
Qed.

(** The loop stops at the first element whose body fails. *)
Lemma for_each_ext {X E} (f g : X -> result unit E) l : (forall x, f x = g x) -> for_each f l = for_each g l.
Proof. intros Hfg. induction l as [|x l IH]; [done|]. cbn [for_each]. by rewrite Hfg, IH. Qed.

Lemma collect_ext {X Y E} (f g : X -> result Y E) l : (forall x, f x = g x) -> collect f l = collect g l.
Proof. intros Hfg. induction l as [|x l IH]; [done|]. cbn [collect]. by rewrite Hfg, IH. Qed.

Lemma for_each_map_err {A E F} (f : E -> F) (g : A -> result unit E) l :
  for_each (fun x => map_err f (g x)) l = map_err f (for_each g l).
Proof. induction l as [|x l IH]; [done|]. cbn. rewrite IH. by destruct (g x). Qed.

Lemma for_each_err {A E} (f : A -> result unit E) l e :
  for_each f l = Err e <->
  exists l1 x l2, l = l1 ++ x :: l2 /\ Forall (fun y => f y = Ok tt) l1 /\ f x = Err e.
Proof.
  induction l as [|x l IH]; simpl.
  - split; [done|]. intros (l1 & y & l2 & H & _). by destruct l1.
  - rewrite bind_result_err. setoid_rewrite IH. split.
    + intros [H | ([] & Hx & l1 & y & l2 & -> & H1 & H2)].
      * exists [], x, l. naive_solver.
      * exists (x :: l1), y, l2. naive_solver.
    + intros (l1 & y & l2 & Heq & H1 & H2). destruct l1 as [|z l1]; simplify_eq/=.
      * by left.
      * right. apply Forall_cons in H1 as [Hz H1]. exists tt. naive_solver.
Qed.

Lemma collect_ok {A B E} (f : A -> result B E) l ys :
  collect f l = Ok ys <-> Forall2 (fun x y => f x = Ok y) l ys.
Proof.
  revert ys. induction l as [|x l IH]; intros ys; simpl.
  - split; [by intros [= <-] | intros H; by inversion H].
  - split.
    + intros (y & Hy & (ys' & Hys & [= <-])%bind_result_ok)%bind_result_ok.
      constructor; [done | by apply IH].
    + intros H. inversion H as [|? y ? ys' Hy Hys]; subst.
      rewrite Hy; simpl. by rewrite (proj2 (IH ys') Hys).
Qed.

(** A loop over adjacent pairs that fails on the first pair out of order. *)
Section windows.
Context {A E : Type} (R : A -> A -> bool) (err : nat -> E).

Let body : nat * (A * A) -> result unit E :=
  fun '(index, (p0, p1)) => if negb (R p0 p1) then Err (err index) else Ok tt.

Lemma windows_step (f : nat * (A * A) -> result unit E) n a b l :
  for_each f (zip (seq n (length (a :: b :: l) - 1)) (zip (a :: b :: l) (tail (a :: b :: l)))) =
  (f (n, (a, b)) ?;; for_each f (zip (seq (S n) (length (b :: l) - 1)) (zip (b :: l) (tail (b :: l))))).
Proof. simpl. by rewrite Nat.sub_0_r. Qed.

Lemma windows_ok l : for_each body (windows2_enumerate l) = Ok tt <-> Sorted R l.
Proof.
  unfold windows2_enumerate.
  assert (forall n, for_each body (zip (seq n (length l - 1)) (zip l (tail l))) = Ok tt <->
    Sorted R l) as H; [|apply H].
  induction l as [|a [|b l] IH]; intros n; [split; auto using Sorted_nil|split; repeat constructor|].
  rewrite windows_step, bind_result_ok. unfold body at 1. split.
  - intros (? & HR & H). destruct (R a b) eqn:E'; [|done]. apply IH in H.
    constructor; [done|]. constructor. by rewrite E'.
  - intros H. inversion H as [|? ? Hs Hd]; subst. inversion Hd as [|? ? Hr]; subst.
    exists tt. apply Is_true_true in Hr. rewrite Hr. split; [done|]. by apply IH.
Qed.

Lemma windows_err l e :
  for_each body (windows2_enumerate l) = Err e <->
  exists i a b, l !! i = Some a /\ l !! S i = Some b /\ R a b = false /\ e = err i /\
    Sorted R (take (S i) l).
Proof.
  unfold windows2_enumerate.
  assert (forall n, for_each body (zip (seq n (length l - 1)) (zip l (tail l))) = Err e <->
    exists i a b, l !! i = Some a /\ l !! S i = Some b /\ R a b = false /\ e = err (n + i) /\
      Sorted R (take (S i) l)) as H; [|apply H].
  induction l as [|a [|b l] IH]; intros n; [split; [done|naive_solver]..|].
  rewrite windows_step, bind_result_err.
  change (body (n, (a, b))) with (if negb (R a b) then Err (err n) else Ok tt : result unit E).
  setoid_rewrite IH. clear IH. split.
  - intros [H|(? & HR & i & x & y & ? & ? & ? & ? & Hs)].
    + destruct (R a b) eqn:E'; [done|]. injection H as <-.
      exists 0, a, b. rewrite Nat.add_0_r. split_and!; try done. repeat constructor.
    + destruct (R a b) eqn:E'; [|done]. exists (S i), x, y.
      rewrite Nat.add_succ_r. split_and!; try done.
      cbn [take] in *. constructor; [done|]. constructor. by rewrite E'.
  - intros ([|i] & x & y & Hx & Hy & HR & He & Hs); simplify_eq/=.
    + left. by rewrite HR, Nat.add_0_r.
    + right. exists tt. inversion Hs as [|? ? Hs' Hd]; subst. inversion Hd as [|? ? Hr]; subst.
      apply Is_true_true in Hr. rewrite Hr. split; [done|].
      exists i, x, y. rewrite Nat.add_succ_r. done.
Qed.
End windows.

Lemma then_is_ok {B E} (r : result unit E) (k : result B E) :
  is_ok (r ?;; k) = true <-> r = Ok tt /\ is_ok k = true.
Proof. destruct r as [[]|]; naive_solver. Qed.

Lemma collect_is_ok {A B E} (f : A -> result B E) l :
  is_ok (collect f l) = true <-> Forall (fun x => is_ok (f x) = true) l.
Proof.
  induction l as [|x l IH]; simpl; [split; auto|]. rewrite Forall_cons, <- IH.
  destruct (f x); simpl; [|naive_solver]. destruct (collect f l); simpl; naive_solver.
Qed.

(* ------------------------------------------------------------------ *)
(** ** Calls on shared objects

    A trait object behind [&dyn Trait] may keep interior state ([Cell],
    [RefCell]), and one object may be reachable through several references.
    A call is therefore a function of a world [W] that holds every such object,
    and returns its result with the world it leaves. *)

Definition M (W E A : Type) : Type := W -> result A E * W.

Definition ret {W E A} (a : A) : M W E A := fun w => (Ok a, w).
Definition fail_with {W E A} (e : E) : M W E A := fun w => (Err e, w).

Definition bind {W E A B} (m : M W E A) (k : A -> M W E B) : M W E B :=
  fun w => match m w with
           | (Ok a, w') => k a w'
           | (Err e, w') => (Err e, w')
           end.

(** A computation that touches no shared object. *)
Definition lift {W E A} (r : result A E) : M W E A := fun w => (r, w).

Definition m_map_err {W E F A} (f : E -> F) (m : M W E A) : M W F A :=
  fun w => let '(r, w') := m w in (map_err f r, w').

Notation "'let!' x := e 'in' k" := (bind e (fun x => k))
  (at level 10, x pattern, e at level 100, k at level 200,
   format "'[v' 'let!'  x  :=  e  'in' '/' k ']'") : shell_scope.
Notation "e '!;;' k" := (bind e (fun _ => k))
  (at level 100, k at level 200, right associativity) : shell_scope.

Fixpoint m_for_each {W E A} (f : A -> M W E unit) (l : list A) : M W E unit :=
  match l with
  | [] => ret tt
  | x :: l => f x !;; m_for_each f l
  end.

(** [iter().map(f).collect::<Result<Vec<_>, _>>()] for an effectful [f]. *)
Fixpoint m_collect {W E A B} (f : A -> M W E B) (l : list A) : M W E (list B) :=
  match l with
  | [] => ret []
  | x :: l => let! y := f x in let! ys := m_collect f l in ret (y :: ys)
  end.

(** The sequence of worlds a successful loop goes through. *)
Inductive runs {W E A} (f : A -> M W E unit) : list A -> W -> W -> Prop :=
| runs_nil w : runs f [] w w
| runs_cons x l w w1 w2 : f x w = (Ok tt, w1) -> runs f l w1 w2 -> runs f (x :: l) w w2.

Lemma bind_ok {W E A B} (m : M W E A) (k : A -> M W E B) w b w' :
  bind m k w = (Ok b, w') <-> exists a w1, m w = (Ok a, w1) /\ k a w1 = (Ok b, w').
Proof. unfold bind. destruct (m w) as [[] ]; naive_solver. Qed.

Lemma bind_err {W E A B} (m : M W E A) (k : A -> M W E B) w e w' :
  bind m k w = (Err e, w') <->
  m w = (Err e, w') \/ exists a w1, m w = (Ok a, w1) /\ k a w1 = (Err e, w').
Proof. unfold bind. destruct (m w) as [[] ]; naive_solver. Qed.

Lemma m_for_each_ok {W E A} (f : A -> M W E unit) l w w' :
  m_for_each f l w = (Ok tt, w') <-> runs f l w w'.
Proof.
  revert w. induction l as [|x l IH]; intros w; simpl.
  - unfold ret. split; [intros [= ->]; constructor|]. by inversion 1.
  - rewrite bind_ok. setoid_rewrite IH. split.
    + intros ([] & w1 & ? & ?). by econstructor.
    + inversion 1; subst. naive_solver.
Qed.

(** The loop stops at the first element whose body fails. *)
Lemma m_for_each_err {W E A} (f : A -> M W E unit) l w e w' :
  m_for_each f l w = (Err e, w') <->
  exists l1 x l2 w1, l = l1 ++ x :: l2 /\ runs f l1 w w1 /\ f x w1 = (Err e, w').
Proof.
  revert w. induction l as [|x l IH]; intros w; simpl.
  - split; [done|]. intros (l1 & y & l2 & w1 & H & _). by destruct l1.
  - rewrite bind_err. setoid_rewrite IH. split.
    + intros [H|([] & w1 & Hx & l1 & y & l2 & w2 & -> & Hr & He)].
      * exists [], x, l, w. split_and!; [done|constructor|done].
      * exists (x :: l1), y, l2, w2. split_and!; [done|by econstructor|done].
    + intros (l1 & y & l2 & w1 & Heq & Hr & He).
      destruct l1 as [|z l1]; simplify_eq/=; inversion Hr; subst; [by left|].
      right. eexists tt, _. split; [done|]. naive_solver.
Qed.

Lemma lift_eq {W E A} (r r' : result A E) (w w' : W) :
  lift r w = (r', w') <-> r = r' /\ w = w'.
Proof. unfold lift. naive_solver. Qed.

Lemma ret_eq {W E A} (a : A) (r' : result A E) (w w' : W) :
  ret a w = (r', w') <-> Ok a = r' /\ w = w'.
Proof. unfold ret. naive_solver. Qed.

Lemma m_collect_length {W E A B} (f : A -> M W E B) l w ys w' :
  m_collect f l w = (Ok ys, w') -> length ys = length l.
Proof.
  revert ys w. induction l as [|x l IH]; intros ys w; simpl.
  - by intros [= <- <-].
  - intros (y & w1 & _ & (ys' & w2 & Hys & (Hr & ->)%ret_eq)%bind_ok)%bind_ok.
    injection Hr as <-. simpl. by rewrite (IH _ _ Hys).
Qed.

Lemma m_collect_elem {W E A B} (f : A -> M W E B) l w ys w' i x :
  m_collect f l w = (Ok ys, w') -> l !! i = Some x ->
  exists y w1 w2, ys !! i = Some y /\ f x w1 = (Ok y, w2).
Proof.
  revert ys w i. induction l as [|z l IH]; intros ys w i; [done|]. simpl.
  intros (y & w1 & Hy & (ys' & w2 & Hys & (Hr & ->)%ret_eq)%bind_ok)%bind_ok Hi.
  injection Hr as <-. destruct i as [|i]; simplify_eq/=; [by exists y, w, w1|]. by eapply IH.
Qed.

(** A collecting loop fails at its first failing element. *)
Lemma m_collect_err {W E A B} (f : A -> M W E B) l w e w' :
  m_collect f l w = (Err e, w') <->
  exists l1 x l2 ys w1, l = l1 ++ x :: l2 /\ m_collect f l1 w = (Ok ys, w1) /\ f x w1 = (Err e, w').
Proof.
  revert w. induction l as [|x l IH]; intros w; cbn [m_collect].
  { split; [done|]. intros (l1 & y & l2 & ? & ? & H & _). by destruct l1. }
  rewrite bind_err. setoid_rewrite bind_err. setoid_rewrite IH. split.
  - intros [Hx|(y & w1 & Hx & [(l1 & z & l2 & ys & w2 & -> & Hys & Hz)|(? & ? & _ & ?)])]; [| |done].
    + by exists [], x, l, [], w.
    + exists (x :: l1), z, l2, (y :: ys), w2. split_and!; [done| |done]. cbn [m_collect].
      apply bind_ok. exists y, w1. split; [done|]. apply bind_ok. by exists ys, w2.
  - intros ([|x' l1] & z & l2 & ys & w1 & Heq & Hys & Hz); injection Heq as -> ->.
    + injection Hys as _ <-. by left.
    + right. apply bind_ok in Hys as (y & w2 & Hy & (ys' & w3 & Hys & (_ & ->)%ret_eq)%bind_ok).
      exists y, w2. split; [done|]. left. by exists l1, z, l2, ys', w1.
Qed.

(** Loops over bodies that succeed in every world succeed. *)
Lemma m_collect_total {W E A B} (f : A -> M W E B) l :
  (forall x w, x ∈ l -> exists y w', f x w = (Ok y, w')) ->
  forall w, exists ys w', m_collect f l w = (Ok ys, w').
Proof.
  induction l as [|x l IH]; intros Hf w; [by eexists _, _|]. cbn [m_collect].
  destruct (Hf x w) as (y & w1 & Hy); [left|].
  destruct (IH (fun z v Hz => Hf z v (list_elem_of_further _ _ _ Hz)) w1) as (ys & w2 & Hys).
  exists (y :: ys), w2. apply bind_ok. exists y, w1. split; [done|].
  apply bind_ok. by exists ys, w2.
Qed.

Lemma runs_total {W E A} (f : A -> M W E unit) l :
  (forall x w, x ∈ l -> exists w', f x w = (Ok tt, w')) -> forall w, exists w', runs f l w w'.
Proof.
  induction l as [|x l IH]; intros Hf w; [by eexists; constructor|].
  destruct (Hf x w) as [w1 Hx]; [left|].
  destruct (IH (fun z v Hz => Hf z v (list_elem_of_further _ _ _ Hz)) w1) as [w2 Hr].
  exists w2. by econstructor.
Qed.

(** A call on one object of a larger world. *)
Definition zoom {W V E A} (get : W -> V) (set : V -> W -> W) (m : M V E A) : M W E A :=
  fun w => let '(r, v) := m (get w) in (r, set v w).

Lemma zoom_eq {W V E A} (get : W -> V) (set : V -> W -> W) (m : M V E A) w r v :
  m (get w) = (r, v) -> zoom get set m w = (r, set v w).
Proof. unfold zoom. by intros ->. Qed.

Lemma m_map_err_ok {W E F A} (f : E -> F) (m : M W E A) w a w' :
  m_map_err f m w = (Ok a, w') <-> m w = (Ok a, w').
Proof. unfold m_map_err. destruct (m w) as [[] ]; naive_solver. Qed.

Lemma m_map_err_err {W E F A} (f : E -> F) (m : M W E A) w e w' :
  m_map_err f m w = (Err e, w') <-> exists e', m w = (Err e', w') /\ e = f e'.
Proof. unfold m_map_err. destruct (m w) as [[] ]; naive_solver. Qed.

(* ------------------------------------------------------------------ *)
(** ** Decidable side conditions kept in data

    A fixed-width value is a record of its contents and a boolean fact about
    them.  [settle] replaces a proof of such a fact by [eq_refl] as soon as the
    boolean evaluates, so closed values compute to the same term whichever way
    they were built. *)

Definition settle {b : bool} (H : b = true) : b = true :=
  match b as b' return b' = true -> b' = true with
  | true => fun _ => eq_refl
  | false => fun H => H
  end H.

Lemma bool_eq_true_irrel (b : bool) (p q : b = true) : p = q.
Proof. apply Eqdep_dec.UIP_dec, bool_eq_dec. Qed.

(* ------------------------------------------------------------------ *)
(** ** Bytes *)

Definition byte_val (b : byte) : N := Byte.to_N b.

(** [v as u8]. *)
Definition byte_of_N (v : N) : byte :=
  match Byte.of_N (v mod 256) with
  | Some b => b
  | None => Byte.x00
  end.

#[export] Instance byte_eq_dec : EqDecision byte.
Proof. intros x y. destruct (Byte.byte_eq_dec x y); [by left | by right]. Defined.

Lemma byte_val_bound b : (byte_val b < 256)%N.
Proof. pose proof (Byte.to_N_bounded b). unfold byte_val. lia. Qed.

Lemma byte_of_val b : byte_of_N (byte_val b) = b.
Proof.
  unfold byte_of_N. rewrite N.mod_small by apply byte_val_bound.
  unfold byte_val. by rewrite Byte.of_to_N.
Qed.

Lemma byte_val_of v : byte_val (byte_of_N v) = (v mod 256)%N.
Proof.
  unfold byte_of_N. destruct (Byte.of_N (v mod 256)) as [b|] eqn:E.
  - by apply Byte.to_of_N in E.
  - apply Byte.of_N_None_iff in E.
    pose proof (N.mod_lt v 256 ltac:(lia)). lia.
Qed.

Lemma byte_val_inj a b : byte_val a = byte_val b -> a = b.
Proof. intros H. by rewrite <- (byte_of_val a), <- (byte_of_val b), H. Qed.

#[export] Program Instance byte_countable : Countable byte :=
  inj_countable' byte_val byte_of_N _.
Next Obligation. apply byte_of_val. Qed.

(** [usize] values are [N]; [len] is [.len()]. *)
Definition len {A} (l : list A) : N := N.of_nat (length l).

Definition usize_limit : N := 2 ^ 64.
Definition u32_max : N := 2 ^ 32 - 1.

(** [usize::checked_add] and [usize::checked_mul] on a 64-bit target. *)
Definition checked_add (a b : N) : option N :=
  if (a + b <? usize_limit)%N then Some (a + b)%N else None.
Definition checked_mul (a b : N) : option N :=
  if (a * b <? usize_limit)%N then Some (a * b)%N else None.

(** [&l[a..b]] on a range that the caller has checked. *)
Definition slice {A} (l : list A) (a b : N) : list A :=
  take (N.to_nat (b - a)) (drop (N.to_nat a) l).
Definition slice_from {A} (l : list A) (a : N) : list A := drop (N.to_nat a) l.

(** [l.get(a..b)]: [None] when the range leaves the slice. *)
Definition get_range {A} (l : list A) (a b : N) : option (list A) :=
  if (a <=? b)%N && (b <=? len l)%N then Some (slice l a b) else None.

Lemma len_app {A} (l1 l2 : list A) : len (l1 ++ l2) = (len l1 + len l2)%N.
Proof. unfold len. rewrite length_app. lia. Qed.
Lemma len_cons {A} (x : A) l : len (x :: l) = (1 + len l)%N.
Proof. unfold len. simpl. lia. Qed.
Lemma nat_le_N (n m : nat) : (N.of_nat n <= N.of_nat m)%N -> n <= m.
Proof. lia. Qed.
Lemma len_nil {A} : len (@nil A) = 0%N.
Proof. done. Qed.

(* ------------------------------------------------------------------ *)
(** ** Little- and big-endian integers *)

(** The first [n] little-endian bytes of [v] ([to_le_bytes] at width [8 n]). *)
Fixpoint le_bytes (n : nat) (v : N) : list byte :=
  match n with
  | O => []
  | S n => byte_of_N v :: le_bytes n (v / 256)
  end.

Fixpoint le_val (l : list byte) : N :=
  match l with
  | [] => 0
  | b :: l => byte_val b + 256 * le_val l
  end.

Definition be_bytes (n : nat) (v : N) : list byte := reverse (le_bytes n v).

Lemma length_le_bytes n v : length (le_bytes n v) = n.
Proof. revert v. induction n; intros; simpl; auto. Qed.

Lemma length_be_bytes n v : length (be_bytes n v) = n.
Proof. unfold be_bytes. by rewrite length_reverse, length_le_bytes. Qed.

Lemma le_val_bytes n v : le_val (le_bytes n v) = (v mod 256 ^ N.of_nat n)%N.
Proof.
  revert v. induction n as [|n IH]; intros v; simpl.
  - by rewrite N.mod_1_r.
  - rewrite IH, byte_val_of.
    replace (N.of_nat (S n)) with (N.succ (N.of_nat n)) by lia.
    rewrite N.pow_succ_r', N.Div0.mod_mul_r. lia.
Qed.

Lemma le_bytes_val l : le_bytes (length l) (le_val l) = l.
Proof.
  induction l as [|b l IH]; simpl; [done|]. f_equal.
  - apply byte_val_inj. rewrite byte_val_of.
    rewrite N.mul_comm, N.Div0.mod_add. apply N.mod_small, byte_val_bound.
  - rewrite N.mul_comm, N.div_add by lia.
    rewrite (N.div_small (byte_val b)) by apply byte_val_bound. apply IH.
Qed.

Lemma le_val_bound l : (le_val l < 256 ^ len l)%N.
Proof.
  unfold len. rewrite <- (le_bytes_val l) at 1. rewrite le_val_bytes.
  apply N.mod_lt, N.pow_nonzero. lia.
Qed.

Lemma le_bytes_inj n v v' :
  (v < 256 ^ N.of_nat n)%N -> (v' < 256 ^ N.of_nat n)%N ->
  le_bytes n v = le_bytes n v' -> v = v'.
Proof.
  intros H H' Heq%(f_equal le_val). rewrite !le_val_bytes in Heq.
  by rewrite !N.mod_small in Heq.
Qed.

Lemma be_bytes_inj n v v' :
  (v < 256 ^ N.of_nat n)%N -> (v' < 256 ^ N.of_nat n)%N ->
  be_bytes n v = be_bytes n v' -> v = v'.
Proof. intros H H' Heq%(inj reverse). by apply le_bytes_inj in Heq. Qed.

(* ------------------------------------------------------------------ *)
(** ** Unsigned integers of a fixed width ([u32], [u64]) *)

Record uint (w : N) : Type := mk_uint {
  uval : N;
  uval_ok : (uval <? 2 ^ w)%N = true
}.
Arguments mk_uint {w} _ _.
Arguments uval {w} _.
Arguments uval_ok {w} _.

Abbreviation u32 := (uint 32).
Abbreviation u64 := (uint 64).

Lemma uint_eq {w} (a b : uint w) : uval a = uval b -> a = b.
Proof.
  destruct a as [a Ha], b as [b Hb]; simpl; intros ->.
  f_equal. apply bool_eq_true_irrel.
Qed.

Lemma uval_bound {w} (a : uint w) : (uval a < 2 ^ w)%N.
Proof. apply N.ltb_lt, uval_ok. Qed.

#[export] Instance uint_eq_dec w : EqDecision (uint w).
Proof.
  intros a b. destruct (decide (uval a = uval b)) as [H|H].
  - left. by apply uint_eq.
  - right. by intros ->.
Defined.

Lemma uint_wrap_ok (w v : N) : (v mod 2 ^ w <? 2 ^ w)%N = true.
Proof. apply N.ltb_lt, N.mod_lt, N.pow_nonzero. lia. Qed.

(** [v as uW]: the low [w] bits. *)
Definition uint_wrap (w v : N) : uint w := mk_uint (v mod 2 ^ w) (settle (uint_wrap_ok w v)).

(** [uW::try_from(v)]. *)
Definition uint_try (w v : N) : option (uint w) :=
  (if (v <? 2 ^ w)%N as b return (v <? 2 ^ w)%N = b -> option (uint w)
   then fun H => Some (mk_uint v H)
   else fun _ => None) eq_refl.

Lemma uval_wrap w v : uval (uint_wrap w v) = (v mod 2 ^ w)%N.
Proof. done. Qed.

Lemma uint_wrap_val {w} (a : uint w) : uint_wrap w (uval a) = a.
Proof. apply uint_eq. simpl. apply N.mod_small, uval_bound. Qed.

Lemma uint_try_some w v a : uint_try w v = Some a <-> uval a = v /\ (v < 2 ^ w)%N.
Proof.
  unfold uint_try.
  set (P := fun b (E : (v <? 2 ^ w)%N = b) =>
    (if b as b return (v <? 2 ^ w)%N = b -> option (uint w)
     then fun H => Some (mk_uint v H) else fun _ => None) E = Some a
    <-> uval a = v /\ (v < 2 ^ w)%N).
  change (P ((v <? 2 ^ w)%N) eq_refl).
  assert (forall b E, P b E) as H; [|apply H].
  intros [] E; unfold P; clear P.
  - apply N.ltb_lt in E as E'. split.
    + intros [= <-]. done.
    + intros [? _]. f_equal. by apply uint_eq.
  - apply N.ltb_ge in E. split; [done|]. intros [_ ?]. lia.
Qed.

Lemma uint_try_none w v : uint_try w v = None <-> (2 ^ w <= v)%N.
Proof.
  destruct (uint_try w v) as [a|] eqn:E.
  - apply uint_try_some in E as [_ ?]. split; [done | lia].
  - split; [|done]. intros _. destruct (N.lt_ge_cases v (2 ^ w)) as [Hlt|]; [|done].
    assert (uint_try w v = Some (uint_wrap w v)) as H; [|congruence].
    apply uint_try_some. split; [|done]. simpl. by apply N.mod_small.
Qed.

(** [u64::saturating_add]. *)
Definition saturating_add {w} (a b : uint w) : N :=
  N.min (uval a + uval b) (2 ^ w - 1).

(* ------------------------------------------------------------------ *)
(** ** Fixed-size byte arrays ([[u8; n]]) *)

Record array (n : nat) : Type := mk_array {
  elems : list byte;
  elems_ok : (length elems =? n) = true
}.
Arguments mk_array {n} _ _.
Arguments elems {n} _.
Arguments elems_ok {n} _.

Lemma array_eq {n} (a b : array n) : elems a = elems b -> a = b.
Proof.
  destruct a as [a Ha], b as [b Hb]; simpl; intros ->.
  f_equal. apply bool_eq_true_irrel.
Qed.

Lemma elems_length {n} (a : array n) : length (elems a) = n.
Proof. apply Nat.eqb_eq, elems_ok. Qed.

Lemma elems_len {n} (a : array n) : len (elems a) = N.of_nat n.
Proof. unfold len. by rewrite elems_length. Qed.

#[export] Instance array_eq_dec n : EqDecision (array n).
Proof.
  intros a b. destruct (decide (elems a = elems b)) as [H|H].
  - left. by apply array_eq.
  - right. by intros ->.
Defined.

(** [<[u8; n]>::try_from(slice)]. *)
Definition array_try (n : nat) (l : list byte) : option (array n) :=
  (if (length l =? n) as b return (length l =? n) = b -> option (array n)
   then fun H => Some (mk_array l H)
   else fun _ => None) eq_refl.

Lemma array_try_some n l a : array_try n l = Some a <-> elems a = l.
Proof.
  unfold array_try.
  set (P := fun b (E : (length l =? n) = b) =>
    (if b as b return (length l =? n) = b -> option (array n)
     then fun H => Some (mk_array l H) else fun _ => None) E = Some a
    <-> elems a = l).
  change (P (length l =? n) eq_refl).
  assert (forall b E, P b E) as H; [|apply H].
  intros [] E; unfold P; clear P.
  - split; [by intros [= <-]|]. intros ?. f_equal. by apply array_eq.
  - apply Nat.eqb_neq in E. split; [done|].
    intros <-. by rewrite elems_length in E.
Qed.

Lemma array_try_elems {n} (a : array n) : array_try n (elems a) = Some a.
Proof. by apply array_try_some. Qed.

Lemma array_try_none n l : array_try n l = None <-> length l <> n.
Proof.
  destruct (array_try n l) as [a|] eqn:E.
  - apply array_try_some in E. split; [done|]. intros []. by rewrite <- E, elems_length.
  - split; [|done]. intros _ Hl.
    assert (array_try n l = Some (mk_array l (proj2 (Nat.eqb_eq _ _) Hl))); [|congruence].
    by apply array_try_some.
Qed.

Lemma array_decode n l :
  length l = n -> exists a : array n, elems a = l /\ array_try n l = Some a.
Proof.
  intros H. exists (mk_array l (proj2 (Nat.eqb_eq _ _) H)). split; [done|].
  by apply array_try_some.
Qed.

Lemma pad_ok (n : nat) (l : list byte) :
  (length (take n (l ++ replicate n Byte.x00)) =? n) = true.
Proof.
  apply Nat.eqb_eq. rewrite length_take, length_app, length_replicate. lia.
Qed.

(** [let mut chunk = [0; n]; chunk[..l.len()].copy_from_slice(l)], for
    [l.len() <= n]. *)
Definition padded (n : nat) (l : list byte) : array n :=
  mk_array (take n (l ++ replicate n Byte.x00)) (settle (pad_ok n l)).

(** [[0; n]]. *)
Definition zeros (n : nat) : array n := padded n [].

Lemma elems_padded n l :
  length l <= n -> elems (padded n l) = l ++ replicate (n - length l) Byte.x00.
Proof.
  intros H. simpl. rewrite take_app, take_ge by lia. f_equal.
  rewrite take_replicate. f_equal. lia.
Qed.

Lemma elems_zeros n : elems (zeros n) = replicate n Byte.x00.
Proof. unfold zeros. rewrite elems_padded by (simpl; lia). simpl. f_equal. lia. Qed.

Lemma padded_inj n l l' :
  length l = length l' -> length l <= n -> padded n l = padded n l' -> l = l'.
Proof.
  intros Hl Hn H%(f_equal elems). rewrite !elems_padded in H by lia.
  by apply app_inj_1 in H as [-> _].
Qed.

Lemma padded_full {n} (a : array n) : padded n (elems a) = a.
Proof.
  apply array_eq. rewrite elems_padded; rewrite ?elems_length; [|lia].
  by rewrite Nat.sub_diag, app_nil_r.
Qed.

#[export] Program Instance array_countable n : Countable (array n) :=
  inj_countable elems (array_try n) _.
Next Obligation. intros n a. apply array_try_elems. Qed.

Lemma array_app_inj {n} (a b : array n) (l l' : list byte) :
  elems a ++ l = elems b ++ l' -> a = b /\ l = l'.
Proof.
  intros H. apply app_inj_1 in H as [H ->]; [|by rewrite !elems_length].
  split; [by apply array_eq | done].
Qed.

(* ------------------------------------------------------------------ *)
(** ** Lexicographic order of byte strings ([Ord] for [[u8]]) *)

Fixpoint bytes_cmp (l r : list byte) : comparison :=
  match l, r with
  | [], [] => Eq
  | [], _ :: _ => Lt
  | _ :: _, [] => Gt
  | a :: l, b :: r =>
      match N.compare (byte_val a) (byte_val b) with
      | Eq => bytes_cmp l r
      | c => c
      end
  end.

Definition bytes_lt (l r : list byte) : Prop := bytes_cmp l r = Lt.
Definition is_lt (c : comparison) : bool :=
  match c with Lt => true | _ => false end.

#[export] Instance bytes_lt_dec l r : Decision (bytes_lt l r).
Proof. unfold bytes_lt. solve_decision. Defined.

Lemma is_lt_true c : is_lt c = true <-> c = Lt.
Proof. by destruct c. Qed.

Lemma bytes_cmp_eq l r : bytes_cmp l r = Eq <-> l = r.
Proof.
  revert r. induction l as [|a l IH]; intros [|b r]; simpl; try done.
  destruct (N.compare_spec (byte_val a) (byte_val b)) as [E|E|E].
  - rewrite IH. apply byte_val_inj in E as ->. naive_solver.
  - split; [done|]. intros [= -> ->]. lia.
  - split; [done|]. intros [= -> ->]. lia.
Qed.

Lemma bytes_cmp_refl l : bytes_cmp l l = Eq.
Proof. by apply bytes_cmp_eq. Qed.

Lemma bytes_cmp_antisym l r : bytes_cmp r l = CompOpp (bytes_cmp l r).
Proof.
  revert r. induction l as [|a l IH]; intros [|b r]; simpl; try done.
  rewrite (N.compare_antisym (byte_val a)), IH.
  by destruct (N.compare (byte_val a) (byte_val b)).
Qed.

#[export] Instance bytes_lt_irrefl : Irreflexive bytes_lt.
Proof. intros l H. unfold bytes_lt in H. by rewrite bytes_cmp_refl in H. Qed.

#[export] Instance bytes_lt_trans : Transitive bytes_lt.
Proof.
  unfold bytes_lt. intros l. induction l as [|a l IH]; intros [|b m] [|c r]; simpl; try done.
  destruct (N.compare_spec (byte_val a) (byte_val b)) as [E|E|E]; try done;
    destruct (N.compare_spec (byte_val b) (byte_val c)) as [E'|E'|E']; try done;
    destruct (N.compare_spec (byte_val a) (byte_val c)) as [E2|E2|E2]; try done; try lia.
  apply IH.
Qed.

#[export] Instance bytes_lt_trichotomy : Trichotomy bytes_lt.
Proof.
  intros l r. unfold bytes_lt. rewrite (bytes_cmp_antisym l r).
  destruct (bytes_cmp l r) eqn:E; [right; left | left | right; right]; try done.
  by apply bytes_cmp_eq.
Qed.

Lemma bytes_gt_lt l r : bytes_cmp l r = Gt <-> bytes_lt r l.
Proof. unfold bytes_lt. rewrite (bytes_cmp_antisym l r). by destruct (bytes_cmp l r). Qed.

(* ------------------------------------------------------------------ *)
(** ** Ranges of a byte string *)

Lemma get_range_some {A} (l : list A) a b x :
  get_range l a b = Some x <->
  exists p s, l = p ++ x ++ s /\ len p = a /\ (a + len x)%N = b.
Proof.
  unfold get_range, slice, len.
  destruct (N.leb_spec a b); destruct (N.leb_spec b (N.of_nat (length l))); simpl.
  2-4: split; [done|]; intros (p & s & -> & <- & <-); rewrite !length_app in *; lia.
  split.
  - intros [= <-]. exists (take (N.to_nat a) l), (drop (N.to_nat b) l).
    rewrite !length_take, length_drop. split_and!; [|lia|lia].
    rewrite <- (take_drop (N.to_nat a) l) at 1. f_equal.
    rewrite <- (take_drop (N.to_nat (b - a)) (drop (N.to_nat a) l)) at 1. f_equal.
    rewrite drop_drop. f_equal. lia.
  - intros (p & s & -> & <- & <-). f_equal.
    rewrite drop_app_length' by lia. by rewrite take_app_length' by lia.
Qed.

Lemma get_range_none {A} (l : list A) a b :
  get_range l a b = None <-> (b < a)%N \/ (len l < b)%N.
Proof.
  unfold get_range. destruct (N.leb_spec a b); destruct (N.leb_spec b (len l)); simpl;
    split; try done; try lia; intros; lia.
Qed.

Lemma get_range_skip {A} (p l : list A) a b :
  (len p <= a)%N -> (len p <= b)%N ->
  get_range (p ++ l) a b = get_range l (a - len p) (b - len p).
Proof.
  intros Hp Hb. apply option_eq. intros x. rewrite !get_range_some. split.
  - intros (q & s & Heq & Hq & Hx).
    apply app_eq_inv in Heq as [(k & -> & Hk)|(k & -> & Hk)].
    + rewrite len_app in Hp. assert (length k = 0) as ->%nil_length_inv by (unfold len in *; lia).
      rewrite app_nil_r in *. simpl in *. exists [], s. rewrite Hk.
      split_and!; [done| |]; rewrite ?len_nil; lia.
    + exists k, s. rewrite len_app in *. split_and!; [done|lia|lia].
  - intros (q & s & -> & Hq & Hx). exists (p ++ q), s.
    rewrite len_app, <- app_assoc. split_and!; [done|lia|lia].
Qed.

Lemma get_range_here {A} (x l : list A) b : b = len x -> get_range (x ++ l) 0 b = Some x.
Proof. intros ->. apply get_range_some. exists [], l. by rewrite len_nil. Qed.

Lemma get_range_glue {A} (l : list A) a b c x y :
  get_range l a b = Some x -> get_range l b c = Some y -> get_range l a c = Some (x ++ y).
Proof.
  rewrite !get_range_some. intros (p & s & -> & Hp & Hx) (q & t & Heq & Hq & Hy).
  exists p, t. rewrite len_app. split_and!; [|done|lia].
  rewrite (app_assoc p x s) in Heq. apply app_inj_1 in Heq as [<- ->].
  - by rewrite <- !app_assoc.
  - pose proof (len_app p x). unfold len in *. lia.
Qed.

Lemma get_range_prefix {A} (l : list A) b x :
  get_range l 0 b = Some x -> l = x ++ slice_from l b.
Proof.
  rewrite get_range_some. intros (p & s & -> & Hp & Hx).
  assert (length p = 0) as ->%nil_length_inv by (unfold len in *; lia). simpl.
  unfold slice_from. rewrite drop_app_length'; [done | unfold len in *; lia].
Qed.

Lemma slice_from_app {A} (x l : list A) b : b = len x -> slice_from (x ++ l) b = l.
Proof. intros ->. unfold slice_from, len. rewrite Nat2N.id. apply drop_app_length. Qed.

(* ------------------------------------------------------------------ *)
(** ** Automation

    The database [len] computes lengths; [inv_ok] takes apart the hypotheses
    saying how a chain of [?]s ended. *)

Create HintDb len.
#[export] Hint Rewrite @len_app @len_cons @len_nil @elems_len : len.
#[export] Hint Rewrite @length_app @length_le_bytes @length_be_bytes @elems_length
  @length_replicate @length_reverse : len.

Lemma len_le_bytes n v : len (le_bytes n v) = N.of_nat n.
Proof. unfold len. by rewrite length_le_bytes. Qed.
#[export] Hint Rewrite len_le_bytes : len.

(** Fixed-width values stay folded under [simpl]. *)
Arguments padded : simpl never.
Arguments zeros : simpl never.
Arguments uint_wrap : simpl never.
Arguments le_bytes : simpl never.
Arguments be_bytes : simpl never.

(** Equations between two explicit lists, entry by entry; unlike [injection],
    the entries are not reduced. *)
Lemma cons_eq_iff {A} (x y : A) l k : x :: l = y :: k <-> x = y /\ l = k.
Proof. naive_solver. Qed.
Ltac list_fields H := rewrite !cons_eq_iff in H.

Ltac len_lia := autorewrite with len in *; lia.

Ltac inv_ok :=
  repeat match goal with
  | H : bind_result _ _ = Ok _ |- _ =>
      let a := fresh "a" in let Ha := fresh "Ha" in
      apply bind_result_ok in H as (a & Ha & H)
  | H : map_err _ _ = Ok _ |- _ => apply map_err_ok in H
  | H : map_ok _ _ = Ok _ |- _ =>
      let a := fresh "a" in apply map_ok_ok in H as (a & H & ?)
  | H : ok_or _ _ = Ok _ |- _ => apply ok_or_ok in H
  | H : Ok _ = Ok _ |- _ => injection H as H
  | H : Err _ = Ok _ |- _ => discriminate H
  | H : Ok _ = Err _ |- _ => discriminate H
  | H : Err _ = Err _ |- _ => injection H as H
  | H : (if ?c then _ else _) = Ok _ |- _ => let E := fresh "E" in destruct c eqn:E
  end.

Ltac inv_m :=
  repeat match goal with
  | H : bind _ _ _ = (Ok _, _) |- _ =>
      let a := fresh "a" in let w := fresh "w" in let Ha := fresh "Ha" in
      apply bind_ok in H as (a & w & Ha & H)
  | H : m_map_err _ _ _ = (Ok _, _) |- _ => apply m_map_err_ok in H
  | H : lift _ _ = (_, _) |- _ =>
      let Hr := fresh "Hr" in apply lift_eq in H as [Hr ?]; subst
  | H : ret _ _ = (_, _) |- _ =>
      let Hr := fresh "Hr" in apply ret_eq in H as [Hr ?]; subst
  | H : Ok _ = Ok _ |- _ => injection H as H; subst
  | H : Err _ = Ok _ |- _ => discriminate H
  end.
