(* ===== verification/Primitives.v ===== *)
(** * shell-primitives: protocol types, errors, traits and domains

    The data of [crates/shell-primitives/src/types], [errors.rs], [traits.rs]
    and [domains.rs].  A tuple struct around one value ([U256], [ChainId],
    [TxValue], [GasPrice]) is that value; [u8] is [byte]. *)

From S2P Require Import Prelude.

(** ** types/scalars.rs *)

Definition Root : Type := array 32.
Definition Bytes32 : Type := array 32.
Definition Bytes31 : Type := array 31.
Definition Bytes4 : Type := array 4.
Definition ExecutionAddress : Type := array 20.

Definition MOCK_PROGRESSIVE_BYTE_LIST_LIMIT : N := 1048576.
Definition MOCK_PROGRESSIVE_LIST_LIMIT : N := 8192.

Definition MockProgressiveByteList : Type := list byte.
Definition MockProgressiveList (T : Type) : Type := list T.

Definition U256 : Type := array 32.
Definition ChainId : Type := U256.
Definition TxValue : Type := U256.
Definition GasPrice : Type := U256.

Record BasicFeesPerGas : Type := mk_fees {
  regular : GasPrice;
  max_priority_fee_per_gas : GasPrice;
  max_witness_priority_fee : GasPrice
}.

Definition BasicFeesPerGas_default : BasicFeesPerGas :=
  mk_fees (zeros 32) (zeros 32) (zeros 32).

(** ** types/state.rs (data) *)

Inductive StateKey : Type :=
| AccountHeader (address : ExecutionAddress)
| StorageSlot (address : ExecutionAddress) (slot : Bytes32)
| CodeChunk (address : ExecutionAddress) (chunk_index : u32)
| RawTreeKey (raw : Bytes32)
| Stem (stem : Bytes31).

Record StateWitness : Type := mk_witness {
  sw_key : StateKey;
  sw_leaf_value : MockProgressiveByteList;
  sw_proof : MockProgressiveList Bytes32
}.

Inductive WitnessProofShape : Type :=
| ReferenceEmpty
| PlaceholderCommittedNodes.

Definition WitnessProofShape_as_str (s : WitnessProofShape) : string :=
  match s with
  | ReferenceEmpty => "reference_empty"
  | PlaceholderCommittedNodes => "placeholder_committed_nodes"
  end.

Definition proof_shape (w : StateWitness) : WitnessProofShape :=
  match sw_proof w with
  | [] => ReferenceEmpty
  | _ :: _ => PlaceholderCommittedNodes
  end.

(** ** types/transactions.rs (data) *)

Record BasicTransactionPayload : Type := mk_basic {
  b_chain_id : ChainId;
  b_nonce : u64;
  b_gas_limit : u64;
  b_fees : BasicFeesPerGas;
  b_to : ExecutionAddress;
  b_value : TxValue;
  b_input : MockProgressiveByteList;
  b_access_commitment : Root
}.

Record CreateTransactionPayload : Type := mk_create {
  c_chain_id : ChainId;
  c_nonce : u64;
  c_gas_limit : u64;
  c_fees : BasicFeesPerGas;
  c_value : TxValue;
  c_initcode : MockProgressiveByteList;
  c_access_commitment : Root
}.

Record Authorization : Type := mk_authorization {
  auth_scheme_id : byte;
  auth_payload_root : Root;
  auth_signature : MockProgressiveByteList
}.

Record SigningData : Type := mk_signing_data {
  object_root : Root;
  domain_type : Bytes4
}.

Inductive TransactionPayload : Type :=
| Basic (p : BasicTransactionPayload)
| Create (p : CreateTransactionPayload).

Record TransactionPayloadSsz : Type := TransactionPayloadSsz_new {
  payload : TransactionPayload
}.

#[export] Instance TransactionPayloadSsz_from : From TransactionPayload TransactionPayloadSsz :=
  TransactionPayloadSsz_new.

Definition TAG_BASIC : byte := Byte.x00.
Definition TAG_CREATE : byte := Byte.x01.

Definition protocol_tag (p : TransactionPayloadSsz) : byte :=
  match payload p with
  | Basic _ => TAG_BASIC
  | Create _ => TAG_CREATE
  end.

Record UnsupportedPayloadVariantError : Type := mk_unsupported_payload { uv_tag : byte }.

Definition ensure_supported_tag (tag : byte) : result unit UnsupportedPayloadVariantError :=
  if decide (tag = TAG_BASIC \/ tag = TAG_CREATE) then Ok tt
  else Err (mk_unsupported_payload tag).

Record TransactionEnvelope : Type := mk_envelope {
  env_payload : TransactionPayloadSsz;
  authorizations : MockProgressiveList Authorization
}.

Definition BasicTransactionPayload_default : BasicTransactionPayload :=
  mk_basic (zeros 32) (uint_wrap 64 0) (uint_wrap 64 0) BasicFeesPerGas_default
    (zeros 20) (zeros 32) [] (zeros 32).

Definition TransactionPayloadSsz_default : TransactionPayloadSsz :=
  TransactionPayloadSsz_new (Basic BasicTransactionPayload_default).

(** The [TransactionMetadata] trait and its two implementations. *)
Class TransactionMetadata (T : Type) : Type := {
  tm_chain_id : T -> ChainId;
  tm_nonce : T -> u64;
  tm_gas_limit : T -> u64
}.

#[export] Instance Basic_metadata : TransactionMetadata BasicTransactionPayload := {
  tm_chain_id := b_chain_id;
  tm_nonce := b_nonce;
  tm_gas_limit := b_gas_limit
}.

#[export] Instance Create_metadata : TransactionMetadata CreateTransactionPayload := {
  tm_chain_id := c_chain_id;
  tm_nonce := c_nonce;
  tm_gas_limit := c_gas_limit
}.

(** ** traits.rs *)

Record ProposerCredential : Type := mk_credential {
  pc_scheme_id : byte;
  pc_public_key_material : MockProgressiveByteList
}.

Record ProposerCredentialQuery : Type := mk_query {
  q_block_root : Root;
  q_proposer_index_hint : option u64
}.

Inductive ValidationOutcome : Type := Accept | Reject | PolicyReject.

Inductive ValidationStage : Type :=
| T0 | T1 | T2 | T3 | T4 | B0 | B1 | B2 | B3 | B4 | B5.

(** ** errors.rs *)

Record MalformedSszError : Type := mk_malformed { ms_context : string }.
Record PayloadRootMismatchError : Type := mk_payload_root_mismatch {
  prm_expected : Root;
  prm_actual : Root
}.
Record SigningRootConstructionError : Type := mk_signing_root_construction {
  src_context : string
}.
Record DomainError : Type := mk_domain_error { domain_name : string }.
Record AuthorizationCountError : Type := mk_authorization_count {
  expected_at_least : N;
  ac_actual : N
}.
Record SignatureSizeExceededError : Type := mk_signature_size {
  max_bytes : N;
  actual_bytes : N
}.
Record InvalidCredentialEncodingError : Type := mk_invalid_credential {
  ic_scheme_id : byte;
  ic_context : string
}.

Inductive PrimitiveError : Type :=
| MalformedSsz (e : MalformedSszError)
| UnsupportedPayloadVariant (e : UnsupportedPayloadVariantError)
| PayloadRootMismatch (e : PayloadRootMismatchError)
| SigningRootConstruction (e : SigningRootConstructionError)
| AuthorizationCount (e : AuthorizationCountError)
| SignatureSizeExceeded (e : SignatureSizeExceededError)
| Unimplemented (what : string).

Inductive ProposerCredentialResolutionError : Type :=
| NotFound
| ResolverUnavailable
| InvalidCredentialEncoding (e : InvalidCredentialEncodingError).

(** The trait [ProposerCredentialResolver], by its one method; a resolver may keep
    state in the world [W]. *)
Definition ProposerCredentialResolver (W : Type) : Type :=
  ProposerCredentialQuery -> M W ProposerCredentialResolutionError ProposerCredential.

Definition is_consensus_invalid (e : ProposerCredentialResolutionError) : bool :=
  match e with
  | NotFound | InvalidCredentialEncoding _ => true
  | ResolverUnavailable => false
  end.

Definition PrimitiveError_network_validation_outcome (e : PrimitiveError)
    : option ValidationOutcome :=
  match e with
  | MalformedSsz _ | UnsupportedPayloadVariant _ | PayloadRootMismatch _
  | AuthorizationCount _ | SignatureSizeExceeded _ => Some Reject
  | SigningRootConstruction _ | Unimplemented _ => None
  end.

(** Shorthand for [PrimitiveError::MalformedSsz(MalformedSszError { context })]. *)
Definition malformed (context : string) : PrimitiveError :=
  MalformedSsz (mk_malformed context).

(** ** domains.rs *)

Definition DOMAIN_TYPE_WIDTH : nat := 4.
Definition DOMAIN_TX_SHELL : Bytes4 := padded 4 [Byte.x01; Byte.x00; Byte.x00; Byte.x00].
Definition DOMAIN_VALIDATOR_MESSAGE : Bytes4 :=
  padded 4 [Byte.x02; Byte.x00; Byte.x00; Byte.x00].

Inductive DomainSelector : Type := TransactionAuthorization | ValidatorMessage.

Definition DomainSelector_label (d : DomainSelector) : string :=
  match d with
  | TransactionAuthorization => "transaction-authorization"
  | ValidatorMessage => "validator-message"
  end.

Definition DomainSelector_domain_type (d : DomainSelector) : result Bytes4 DomainError :=
  Ok match d with
     | TransactionAuthorization => DOMAIN_TX_SHELL
     | ValidatorMessage => DOMAIN_VALIDATOR_MESSAGE
     end.

Definition build_signing_data (root : Root) (domain : DomainSelector)
    : result SigningData DomainError :=
  let? dt := DomainSelector_domain_type domain in
  Ok (mk_signing_data root dt).

(** ** Decidable equality ([PartialEq] of the source) *)

#[export] Instance StateKey_eq_dec : EqDecision StateKey.
Proof. solve_decision. Defined.
#[export] Instance StateWitness_eq_dec : EqDecision StateWitness.
Proof. solve_decision. Defined.
#[export] Instance BasicFeesPerGas_eq_dec : EqDecision BasicFeesPerGas.
Proof. solve_decision. Defined.
#[export] Instance Basic_eq_dec : EqDecision BasicTransactionPayload.
Proof. solve_decision. Defined.
#[export] Instance Create_eq_dec : EqDecision CreateTransactionPayload.
Proof. solve_decision. Defined.
#[export] Instance TransactionPayload_eq_dec : EqDecision TransactionPayload.
Proof. solve_decision. Defined.
#[export] Instance TransactionPayloadSsz_eq_dec : EqDecision TransactionPayloadSsz.
Proof. solve_decision. Defined.
#[export] Instance Authorization_eq_dec : EqDecision Authorization.
Proof. solve_decision. Defined.
#[export] Instance TransactionEnvelope_eq_dec : EqDecision TransactionEnvelope.
Proof. solve_decision. Defined.
#[export] Instance ValidationOutcome_eq_dec : EqDecision ValidationOutcome.
Proof. solve_decision. Defined.
#[export] Instance ValidationStage_eq_dec : EqDecision ValidationStage.
Proof. solve_decision. Defined.

Lemma ensure_supported_tag_ok p : ensure_supported_tag (protocol_tag p) = Ok tt.
Proof. unfold ensure_supported_tag, protocol_tag. destruct (payload p); by case_decide; naive_solver. Qed.
