(* ===== verification/StateKeys.v ===== *)
(** * shell-primitives: canonical state keys

    [canonicalize_execution_address], [encode_state_key] and
    [compare_state_keys] of [types/state.rs], with the facts the state backend
    relies on: encodings are self-delimiting (hence injective), and comparing
    encodings is a strict total order on keys. *)

From S2P Require Import Prelude Primitives.

Definition StateKeyBytes : Type := list byte.

(** [key[12..].copy_from_slice(addr)] into a zero [key]. *)
Definition canonicalize_execution_address (addr : ExecutionAddress) : Bytes32 :=
  padded 32 (replicate 12 Byte.x00 ++ elems addr).

Definition encode_state_key (key : StateKey) : StateKeyBytes :=
  match key with
  | AccountHeader address =>
      [Byte.x00] ++ elems (canonicalize_execution_address address)
  | StorageSlot address slot =>
      [Byte.x01] ++ elems (canonicalize_execution_address address) ++ elems slot
  | CodeChunk address chunk_index =>
      [Byte.x02] ++ elems (canonicalize_execution_address address)
        ++ be_bytes 4 (uval chunk_index)
  | RawTreeKey raw => [Byte.x03] ++ elems raw
  | Stem stem => [Byte.x04] ++ elems stem
  end.

Definition canonical_sort_key (key : StateKey) : MockProgressiveByteList :=
  encode_state_key key.

Arguments canonicalize_execution_address : simpl never.

Definition compare_state_keys (left right : StateKey) : comparison :=
  bytes_cmp (encode_state_key left) (encode_state_key right).

(** The strict order that witness and access lists must follow. *)
Definition key_lt (left right : StateKey) : Prop :=
  compare_state_keys left right = Lt.

#[export] Instance key_lt_dec l r : Decision (key_lt l r).
Proof. unfold key_lt. solve_decision. Defined.

Lemma canonicalize_inj a b :
  canonicalize_execution_address a = canonicalize_execution_address b -> a = b.
Proof.
  unfold canonicalize_execution_address. intros H%padded_inj.
  - apply app_inv_head in H. by apply array_eq.
  - by autorewrite with len.
  - autorewrite with len. lia.
Qed.

Lemma canonicalize_elems a :
  elems (canonicalize_execution_address a) = replicate 12 Byte.x00 ++ elems a.
Proof.
  unfold canonicalize_execution_address. rewrite elems_padded by (autorewrite with len; lia).
  autorewrite with len. by rewrite app_nil_r.
Qed.

Lemma chunk_index_inj (a b : u32) : be_bytes 4 (uval a) = be_bytes 4 (uval b) -> a = b.
Proof.
  intros H. apply uint_eq. apply be_bytes_inj in H; [done| |];
    change (256 ^ N.of_nat 4)%N with (2 ^ 32)%N; apply uval_bound.
Qed.

(** An encoded key ends where its tag says it does, whatever follows it. *)
Lemma encode_state_key_app_inj k k' s s' :
  encode_state_key k ++ s = encode_state_key k' ++ s' -> k = k' /\ s = s'.
Proof.
  destruct k, k'; cbn [encode_state_key app]; intros [Ht H]%cons_eq_inj; try discriminate Ht; clear Ht;
    rewrite <- ?app_assoc in H.
  all: try (apply array_app_inj in H as [Ha H]).
  all: try (apply array_app_inj in H as [Hb H]; subst).
  all: try (apply canonicalize_inj in Ha); subst; try done.
  apply app_inj_1 in H as [->%chunk_index_inj ->]; [done | by autorewrite with len].
Qed.

Lemma encode_state_key_inj k k' : encode_state_key k = encode_state_key k' -> k = k'.
Proof.
  intros H. apply (encode_state_key_app_inj k k' [] []). by rewrite !app_nil_r.
Qed.

Lemma encode_state_key_len_bound k : (len (encode_state_key k) < 256)%N.
Proof.
  unfold len. destruct k; cbn [encode_state_key app length]; autorewrite with len; lia.
Qed.

Lemma compare_state_keys_eq k k' : compare_state_keys k k' = Eq <-> k = k'.
Proof.
  unfold compare_state_keys. rewrite bytes_cmp_eq. split; [|by intros ->].
  apply encode_state_key_inj.
Qed.

Lemma key_lt_bytes k k' :
  key_lt k k' <-> bytes_lt (encode_state_key k) (encode_state_key k').
Proof. done. Qed.

#[export] Instance key_lt_irrefl : Irreflexive key_lt.
Proof. intros k H. by apply (irreflexivity bytes_lt (encode_state_key k)). Qed.
#[export] Instance key_lt_trans : Transitive key_lt.
Proof. intros a b c. unfold key_lt, compare_state_keys. apply (transitivity (R := bytes_lt)). Qed.

(** The kinds of key, in the order of the tag byte. *)
Definition key_tag (k : StateKey) : N :=
  match k with
  | AccountHeader _ => 0
  | StorageSlot _ _ => 1
  | CodeChunk _ _ => 2
  | RawTreeKey _ => 3
  | Stem _ => 4
  end.

(** The canonical byte encoding of state keys is self-delimiting: if two
    encodings followed by arbitrary bytes coincide, the keys are the same and so
    is what follows.  In particular no two keys share a leaf and no key's
    encoding is a proper prefix of another's, so a hash over concatenated keys is
    unambiguous. *)
Theorem state_key_encoding_self_delimiting k k' s s' :
  encode_state_key k ++ s = encode_state_key k' ++ s' <-> k = k' /\ s = s'.
Proof. split; [apply encode_state_key_app_inj | by intros [-> ->]]. Qed.

(** [compare_state_keys] decides a strict total order on state keys: it
    returns [Equal] exactly on equal keys, swapping the arguments swaps the
    answer, [Less] is transitive, and a key whose variant has a smaller tag
    (account header, storage slot, code chunk, raw tree key, stem) always comes
    first. *)
Theorem compare_state_keys_total_order :
  (forall k k', compare_state_keys k k' = Eq <-> k = k') /\
  (forall k k', compare_state_keys k' k = CompOpp (compare_state_keys k k')) /\
  (forall a b c, compare_state_keys a b = Lt -> compare_state_keys b c = Lt ->
     compare_state_keys a c = Lt) /\
  (forall k k', (key_tag k < key_tag k')%N -> compare_state_keys k k' = Lt).
Proof.
  split_and!.
  - apply compare_state_keys_eq.
  - intros. apply bytes_cmp_antisym.
  - intros a b c. apply (transitivity (R := key_lt)).
  - intros k k' H. destruct k, k'; simpl in H; try lia; done.
Qed.
