(* ===== verification/Codec.v ===== *)
(** * shell-primitives: the wire codec

    [codec.rs]: encoding and decoding of payloads, authorizations, the
    authorization list with its offset table, and envelopes.  A function that
    appends to [out: &mut Vec<u8>] returns the vector it leaves.  Indexing such
    as [bytes[1..]] is written with the total [slice]; each use follows the
    length check that keeps the source from panicking. *)

From S2P Require Import Prelude Primitives.

Definition BASIC_FIXED_SIZE : N := 32 + 8 + 8 + 96 + 20 + 32 + 4 + 32.
Definition CREATE_FIXED_SIZE : N := 32 + 8 + 8 + 96 + 32 + 4 + 32.
Definition AUTHORIZATION_FIXED_SIZE : N := 1 + 32 + 4.
Definition ENVELOPE_FIXED_SIZE : N := 4 + 4.

(** ** Encode *)

Definition push_u256 (bytes : array 32) (out : list byte) : list byte := out ++ elems bytes.
Definition push_u64 (v : u64) (out : list byte) : list byte := out ++ le_bytes 8 (uval v).
Definition push_u32 (v : u32) (out : list byte) : list byte := out ++ le_bytes 4 (uval v).
Definition push_address (addr : ExecutionAddress) (out : list byte) : list byte :=
  out ++ elems addr.
Definition push_fees (fees : BasicFeesPerGas) (out : list byte) : list byte :=
  push_u256 (max_witness_priority_fee fees)
    (push_u256 (max_priority_fee_per_gas fees)
      (push_u256 (regular fees) out)).

Definition encode_basic (p : BasicTransactionPayload) (out : list byte) : list byte :=
  let out := push_u256 (b_chain_id p) out in
  let out := push_u64 (b_nonce p) out in
  let out := push_u64 (b_gas_limit p) out in
  let out := push_fees (b_fees p) out in
  let out := push_address (b_to p) out in
  let out := push_u256 (b_value p) out in
  let out := push_u32 (uint_wrap 32 BASIC_FIXED_SIZE) out in
  let out := out ++ elems (b_access_commitment p) in
  out ++ b_input p.

Definition encode_create (p : CreateTransactionPayload) (out : list byte) : list byte :=
  let out := push_u256 (c_chain_id p) out in
  let out := push_u64 (c_nonce p) out in
  let out := push_u64 (c_gas_limit p) out in
  let out := push_fees (c_fees p) out in
  let out := push_u256 (c_value p) out in
  let out := push_u32 (uint_wrap 32 CREATE_FIXED_SIZE) out in
  let out := out ++ elems (c_access_commitment p) in
  out ++ c_initcode p.

Definition encode_payload (p : TransactionPayloadSsz) : result (list byte) PrimitiveError :=
  let tag := protocol_tag p in
  let out := [tag] in
  Ok match payload p with
     | Basic b => encode_basic b out
     | Create c => encode_create c out
     end.

Definition encode_authorization (a : Authorization) : result (list byte) PrimitiveError :=
  let out := [auth_scheme_id a] in
  let out := out ++ elems (auth_payload_root a) in
  let out := push_u32 (uint_wrap 32 AUTHORIZATION_FIXED_SIZE) out in
  Ok (out ++ auth_signature a).

(** The loop of [encode_authorization_list]: the offset table written so far,
    the encoded elements so far, and the offset of the next element. *)
Fixpoint encode_list_loop (auths : list Authorization)
    (out : list byte) (variable_parts : list (list byte)) (next_offset : N)
    : result (list byte * list (list byte)) PrimitiveError :=
  match auths with
  | [] => Ok (out, variable_parts)
  | a :: auths =>
      let? encoded := encode_authorization a in
      let? offset := ok_or (uint_try 32 next_offset)
        (malformed "Authorization list offset exceeds u32::MAX") in
      let out := push_u32 offset out in
      let? next_offset := ok_or (checked_add next_offset (len encoded))
        (malformed "Authorization list byte length overflowed usize") in
      encode_list_loop auths out (variable_parts ++ [encoded]) next_offset
  end.

Definition encode_authorization_list (auths : list Authorization)
    : result (list byte) PrimitiveError :=
  let? fixed_size := ok_or (checked_mul (len auths) 4)
    (malformed "Authorization list offset table overflowed usize") in
  let? (out, variable_parts) := encode_list_loop auths [] [] fixed_size in
  Ok (fold_left (fun out encoded => out ++ encoded) variable_parts out).

Definition encode_envelope (e : TransactionEnvelope) : result (list byte) PrimitiveError :=
  let? payload_bytes := encode_payload (env_payload e) in
  let? authorizations_bytes := encode_authorization_list (authorizations e) in
  let? authorizations_offset := ok_or (checked_add ENVELOPE_FIXED_SIZE (len payload_bytes))
    (malformed "TransactionEnvelope variable section overflowed usize") in
  let out := push_u32 (uint_wrap 32 ENVELOPE_FIXED_SIZE) [] in
  let? offset := ok_or (uint_try 32 authorizations_offset)
    (malformed "TransactionEnvelope authorizations offset exceeds u32::MAX") in
  let out := push_u32 offset out in
  Ok ((out ++ payload_bytes) ++ authorizations_bytes).

(** ** Low-level read helpers *)

(** [from_le_bytes] of a slice that [try_into] made [n] bytes long. *)
Definition le_uint (w : N) (s : list byte) : uint w := uint_wrap w (le_val s).

Definition read_u64 (bytes : list byte) (offset : N) : result u64 PrimitiveError :=
  ok_or (s ← get_range bytes offset (offset + 8);
         a ← array_try 8 s;
         Some (le_uint 64 (elems a)))
    (malformed "truncated u64 field").

Definition read_u32 (bytes : list byte) (offset : N) : result u32 PrimitiveError :=
  ok_or (s ← get_range bytes offset (offset + 4);
         a ← array_try 4 s;
         Some (le_uint 32 (elems a)))
    (malformed "truncated u32 offset field").

(** [arr.copy_from_slice(slice)] with a slice of the array's length. *)
Definition read_array (n : nat) (context : string) (bytes : list byte) (offset : N)
    : result (array n) PrimitiveError :=
  let? s := ok_or (get_range bytes offset (offset + N.of_nat n)) (malformed context) in
  Ok (padded n s).

Definition read_bytes32 (bytes : list byte) (offset : N) : result (array 32) PrimitiveError :=
  read_array 32 "truncated 32-byte field" bytes offset.

Definition read_address (bytes : list byte) (offset : N) : result ExecutionAddress PrimitiveError :=
  read_array 20 "truncated ExecutionAddress field" bytes offset.

Definition read_fees (bytes : list byte) (offset : N) : result BasicFeesPerGas PrimitiveError :=
  let? r := read_bytes32 bytes offset in
  let? p := read_bytes32 bytes (offset + 32) in
  let? w := read_bytes32 bytes (offset + 64) in
  Ok (mk_fees r p w).

(** ** Decode *)

Definition decode_basic (bytes : list byte) : result BasicTransactionPayload PrimitiveError :=
  if (len bytes <? BASIC_FIXED_SIZE)%N then
    Err (malformed "BasicTransactionPayload too short for fixed fields")
  else
    let? chain_id := read_bytes32 bytes 0 in
    let? nonce := read_u64 bytes 32 in
    let? gas_limit := read_u64 bytes 40 in
    let? fees := read_fees bytes 48 in
    let? to := read_address bytes 144 in
    let? value := read_bytes32 bytes 164 in
    let? input_offset := read_u32 bytes 196 in
    let? access_commitment := read_bytes32 bytes 200 in
    if negb (uval input_offset =? BASIC_FIXED_SIZE)%N then
      Err (malformed "BasicTransactionPayload: input offset must equal the fixed-part size")
    else
      Ok (mk_basic chain_id nonce gas_limit fees to value
            (slice_from bytes BASIC_FIXED_SIZE) access_commitment).

Definition decode_create (bytes : list byte) : result CreateTransactionPayload PrimitiveError :=
  if (len bytes <? CREATE_FIXED_SIZE)%N then
    Err (malformed "CreateTransactionPayload too short for fixed fields")
  else
    let? chain_id := read_bytes32 bytes 0 in
    let? nonce := read_u64 bytes 32 in
    let? gas_limit := read_u64 bytes 40 in
    let? fees := read_fees bytes 48 in
    let? value := read_bytes32 bytes 144 in
    let? initcode_offset := read_u32 bytes 176 in
    let? access_commitment := read_bytes32 bytes 180 in
    if negb (uval initcode_offset =? CREATE_FIXED_SIZE)%N then
      Err (malformed "CreateTransactionPayload: initcode offset must equal the fixed-part size")
    else
      Ok (mk_create chain_id nonce gas_limit fees value
            (slice_from bytes CREATE_FIXED_SIZE) access_commitment).

Definition decode_payload (bytes : list byte) : result TransactionPayloadSsz PrimitiveError :=
  match bytes with
  | [] => Err (malformed "TransactionPayload wire bytes must not be empty")
  | tag :: inner =>
      map_err UnsupportedPayloadVariant (ensure_supported_tag tag) ?;;
      if decide (tag = TAG_BASIC) then
        map_ok (fun p => TransactionPayloadSsz_new (Basic p)) (decode_basic inner)
      else
        map_ok (fun p => TransactionPayloadSsz_new (Create p)) (decode_create inner)
  end.

Definition decode_authorization (bytes : list byte) : result Authorization PrimitiveError :=
  if (len bytes <? AUTHORIZATION_FIXED_SIZE)%N then
    Err (malformed "Authorization too short for fixed fields")
  else
    let scheme_id := default Byte.x00 (bytes !! 0) in
    let? payload_root := read_bytes32 bytes 1 in
    let? signature_offset := read_u32 bytes 33 in
    if negb (uval signature_offset =? AUTHORIZATION_FIXED_SIZE)%N then
      Err (malformed "Authorization: signature offset must equal the fixed-part size")
    else
      Ok (mk_authorization scheme_id payload_root
            (slice_from bytes AUTHORIZATION_FIXED_SIZE)).

(** [for index in 0..count]: read and range-check each offset of the table. *)
Fixpoint read_offsets (bytes : list byte) (first_offset : N) (count : nat) (index : N)
    : result (list N) PrimitiveError :=
  match count with
  | O => Ok []
  | S count =>
      let? raw := read_u32 bytes (index * 4) in
      let offset := uval raw in
      if ((offset <? first_offset) || (len bytes <? offset))%N then
        Err (malformed
          "Authorization list element offset points outside the variable section")
      else
        let? offsets := read_offsets bytes first_offset count (index + 1) in
        Ok (offset :: offsets)
  end.

(** [for index in 0..count]: slice each element out and decode it; the element
    ends where the next one starts, the last one at the end of the bytes. *)
Fixpoint decode_elements (bytes : list byte) (offsets : list N)
    : result (list Authorization) PrimitiveError :=
  match offsets with
  | [] => Ok []
  | start :: rest =>
      let end_ := match rest with [] => len bytes | next :: _ => next end in
      if (end_ <? start)%N then
        Err (malformed "Authorization list element offsets must be monotonic")
      else
        let? a := decode_authorization (slice bytes start end_) in
        let? auths := decode_elements bytes rest in
        Ok (a :: auths)
  end.

Definition decode_authorization_list (bytes : list byte)
    : result (list Authorization) PrimitiveError :=
  match bytes with
  | [] => Ok []
  | _ :: _ =>
      let? raw := read_u32 bytes 0 in
      let first_offset := uval raw in
      if ((first_offset =? 0) || negb (first_offset mod 4 =? 0))%N then
        Err (malformed "Authorization list first offset must equal the offset-table size")
      else if (len bytes <? first_offset)%N then
        Err (malformed "Authorization list offset table extends past the available bytes")
      else
        let count := (first_offset / 4)%N in
        let? offsets := read_offsets bytes first_offset (N.to_nat count) 0 in
        decode_elements bytes offsets
  end.

Definition decode_envelope (bytes : list byte) : result TransactionEnvelope PrimitiveError :=
  if (len bytes <? ENVELOPE_FIXED_SIZE)%N then
    Err (malformed "TransactionEnvelope too short for fixed fields")
  else
    let? raw_payload := read_u32 bytes 0 in
    let? raw_auth := read_u32 bytes 4 in
    let payload_offset := uval raw_payload in
    let authorizations_offset := uval raw_auth in
    if negb (payload_offset =? ENVELOPE_FIXED_SIZE)%N then
      Err (malformed "TransactionEnvelope: payload offset must equal the fixed-part size")
    else if ((authorizations_offset <? payload_offset) || (len bytes <? authorizations_offset))%N then
      Err (malformed
        "TransactionEnvelope: authorizations offset must point into the variable section")
    else
      let? p := decode_payload (slice bytes payload_offset authorizations_offset) in
      let? auths := decode_authorization_list (slice_from bytes authorizations_offset) in
      Ok (mk_envelope p auths).

(** The wire methods of [TransactionPayloadSsz] and [TransactionEnvelope]. *)
Definition TransactionPayloadSsz_to_wire_bytes (self : TransactionPayloadSsz)
    : result MockProgressiveByteList PrimitiveError := encode_payload self.
Definition TransactionPayloadSsz_from_wire_bytes (bytes : list byte)
    : result TransactionPayloadSsz PrimitiveError := decode_payload bytes.
Definition to_wire_bytes (self : TransactionEnvelope)
    : result MockProgressiveByteList PrimitiveError := encode_envelope self.
Definition from_wire_bytes (bytes : list byte)
    : result TransactionEnvelope PrimitiveError := decode_envelope bytes.

(** ** What the readers return

    A reader succeeds exactly when the bytes at its offset are the encoding of
    the value it returns. *)

Lemma le_uint_bytes n w (v : uint w) :
  (2 ^ w = 256 ^ N.of_nat n)%N -> le_uint w (le_bytes n (uval v)) = v.
Proof.
  intros Hw. unfold le_uint. apply uint_eq. rewrite uval_wrap, le_val_bytes, <- Hw.
  rewrite N.Div0.mod_mod. apply N.mod_small, uval_bound.
Qed.

Lemma le_bytes_uint n w (a : array n) :
  (2 ^ w = 256 ^ N.of_nat n)%N -> le_bytes n (uval (le_uint w (elems a))) = elems a.
Proof.
  intros Hw. unfold le_uint. rewrite uval_wrap, Hw, N.mod_small.
  - rewrite <- (elems_length a) at 1. apply le_bytes_val.
  - pose proof (le_val_bound (elems a)) as H. by rewrite elems_len in H.
Qed.

Lemma read_uint_spec n w bytes a b (e : PrimitiveError) v :
  (2 ^ w = 256 ^ N.of_nat n)%N ->
  ok_or (s ← get_range bytes a b; x ← array_try n s; Some (le_uint w (elems x))) e
    = Ok v <-> get_range bytes a b = Some (le_bytes n (uval v)).
Proof.
  intros Hw. rewrite ok_or_ok. destruct (get_range bytes a b) as [s|]; simpl; [|done].
  split.
  - intros (x & Hx%array_try_some & [= <-])%bind_Some. subst s.
    by rewrite le_bytes_uint.
  - intros [= ->].
    destruct (array_decode n (le_bytes n (uval v))) as (x & Hx & ->).
    { apply length_le_bytes. }
    simpl. rewrite Hx. f_equal. by apply le_uint_bytes.
Qed.

Lemma read_u64_spec bytes o v :
  read_u64 bytes o = Ok v <-> get_range bytes o (o + 8) = Some (le_bytes 8 (uval v)).
Proof. by apply read_uint_spec. Qed.

Lemma read_u32_spec bytes o v :
  read_u32 bytes o = Ok v <-> get_range bytes o (o + 4) = Some (le_bytes 4 (uval v)).
Proof. by apply read_uint_spec. Qed.

Lemma read_array_spec n c bytes o a :
  read_array n c bytes o = Ok a <-> get_range bytes o (o + N.of_nat n) = Some (elems a).
Proof.
  unfold read_array. rewrite bind_result_ok. setoid_rewrite ok_or_ok. split.
  - intros (s & Hs & [= <-]). rewrite Hs. f_equal.
    apply get_range_some in Hs as (p & q & _ & _ & Hl).
    assert (length s = n) as H by (unfold len in Hl; lia).
    rewrite elems_padded by lia. by rewrite H, Nat.sub_diag, app_nil_r.
  - intros H. exists (elems a). by rewrite padded_full.
Qed.

(** Closes [get_range (p1 ++ ... ++ x ++ s) a b = Some x]. *)
Ltac range_here :=
  rewrite ?get_range_skip by len_lia;
  match goal with
  | |- get_range (_ ++ _) ?a _ = _ =>
      replace a with 0%N by len_lia; apply get_range_here; len_lia
  end.

(** Glues the ranges read one after the other. *)
Ltac range_glue :=
  repeat first [eassumption | eapply get_range_glue; [eassumption|]].

Lemma read_fees_spec bytes o f :
  read_fees bytes o = Ok f <->
  get_range bytes o (o + 96) =
    Some (elems (regular f) ++ elems (max_priority_fee_per_gas f)
            ++ elems (max_witness_priority_fee f)).
Proof.
  unfold read_fees, read_bytes32. split.
  - intros H. inv_ok. subst f. apply read_array_spec in Ha, Ha0, Ha1. simpl.
    eapply get_range_glue; [exact Ha|].
    eapply get_range_glue; [exact Ha0|].
    rewrite <- Ha1. f_equal; lia.
  - rewrite get_range_some. intros (p & s & -> & Hp & Hl). destruct f as [r m w]; simpl in *.
    rewrite <- !app_assoc.
    rewrite (proj2 (read_array_spec 32 _ _ o r)); [cbn | range_here].
    rewrite (proj2 (read_array_spec 32 _ _ (o + 32) m)); [cbn | range_here].
    by rewrite (proj2 (read_array_spec 32 _ _ (o + 64) w)); [cbn | range_here].
Qed.

(** Flat forms of the encoders. *)

Definition fees_bytes (f : BasicFeesPerGas) : list byte :=
  elems (regular f) ++ elems (max_priority_fee_per_gas f) ++ elems (max_witness_priority_fee f).

Lemma len_fees_bytes f : len (fees_bytes f) = 96%N.
Proof. unfold fees_bytes. len_lia. Qed.
#[export] Hint Rewrite len_fees_bytes : len.

Lemma encode_basic_flat p out :
  encode_basic p out =
  out ++ elems (b_chain_id p) ++ le_bytes 8 (uval (b_nonce p))
      ++ le_bytes 8 (uval (b_gas_limit p)) ++ fees_bytes (b_fees p) ++ elems (b_to p)
      ++ elems (b_value p) ++ le_bytes 4 BASIC_FIXED_SIZE
      ++ elems (b_access_commitment p) ++ b_input p.
Proof.
  unfold encode_basic, push_fees, push_u256, push_u64, push_u32, push_address, fees_bytes.
  by rewrite <- !app_assoc.
Qed.

Lemma encode_create_flat p out :
  encode_create p out =
  out ++ elems (c_chain_id p) ++ le_bytes 8 (uval (c_nonce p))
      ++ le_bytes 8 (uval (c_gas_limit p)) ++ fees_bytes (c_fees p)
      ++ elems (c_value p) ++ le_bytes 4 CREATE_FIXED_SIZE
      ++ elems (c_access_commitment p) ++ c_initcode p.
Proof.
  unfold encode_create, push_fees, push_u256, push_u64, push_u32, push_address, fees_bytes.
  by rewrite <- !app_assoc.
Qed.

(** ** Payloads: decoding inverts encoding, and only encoding *)

Lemma decode_basic_spec bytes p : decode_basic bytes = Ok p <-> bytes = encode_basic p [].
Proof.
  rewrite encode_basic_flat. cbn [app]. unfold decode_basic, read_bytes32, read_address. split.
  - intros H. inv_ok. subst p. cbn.
    apply read_array_spec in Ha, Ha3, Ha4, Ha6. apply read_u64_spec in Ha0, Ha1.
    apply read_u32_spec in Ha5. apply read_fees_spec in Ha2.
    apply negb_false_iff, N.eqb_eq in E0. rewrite E0 in Ha5.
    eassert (get_range bytes 0 BASIC_FIXED_SIZE = Some _) as Hall by range_glue.
    rewrite (get_range_prefix _ _ _ Hall) at 1. unfold fees_bytes. by rewrite <- !app_assoc.
  - intros ->. destruct p as [ci no gl fe to va inp ac]; cbn.
    match goal with |- context [(?l <? ?n)%N] => replace (l <? n)%N with false end.
    2: { symmetry. apply N.ltb_ge. unfold BASIC_FIXED_SIZE. len_lia. }
    rewrite (proj2 (read_array_spec 32 _ _ 0 ci)); [cbn | range_here].
    rewrite (proj2 (read_u64_spec _ 32 no)); [cbn | range_here].
    rewrite (proj2 (read_u64_spec _ 40 gl)); [cbn | range_here].
    rewrite (proj2 (read_fees_spec _ 48 fe)); [cbn | fold (fees_bytes fe); range_here].
    rewrite (proj2 (read_array_spec 20 _ _ 144 to)); [cbn | range_here].
    rewrite (proj2 (read_array_spec 32 _ _ 164 va)); [cbn | range_here].
    rewrite (proj2 (read_u32_spec _ 196 (uint_wrap 32 BASIC_FIXED_SIZE))); [cbn | range_here].
    rewrite (proj2 (read_array_spec 32 _ _ 200 ac)); [cbn | range_here].
    do 2 f_equal. rewrite !app_assoc. apply slice_from_app. unfold BASIC_FIXED_SIZE. len_lia.
Qed.

Lemma decode_create_spec bytes p : decode_create bytes = Ok p <-> bytes = encode_create p [].
Proof.
  rewrite encode_create_flat. cbn [app]. unfold decode_create, read_bytes32. split.
  - intros H. inv_ok. subst p. cbn.
    apply read_array_spec in Ha, Ha3, Ha5. apply read_u64_spec in Ha0, Ha1.
    apply read_u32_spec in Ha4. apply read_fees_spec in Ha2.
    apply negb_false_iff, N.eqb_eq in E0. rewrite E0 in Ha4.
    eassert (get_range bytes 0 CREATE_FIXED_SIZE = Some _) as Hall by range_glue.
    rewrite (get_range_prefix _ _ _ Hall) at 1. unfold fees_bytes. by rewrite <- !app_assoc.
  - intros ->. destruct p as [ci no gl fe va ini ac]; cbn.
    match goal with |- context [(?l <? ?n)%N] => replace (l <? n)%N with false end.
    2: { symmetry. apply N.ltb_ge. unfold CREATE_FIXED_SIZE. len_lia. }
    rewrite (proj2 (read_array_spec 32 _ _ 0 ci)); [cbn | range_here].
    rewrite (proj2 (read_u64_spec _ 32 no)); [cbn | range_here].
    rewrite (proj2 (read_u64_spec _ 40 gl)); [cbn | range_here].
    rewrite (proj2 (read_fees_spec _ 48 fe)); [cbn | fold (fees_bytes fe); range_here].
    rewrite (proj2 (read_array_spec 32 _ _ 144 va)); [cbn | range_here].
    rewrite (proj2 (read_u32_spec _ 176 (uint_wrap 32 CREATE_FIXED_SIZE))); [cbn | range_here].
    rewrite (proj2 (read_array_spec 32 _ _ 180 ac)); [cbn | range_here].
    do 2 f_equal. rewrite !app_assoc. apply slice_from_app. unfold CREATE_FIXED_SIZE. len_lia.
Qed.

Lemma encode_payload_tagged p :
  encode_payload p = Ok (protocol_tag p ::
    match payload p with Basic b => encode_basic b [] | Create c => encode_create c [] end).
Proof.
  unfold encode_payload. destruct p as [[b|c]]; simpl.
  - by rewrite !encode_basic_flat.
  - by rewrite !encode_create_flat.
Qed.

Lemma decode_payload_spec bytes p : decode_payload bytes = Ok p <-> encode_payload p = Ok bytes.
Proof.
  rewrite encode_payload_tagged. unfold decode_payload, ensure_supported_tag.
  destruct bytes as [|tag inner]; [naive_solver|].
  split.
  - destruct (decide (tag = TAG_BASIC \/ tag = TAG_CREATE)) as [Htag|]; [cbn | done].
    intros H. destruct (decide (tag = TAG_BASIC)) as [->|Ht]; inv_ok; subst p; cbn.
    + apply decode_basic_spec in H as ->. done.
    + destruct Htag as [? | ->]; [done|]. apply decode_create_spec in H as ->. done.
  - intros [= <- <-].
    destruct p as [[b|c]]; cbn -[decode_basic decode_create encode_basic encode_create].
    + by rewrite (proj2 (decode_basic_spec _ b) eq_refl).
    + by rewrite (proj2 (decode_create_spec _ c) eq_refl).
Qed.

(** ** Authorizations *)

Definition auth_bytes (a : Authorization) : list byte :=
  auth_scheme_id a :: elems (auth_payload_root a) ++ le_bytes 4 AUTHORIZATION_FIXED_SIZE
    ++ auth_signature a.

Lemma encode_authorization_flat a : encode_authorization a = Ok (auth_bytes a).
Proof.
  unfold encode_authorization, push_u32, auth_bytes. cbn [app].
  by rewrite <- !app_assoc.
Qed.

Lemma decode_authorization_spec bytes a : decode_authorization bytes = Ok a <-> bytes = auth_bytes a.
Proof.
  unfold decode_authorization, read_bytes32, auth_bytes. split.
  - intros H. inv_ok. subst a. cbn -[lookup].
    apply read_array_spec in Ha. apply read_u32_spec in Ha0.
    apply negb_false_iff, N.eqb_eq in E0. rewrite E0 in Ha0. apply N.ltb_ge in E.
    destruct bytes as [|b bytes]; [done|]. cbn.
    change (b :: bytes) with ([b] ++ bytes) in Ha, Ha0 |- *.
    assert (get_range ([b] ++ bytes) 0 1 = Some [b]) as Hb by by apply get_range_here.
    eassert (get_range ([b] ++ bytes) 0 AUTHORIZATION_FIXED_SIZE = Some _) as Hall by range_glue.
    rewrite (get_range_prefix _ _ _ Hall) at 1. by rewrite <- !app_assoc.
  - intros ->. destruct a as [s r sg]; cbn -[lookup].
    match goal with |- context [(?l <? ?n)%N] => replace (l <? n)%N with false end.
    2: { symmetry. apply N.ltb_ge. unfold AUTHORIZATION_FIXED_SIZE. len_lia. }
    change (s :: elems r ++ ?l) with ([s] ++ elems r ++ l).
    rewrite (proj2 (read_array_spec 32 _ _ 1 r)); [cbn | range_here].
    rewrite (proj2 (read_u32_spec _ 33 (uint_wrap 32 AUTHORIZATION_FIXED_SIZE))); [cbn | ].
    2: change (s :: elems r ++ ?l) with ([s] ++ elems r ++ l); range_here.
    do 2 f_equal. change (s :: elems r ++ ?l) with ([s] ++ elems r ++ l).
    rewrite !app_assoc. apply slice_from_app.
    unfold AUTHORIZATION_FIXED_SIZE. len_lia.
Qed.

(** ** The authorization list

    Its encoding is an offset table followed by the elements; [offsets_from n]
    lists the offset of each element when the first one is at [n]. *)

Fixpoint offsets_from (n : N) (auths : list Authorization) : list N :=
  match auths with
  | [] => []
  | a :: auths => n :: offsets_from (n + len (auth_bytes a)) auths
  end.

Definition table_bytes (offs : list N) : list byte := concat (le_bytes 4 <$> offs).
Definition body_bytes (auths : list Authorization) : list byte := concat (auth_bytes <$> auths).

Lemma length_offsets n auths : length (offsets_from n auths) = length auths.
Proof. revert n. induction auths; intros; simpl; auto. Qed.

Lemma table_cons o offs : table_bytes (o :: offs) = le_bytes 4 o ++ table_bytes offs.
Proof. done. Qed.

Lemma len_table offs : len (table_bytes offs) = (4 * len offs)%N.
Proof.
  induction offs as [|o offs IH]; [done|].
  rewrite table_cons, len_app, IH, len_cons, len_le_bytes. lia.
Qed.

Lemma body_cons a auths : body_bytes (a :: auths) = auth_bytes a ++ body_bytes auths.
Proof. done. Qed.

Lemma offsets_bound n auths o :
  o ∈ offsets_from n auths -> (n <= o <= n + len (body_bytes auths))%N.
Proof.
  revert n. induction auths as [|a auths IH]; intros n; simpl.
  - by intros ?%not_elem_of_nil.
  - rewrite body_cons, len_app. intros [-> | Ho]%elem_of_cons; [lia|].
    apply IH in Ho. lia.
Qed.

(** What [encode_authorization_list] needs of its input: every offset fits in a
    [u32] and the total length in a [usize]. *)
Definition encodable_list (auths : list Authorization) : Prop :=
  Forall (fun o => (o < 2 ^ 32)%N) (offsets_from (4 * len auths) auths) /\
  (4 * len auths + len (body_bytes auths) < usize_limit)%N.

Lemma encode_list_loop_spec auths out parts n out' parts' :
  encode_list_loop auths out parts n = Ok (out', parts') <->
  Forall (fun o => (o < 2 ^ 32)%N) (offsets_from n auths) /\
  (auths = [] \/ (n + len (body_bytes auths) < usize_limit)%N) /\
  out' = out ++ table_bytes (offsets_from n auths) /\ parts' = parts ++ (auth_bytes <$> auths).
Proof.
  revert out parts n. induction auths as [|a auths IH]; intros out parts n;
    cbn [encode_list_loop offsets_from].
  - rewrite Forall_nil. unfold table_bytes. rewrite fmap_nil. cbn [concat fmap list_fmap].
    rewrite !app_nil_r. naive_solver.
  - rewrite encode_authorization_flat. cbn [bind_result].
    rewrite body_cons, len_app, Forall_cons, bind_result_ok.
    setoid_rewrite ok_or_ok. setoid_rewrite bind_result_ok. setoid_rewrite ok_or_ok.
    setoid_rewrite IH. setoid_rewrite uint_try_some.
    unfold checked_add, push_u32. rewrite table_cons. split.
    + intros (o & [Ho Hlt] & n' & Hn & Hall & Hs & -> & ->). case_match eqn:Hc; [|done].
      apply N.ltb_lt in Hc. simplify_eq. rewrite <- !app_assoc.
      split_and!; [done|done| |done|done].
      right. destruct Hs as [->|?]; [unfold body_bytes; simpl; rewrite len_nil; lia | lia].
    + intros ([Hlt Hall] & [?|Hs] & -> & ->); [done|].
      exists (uint_wrap 32 n). rewrite uval_wrap, N.mod_small by done.
      split; [done|]. exists (n + len (auth_bytes a))%N.
      rewrite (proj2 (N.ltb_lt _ _)) by lia. rewrite <- !app_assoc.
      split_and!; [done|done| |done|done]. right. lia.
Qed.

Lemma fold_append (parts : list (list byte)) out :
  fold_left (fun out encoded => out ++ encoded) parts out = out ++ concat parts.
Proof.
  revert out. induction parts as [|p parts IH]; intros out; simpl.
  - by rewrite app_nil_r.
  - by rewrite IH, <- app_assoc.
Qed.

Lemma encode_authorization_list_spec auths bytes :
  encode_authorization_list auths = Ok bytes <->
  (auths = [] \/ encodable_list auths) /\
  bytes = table_bytes (offsets_from (4 * len auths) auths) ++ body_bytes auths.
Proof.
  unfold encode_authorization_list, encodable_list, checked_mul.
  rewrite (N.mul_comm (len auths)), bind_result_ok. setoid_rewrite ok_or_ok. split.
  - intros (n & Hn & H). case_match eqn:Hm; simplify_eq.
    apply bind_result_ok in H as ([out parts] & H & [= <-]).
    apply encode_list_loop_spec in H as (? & Hs & -> & ->).
    rewrite fold_append. split; [|done]. destruct Hs; [by left | by right].
  - intros [Hs ->]. exists (4 * len auths)%N.
    assert (4 * len auths < usize_limit)%N as Hm.
    { destruct Hs as [-> | [_ ?]]; [reflexivity | lia]. }
    rewrite (proj2 (N.ltb_lt _ _) Hm). split; [done|].
    eassert (encode_list_loop auths [] [] (4 * len auths) = Ok (_, _)) as ->.
    { apply encode_list_loop_spec. split_and!; [| |done|done].
      - destruct Hs as [-> | [? _]]; [constructor | done].
      - destruct Hs as [? | [_ ?]]; [by left | by right]. }
    cbn. by rewrite fold_append.
Qed.

Lemma read_offsets_spec bytes first count idx offs :
  read_offsets bytes first count idx = Ok offs <->
  length offs = count /\ Forall (fun o => (first <= o <= len bytes)%N) offs /\
  Forall (fun o => (o < 2 ^ 32)%N) offs /\
  (offs = [] \/
   get_range bytes (idx * 4) (idx * 4 + 4 * len offs) = Some (table_bytes offs)).
Proof.
  revert idx offs. induction count as [|count IH]; intros idx offs; cbn [read_offsets].
  - split.
    + intros [= <-]. split_and!; [done|constructor|constructor|by left].
    + intros (->%nil_length_inv & _). done.
  - split.
    + intros H. apply bind_result_ok in H as (raw & Hraw%read_u32_spec & H).
      destruct (_ || _)%N eqn:Hc in H; [done|]. apply orb_false_iff in Hc as [Hc1 Hc2].
      apply N.ltb_ge in Hc1, Hc2.
      apply bind_result_ok in H as (offs' & H & [= <-]).
      apply IH in H as (Hl & Hr & Hb & Ht). pose proof (uval_bound raw).
      split_and!; [by simpl; f_equal|by constructor|by constructor|]. right.
      rewrite table_cons, len_cons. destruct Ht as [-> | Ht].
      * rewrite len_nil. unfold table_bytes. cbn [concat fmap list_fmap].
        rewrite app_nil_r, <- Hraw. f_equal; lia.
      * eapply get_range_glue; [exact Hraw|].
        rewrite <- Ht. f_equal; lia.
    + intros (Hl & Hr & Hb & Ht). destruct offs as [|o offs]; [done|]. simpl in Hl.
      apply Forall_cons in Hr as [Ho Hr]. apply Forall_cons in Hb as [Ho2 Hb].
      destruct Ht as [? | Ht]; [done|]. rewrite table_cons, len_cons in Ht.
      apply get_range_some in Ht as (p & s & Hbytes & Hp & Hl').
      rewrite <- !app_assoc in Hbytes.
      rewrite (proj2 (read_u32_spec bytes (idx * 4) (uint_wrap 32 o))); cbn [bind_result].
      2: { rewrite uval_wrap, N.mod_small by done. subst bytes. range_here. }
      rewrite uval_wrap, N.mod_small by done.
      rewrite (proj2 (N.ltb_ge o first)), (proj2 (N.ltb_ge (len bytes) o)) by lia. cbn [orb].
      rewrite (proj2 (IH (idx + 1)%N offs)); [done|].
      split_and!; [lia|done|done|]. right. subst bytes.
      pose proof (len_table offs) as Hlt.
      rewrite !get_range_skip by len_lia.
      replace ((idx + 1) * 4 - len p - len (le_bytes 4 o))%N with 0%N by len_lia.
      apply get_range_here. len_lia.
Qed.

Lemma slice_glue {A} (l : list A) a b :
  (a <= b)%N -> (b <= len l)%N ->
  slice_from l a = slice l a b ++ slice_from l b /\ len (slice l a b) = (b - a)%N.
Proof.
  intros Hab Hb. unfold slice_from, slice, len in *. split.
  - rewrite <- (take_drop (N.to_nat (b - a)) (drop (N.to_nat a) l)) at 1.
    f_equal. rewrite drop_drop. f_equal. lia.
  - rewrite length_take, length_drop. lia.
Qed.

Lemma slice_from_len {A} (l : list A) : slice_from l (len l) = [].
Proof. unfold slice_from, len. rewrite Nat2N.id. by rewrite drop_all. Qed.

Lemma decode_elements_cons bytes start next rest :
  decode_elements bytes (start :: next :: rest) =
  if (next <? start)%N then
    Err (malformed "Authorization list element offsets must be monotonic")
  else
    let? a := decode_authorization (slice bytes start next) in
    let? auths := decode_elements bytes (next :: rest) in
    Ok (a :: auths).
Proof. done. Qed.

Lemma decode_elements_spec bytes start rest auths :
  Forall (fun o => (o <= len bytes)%N) (start :: rest) ->
  decode_elements bytes (start :: rest) = Ok auths <->
  start :: rest = offsets_from start auths /\ slice_from bytes start = body_bytes auths.
Proof.
  revert start auths. induction rest as [|next rest IH]; intros start auths Hall;
    apply Forall_cons in Hall as [Hs Hall].
  - cbn [decode_elements]. destruct (slice_glue bytes start (len bytes)) as [Hsl Hll]; [done|lia|].
    rewrite slice_from_len, app_nil_r in Hsl.
    rewrite (proj2 (N.ltb_ge (len bytes) start)) by lia. rewrite <- Hsl. split.
    + intros H. inv_ok. subst. apply decode_authorization_spec in Ha as ->.
      split; [done|]. unfold body_bytes. cbn. by rewrite app_nil_r.
    + intros [Ho Hb]. destruct auths as [|a [|a' auths]]; try discriminate Ho.
      unfold body_bytes in Hb. cbn [fmap list_fmap concat] in Hb. rewrite app_nil_r in Hb.
      by rewrite (proj2 (decode_authorization_spec _ a) Hb).
  - rewrite decode_elements_cons.
    apply Forall_cons in Hall as Hn. destruct Hn as [Hn _]. split.
    + intros H. destruct (next <? start)%N eqn:Hlt; [done|]. apply N.ltb_ge in Hlt.
      apply bind_result_ok in H as (a & Ha%decode_authorization_spec & H).
      apply bind_result_ok in H as (auths' & H & [= <-]).
      apply IH in H as [Ho Hb]; [|done].
      destruct (slice_glue bytes start next) as [Hsl Hll]; [done|done|].
      rewrite Ha in Hll, Hsl. cbn [offsets_from].
      replace (start + len (auth_bytes a))%N with next by lia.
      split; [by f_equal|]. by rewrite Hsl, body_cons, Hb.
    + intros [Ho Hb]. destruct auths as [|a auths]; [done|]. cbn [offsets_from] in Ho.
      injection Ho as Ho. assert (next = start + len (auth_bytes a))%N as Hnext.
      { destruct auths; [done|]. by injection Ho. }
      rewrite <- Hnext in Ho. rewrite (proj2 (N.ltb_ge next start)) by lia.
      destruct (slice_glue bytes start next) as [Hsl Hll]; [lia|done|].
      rewrite body_cons, Hsl in Hb. apply app_inj_1 in Hb as [Hb1 Hb2]; [|unfold len in *; lia].
      rewrite (proj2 (decode_authorization_spec _ a) Hb1). cbn [bind_result].
      by rewrite (proj2 (IH next auths Hall) (conj Ho Hb2)).
Qed.

Lemma decode_list_encode auths bytes :
  encode_authorization_list auths = Ok bytes -> decode_authorization_list bytes = Ok auths.
Proof.
  rewrite encode_authorization_list_spec. intros [Hs ->].
  destruct auths as [|a auths]; [done|]. destruct Hs as [? | [Hlt Htot]]; [done|].
  set (auths' := a :: auths) in *. set (n := (4 * len auths')%N) in *.
  assert (n = 4 + 4 * len auths)%N as Hn by (unfold n, auths'; rewrite len_cons; lia).
  assert (len (table_bytes (offsets_from n auths')) = n) as Htl.
  { rewrite len_table. unfold len at 1. by rewrite length_offsets. }
  set (bytes := table_bytes (offsets_from n auths') ++ body_bytes auths').
  assert (len bytes = n + len (body_bytes auths'))%N as Hlb by (unfold bytes; len_lia).
  assert (exists b bs, bytes = b :: bs) as (b & bs & Hcons).
  { destruct bytes as [|b bs]; [rewrite len_nil in Hlb; lia | eauto]. }
  unfold decode_authorization_list. rewrite Hcons, <- Hcons.
  assert (n < 2 ^ 32)%N as Hn32 by (by apply Forall_cons in Hlt as [? _]).
  rewrite (proj2 (read_u32_spec bytes 0 (uint_wrap 32 n))); cbn [bind_result].
  2: { rewrite uval_wrap, N.mod_small by done. unfold bytes, auths'. cbn [offsets_from].
       rewrite table_cons, <- app_assoc. range_here. }
  rewrite uval_wrap, N.mod_small by done.
  rewrite (proj2 (N.eqb_neq n 0)) by lia.
  replace (n mod 4 =? 0)%N with true.
  2: { symmetry. apply N.eqb_eq. unfold n. rewrite N.mul_comm. apply N.Div0.mod_mul. }
  cbn [negb orb]. rewrite (proj2 (N.ltb_ge (len bytes) n)) by lia.
  replace (n / 4)%N with (len auths') by (unfold n; rewrite N.mul_comm, N.div_mul; lia).
  rewrite (proj2 (read_offsets_spec bytes n _ 0 (offsets_from n auths'))); cbn [bind_result].
  - unfold auths' at 2. cbn [offsets_from]. apply decode_elements_spec.
    + apply Forall_forall. intros o Ho. apply (offsets_bound n auths') in Ho. lia.
    + split; [done|]. unfold bytes. by apply slice_from_app.
  - split_and!; [| |done|right].
    + rewrite length_offsets. unfold len. lia.
    + apply Forall_forall. intros o Ho. apply (offsets_bound n auths') in Ho. lia.
    + rewrite <- len_table. apply get_range_here. lia.
Qed.

Lemma encode_list_decode auths bytes :
  (len bytes < usize_limit)%N ->
  decode_authorization_list bytes = Ok auths -> encode_authorization_list auths = Ok bytes.
Proof.
  intros Hlen. unfold decode_authorization_list.
  destruct bytes as [|b bs] eqn:Hb; [intros [= <-]; done|]. rewrite <- Hb in *. clear b bs Hb.
  intros H. apply bind_result_ok in H as (raw & Hraw & H). cbn zeta in H.
  set (n := uval raw) in *.
  destruct (_ || _)%N eqn:Hc in H; [done|]. apply orb_false_iff in Hc as [Hc1 Hc2].
  apply N.eqb_neq in Hc1. apply negb_false_iff, N.eqb_eq in Hc2.
  destruct (len bytes <? n)%N eqn:Hc3; [done|]. apply N.ltb_ge in Hc3.
  apply bind_result_ok in H as (offs & Hoffs & H).
  apply read_offsets_spec in Hoffs as (Hl & Hr & Hbd & Ht).
  assert (n = 4 * len offs)%N as Hn.
  { unfold len. rewrite Hl, N2Nat.id. pose proof (N.div_mod n 4). lia. }
  destruct offs as [|o offs]; [unfold len in Hn; cbn in Hn; lia|].
  destruct Ht as [? | Ht]; [done|].
  assert (o = n) as ->.
  { apply read_u32_spec in Hraw. apply Forall_cons in Hbd as [Ho _].
    rewrite table_cons in Ht. apply get_range_some in Ht as (p & s & Hbytes & Hp & _).
    assert (length p = 0) as ->%nil_length_inv by (unfold len in *; lia).
    rewrite <- app_assoc in Hbytes. cbn in Hbytes.
    rewrite Hbytes, get_range_here in Hraw by len_lia.
    apply (inj Some), (le_bytes_inj 4) in Hraw; [done|exact Ho|exact (uval_bound raw)]. }
  apply decode_elements_spec in H as [Ho Hbody].
  2: { eapply Forall_impl; [exact Hr|]. simpl. lia. }
  assert (len auths = len (n :: offs)) as Hla by (rewrite Ho; unfold len; by rewrite length_offsets).
  rewrite <- Hla in Hn.
  apply encode_authorization_list_spec. rewrite <- Hn, <- Ho.
  replace (0 * 4 + 4 * len (n :: offs))%N with n in Ht by lia.
  assert (bytes = table_bytes (n :: offs) ++ body_bytes auths) as Hbytes.
  { rewrite <- Hbody. by apply get_range_prefix. }
  split; [|done]. right. unfold encodable_list. rewrite <- Hn, <- Ho. split; [done|].
  rewrite Hbytes, len_app, len_table, <- Hla, <- Hn in Hlen. done.
Qed.

(** ** Envelopes *)

Lemma encode_envelope_spec e bytes :
  encode_envelope e = Ok bytes <->
  exists pb ab,
    encode_payload (env_payload e) = Ok pb /\
    encode_authorization_list (authorizations e) = Ok ab /\
    (ENVELOPE_FIXED_SIZE + len pb < 2 ^ 32)%N /\
    bytes = le_bytes 4 ENVELOPE_FIXED_SIZE ++ le_bytes 4 (ENVELOPE_FIXED_SIZE + len pb) ++ pb ++ ab.
Proof.
  unfold encode_envelope, checked_add, push_u32. split.
  - intros H. apply bind_result_ok in H as (pb & Hpb & H).
    apply bind_result_ok in H as (ab & Hab & H). exists pb, ab.
    apply bind_result_ok in H as (o & Ho%ok_or_ok & H).
    case_match; [|done]. injection Ho as <-.
    apply bind_result_ok in H as (o & Ho%ok_or_ok & <-%Ok_inj).
    apply uint_try_some in Ho as [Ho ?]. rewrite Ho. rewrite <- !app_assoc. done.
  - intros (pb & ab & -> & -> & Hlt & ->). cbn [bind_result].
    rewrite (proj2 (N.ltb_lt _ _)) by (unfold usize_limit; lia). cbn [ok_or bind_result].
    rewrite (proj2 (uint_try_some _ _ (uint_wrap 32 (ENVELOPE_FIXED_SIZE + len pb)))).
    2: { rewrite uval_wrap, N.mod_small; done. }
    cbn [ok_or bind_result]. rewrite (uval_wrap 32 (_ + _)), N.mod_small by done.
    by rewrite <- !app_assoc.
Qed.

Lemma decode_envelope_encode e bytes :
  encode_envelope e = Ok bytes -> decode_envelope bytes = Ok e.
Proof.
  intros (pb & ab & Hpb & Hab & Hlt & ->)%encode_envelope_spec. unfold decode_envelope.
  set (o := (ENVELOPE_FIXED_SIZE + len pb)%N) in *.
  set (bytes := le_bytes 4 ENVELOPE_FIXED_SIZE ++ le_bytes 4 o ++ pb ++ ab).
  assert (len bytes = o + len ab)%N as Hlen by (unfold bytes, o, ENVELOPE_FIXED_SIZE; len_lia).
  rewrite (proj2 (N.ltb_ge (len bytes) ENVELOPE_FIXED_SIZE)) by (unfold o in Hlen; lia).
  rewrite (proj2 (read_u32_spec _ 0 (uint_wrap 32 ENVELOPE_FIXED_SIZE))); cbn [bind_result].
  2: { unfold bytes. change (uval _) with ENVELOPE_FIXED_SIZE. range_here. }
  rewrite (proj2 (read_u32_spec _ 4 (uint_wrap 32 o))); cbn [bind_result].
  2: { rewrite uval_wrap, N.mod_small by done. unfold bytes. range_here. }
  change (uval (uint_wrap 32 ENVELOPE_FIXED_SIZE)) with ENVELOPE_FIXED_SIZE.
  rewrite (uval_wrap 32 o), N.mod_small by done. rewrite N.eqb_refl. cbn [negb].
  rewrite (proj2 (N.ltb_ge o ENVELOPE_FIXED_SIZE)), (proj2 (N.ltb_ge (len bytes) o))
    by (unfold o in *; lia). cbn [orb].
  assert (get_range bytes ENVELOPE_FIXED_SIZE o = Some pb) as Hp.
  { unfold bytes, o, ENVELOPE_FIXED_SIZE. range_here. }
  unfold get_range in Hp. case_match; [|done]. injection Hp as ->.
  rewrite (proj2 (decode_payload_spec _ _) Hpb). cbn [bind_result].
  replace (slice_from bytes o) with ab.
  - rewrite (decode_list_encode _ _ Hab). by destruct e.
  - unfold bytes. rewrite !app_assoc. symmetry. apply slice_from_app.
    unfold o, ENVELOPE_FIXED_SIZE. len_lia.
Qed.

Lemma encode_envelope_decode e bytes :
  (len bytes < usize_limit)%N ->
  decode_envelope bytes = Ok e -> encode_envelope e = Ok bytes.
Proof.
  intros Hlen. unfold decode_envelope. intros H.
  destruct (len bytes <? ENVELOPE_FIXED_SIZE)%N eqn:E; [done|]. apply N.ltb_ge in E.
  apply bind_result_ok in H as (rp & Hrp%read_u32_spec & H).
  apply bind_result_ok in H as (ra & Hra%read_u32_spec & H). cbn zeta in H.
  destruct (negb _) eqn:E1 in H; [done|]. apply negb_false_iff, N.eqb_eq in E1.
  destruct (_ || _)%N eqn:E2 in H; [done|]. apply orb_false_iff in E2 as [E2 E3].
  apply N.ltb_ge in E2, E3. rewrite E1 in *.
  apply bind_result_ok in H as (p & Hp%decode_payload_spec & H).
  apply bind_result_ok in H as (auths & Ha & [= <-]).
  destruct (slice_glue bytes ENVELOPE_FIXED_SIZE (uval ra)) as [Hsl Hll]; [done|done|].
  apply encode_list_decode in Ha.
  2: { unfold slice_from, len in *. rewrite length_drop. lia. }
  apply encode_envelope_spec. eexists _, _. cbn. split_and!; [exact Hp|exact Ha| |].
  - rewrite Hll. pose proof (uval_bound ra). lia.
  - rewrite <- Hsl, Hll.
    replace (ENVELOPE_FIXED_SIZE + (uval ra - ENVELOPE_FIXED_SIZE))%N with (uval ra) by lia.
    rewrite app_assoc. apply get_range_prefix.
    eapply get_range_glue; [exact Hrp | exact Hra].
Qed.

(** ** Which errors the decoder reports *)

(** The two ways decoding can fail. *)
Definition decode_error (e : PrimitiveError) : Prop :=
  (exists context, e = malformed context) \/
  (exists tag, e = UnsupportedPayloadVariant (mk_unsupported_payload tag) /\
     tag <> TAG_BASIC /\ tag <> TAG_CREATE).

Lemma decode_error_malformed c : decode_error (malformed c).
Proof. left. eauto. Qed.
Create HintDb decode_err.
#[export] Hint Resolve decode_error_malformed : decode_err.

Lemma decode_error_bind {A B} (r : result A PrimitiveError) (k : A -> result B PrimitiveError) e :
  (forall e, r = Err e -> decode_error e) ->
  (forall a e, k a = Err e -> decode_error e) ->
  bind_result r k = Err e -> decode_error e.
Proof. intros Hr Hk [H | (a & _ & H)]%bind_result_err; eauto. Qed.

Lemma decode_error_ok_or {A} (o : option A) c e :
  ok_or o (malformed c) = Err e -> decode_error e.
Proof. intros [_ ->]%ok_or_err. apply decode_error_malformed. Qed.

(** Walks down a decoder, closing every early return. *)
Ltac decode_errors :=
  repeat match goal with
  | |- forall _, _ => intro
  | H : Ok _ = Err _ |- _ => discriminate H
  | H : Err _ = Err _ |- _ => injection H as <-
  | H : bind_result _ _ = Err _ |- _ => revert H; apply decode_error_bind
  | H : ok_or _ _ = Err _ |- _ => revert H; apply decode_error_ok_or
  | H : map_ok _ _ = Err _ |- _ => apply map_ok_err in H
  | H : (if ?c then _ else _) = Err _ |- _ => destruct c
  | |- decode_error (malformed _) => apply decode_error_malformed
  end; eauto with decode_err.

Lemma read_u32_err b o e : read_u32 b o = Err e -> decode_error e.
Proof. unfold read_u32. apply decode_error_ok_or. Qed.
Lemma read_u64_err b o e : read_u64 b o = Err e -> decode_error e.
Proof. unfold read_u64. apply decode_error_ok_or. Qed.
Lemma read_array_err n c b o e : read_array n c b o = Err e -> decode_error e.
Proof. unfold read_array. decode_errors. Qed.
#[export] Hint Resolve read_u32_err read_u64_err read_array_err : decode_err.

Lemma decode_basic_err b e : decode_basic b = Err e -> decode_error e.
Proof. unfold decode_basic, read_fees, read_bytes32, read_address. decode_errors. Qed.
Lemma decode_create_err b e : decode_create b = Err e -> decode_error e.
Proof. unfold decode_create, read_fees, read_bytes32. decode_errors. Qed.
Lemma decode_authorization_err b e : decode_authorization b = Err e -> decode_error e.
Proof. unfold decode_authorization, read_bytes32. decode_errors. Qed.
#[export] Hint Resolve decode_basic_err decode_create_err decode_authorization_err : decode_err.

Lemma decode_payload_err b e : decode_payload b = Err e -> decode_error e.
Proof.
  unfold decode_payload, ensure_supported_tag. destruct b as [|tag inner]; [decode_errors|].
  case_decide as Ht; cbn; [decode_errors|].
  intros [= <-]. right. exists tag. naive_solver.
Qed.

Lemma read_offsets_err b f n i e : read_offsets b f n i = Err e -> decode_error e.
Proof. revert i e. induction n; cbn [read_offsets]; decode_errors. Qed.
Lemma decode_elements_err b offs e : decode_elements b offs = Err e -> decode_error e.
Proof. revert e. induction offs; cbn [decode_elements]; decode_errors. Qed.
#[export] Hint Resolve decode_payload_err read_offsets_err decode_elements_err : decode_err.

Lemma decode_list_err b e : decode_authorization_list b = Err e -> decode_error e.
Proof. unfold decode_authorization_list. destruct b; decode_errors. Qed.
#[export] Hint Resolve decode_list_err : decode_err.

Lemma decode_envelope_err b e : decode_envelope b = Err e -> decode_error e.
Proof. unfold decode_envelope. decode_errors. Qed.

(** ** Theorems *)

(** C26: The payload codec is a bijection between payloads and the wires it
    accepts: every payload encodes, and a byte string decodes to a payload exactly
    when it is that payload's encoding.  So decoding inverts encoding, and no
    payload has a second accepted wire form. *)
Theorem payload_codec_bijective :
  (forall p, exists bytes, encode_payload p = Ok bytes) /\
  (forall bytes p, decode_payload bytes = Ok p <-> encode_payload p = Ok bytes).
Proof.
  split.
  - intros p. rewrite encode_payload_tagged. eauto.
  - apply decode_payload_spec.
Qed.

(** C10: The envelope codec is canonical: on any byte string a 64-bit target can
    hold, [decode_envelope] yields an envelope exactly when the string is what
    [encode_envelope] produces for it.  Offset tables therefore admit no
    reordering, overlap, gap or trailing bytes, and an envelope cannot be
    re-encoded into a different accepted wire form. *)
Theorem envelope_codec_canonical bytes e :
  (len bytes < usize_limit)%N ->
  decode_envelope bytes = Ok e <-> encode_envelope e = Ok bytes.
Proof.
  intros Hlen. split; [by apply encode_envelope_decode | apply decode_envelope_encode].
Qed.

Definition sample_envelope : TransactionEnvelope :=
  mk_envelope TransactionPayloadSsz_default
    [mk_authorization Byte.x01 (zeros 32) [Byte.x11; Byte.x22];
     mk_authorization Byte.x02 (zeros 32) [Byte.x33; Byte.x44; Byte.x55]].

Definition sample_wire : list byte :=
  match encode_envelope sample_envelope with Ok b => b | Err _ => [] end.

Lemma envelope_codec_canonical_witness :
  len sample_wire = 328%N /\ decode_envelope sample_wire = Ok sample_envelope.
Proof.
  split; [by vm_compute|].
  apply (envelope_codec_canonical sample_wire sample_envelope); by vm_compute.
Defined.

(** When encoding an envelope fails: exactly when the payload pushes the
    authorization offset past [u32::MAX], or some authorization's offset does not
    fit in a [u32] (the total then also has to fit in a [usize]).  No other
    envelope is refused. *)
Theorem encode_envelope_bounds e pb :
  encode_payload (env_payload e) = Ok pb ->
  (exists bytes, encode_envelope e = Ok bytes) <->
  (ENVELOPE_FIXED_SIZE + len pb < 2 ^ 32)%N /\
  (authorizations e = [] \/ encodable_list (authorizations e)).
Proof.
  intros Hpb. setoid_rewrite encode_envelope_spec. split.
  - intros (bytes & pb' & ab & Hpb' & Hab & Hlt & _).
    apply encode_authorization_list_spec in Hab as [Hab _].
    rewrite Hpb in Hpb'. by apply Ok_inj in Hpb' as <-.
  - intros [Hlt Hab]. do 3 eexists. split_and!; [exact Hpb| |exact Hlt|reflexivity].
    by apply encode_authorization_list_spec.
Qed.

Lemma encode_envelope_bounds_witness :
  exists bytes, encode_envelope sample_envelope = Ok bytes.
Proof.
  apply (encode_envelope_bounds sample_envelope
           (match encode_payload (env_payload sample_envelope) with Ok b => b | Err _ => [] end)).
  - by vm_compute.
  - split; [by vm_compute|]. right. split.
    + repeat constructor.
    + by vm_compute.
Defined.

(** Every byte string [decode_envelope] refuses is refused with
    [MalformedSsz], or with [UnsupportedPayloadVariant] naming a tag that is
    neither 0 nor 1; both classify as a network [Reject], so a decode failure is
    never mistaken for a local fault. *)
Theorem decode_envelope_errors_reject bytes err :
  decode_envelope bytes = Err err ->
  ((exists context, err = malformed context) \/
   (exists tag, err = UnsupportedPayloadVariant (mk_unsupported_payload tag) /\
      tag <> TAG_BASIC /\ tag <> TAG_CREATE)) /\
  PrimitiveError_network_validation_outcome err = Some Reject.
Proof.
  intros H%decode_envelope_err. split; [exact H|].
  destruct H as [(c & ->)|(t & -> & _)]; done.
Qed.

Lemma decode_envelope_errors_reject_witness :
  PrimitiveError_network_validation_outcome
    (malformed "TransactionEnvelope too short for fixed fields") = Some Reject.
Proof.
  apply (decode_envelope_errors_reject [Byte.x08]). by vm_compute.
Defined.
