(* ===== verification/Hash.v ===== *)
(** * The SHA-256 boundary

    SHA-256 comes from the [sha2] crate, which is not part of the repository; it
    is a parameter of the model.  The hasher is used as
    [Sha256::new()], some [update]s and [finalize()], which by the crate's
    contract digests the concatenation of the updates: that is [sha256] of the
    concatenation.

    Binding theorems ("equal roots, equal objects") cannot assume that SHA-256
    is injective, which no 32-byte digest is.  They assume instead that it has no
    collision among the byte strings the two computations actually feed to it,
    listed by a [_queries] function beside each hashing function. *)

From S2P Require Import Prelude Primitives.

Class Sha256 : Type := sha256 : list byte -> array 32.

(** Membership of the parts of a query list. *)
Lemma queries_cons {A} (x : A) l Q : x :: l ⊆ Q <-> x ∈ Q /\ l ⊆ Q.
Proof. set_solver. Qed.
Lemma queries_app {A} (l r Q : list A) : l ++ r ⊆ Q <-> l ⊆ Q /\ r ⊆ Q.
Proof. set_solver. Qed.

Lemma queries_l {A} (l r : list A) : l ⊆ l ++ r.
Proof. set_solver. Qed.
Lemma queries_r {A} (l r : list A) : r ⊆ l ++ r.
Proof. set_solver. Qed.

Create HintDb queries.
#[export] Hint Rewrite @queries_cons @queries_app : queries.

Section collisions.
Context `{SHA : Sha256}.

Definition collision_free (Q : list (list byte)) : Prop :=
  forall x y, x ∈ Q -> y ∈ Q -> sha256 x = sha256 y -> x = y.

(** Executable form, which hashes every query once. *)
Definition collision_free_b (Q : list (list byte)) : bool :=
  let D := (fun q => (sha256 q, q)) <$> Q in
  forallb (fun p => forallb (fun p' =>
    negb (bool_decide (p.1 = p'.1)) || bool_decide (p.2 = p'.2)) D) D.

Lemma collision_free_b_ok Q : collision_free_b Q = true -> collision_free Q.
Proof.
  unfold collision_free_b. rewrite forallb_forall. intros HQ x y Hx Hy Heq.
  assert (forall q, q ∈ Q -> In (sha256 q, q) ((fun q => (sha256 q, q)) <$> Q)) as Hin.
  { intros q Hq. apply list_elem_of_In, list_elem_of_fmap. eauto. }
  specialize (HQ _ (Hin x Hx)). rewrite forallb_forall in HQ.
  specialize (HQ _ (Hin y Hy)). simpl in HQ.
  rewrite Heq, bool_decide_eq_true_2 in HQ by done. by apply bool_decide_eq_true_1 in HQ.
Qed.

Lemma collision_free_sub Q Q' : Q ⊆ Q' -> collision_free Q' -> collision_free Q.
Proof. intros Hs H' x y Hx Hy. apply H'; by apply Hs. Qed.

(** Two digests whose preimages are among the queries. *)
Lemma collision_free_eq Q x y :
  collision_free Q -> x ∈ Q -> y ∈ Q -> sha256 x = sha256 y -> x = y.
Proof. eauto. Qed.
End collisions.
