(* ===== verification/Sha256.v ===== *)
(** * A concrete SHA-256

    The hash is a parameter of every component (see [Hash]).  This file holds the
    function of FIPS 180-4, on 32-bit words kept as [N], so that witnesses and
    test vectors evaluate the model on the digests the program really computes.
    No theorem of a component depends on it. *)

From S2P Require Import Prelude Primitives Hash.

Module Fips180.

Open Scope N_scope.

Definition w32 (x : N) : N := N.land x 0xffffffff.
Definition add32 (x y : N) : N := w32 (x + y).
Definition rotr (n x : N) : N := N.lor (N.shiftr x n) (w32 (N.shiftl x (32 - n))).

Definition Ch (x y z : N) : N := N.lxor (N.land x y) (N.land (N.lxor x 0xffffffff) z).
Definition Maj (x y z : N) : N := N.lxor (N.lxor (N.land x y) (N.land x z)) (N.land y z).
Definition Sigma0 (x : N) : N := N.lxor (N.lxor (rotr 2 x) (rotr 13 x)) (rotr 22 x).
Definition Sigma1 (x : N) : N := N.lxor (N.lxor (rotr 6 x) (rotr 11 x)) (rotr 25 x).
Definition sigma0 (x : N) : N := N.lxor (N.lxor (rotr 7 x) (rotr 18 x)) (N.shiftr x 3).
Definition sigma1 (x : N) : N := N.lxor (N.lxor (rotr 17 x) (rotr 19 x)) (N.shiftr x 10).

(** The constants are the leading 32 fractional bits of roots of the first primes:
    cube roots of 64 of them for the rounds, square roots of 8 for the initial state. *)
Definition first_primes : list N :=
  Eval vm_compute in
    filter (fun p => forallb (fun d => negb (p mod d =? 0)) (N.of_nat <$> seq 2 (N.to_nat p - 2)))
      (N.of_nat <$> seq 2 310).

(** Greatest [r] below [acc + 2^bits] with [r^3 <= n]. *)
Fixpoint cube_root (bits : nat) (acc n : N) : N :=
  match bits with
  | O => acc
  | S bits =>
      let candidate := acc + 2 ^ N.of_nat bits in
      cube_root bits (if candidate * candidate * candidate <=? n then candidate else acc) n
  end.

Definition round_constants : list N :=
  Eval vm_compute in (fun p => w32 (cube_root 36 0 (p * 2 ^ 96))) <$> first_primes.

Record regs : Type := mk_regs { ra : N; rb : N; rc : N; rd : N; re : N; rf : N; rg : N; rh : N }.

Definition initial : regs :=
  Eval vm_compute in
    match (fun p => w32 (N.sqrt (p * 2 ^ 64))) <$> take 8 first_primes with
    | [a; b; c; d; e; f; g; h] => mk_regs a b c d e f g h
    | _ => mk_regs 0 0 0 0 0 0 0 0
    end.

(** The message schedule, as a 16-word window that slides one word per round. *)
Definition next_word (window : list N) : N :=
  match window with
  | [w0; w1; _; _; _; _; _; _; _; w9; _; _; _; _; w14; _] =>
      add32 (add32 (sigma1 w14) w9) (add32 (sigma0 w1) w0)
  | _ => 0
  end.

Definition round (s : regs) (k w : N) : regs :=
  let t1 := w32 (rh s + Sigma1 (re s) + Ch (re s) (rf s) (rg s) + k + w) in
  let t2 := w32 (Sigma0 (ra s) + Maj (ra s) (rb s) (rc s)) in
  mk_regs (add32 t1 t2) (ra s) (rb s) (rc s) (add32 (rd s) t1) (re s) (rf s) (rg s).

Fixpoint rounds (ks : list N) (window : list N) (s : regs) : regs :=
  match ks, window with
  | k :: ks, w :: rest => rounds ks (rest ++ [next_word window]) (round s k w)
  | _, _ => s
  end.

Definition compress (h : regs) (block : list N) : regs :=
  let s := rounds round_constants block h in
  mk_regs (add32 (ra h) (ra s)) (add32 (rb h) (rb s)) (add32 (rc h) (rc s))
    (add32 (rd h) (rd s)) (add32 (re h) (re s)) (add32 (rf h) (rf s))
    (add32 (rg h) (rg s)) (add32 (rh h) (rh s)).

(** Big-endian words of a byte string whose length is a multiple of four. *)
Fixpoint words (l : list byte) : list N :=
  match l with
  | a :: b :: c :: d :: l =>
      (16777216 * byte_val a + 65536 * byte_val b + 256 * byte_val c + byte_val d) :: words l
  | _ => []
  end.

Definition pad (msg : list byte) : list byte :=
  let n := length msg in
  msg ++ [Byte.x80] ++ replicate ((119 - n mod 64) mod 64)%nat Byte.x00
    ++ be_bytes 8 (8 * N.of_nat n).

Fixpoint blocks (fuel : nat) (ws : list N) (h : regs) : regs :=
  match fuel, ws with
  | S fuel, _ :: _ => blocks fuel (drop 16 ws) (compress h (take 16 ws))
  | _, _ => h
  end.

Definition digest (msg : list byte) : list byte :=
  let ws := words (pad msg) in
  let h := blocks (length ws) ws initial in
  concat (be_bytes 4 <$> [ra h; rb h; rc h; rd h; re h; rf h; rg h; rh h]).

Definition hash (msg : list byte) : array 32 := padded 32 (digest msg).

End Fips180.

(** The instance is not exported: a witness that wants it names it. *)
Definition sha2 : Sha256 := Fips180.hash.

(** A cheap digest for witnesses that hash hundreds of strings and only need the
    collision-freeness of a given list, which [collision_free_b] evaluates. *)
Definition poly_hash : Sha256 := fun msg =>
  padded 32 (le_bytes 4 (foldl (fun h b => N.land (257 * h + byte_val b + 1) 0xffffffff) 0%N msg)).

(** The vectors of FIPS 180-4 for one and for two blocks. *)
Example sha2_abc :
  le_val (reverse (elems (Fips180.hash (byte_of_N <$> [0x61; 0x62; 0x63]%N)))) =
  0xba7816bf8f01cfea414140de5dae2223b00361a396177a9cb410ff61f20015ad%N.
Proof. vm_compute. reflexivity. Qed.

Example sha2_empty :
  le_val (reverse (elems (Fips180.hash []))) =
  0xe3b0c44298fc1c149afbf4c8996fb92427ae41e4649b934ca495991b7852b855%N.
Proof. vm_compute. reflexivity. Qed.

Example sha2_two_blocks :
  le_val (reverse (elems (Fips180.hash (replicate 64 Byte.x61)))) =
  0xffe054fe7ae0cb6dc65c3af9b61d5209f439851db43d0ba5997337df154668eb%N.
Proof. vm_compute. reflexivity. Qed.

(** ** SHA-256 with a table

    Hashing one payload asks for the roots of all-zero trees hundreds of times
    ([zero_hash] starts from the leaves on each call).  For evaluating large examples,
    the same function with those answers in a table. *)

(** The strings hashed for all-zero trees of increasing depth, with their digests. *)
Fixpoint zero_chain (n : nat) (node : list byte) : list (list byte * list byte) :=
  match n with
  | O => []
  | S n => let d := Fips180.digest (node ++ node) in (node ++ node, d) :: zero_chain n d
  end.

Definition zero_table : list (list byte * list byte) :=
  Eval vm_compute in zero_chain 20 (replicate 32 Byte.x00).

Fixpoint table_digest (table : list (list byte * list byte)) (msg : list byte) : list byte :=
  match table with
  | [] => Fips180.digest msg
  | (m, d) :: table => if decide (m = msg) then d else table_digest table msg
  end.

Definition sha2_table : Sha256 := fun msg => padded 32 (table_digest zero_table msg).

Lemma table_digest_correct table msg :
  Forall (fun entry => Fips180.digest entry.1 = entry.2) table -> table_digest table msg = Fips180.digest msg.
Proof.
  induction 1 as [|[m d] table Hd _ IH]; [done|]. cbn [table_digest]. case_decide as Hm; [|exact IH].
  symmetry. rewrite <- Hm. exact Hd.
Qed.

Lemma zero_table_correct : Forall (fun entry => Fips180.digest entry.1 = entry.2) zero_table.
Proof. repeat (apply Forall_cons; split; [vm_compute; reflexivity|]). apply Forall_nil_2. Qed.

(** The table changes no digest. *)
Lemma sha2_table_correct (msg : list byte) : sha2_table msg = sha2 msg.
Proof.
  change (padded 32 (table_digest zero_table msg) = padded 32 (Fips180.digest msg)).
  by rewrite (table_digest_correct _ _ zero_table_correct).
Qed.
