(* ===== verification/OrdMap.v ===== *)
(** * Ordered maps

    [BTreeMap<StateKeyBytes, V>]: the map is its list of entries in increasing key
    order.  [om_insert] keeps the order and replaces the value of a key that is
    present, [om_get] is lookup, and the two range queries are those of the state
    backend: [range(..k).next_back()] and [range((Excluded(k), Unbounded)).next()].
    The lemmas relate every operation to the finite map [om_to_map]. *)

From S2P Require Import Prelude.

Abbreviation omap V := (list (list byte * V)) (only parsing).

Section omap.
Context {V : Type}.
Implicit Types (m : omap V) (k : list byte) (v : V).

Fixpoint om_insert (k : list byte) (v : V) (m : omap V) : omap V :=
  match m with
  | [] => [(k, v)]
  | (k', v') :: m' =>
      match bytes_cmp k k' with
      | Lt => (k, v) :: m
      | Eq => (k, v) :: m'
      | Gt => (k', v') :: om_insert k v m'
      end
  end.

Fixpoint om_get (k : list byte) (m : omap V) : option V :=
  match m with
  | [] => None
  | (k', v') :: m' =>
      match bytes_cmp k k' with
      | Lt => None
      | Eq => Some v'
      | Gt => om_get k m'
      end
  end.

(** [range(..k).next_back()]. *)
Definition om_below (k : list byte) (m : omap V) : option (list byte * V) :=
  last (filter (fun p => bytes_lt p.1 k) m).

(** [range((Excluded(k), Unbounded)).next()]. *)
Definition om_above (k : list byte) (m : omap V) : option (list byte * V) :=
  head (filter (fun p => bytes_lt k p.1) m).

Inductive om_sorted : omap V -> Prop :=
| om_sorted_nil : om_sorted []
| om_sorted_cons k v m :
    Forall (fun p => bytes_lt k p.1) m -> om_sorted m -> om_sorted ((k, v) :: m).

Definition om_to_map (m : omap V) : gmap (list byte) V := list_to_map m.

(** ** Order *)

Lemma om_sorted_inv k v m :
  om_sorted ((k, v) :: m) -> Forall (fun p => bytes_lt k p.1) m /\ om_sorted m.
Proof. inversion 1. auto. Qed.

Lemma om_insert_above k0 k v m :
  bytes_lt k0 k -> Forall (fun p => bytes_lt k0 p.1) m ->
  Forall (fun p => bytes_lt k0 p.1) (om_insert k v m).
Proof.
  intros Hk Hm. induction Hm as [|[k' v'] m Hp Hm IH]; simpl in *; [by repeat constructor|].
  destruct (bytes_cmp k k') eqn:E; repeat (constructor; simpl; auto).
Qed.

Lemma om_insert_sorted k v m : om_sorted m -> om_sorted (om_insert k v m).
Proof.
  induction 1 as [|k' v' m Hm Hs IH]; simpl; [by repeat constructor|].
  destruct (bytes_cmp k k') eqn:E.
  - apply bytes_cmp_eq in E as ->. by constructor.
  - constructor; [|by constructor]. constructor; [done|].
    eapply Forall_impl; [exact Hm|]. intros p Hp. by etrans.
  - apply bytes_gt_lt in E. constructor; [by apply om_insert_above|done].
Qed.

(** ** Lookup *)

Lemma om_get_above k m : Forall (fun p => bytes_lt k p.1) m -> om_get k m = None.
Proof.
  intros H. destruct H as [|[k' v'] m Hp _]; [done|]. simpl in *. unfold bytes_lt in Hp.
  by rewrite Hp.
Qed.

Lemma om_lookup k m : om_sorted m -> om_to_map m !! k = om_get k m.
Proof.
  induction 1 as [|k' v' m Hm Hs IH]; simpl; [done|]. unfold om_to_map in *. simpl.
  destruct (bytes_cmp k k') eqn:E.
  - apply bytes_cmp_eq in E as ->. by simplify_map_eq.
  - rewrite lookup_insert_ne by (intros ->; by rewrite bytes_cmp_refl in E).
    rewrite IH. apply om_get_above. eapply Forall_impl; [exact Hm|]. intros p Hp. by etrans.
  - rewrite lookup_insert_ne by (intros ->; by rewrite bytes_cmp_refl in E). done.
Qed.

Lemma om_get_insert k k' v m :
  om_sorted m -> om_get k (om_insert k' v m) = if decide (k = k') then Some v else om_get k m.
Proof.
  induction 1 as [|k0 v0 m Hm Hs IH]; simpl.
  { destruct (bytes_cmp k k') eqn:E; case_decide; subst; try done;
      try (by rewrite bytes_cmp_refl in E). by apply bytes_cmp_eq in E. }
  destruct (bytes_cmp k' k0) eqn:E; simpl.
  - apply bytes_cmp_eq in E as ->. destruct (bytes_cmp k k0) eqn:E'; case_decide; subst; try done;
      try (by rewrite bytes_cmp_refl in E'). by apply bytes_cmp_eq in E'.
  - destruct (bytes_cmp k k') eqn:E'; case_decide; subst; try (by rewrite bytes_cmp_refl in E');
      try done; try (by apply bytes_cmp_eq in E').
    by rewrite (transitivity (R := bytes_lt) E' E).
  - destruct (bytes_cmp k k0) eqn:E'; case_decide; subst; try congruence; done.
Qed.

Lemma om_insert_to_map k v m :
  om_sorted m -> om_to_map (om_insert k v m) = <[k := v]> (om_to_map m).
Proof.
  intros Hs. apply map_eq. intros i. rewrite om_lookup, om_get_insert by auto using om_insert_sorted.
  case_decide as Hd; subst; [by rewrite lookup_insert, decide_True|].
  by rewrite lookup_insert_ne, om_lookup by done.
Qed.

Lemma om_get_elem k v m : om_sorted m -> om_get k m = Some v <-> (k, v) ∈ m.
Proof.
  induction 1 as [|k0 v0 m Hm Hs IH]; simpl; [set_solver|].
  rewrite elem_of_cons. destruct (bytes_cmp k k0) eqn:E.
  - apply bytes_cmp_eq in E as ->. split; [naive_solver|]. intros [?|Hin]; [naive_solver|].
    rewrite Forall_forall in Hm. apply Hm in Hin. by apply (irreflexivity bytes_lt) in Hin.
  - split; [done|]. intros [?|Hin].
    + simplify_eq. by rewrite bytes_cmp_refl in E.
    + rewrite Forall_forall in Hm. apply Hm in Hin. simpl in Hin.
      assert (bytes_lt k k) as Hbad by (by etrans). by apply (irreflexivity bytes_lt) in Hbad.
  - rewrite IH. split; [auto|]. intros [?|?]; [|done]. simplify_eq.
    by rewrite bytes_cmp_refl in E.
Qed.

(** ** Neighbours *)

Lemma om_below_spec k m p : om_below k m = Some p -> p ∈ m /\ bytes_lt p.1 k.
Proof.
  unfold om_below. intros H%last_Some_elem_of. apply list_elem_of_filter in H. naive_solver.
Qed.

Lemma om_above_spec k m p : om_above k m = Some p -> p ∈ m /\ bytes_lt k p.1.
Proof.
  unfold om_above. intros H%head_Some_elem_of. apply list_elem_of_filter in H. naive_solver.
Qed.

(** No entry lies strictly between a key and its neighbours. *)
Lemma om_below_max k m p q :
  om_sorted m -> om_below k m = Some p -> q ∈ m -> bytes_lt q.1 k -> q = p \/ bytes_lt q.1 p.1.
Proof.
  unfold om_below. induction 1 as [|k0 v0 m Hm Hs IH]; [done|]. rewrite filter_cons.
  case_decide as Hd; simpl in Hd; rewrite elem_of_cons.
  - rewrite last_cons. destruct (last (filter _ m)) as [p'|] eqn:Hlast.
    + intros [= <-] [->|Hq] Hqk; [right|by apply IH].
      apply last_Some_elem_of, list_elem_of_filter in Hlast as [_ Hin].
      rewrite Forall_forall in Hm. by apply Hm in Hin.
    + intros [= <-] [->|Hq] Hqk; [by left|]. exfalso.
      apply last_None in Hlast.
      assert (q ∈ filter (fun p => bytes_lt p.1 k) m) as Hbad by (by apply list_elem_of_filter).
      rewrite Hlast in Hbad. set_solver.
  - intros Hp [->|Hq] Hqk; [done|by apply IH].
Qed.

Lemma om_above_min k m p q :
  om_sorted m -> om_above k m = Some p -> q ∈ m -> bytes_lt k q.1 -> q = p \/ bytes_lt p.1 q.1.
Proof.
  unfold om_above. induction 1 as [|k0 v0 m Hm Hs IH]; [done|]. rewrite filter_cons.
  case_decide as Hd; simpl in Hd; rewrite elem_of_cons; simpl.
  - intros [= <-] [->|Hq] _; [by left|]. right. rewrite Forall_forall in Hm. by apply Hm in Hq.
  - intros Hp [->|Hq] Hqk; [done|by apply IH].
Qed.

(** ** Extensionality: the entry list is determined by the map *)

Lemma om_sorted_ext m1 m2 :
  om_sorted m1 -> om_sorted m2 -> (forall p, p ∈ m1 <-> p ∈ m2) -> m1 = m2.
Proof.
  intros H1. revert m2. induction H1 as [|k v m1 Hm Hs IH]; intros m2 H2 Heq.
  - destruct m2 as [|p m2]; [done|]. assert (p ∈ []) by (apply Heq; left). set_solver.
  - destruct H2 as [|k' v' m2 Hm' Hs']; [exfalso; assert ((k, v) ∈ []) by (apply Heq; left); set_solver|].
    rewrite Forall_forall in Hm, Hm'.
    assert (k = k' /\ v = v') as [-> ->].
    { assert ((k, v) ∈ (k', v') :: m2) as [?|Ha]%elem_of_cons by (apply Heq; left); [naive_solver|].
      assert ((k', v') ∈ (k, v) :: m1) as [?|Hb]%elem_of_cons by (apply Heq; left); [naive_solver|].
      apply Hm' in Ha. apply Hm in Hb. simpl in *.
      assert (bytes_lt k k) as Hbad by (by etrans). by apply (irreflexivity bytes_lt) in Hbad. }
    f_equal. apply IH; [done|]. intros p. split; intros Hp.
    + assert (p ∈ (k', v') :: m2) as [->|?]%elem_of_cons by (apply Heq; by right); [|done].
      apply Hm in Hp. by apply (irreflexivity bytes_lt) in Hp.
    + assert (p ∈ (k', v') :: m1) as [->|?]%elem_of_cons by (apply Heq; by right); [|done].
      apply Hm' in Hp. by apply (irreflexivity bytes_lt) in Hp.
Qed.

End omap.
