(* ===== verification/Ssz.v ===== *)
(** * shell-primitives: SSZ roots

    [ssz.rs]: Merkleization against a virtual zero-padded tree, the field-level
    [htr_*] helpers and the [CanonicalSsz] implementations, with the
    [ProtocolObject] roots of [types/transactions.rs].

    [merkleize] recurses on [limit], which it halves at each level; the model
    recurses on the binary representation of [limit], so no fuel is needed.  The
    two [debug_assert!]s are absent from release builds, which [merkleize]
    models; [merkleize_debug] keeps them. *)

From S2P Require Import Prelude Primitives Codec Hash Sha256.

Section ssz.
Context `{SHA : Sha256}.

(** ** SHA-256 and Merkle helpers *)

Definition sha256_pair (left right : Bytes32) : Bytes32 := sha256 (elems left ++ elems right).

Fixpoint zero_hash (depth : nat) : Bytes32 :=
  match depth with
  | O => zeros 32
  | S depth => let h := zero_hash depth in sha256_pair h h
  end.

(** [usize::trailing_zeros] of a nonzero value. *)
Fixpoint trailing_zeros (p : positive) : nat :=
  match p with
  | xO p => S (trailing_zeros p)
  | _ => O
  end.

Fixpoint merkleize_pos (chunks : list Bytes32) (limit : positive) : Bytes32 :=
  match limit with
  | xH => default (zeros 32) (head chunks)
  | xO half | xI half =>
      let left := merkleize_pos (take (N.to_nat (N.min (len chunks) (Npos half))) chunks) half in
      let right :=
        if (Npos half <? len chunks)%N
        then merkleize_pos (drop (Pos.to_nat half) chunks) half
        else zero_hash (trailing_zeros half) in
      sha256_pair left right
  end.

Definition merkleize (chunks : list Bytes32) (limit : N) : Bytes32 :=
  match limit with
  | N0 => zeros 32
  | Npos p => merkleize_pos chunks p
  end.

(** A debug build evaluates both assertions at every call; [None] is a panic. *)
Fixpoint is_power_of_two (limit : positive) : bool :=
  match limit with
  | xH => true
  | xO limit => is_power_of_two limit
  | xI _ => false
  end.

Fixpoint merkleize_debug_pos (chunks : list Bytes32) (limit : positive) : option Bytes32 :=
  if is_power_of_two limit && (len chunks <=? Npos limit)%N then
    match limit with
    | xH => Some (default (zeros 32) (head chunks))
    | xO half | xI half =>
        left ← merkleize_debug_pos (take (N.to_nat (N.min (len chunks) (Npos half))) chunks) half;
        right ← (if (Npos half <? len chunks)%N
                 then merkleize_debug_pos (drop (Pos.to_nat half) chunks) half
                 else Some (zero_hash (trailing_zeros half)));
        Some (sha256_pair left right)
    end
  else None.

Definition merkleize_debug (chunks : list Bytes32) (limit : N) : option Bytes32 :=
  match limit with
  | N0 => if (len chunks <=? 0)%N then Some (zeros 32) else None
  | Npos p => merkleize_debug_pos chunks p
  end.

(** [num_chunks] chunks of 32 bytes, the last one zero-padded. *)
Definition pack_bytes (bytes : list byte) : list Bytes32 :=
  match bytes with
  | [] => []
  | _ :: _ =>
      let num_chunks := (length bytes + 31) / 32 in
      (fun i => let start := i * 32 in
                let end_ := Nat.min (start + 32) (length bytes) in
                padded 32 (take (end_ - start) (drop start bytes)))
        <$> seq 0 num_chunks
  end.

(** [length as u64] wraps; [len_chunk[..8]] holds its little-endian bytes. *)
Definition len_chunk (length : N) : Bytes32 := padded 32 (le_bytes 8 (length mod 2 ^ 64)).

Definition mix_in_length (root : Bytes32) (length : N) : Bytes32 :=
  sha256_pair root (len_chunk length).

Definition selector_chunk (selector : byte) : Bytes32 := padded 32 [selector].

Definition mix_in_selector (root : Bytes32) (selector : byte) : Bytes32 :=
  sha256_pair root (selector_chunk selector).

(** ** Field-level hash_tree_root helpers *)

Definition htr_u64 (v : u64) : Bytes32 := padded 32 (le_bytes 8 (uval v)).

Definition htr_u256 (bytes : U256) : Bytes32 := bytes.

Definition htr_address (addr : ExecutionAddress) : Bytes32 := padded 32 (elems addr).

Definition htr_fees (fees : BasicFeesPerGas) : Bytes32 :=
  let f1 := htr_u256 (regular fees) in
  let f2 := htr_u256 (max_priority_fee_per_gas fees) in
  let f3 := htr_u256 (max_witness_priority_fee fees) in
  merkleize [f1; f2; f3; zeros 32] 4.

Definition CHUNK_LIMIT : N := MOCK_PROGRESSIVE_BYTE_LIST_LIMIT / 32.

Definition htr_byte_list (bytes : list byte) : Bytes32 :=
  let chunks := pack_bytes bytes in
  let tree_root := merkleize chunks CHUNK_LIMIT in
  mix_in_length tree_root (len bytes).

Definition basic_fields (p : BasicTransactionPayload) : list Bytes32 :=
  let f1 := htr_u256 (b_chain_id p) in
  let f2 := htr_u64 (b_nonce p) in
  let f3 := htr_u64 (b_gas_limit p) in
  let f4 := htr_fees (b_fees p) in
  let f5 := htr_address (b_to p) in
  let f6 := htr_u256 (b_value p) in
  let f7 := htr_byte_list (b_input p) in
  let f8 := b_access_commitment p in
  [f1; f2; f3; f4; f5; f6; f7; f8].

Definition htr_basic_payload (p : BasicTransactionPayload) : Bytes32 :=
  merkleize (basic_fields p) 8.

Definition create_fields (p : CreateTransactionPayload) : list Bytes32 :=
  let f1 := htr_u256 (c_chain_id p) in
  let f2 := htr_u64 (c_nonce p) in
  let f3 := htr_u64 (c_gas_limit p) in
  let f4 := htr_fees (c_fees p) in
  let f5 := htr_u256 (c_value p) in
  let f6 := htr_byte_list (c_initcode p) in
  let f7 := c_access_commitment p in
  [f1; f2; f3; f4; f5; f6; f7; zeros 32].

Definition htr_create_payload (p : CreateTransactionPayload) : Bytes32 :=
  merkleize (create_fields p) 8.

Definition authorization_fields (a : Authorization) : list Bytes32 :=
  let scheme_chunk := padded 32 [auth_scheme_id a] in
  let payload_root := auth_payload_root a in
  let signature_root := htr_byte_list (auth_signature a) in
  [scheme_chunk; payload_root; signature_root; zeros 32].

Definition htr_authorization (a : Authorization) : Bytes32 :=
  merkleize (authorization_fields a) 4.

Definition htr_authorization_list (auths : list Authorization) : Bytes32 :=
  let roots := htr_authorization <$> auths in
  let tree_root := merkleize roots MOCK_PROGRESSIVE_LIST_LIMIT in
  mix_in_length tree_root (len auths).

(** ** The CanonicalSsz trait and its implementations *)

Class CanonicalSsz (T : Type) : Type := {
  encode_ssz : T -> result (list byte) PrimitiveError;
  hash_tree_root : T -> result Root PrimitiveError
}.

(** [ssz::encode]; [ssz::hash_tree_root] is the method itself. *)
Definition encode `{CanonicalSsz T} (value : T) : result (list byte) PrimitiveError := encode_ssz value.

Definition payload_inner_root (p : TransactionPayload) : Bytes32 * byte :=
  match p with
  | Basic b => (htr_basic_payload b, TAG_BASIC)
  | Create c => (htr_create_payload c, TAG_CREATE)
  end.

Definition payload_hash_tree_root (p : TransactionPayloadSsz) : result Root PrimitiveError :=
  let '(inner_root, tag) := payload_inner_root (payload p) in
  Ok (mix_in_selector inner_root tag).

#[export] Instance TransactionPayloadSsz_ssz : CanonicalSsz TransactionPayloadSsz := {
  encode_ssz := encode_payload;
  hash_tree_root := payload_hash_tree_root
}.

Definition envelope_hash_tree_root (e : TransactionEnvelope) : result Root PrimitiveError :=
  let? payload_root := hash_tree_root (env_payload e) in
  let authorizations_root := htr_authorization_list (authorizations e) in
  Ok (merkleize [payload_root; authorizations_root] 2).

#[export] Instance TransactionEnvelope_ssz : CanonicalSsz TransactionEnvelope := {
  encode_ssz := encode_envelope;
  hash_tree_root := envelope_hash_tree_root
}.

Definition signing_data_encode (s : SigningData) : result (list byte) PrimitiveError :=
  Ok (elems (object_root s) ++ elems (domain_type s)).

Definition signing_data_hash_tree_root (s : SigningData) : result Root PrimitiveError :=
  let f1 := object_root s in
  let f2 := padded 32 (elems (domain_type s)) in
  Ok (merkleize [f1; f2] 2).

#[export] Instance SigningData_ssz : CanonicalSsz SigningData := {
  encode_ssz := signing_data_encode;
  hash_tree_root := signing_data_hash_tree_root
}.

Definition signing_root (s : SigningData) : result Root PrimitiveError := hash_tree_root s.

(** [TransactionEnvelope::payload_root] and the [ProtocolObject] roots. *)
Definition payload_root (e : TransactionEnvelope) : result Root PrimitiveError :=
  hash_tree_root (env_payload e).

Class ProtocolObject (T : Type) : Type := canonical_root : T -> result Root PrimitiveError.

#[export] Instance TransactionPayloadSsz_object : ProtocolObject TransactionPayloadSsz :=
  hash_tree_root.
#[export] Instance TransactionEnvelope_object : ProtocolObject TransactionEnvelope :=
  hash_tree_root.
#[export] Instance SigningData_object : ProtocolObject SigningData := hash_tree_root.

(** The roots are total: the model names their values. *)
Definition payload_root_of (p : TransactionPayloadSsz) : Root :=
  mix_in_selector (payload_inner_root (payload p)).1 (payload_inner_root (payload p)).2.
Definition envelope_root_of (e : TransactionEnvelope) : Root :=
  merkleize [payload_root_of (env_payload e); htr_authorization_list (authorizations e)] 2.
Definition signing_root_of (s : SigningData) : Root :=
  merkleize [object_root s; padded 32 (elems (domain_type s))] 2.

Lemma payload_root_total e : payload_root e = Ok (payload_root_of (env_payload e)).
Proof. unfold payload_root. cbn. unfold payload_hash_tree_root, payload_root_of. by destruct (payload_inner_root _). Qed.

Lemma payload_hash_tree_root_total p : hash_tree_root p = Ok (payload_root_of p).
Proof. cbn. unfold payload_hash_tree_root, payload_root_of. by destruct (payload_inner_root _). Qed.

Lemma envelope_root_total (e : TransactionEnvelope) : canonical_root e = Ok (envelope_root_of e).
Proof.
  unfold canonical_root, TransactionEnvelope_object. cbn [hash_tree_root TransactionEnvelope_ssz].
  unfold envelope_hash_tree_root. by rewrite payload_hash_tree_root_total.
Qed.

Lemma signing_root_total s : signing_root s = Ok (signing_root_of s).
Proof. done. Qed.

(** ** Reference definition: hash the padded leaves layer by layer *)

Fixpoint hash_layer (layer : list Bytes32) : list Bytes32 :=
  match layer with
  | a :: b :: layer => sha256_pair a b :: hash_layer layer
  | _ => []
  end.

Fixpoint tree_root (depth : nat) (layer : list Bytes32) : Bytes32 :=
  match depth with
  | O => default (zeros 32) (head layer)
  | S depth => tree_root depth (hash_layer layer)
  end.

(** The leaves of a virtual tree of depth [depth]: the chunks, then zero chunks. *)
Definition padded_leaves (depth : nat) (chunks : list Bytes32) : list Bytes32 :=
  chunks ++ replicate (2 ^ depth - length chunks) (zeros 32).

(** ** The byte strings hashed for an object *)

Fixpoint merkle_queries_pos (chunks : list Bytes32) (limit : positive) : list (list byte) :=
  match limit with
  | xH => []
  | xO half | xI half =>
      let l := take (N.to_nat (N.min (len chunks) (Npos half))) chunks in
      let r := drop (Pos.to_nat half) chunks in
      let right := if (Npos half <? len chunks)%N then merkleize_pos r half
                   else zero_hash (trailing_zeros half) in
      (elems (merkleize_pos l half) ++ elems right)
        :: merkle_queries_pos l half
        ++ (if (Npos half <? len chunks)%N then merkle_queries_pos r half else [])
  end.

Definition merkle_queries (chunks : list Bytes32) (limit : N) : list (list byte) :=
  match limit with
  | N0 => []
  | Npos p => merkle_queries_pos chunks p
  end.

Definition byte_list_queries (bytes : list byte) : list (list byte) :=
  let chunks := pack_bytes bytes in
  (elems (merkleize chunks CHUNK_LIMIT) ++ elems (len_chunk (len bytes)))
    :: merkle_queries chunks CHUNK_LIMIT.

Definition fees_fields (f : BasicFeesPerGas) : list Bytes32 :=
  [regular f; max_priority_fee_per_gas f; max_witness_priority_fee f; zeros 32].

Definition payload_queries (p : TransactionPayloadSsz) : list (list byte) :=
  (elems (payload_inner_root (payload p)).1
     ++ elems (selector_chunk (payload_inner_root (payload p)).2))
  :: match payload p with
     | Basic b => merkle_queries (basic_fields b) 8 ++ merkle_queries (fees_fields (b_fees b)) 4
                    ++ byte_list_queries (b_input b)
     | Create c => merkle_queries (create_fields c) 8 ++ merkle_queries (fees_fields (c_fees c)) 4
                    ++ byte_list_queries (c_initcode c)
     end.

Definition authorization_queries (a : Authorization) : list (list byte) :=
  merkle_queries (authorization_fields a) 4 ++ byte_list_queries (auth_signature a).

Definition authorization_list_queries (auths : list Authorization) : list (list byte) :=
  let roots := htr_authorization <$> auths in
  (elems (merkleize roots MOCK_PROGRESSIVE_LIST_LIMIT) ++ elems (len_chunk (len auths)))
    :: merkle_queries roots MOCK_PROGRESSIVE_LIST_LIMIT
    ++ concat (authorization_queries <$> auths).

Definition envelope_queries (e : TransactionEnvelope) : list (list byte) :=
  (elems (payload_root_of (env_payload e)) ++ elems (htr_authorization_list (authorizations e)))
    :: payload_queries (env_payload e) ++ authorization_list_queries (authorizations e).

Definition signing_queries (s : SigningData) : list (list byte) :=
  [elems (object_root s) ++ elems (padded 32 (elems (domain_type s)))].

(** The list limits of the type declarations, which only the roots rely on. *)
Definition payload_data (p : TransactionPayloadSsz) : MockProgressiveByteList :=
  match payload p with
  | Basic b => b_input b
  | Create c => c_initcode c
  end.

Definition payload_within_limits (p : TransactionPayloadSsz) : Prop :=
  (len (payload_data p) <= MOCK_PROGRESSIVE_BYTE_LIST_LIMIT)%N.

Definition envelope_within_limits (e : TransactionEnvelope) : Prop :=
  payload_within_limits (env_payload e) /\
  (len (authorizations e) <= MOCK_PROGRESSIVE_LIST_LIMIT)%N /\
  Forall (fun a => len (auth_signature a) <= MOCK_PROGRESSIVE_BYTE_LIST_LIMIT)%N (authorizations e).

(** ** Merkleization *)

Fixpoint pow2 (d : nat) : positive :=
  match d with
  | O => xH
  | S d => xO (pow2 d)
  end.

Lemma pow2_nat d : Pos.to_nat (pow2 d) = 2 ^ d.
Proof. induction d; simpl; [done|]. rewrite Pos2Nat.inj_xO. lia. Qed.

Lemma pow2_N d : Npos (pow2 d) = (2 ^ N.of_nat d)%N.
Proof.
  induction d as [|d IH]; [done|]. rewrite Nat2N.inj_succ, N.pow_succ_r', <- IH. done.
Qed.

Lemma pow2_trailing d : trailing_zeros (pow2 d) = d.
Proof. induction d; simpl; auto. Qed.

(** The two halves of the recursion, with the boundary arithmetic done. *)
Lemma merkleize_step chunks half :
  merkleize_pos chunks (xO half) =
  sha256_pair (merkleize_pos (take (Pos.to_nat half) chunks) half)
    (if decide (Pos.to_nat half < length chunks)
     then merkleize_pos (drop (Pos.to_nat half) chunks) half
     else zero_hash (trailing_zeros half)).
Proof.
  cbn [merkleize_pos]. f_equal.
  - f_equal. destruct (decide (length chunks <= Pos.to_nat half)).
    + rewrite !take_ge; [done| |]; unfold len; lia.
    + f_equal. unfold len. lia.
  - destruct (N.ltb_spec (Npos half) (len chunks)); case_decide; unfold len in *; done || lia.
Qed.

Lemma merkle_queries_step chunks half :
  let l := take (Pos.to_nat half) chunks in
  let r := drop (Pos.to_nat half) chunks in
  merkle_queries_pos chunks (xO half) =
  (elems (merkleize_pos l half)
     ++ elems (if decide (Pos.to_nat half < length chunks) then merkleize_pos r half
               else zero_hash (trailing_zeros half)))
    :: merkle_queries_pos l half
    ++ (if decide (Pos.to_nat half < length chunks) then merkle_queries_pos r half else []).
Proof.
  intros l r. cbn [merkle_queries_pos].
  assert (take (N.to_nat (N.min (len chunks) (Npos half))) chunks = l) as ->.
  { subst l. destruct (decide (length chunks <= Pos.to_nat half)).
    + rewrite !take_ge; [done| |]; unfold len; lia.
    + f_equal. unfold len. lia. }
  destruct (N.ltb_spec (Npos half) (len chunks)); case_decide; unfold len in *; done || lia.
Qed.

Lemma hash_layer_app l r :
  Nat.Even (length l) -> hash_layer (l ++ r) = hash_layer l ++ hash_layer r.
Proof.
  intros [k Hk]. revert l Hk. induction k as [|k IH]; intros [|a [|b l]] Hk; simpl in *; try lia.
  - done.
  - f_equal. apply IH. lia.
Qed.

Lemma length_hash_layer l k : length l = 2 * k -> length (hash_layer l) = k.
Proof.
  revert l. induction k as [|k IH]; intros [|a [|b l]] Hk; simpl in *; try lia.
  f_equal. apply IH. lia.
Qed.

Lemma tree_root_split d l r :
  length l = 2 ^ d -> length r = 2 ^ d ->
  tree_root (S d) (l ++ r) = sha256_pair (tree_root d l) (tree_root d r).
Proof.
  revert l r. induction d as [|d IH]; intros l r Hl Hr.
  - destruct l as [|a [|]]; [done| |done]. destruct r as [|b [|]]; done.
  - change (tree_root (S (S d)) (l ++ r)) with (tree_root (S d) (hash_layer (l ++ r))).
    rewrite hash_layer_app by (exists (2 ^ d); simpl in *; lia).
    apply IH; apply length_hash_layer; simpl in *; lia.
Qed.

Lemma tree_root_zeros d : tree_root d (replicate (2 ^ d) (zeros 32)) = zero_hash d.
Proof.
  induction d as [|d IH]; [done|].
  replace (2 ^ S d) with (2 ^ d + 2 ^ d) by (simpl; lia).
  rewrite replicate_add, tree_root_split by apply length_replicate. by rewrite IH.
Qed.

Lemma padded_leaves_split d chunks :
  length chunks <= 2 ^ S d ->
  padded_leaves (S d) chunks =
  padded_leaves d (take (2 ^ d) chunks) ++ padded_leaves d (drop (2 ^ d) chunks).
Proof.
  intros H. unfold padded_leaves. simpl in *. rewrite length_take, length_drop.
  destruct (decide (length chunks <= 2 ^ d)).
  - rewrite take_ge, drop_ge by lia. rewrite <- app_assoc. f_equal. simpl.
    rewrite <- replicate_add. f_equal. lia.
  - rewrite (Nat.min_l (2 ^ d)) by lia. rewrite Nat.sub_diag. simpl. rewrite app_nil_r.
    rewrite app_assoc, take_drop. do 2 f_equal. lia.
Qed.

Lemma length_padded_leaves d chunks :
  length chunks <= 2 ^ d -> length (padded_leaves d chunks) = 2 ^ d.
Proof. intros. unfold padded_leaves. rewrite length_app, length_replicate. lia. Qed.

Lemma merkleize_tree_root d chunks :
  length chunks <= 2 ^ d -> merkleize_pos chunks (pow2 d) = tree_root d (padded_leaves d chunks).
Proof.
  revert chunks. induction d as [|d IH]; intros chunks H.
  - simpl in *. destruct chunks as [|a [|]]; simpl in *; [done|done|lia].
  - cbn [pow2]. rewrite merkleize_step, pow2_nat, pow2_trailing, padded_leaves_split by done.
    simpl in H.
    rewrite tree_root_split; try apply length_padded_leaves;
      rewrite ?length_take, ?length_drop; try lia.
    rewrite IH by (rewrite length_take; lia). f_equal. case_decide.
    + apply IH. rewrite length_drop. lia.
    + rewrite drop_ge by lia. unfold padded_leaves. simpl. rewrite Nat.sub_0_r.
      symmetry. apply tree_root_zeros.
Qed.

(** Chunks beyond the limit never reach the hash. *)
Lemma merkleize_take d chunks :
  merkleize_pos chunks (pow2 d) = merkleize_pos (take (2 ^ d) chunks) (pow2 d).
Proof.
  revert chunks. induction d as [|d IH]; intros chunks.
  - by destruct chunks.
  - cbn [pow2]. rewrite !merkleize_step, !pow2_nat, !pow2_trailing, take_take, length_take.
    simpl. rewrite (Nat.min_l (2 ^ d)) by lia. f_equal.
    rewrite (IH (drop _ chunks)), (IH (drop _ (take _ chunks))).
    rewrite skipn_firstn_comm, take_take.
    pose proof (Nat.pow_nonzero 2 d).
    repeat case_decide; try lia; try done. do 2 f_equal. lia.
Qed.

(** ** Binding: equal roots come from equal objects *)

Lemma sha256_pair_inj Q a b c d :
  collision_free Q -> elems a ++ elems b ∈ Q -> elems c ++ elems d ∈ Q ->
  sha256_pair a b = sha256_pair c d -> a = c /\ b = d.
Proof.
  intros HQ H1 H2 Heq. apply HQ, array_app_inj in Heq as [-> Heq]; [|done..].
  split; [done | by apply array_eq].
Qed.

Lemma merkleize_pos_inj Q d a b :
  collision_free Q -> length a = length b -> length a <= 2 ^ d ->
  merkle_queries_pos a (pow2 d) ⊆ Q -> merkle_queries_pos b (pow2 d) ⊆ Q ->
  merkleize_pos a (pow2 d) = merkleize_pos b (pow2 d) -> a = b.
Proof.
  intros HQ. revert a b. induction d as [|d IH]; intros a b Hl Hn Ha Hb Heq.
  - destruct a as [|x [|]], b as [|y [|]]; simpl in *; try lia; [done|]. by subst.
  - cbn [pow2] in *. rewrite merkle_queries_step, pow2_nat, pow2_trailing in Ha, Hb.
    rewrite !merkleize_step, !pow2_nat, !pow2_trailing in Heq. simpl in Hn.
    rewrite queries_cons, queries_app in Ha, Hb.
    destruct Ha as (Ha0 & Ha1 & Ha2), Hb as (Hb0 & Hb1 & Hb2).
    eapply sha256_pair_inj in Heq as [Hleft Hright]; [|done..].
    apply IH in Hleft; [|rewrite ?length_take; lia|rewrite ?length_take; lia|done|done].
    rewrite <- (take_drop (2 ^ d) a), <- (take_drop (2 ^ d) b). f_equal; [done|].
    rewrite <- Hl in *. case_decide.
    + apply IH in Hright; rewrite ?length_drop; done || lia.
    + rewrite !drop_ge by lia. done.
Qed.

(** Containers: a list of at most [2^d] field roots determines its root and back. *)
Lemma merkleize_fields_inj Q d (a b : list Bytes32) :
  collision_free Q -> length a = length b -> length a <= 2 ^ d ->
  merkle_queries a (Npos (pow2 d)) ⊆ Q -> merkle_queries b (Npos (pow2 d)) ⊆ Q ->
  merkleize a (Npos (pow2 d)) = merkleize b (Npos (pow2 d)) -> a = b.
Proof. apply merkleize_pos_inj. Qed.

Lemma CHUNK_LIMIT_pow2 : CHUNK_LIMIT = Npos (pow2 15).
Proof. done. Qed.
Lemma LIST_LIMIT_pow2 : MOCK_PROGRESSIVE_LIST_LIMIT = Npos (pow2 13).
Proof. done. Qed.

(** [pack_bytes] as a recursion on 32-byte steps. *)
Lemma pack_bytes_step l :
  l <> [] -> pack_bytes l = padded 32 (take 32 l) :: pack_bytes (drop 32 l).
Proof.
  intros Hl. destruct l as [|x l]; [done|]. clear Hl. unfold pack_bytes at 1.
  set (L := x :: l).
  assert (0 < length L) as HL by (subst L; simpl; lia). clearbody L. clear x l.
  replace ((length L + 31) / 32) with (S ((length (drop 32 L) + 31) / 32)).
  2:{ rewrite length_drop. destruct (decide (length L <= 32)).
      - replace (length L - 32 + 31) with 31 by lia.
        apply (Nat.div_unique _ _ _ (length L - 1)); [lia|]. change (31 / 32) with 0. lia.
      - replace (length L + 31) with (length L - 32 + 31 + 1 * 32) by lia.
        rewrite Nat.div_add by lia. lia. }
  rewrite <- cons_seq. cbn [fmap list_fmap]. f_equal.
  - cbn [Nat.mul]. f_equal. rewrite drop_0, Nat.sub_0_r, Nat.add_0_l.
    destruct (decide (32 <= length L)); [by rewrite Nat.min_l by lia|].
    rewrite Nat.min_r by lia. by rewrite !take_ge by lia.
  - assert (forall m, (fun i => padded 32 (take (Nat.min (i * 32 + 32) (length L) - i * 32)
                                     (drop (i * 32) L))) <$> seq 1 m
            = (fun i => padded 32 (take (Nat.min (i * 32 + 32) (length (drop 32 L)) - i * 32)
                                     (drop (i * 32) (drop 32 L)))) <$> seq 0 m) as ->.
    { intros m. rewrite <- fmap_S_seq, <- list_fmap_compose. apply list_fmap_ext.
      intros j i _. rewrite drop_drop, length_drop. unfold compose.
      replace (S i * 32) with (32 + i * 32) by lia.
      replace (Nat.min (32 + i * 32 + 32) (length L) - (32 + i * 32))
        with (Nat.min (i * 32 + 32) (length L - 32) - i * 32) by lia. done. }
    unfold pack_bytes. by destruct (drop 32 L).
Qed.

Lemma pack_bytes_ind (P : list byte -> Prop) :
  P [] -> (forall l, l <> [] -> P (drop 32 l) -> P l) -> forall l, P l.
Proof.
  intros H0 HS l. remember (length l) as n eqn:E. revert l E.
  induction (lt_wf n) as [n _ IH]. intros [|x l] ->; [done|].
  apply HS; [done|]. eapply IH; [|done]. rewrite length_drop. simpl. lia.
Qed.

Lemma length_pack_bytes l : length (pack_bytes l) = (length l + 31) / 32.
Proof.
  destruct l as [|x l]; [done|]. unfold pack_bytes. by rewrite length_fmap, length_seq.
Qed.

Lemma pack_bytes_inj l : forall r, length l = length r -> pack_bytes l = pack_bytes r -> l = r.
Proof.
  induction l as [|l Hl IH] using pack_bytes_ind; intros r Hlen Heq.
  - by destruct r.
  - assert (r <> []) as Hr by (destruct l, r; simpl in *; congruence).
    rewrite (pack_bytes_step l), (pack_bytes_step r) in Heq by done.
    apply cons_eq_inj in Heq as [H1 H2].
    apply padded_inj in H1; [|rewrite !length_take; lia|rewrite length_take; lia].
    apply IH in H2; [|rewrite !length_drop; lia].
    by rewrite <- (take_drop 32 l), <- (take_drop 32 r), H1, H2.
Qed.

Lemma pack_bytes_app k a s :
  length a = k * 32 -> pack_bytes (a ++ s) = pack_bytes a ++ pack_bytes s.
Proof.
  revert a. induction k as [|k IH]; intros a Ha.
  - by destruct a.
  - assert (a <> []) by (by intros ->).
    rewrite (pack_bytes_step (a ++ s)), (pack_bytes_step a) by (destruct a; done).
    rewrite take_app_le, drop_app_le by lia. simpl. f_equal.
    apply IH. rewrite length_drop. lia.
Qed.

Lemma len_chunk_inj n m :
  (n < 2 ^ 64)%N -> (m < 2 ^ 64)%N -> len_chunk n = len_chunk m -> n = m.
Proof.
  intros Hn Hm H%padded_inj; autorewrite with len; [|lia..].
  rewrite !N.mod_small in H by done. by apply le_bytes_inj in H.
Qed.

Lemma htr_u64_inj a b : htr_u64 a = htr_u64 b -> a = b.
Proof.
  intros H%padded_inj; autorewrite with len; [|lia..]. apply uint_eq.
  apply le_bytes_inj in H; [done|exact (uval_bound a)|exact (uval_bound b)].
Qed.

Lemma htr_address_inj a b : htr_address a = htr_address b -> a = b.
Proof. intros H%padded_inj; autorewrite with len; [|lia..]. by apply array_eq. Qed.

Lemma pack_bytes_bound l :
  (len l <= MOCK_PROGRESSIVE_BYTE_LIST_LIMIT)%N -> length (pack_bytes l) <= 2 ^ 15.
Proof.
  unfold MOCK_PROGRESSIVE_BYTE_LIST_LIMIT, len. intros Hl. rewrite length_pack_bytes.
  apply nat_le_N. rewrite Nat2N.inj_div, Nat2N.inj_add, Nat2N.inj_pow.
  change (N.of_nat 2 ^ N.of_nat 15)%N with 32768%N.
  apply N.lt_succ_r, N.Div0.div_lt_upper_bound. lia.
Qed.

Lemma htr_byte_list_inj Q a b :
  collision_free Q ->
  (len a <= MOCK_PROGRESSIVE_BYTE_LIST_LIMIT)%N -> (len b <= MOCK_PROGRESSIVE_BYTE_LIST_LIMIT)%N ->
  byte_list_queries a ⊆ Q -> byte_list_queries b ⊆ Q ->
  htr_byte_list a = htr_byte_list b -> a = b.
Proof.
  intros HQ Ha Hb Hqa Hqb Heq.
  apply queries_cons in Hqa as [Hqa0 Hqa]. apply queries_cons in Hqb as [Hqb0 Hqb].
  eapply sha256_pair_inj in Heq as [Ht Hl]; [|done..].
  apply len_chunk_inj in Hl; [|unfold MOCK_PROGRESSIVE_BYTE_LIST_LIMIT in *; lia..].
  assert (length a = length b) as Hlen by (unfold len in Hl; lia).
  apply pack_bytes_inj; [done|]. rewrite CHUNK_LIMIT_pow2 in *.
  apply (merkleize_fields_inj Q 15); [exact HQ| |by apply pack_bytes_bound|exact Hqa|exact Hqb|exact Ht].
  by rewrite !length_pack_bytes, Hlen.
Qed.

Lemma htr_fees_inj Q f g :
  collision_free Q -> merkle_queries (fees_fields f) 4 ⊆ Q -> merkle_queries (fees_fields g) 4 ⊆ Q ->
  htr_fees f = htr_fees g -> f = g.
Proof.
  intros HQ Hf Hg Heq.
  apply (merkleize_fields_inj Q 2 (fees_fields f) (fees_fields g)) in Heq; [|done|done|simpl; lia|done|done].
  unfold fees_fields in Heq. list_fields Heq. destruct f, g; naive_solver.
Qed.

Lemma htr_basic_payload_inj Q p q :
  collision_free Q ->
  (len (b_input p) <= MOCK_PROGRESSIVE_BYTE_LIST_LIMIT)%N ->
  (len (b_input q) <= MOCK_PROGRESSIVE_BYTE_LIST_LIMIT)%N ->
  payload_queries (TransactionPayloadSsz_new (Basic p)) ⊆ Q ->
  payload_queries (TransactionPayloadSsz_new (Basic q)) ⊆ Q ->
  htr_basic_payload p = htr_basic_payload q -> p = q.
Proof.
  intros HQ Hp Hq Hqp Hqq Heq. unfold payload_queries in *; cbn [payload] in *.
  rewrite queries_cons, !queries_app in Hqp, Hqq.
  destruct Hqp as (_ & Hp1 & Hp2 & Hp3), Hqq as (_ & Hq1 & Hq2 & Hq3).
  apply (merkleize_fields_inj Q 3 (basic_fields p) (basic_fields q)) in Heq;
    [|done|done|simpl; lia|done|done].
  unfold basic_fields, htr_u256 in Heq. list_fields Heq.
  destruct Heq as (H1 & H2 & H3 & H4 & H5 & H6 & H7 & H8 & _).
  apply htr_u64_inj in H2, H3. apply (htr_fees_inj Q) in H4; [|done..].
  apply htr_address_inj in H5. apply (htr_byte_list_inj Q) in H7; [|done..].
  destruct p, q; simpl in *; congruence.
Qed.

Lemma htr_create_payload_inj Q p q :
  collision_free Q ->
  (len (c_initcode p) <= MOCK_PROGRESSIVE_BYTE_LIST_LIMIT)%N ->
  (len (c_initcode q) <= MOCK_PROGRESSIVE_BYTE_LIST_LIMIT)%N ->
  payload_queries (TransactionPayloadSsz_new (Create p)) ⊆ Q ->
  payload_queries (TransactionPayloadSsz_new (Create q)) ⊆ Q ->
  htr_create_payload p = htr_create_payload q -> p = q.
Proof.
  intros HQ Hp Hq Hqp Hqq Heq. unfold payload_queries in *; cbn [payload] in *.
  rewrite queries_cons, !queries_app in Hqp, Hqq.
  destruct Hqp as (_ & Hp1 & Hp2 & Hp3), Hqq as (_ & Hq1 & Hq2 & Hq3).
  apply (merkleize_fields_inj Q 3 (create_fields p) (create_fields q)) in Heq;
    [|done|done|simpl; lia|done|done].
  unfold create_fields, htr_u256 in Heq. list_fields Heq.
  destruct Heq as (H1 & H2 & H3 & H4 & H5 & H6 & H7 & _).
  apply htr_u64_inj in H2, H3. apply (htr_fees_inj Q) in H4; [|done..].
  apply (htr_byte_list_inj Q) in H6; [|done..].
  destruct p, q; simpl in *; congruence.
Qed.

Lemma selector_chunk_inj a b : selector_chunk a = selector_chunk b -> a = b.
Proof. intros H%padded_inj; simpl; [congruence|done|lia]. Qed.

Lemma payload_root_of_inj Q p q :
  collision_free Q -> payload_within_limits p -> payload_within_limits q ->
  payload_queries p ⊆ Q -> payload_queries q ⊆ Q ->
  payload_root_of p = payload_root_of q -> p = q.
Proof.
  intros HQ Hp Hq Hqp Hqq Heq.
  eapply sha256_pair_inj in Heq as [Hr Hs]; [|exact HQ|set_solver..].
  apply selector_chunk_inj in Hs. unfold payload_within_limits, payload_data in *.
  destruct p as [[p|p]], q as [[q|q]]; simpl in Hs; try done; do 2 f_equal.
  - by eapply htr_basic_payload_inj.
  - by eapply htr_create_payload_inj.
Qed.

Lemma htr_authorization_inj Q a b :
  collision_free Q ->
  (len (auth_signature a) <= MOCK_PROGRESSIVE_BYTE_LIST_LIMIT)%N ->
  (len (auth_signature b) <= MOCK_PROGRESSIVE_BYTE_LIST_LIMIT)%N ->
  authorization_queries a ⊆ Q -> authorization_queries b ⊆ Q ->
  htr_authorization a = htr_authorization b -> a = b.
Proof.
  intros HQ Ha Hb Hqa Hqb Heq. unfold authorization_queries in *.
  rewrite queries_app in Hqa, Hqb. destruct Hqa as [Ha1 Ha2], Hqb as [Hb1 Hb2].
  apply (merkleize_fields_inj Q 2 (authorization_fields a) (authorization_fields b)) in Heq;
    [|done|done|simpl; lia|done|done].
  unfold authorization_fields in Heq. list_fields Heq. destruct Heq as (H1 & H2 & H3 & _).
  apply selector_chunk_inj in H1. apply (htr_byte_list_inj Q) in H3; [|done..].
  destruct a, b; simpl in *; congruence.
Qed.

Lemma htr_authorization_list_inj Q l r :
  collision_free Q ->
  (len l <= MOCK_PROGRESSIVE_LIST_LIMIT)%N -> (len r <= MOCK_PROGRESSIVE_LIST_LIMIT)%N ->
  Forall (fun a => len (auth_signature a) <= MOCK_PROGRESSIVE_BYTE_LIST_LIMIT)%N l ->
  Forall (fun a => len (auth_signature a) <= MOCK_PROGRESSIVE_BYTE_LIST_LIMIT)%N r ->
  authorization_list_queries l ⊆ Q -> authorization_list_queries r ⊆ Q ->
  htr_authorization_list l = htr_authorization_list r -> l = r.
Proof.
  intros HQ Hl Hr Fl Fr Hql Hqr Heq. unfold authorization_list_queries in *.
  rewrite queries_cons, queries_app in Hql, Hqr.
  destruct Hql as (Hl1 & Hl2 & Hl3), Hqr as (Hr1 & Hr2 & Hr3).
  eapply sha256_pair_inj in Heq as [Ht Hn]; [|done..].
  apply len_chunk_inj in Hn; [|unfold MOCK_PROGRESSIVE_LIST_LIMIT in *; lia..].
  rewrite LIST_LIMIT_pow2 in *. apply (merkleize_fields_inj Q 13) in Ht; [|exact HQ| | |exact Hl2|exact Hr2].
  - clear Hl Hr Hl1 Hl2 Hr1 Hr2 Hn. revert r Fr Hr3 Ht.
    induction Fl as [|a l Ha Fl IH]; intros [|b r] Fr Hr3 Ht; try done.
    cbn [fmap list_fmap concat] in *. injection Ht as H1 H2.
    apply Forall_cons in Fr as [Hb Fr]. rewrite queries_app in Hl3, Hr3.
    f_equal; [eapply htr_authorization_inj|apply IH]; naive_solver.
  - rewrite !length_fmap. unfold len in Hn. lia.
  - rewrite length_fmap. apply nat_le_N. rewrite Nat2N.inj_pow. unfold len in Hl. exact Hl.
Qed.

Lemma envelope_root_of_inj Q e f :
  collision_free Q -> envelope_within_limits e -> envelope_within_limits f ->
  envelope_queries e ⊆ Q -> envelope_queries f ⊆ Q ->
  envelope_root_of e = envelope_root_of f -> e = f.
Proof.
  intros HQ (He1 & He2 & He3) (Hf1 & Hf2 & Hf3) Hqe Hqf Heq. unfold envelope_queries in *.
  rewrite queries_cons, queries_app in Hqe, Hqf.
  destruct Hqe as (E1 & E2 & E3), Hqf as (F1 & F2 & F3).
  eapply sha256_pair_inj in Heq as [Hp Ha]; [|done..]. cbn in Hp, Ha.
  apply (payload_root_of_inj Q) in Hp; [|done..].
  apply (htr_authorization_list_inj Q) in Ha; [|done..].
  destruct e, f; simpl in *; congruence.
Qed.

Lemma signing_root_of_inj Q s t :
  collision_free Q -> signing_queries s ⊆ Q -> signing_queries t ⊆ Q ->
  signing_root_of s = signing_root_of t -> s = t.
Proof.
  intros HQ Hs Ht Heq. eapply sha256_pair_inj in Heq as [Ho Hd]; [|exact HQ|set_solver..].
  cbn in Ho, Hd. apply padded_inj in Hd; rewrite ?elems_length; [|lia..].
  apply array_eq in Hd. destruct s, t; simpl in *; congruence.
Qed.

(** ** Debug and release builds *)

Lemma pow2_is_power d : is_power_of_two (pow2 d) = true.
Proof. induction d; simpl; auto. Qed.

Lemma merkleize_debug_pos_eq d chunks :
  merkleize_debug_pos chunks (pow2 d) =
  if (length chunks <=? 2 ^ d) then Some (merkleize_pos chunks (pow2 d)) else None.
Proof.
  revert chunks. induction d as [|d IH]; intros chunks.
  - destruct chunks as [|a [|b l]]; try done. simpl.
    destruct (N.leb_spec (len (a :: b :: l)) 1); [|done]. autorewrite with len in *. lia.
  - assert ((len chunks <=? Npos (pow2 (S d)))%N = (length chunks <=? 2 ^ S d)) as Hlen.
    { pose proof (pow2_nat (S d)). unfold len.
      destruct (N.leb_spec (N.of_nat (length chunks)) (Npos (pow2 (S d))));
        destruct (Nat.leb_spec (length chunks) (2 ^ S d)); lia || done. }
    change (pow2 (S d)) with (xO (pow2 d)) in *.
    cbn [merkleize_debug_pos merkleize_pos is_power_of_two].
    rewrite Hlen, pow2_is_power. cbn [andb].
    destruct (Nat.leb_spec (length chunks) (2 ^ S d)) as [Hle|]; [|done].
    pose proof (pow2_nat d). simpl in Hle.
    rewrite !IH. rewrite (proj2 (Nat.leb_le (length (take _ _)) _)) by (rewrite length_take; lia).
    rewrite (proj2 (Nat.leb_le (length (drop _ _)) _)) by (rewrite length_drop; lia).
    cbn [mbind option_bind]. by destruct (N.ltb_spec (Npos (pow2 d)) (len chunks)).
Qed.

(** ** Over-long byte lists *)

(** Only the first [MOCK_PROGRESSIVE_BYTE_LIST_LIMIT] bytes and the length count. *)
Lemma htr_byte_list_truncates a s s' :
  len a = MOCK_PROGRESSIVE_BYTE_LIST_LIMIT -> length s = length s' ->
  htr_byte_list (a ++ s) = htr_byte_list (a ++ s').
Proof.
  intros Ha Hs. unfold htr_byte_list.
  replace (len (a ++ s)) with (len (a ++ s')) by (unfold len; by rewrite !length_app, Hs).
  assert (exists k, length a = k * 32 /\ k = 2 ^ 15) as (k & Hk & Hk2).
  { exists (length a / 32).
    assert (N.of_nat (length a / 32) = 32768)%N as Hd by (rewrite Nat2N.inj_div; fold (len a); by rewrite Ha).
    split; apply Nat2N.inj.
    - rewrite Nat2N.inj_mul, Hd. exact Ha.
    - rewrite Hd, Nat2N.inj_pow. reflexivity. }
  assert (forall t, merkleize (pack_bytes (a ++ t)) CHUNK_LIMIT = merkleize_pos (pack_bytes a) (pow2 15))
    as Htree; [|rewrite !Htree; reflexivity].
  intros t. rewrite (pack_bytes_app k a t Hk), CHUNK_LIMIT_pow2. cbn [merkleize].
  rewrite (merkleize_take 15), <- Hk2, take_app_length'; [reflexivity|].
  rewrite length_pack_bytes, Hk, Nat.add_comm, Nat.div_add by lia. reflexivity.
Qed.

Lemma over_limit_debug_panics l :
  (MOCK_PROGRESSIVE_BYTE_LIST_LIMIT < len l)%N -> merkleize_debug (pack_bytes l) CHUNK_LIMIT = None.
Proof.
  intros Hl. rewrite CHUNK_LIMIT_pow2. cbn [merkleize_debug]. rewrite merkleize_debug_pos_eq.
  destruct (Nat.leb_spec (length (pack_bytes l)) (2 ^ 15)) as [Hle|]; [exfalso|done].
  rewrite length_pack_bytes in Hle.
  assert (N.of_nat ((length l + 31) / 32) <= N.of_nat (2 ^ 15))%N as Hb by lia.
  rewrite Nat2N.inj_div, Nat2N.inj_add, Nat2N.inj_pow in Hb.
  change (N.of_nat 2 ^ N.of_nat 15)%N with 32768%N in Hb.
  unfold MOCK_PROGRESSIVE_BYTE_LIST_LIMIT in Hl. fold (len l) in Hb.
  assert (32769 <= (len l + N.of_nat 31) / N.of_nat 32)%N; [|lia].
  apply N.div_le_lower_bound; lia.
Qed.

End ssz.

(** ** Theorems *)

Section ssz_theorems.
Context `{SHA : Sha256}.

(** C8: [merkleize] equals the SSZ reference: for a limit [2^d] that the chunks
    fit in, it returns the root of the complete binary tree whose leaves are the
    chunks followed by zero chunks, computed layer by layer from the leaves.  In
    particular the shortcut through [zero_hash] for an all-zero right half is
    right. *)
Theorem merkleize_matches_reference d chunks :
  length chunks <= 2 ^ d ->
  merkleize chunks (2 ^ N.of_nat d) = tree_root d (padded_leaves d chunks).
Proof. intros H. rewrite <- pow2_N. by apply merkleize_tree_root. Qed.

(** Debug and release builds of [merkleize] agree exactly on the inputs within
    the limit: with the assertions kept, the computation panics if and only if
    there are more chunks than the limit, and otherwise no recursive call
    violates an assertion and the result is the release result. *)
Theorem merkleize_debug_agrees d chunks :
  merkleize_debug chunks (2 ^ N.of_nat d) =
  if (length chunks <=? 2 ^ d) then Some (merkleize chunks (2 ^ N.of_nat d)) else None.
Proof. rewrite <- pow2_N. apply merkleize_debug_pos_eq. Qed.

(** Transaction payload roots are binding: if SHA-256 has no collision among
    the byte strings hashed for the two payloads, and both byte fields are within
    the declared limit, equal payload roots come from equal payloads, of the same
    variant and with the same fields.  A signature over the payload root
    therefore commits to every field. *)
Theorem payload_root_binding e f r :
  collision_free (payload_queries (env_payload e) ++ payload_queries (env_payload f)) ->
  payload_within_limits (env_payload e) -> payload_within_limits (env_payload f) ->
  payload_root e = Ok r -> payload_root f = Ok r -> env_payload e = env_payload f.
Proof.
  rewrite !payload_root_total. intros HQ He Hf Hr%Ok_inj Hr'%Ok_inj.
  eapply payload_root_of_inj; [exact HQ|exact He|exact Hf|apply queries_l|apply queries_r|by rewrite Hr, Hr'].
Qed.

(** C24: Envelope roots are binding: under the same collision-freeness, for
    envelopes within the declared limits, equal [canonical_root]s come from equal
    envelopes: same payload and the same authorizations in the same order. *)
Theorem envelope_root_binding (e f : TransactionEnvelope) r :
  collision_free (envelope_queries e ++ envelope_queries f) ->
  envelope_within_limits e -> envelope_within_limits f ->
  canonical_root e = Ok r -> canonical_root f = Ok r -> e = f.
Proof.
  rewrite !envelope_root_total. intros HQ He Hf Hr%Ok_inj Hr'%Ok_inj.
  eapply envelope_root_of_inj; [exact HQ|exact He|exact Hf|apply queries_l|apply queries_r|by rewrite Hr, Hr'].
Qed.

(** C32: Signing roots separate domains: if the signing data of two objects under
    two domain selectors have the same signing root (and SHA-256 has no collision
    between the two strings hashed), then both the objects' roots and the domains
    coincide, so no transaction signature is a validator-message signature. *)
Theorem signing_root_domain_separation r r' d d' s s' :
  build_signing_data r d = Ok s -> build_signing_data r' d' = Ok s' ->
  collision_free (signing_queries s ++ signing_queries s') ->
  signing_root s = signing_root s' -> r = r' /\ d = d'.
Proof.
  intros [= Hs] [= Hs'] HQ. rewrite !signing_root_total. intros [= Heq].
  assert (s = s') as Hss by (eapply signing_root_of_inj; [exact HQ|apply queries_l|apply queries_r|done]).
  subst s s'. injection Hss as -> Hd. split; [done|]. by destruct d, d'.
Qed.

(** C37: In a release build, payload roots do not commit to input bytes beyond
    [MOCK_PROGRESSIVE_BYTE_LIST_LIMIT]: two inputs that share their first
    1,048,576 bytes and have the same length give the same payload root, however
    their remaining bytes differ.  A debug build panics on each of them. *)
Theorem over_limit_inputs_share_root chain n g f to v acc auths a s s' :
  len a = MOCK_PROGRESSIVE_BYTE_LIST_LIMIT -> length s = length s' -> s <> [] ->
  payload_root (mk_envelope
    (TransactionPayloadSsz_new (Basic (mk_basic chain n g f to v (a ++ s) acc))) auths) =
  payload_root (mk_envelope
    (TransactionPayloadSsz_new (Basic (mk_basic chain n g f to v (a ++ s') acc))) auths) /\
  merkleize_debug (pack_bytes (a ++ s)) CHUNK_LIMIT = None.
Proof.
  intros Ha Hs Hne. split.
  - rewrite !payload_root_total. unfold payload_root_of. cbn -[pack_bytes]. do 2 f_equal.
    unfold htr_basic_payload, basic_fields. cbn [b_input].
    by rewrite (htr_byte_list_truncates a s s').
  - apply over_limit_debug_panics. destruct s; [done|]. autorewrite with len. lia.
Qed.

End ssz_theorems.

(** ** Witnesses *)

Definition chunk_of (v : N) : Bytes32 := padded 32 (le_bytes 8 v).

Lemma merkleize_matches_reference_witness :
  merkleize (SHA := sha2) [chunk_of 1; chunk_of 2; chunk_of 3] (2 ^ N.of_nat 3) =
  tree_root (SHA := sha2) 3 (padded_leaves 3 [chunk_of 1; chunk_of 2; chunk_of 3]).
Proof. apply (merkleize_matches_reference 3). simpl. lia. Defined.

Definition unsigned_sample : TransactionEnvelope := mk_envelope TransactionPayloadSsz_default [].

(** The same payload under two authorization lists. *)
Lemma payload_root_binding_witness :
  env_payload sample_envelope = env_payload unsigned_sample.
Proof.
  apply (payload_root_binding (SHA := poly_hash) sample_envelope unsigned_sample
           (payload_root_of (SHA := poly_hash) TransactionPayloadSsz_default)).
  - apply collision_free_b_ok. vm_compute. reflexivity.
  - vm_compute. discriminate.
  - vm_compute. discriminate.
  - apply payload_root_total.
  - apply payload_root_total.
Defined.

Definition decoded_sample : TransactionEnvelope :=
  Eval vm_compute in
    match decode_envelope sample_wire with Ok e => e | Err _ => unsigned_sample end.

(** An envelope and the one its bytes decode to. *)
Lemma envelope_root_binding_witness :
  sample_envelope = decoded_sample.
Proof.
  apply (envelope_root_binding (SHA := poly_hash) sample_envelope decoded_sample
           (envelope_root_of (SHA := poly_hash) sample_envelope)).
  - apply collision_free_b_ok. vm_compute. reflexivity.
  - split_and!; [discriminate..|]. repeat (apply Forall_cons; split; [discriminate|]). apply Forall_nil_2.
  - split_and!; [discriminate..|]. repeat (apply Forall_cons; split; [discriminate|]). apply Forall_nil_2.
  - apply envelope_root_total.
  - rewrite envelope_root_total. vm_compute. reflexivity.
Defined.

Lemma signing_root_domain_separation_witness :
  chunk_of 7 = chunk_of 7 /\ TransactionAuthorization = TransactionAuthorization.
Proof.
  apply (signing_root_domain_separation (SHA := sha2) (chunk_of 7) (chunk_of 7)
           TransactionAuthorization TransactionAuthorization
           (mk_signing_data (chunk_of 7) DOMAIN_TX_SHELL) (mk_signing_data (chunk_of 7) DOMAIN_TX_SHELL));
    [reflexivity|reflexivity|apply collision_free_b_ok; vm_compute; reflexivity|reflexivity].
Defined.

Lemma over_limit_inputs_share_root_witness :
  let a := replicate (N.to_nat MOCK_PROGRESSIVE_BYTE_LIST_LIMIT) Byte.x00 in
  let tx s := mk_envelope (TransactionPayloadSsz_new (Basic (mk_basic (zeros 32) (uint_wrap 64 0)
    (uint_wrap 64 0) BasicFeesPerGas_default (zeros 20) (zeros 32) (a ++ s) (zeros 32)))) [] in
  payload_root (SHA := sha2) (tx [Byte.x01]) = payload_root (SHA := sha2) (tx [Byte.x02]) /\
  merkleize_debug (SHA := sha2) (pack_bytes (a ++ [Byte.x01])) CHUNK_LIMIT = None.
Proof.
  intros a tx.
  apply (over_limit_inputs_share_root (SHA := sha2)); [|reflexivity|discriminate].
  unfold len. subst a. by rewrite length_replicate, N2Nat.id.
Defined.
