(* ===== verification/SszRun.v ===== *)
(** * shell-primitives: the Merkle routines as they run

    [merkleize] and [pack_bytes] of [ssz.rs] written as the source writes them: a call
    of [merkleize] recurses on [limit >> 1] and may run out of the calls it is given,
    a slice expression panics out of range, and so does [copy_from_slice] on unequal
    lengths.  The two [debug_assert!]s of [merkleize] are evaluated at every call of a
    build that has [debug_assertions], and by no other.  The theorems say how each build
    ends on every input, that no slice is ever out of range, and that the results are
    those of the definitions of [Ssz]. *)

From S2P Require Import Prelude Primitives Codec Hash Sha256 Ssz.

(** How a computation ends. *)
Inductive outcome (A : Type) : Type :=
| Done (a : A)
| Panic
| OutOfFuel.
Arguments Done {A} a.
Arguments Panic {A}.
Arguments OutOfFuel {A}.

Definition obind {A B} (x : outcome A) (f : A -> outcome B) : outcome B :=
  match x with
  | Done a => f a
  | Panic => Panic
  | OutOfFuel => OutOfFuel
  end.

Notation "'run' x ':=' e 'in' k" := (obind e (fun x => k))
  (at level 200, x name, e at level 100, k at level 200).

(** ** Slices *)

Definition slice_to {A} (l : list A) (n : N) : outcome (list A) :=
  if (n <=? len l)%N then Done (take (N.to_nat n) l) else Panic.

Definition slice_from {A} (l : list A) (n : N) : outcome (list A) :=
  if (n <=? len l)%N then Done (drop (N.to_nat n) l) else Panic.

Definition slice {A} (l : list A) (a b : N) : outcome (list A) :=
  if ((a <=? b) && (b <=? len l))%N then Done (take (N.to_nat (b - a)) (drop (N.to_nat a) l)) else Panic.

(** [dst[..n].copy_from_slice(src)]: a range out of [dst], and a source of another
    length than the range, panic. *)
Definition copy_into_prefix (dst : list byte) (n : N) (src : list byte) : outcome (list byte) :=
  run target := slice_to dst n in
  if decide (length target = length src) then Done (src ++ drop (N.to_nat n) dst) else Panic.

(** [for i in a..a+n]. *)
Fixpoint for_range {S} (body : nat -> S -> outcome S) (a n : nat) (s : S) : outcome S :=
  match n with
  | O => Done s
  | S n => run s' := body a s in for_range body (a + 1) n s'
  end.

Section running.
Context `{SHA : Sha256}.

(** [let mut h = [0; 32]; for _ in 0..depth { h = sha256_pair(&h, &h) }]. *)
Definition zero_hash_run (depth : nat) : outcome Bytes32 :=
  for_range (fun _ h => Done (sha256_pair h h)) 0 depth (zeros 32).

(** [usize::trailing_zeros]: 64 for zero. *)
Definition usize_trailing_zeros (n : N) : nat :=
  match n with
  | N0 => 64
  | Npos p => trailing_zeros p
  end.

(** [usize::is_power_of_two]. *)
Definition usize_is_power_of_two (n : N) : bool :=
  match n with
  | N0 => false
  | Npos p => is_power_of_two p
  end.

(** [debug_assert!(condition)] in a build with or without [debug_assertions]. *)
Definition debug_assert (debug_assertions condition : bool) : outcome unit :=
  if debug_assertions && negb condition then Panic else Done tt.

Fixpoint merkleize_run (debug_assertions : bool) (fuel : nat) (chunks : list Bytes32) (limit : N)
    : outcome Bytes32 :=
  match fuel with
  | O => OutOfFuel
  | S fuel =>
      run _ := debug_assert debug_assertions ((limit =? 0)%N || usize_is_power_of_two limit) in
      run _ := debug_assert debug_assertions (len chunks <=? limit)%N in
      match limit with
      | 0%N => Done (zeros 32)
      | 1%N => Done (default (zeros 32) (head chunks))
      | _ =>
          let half := N.shiftr limit 1 in
          run low := slice_to chunks (N.min (len chunks) half) in
          run left := merkleize_run debug_assertions fuel low half in
          run right :=
            (if (half <? len chunks)%N
             then run high := slice_from chunks half in merkleize_run debug_assertions fuel high half
             else zero_hash_run (usize_trailing_zeros half)) in
          Done (sha256_pair left right)
      end
  end.

(** [bytes.len().div_ceil(32)] chunks pushed one by one. *)
Definition pack_bytes_run (bytes : list byte) : outcome (list (list byte)) :=
  match bytes with
  | [] => Done []
  | _ :: _ =>
      let num_chunks := N.to_nat ((len bytes + 31) / 32) in
      for_range (fun i chunks =>
        let start := (N.of_nat i * 32)%N in
        let end_ := N.min (start + 32) (len bytes) in
        run src := slice bytes start end_ in
        run chunk := copy_into_prefix (replicate 32 Byte.x00) (end_ - start) src in
        Done (chunks ++ [chunk])) 0 num_chunks []
  end.

(** ** Lemmas *)

Lemma for_range_done {S} (body : nat -> S -> outcome S) (f : nat -> S -> S) a n s :
  (forall i s, a <= i < a + n -> body i s = Done (f i s)) ->
  for_range body a n s = Done (foldl (fun s i => f i s) s (seq a n)).
Proof.
  revert a s. induction n as [|n IH]; intros a s Hb; [done|]. cbn [for_range foldl seq].
  rewrite Hb by lia. cbn [obind]. rewrite Nat.add_1_r. apply IH. intros i s' Hi. apply Hb. lia.
Qed.

Lemma foldl_snoc_fmap {A B} (f : A -> B) (l : list A) acc :
  foldl (fun acc x => acc ++ [f x]) acc l = acc ++ (f <$> l).
Proof.
  revert acc. induction l as [|x l IH]; intros acc; cbn; [by rewrite app_nil_r|].
  by rewrite IH, <- app_assoc.
Qed.

Lemma zero_hash_run_done depth : zero_hash_run depth = Done (zero_hash depth).
Proof.
  unfold zero_hash_run. rewrite (for_range_done _ (fun _ h => sha256_pair h h)) by done. f_equal.
  induction depth as [|depth IH]; [done|]. by rewrite seq_S, foldl_app, IH.
Qed.

Lemma slice_to_min {A} (l : list A) n : slice_to l (N.min (len l) n) = Done (take (N.to_nat (N.min (len l) n)) l).
Proof. unfold slice_to. by rewrite (proj2 (N.leb_le _ _)) by lia. Qed.

Lemma slice_from_lt {A} (l : list A) n : (n <? len l)%N = true -> slice_from l n = Done (drop (N.to_nat n) l).
Proof. unfold slice_from. intros H%N.ltb_lt. by rewrite (proj2 (N.leb_le _ _)) by lia. Qed.

(** What the comment on [merkleize] asks of its caller. *)
Definition within_contract (chunks : list Bytes32) (limit : N) : bool :=
  ((limit =? 0)%N || usize_is_power_of_two limit) && (len chunks <=? limit)%N.

(** A build whose assertions, if it has any, hold of a call. *)
Definition passes (debug : bool) (chunks : list Bytes32) (limit : N) : bool :=
  negb debug || within_contract chunks limit.

(** The assertions of one call. *)
Lemma debug_asserts {B} debug chunks limit (k : outcome B) :
  (run _ := debug_assert debug ((limit =? 0)%N || usize_is_power_of_two limit) in
   run _ := debug_assert debug (len chunks <=? limit)%N in k) =
  if passes debug chunks limit then k else Panic.
Proof.
  unfold passes, within_contract, debug_assert. destruct debug; [|done].
  destruct (_ || usize_is_power_of_two limit); [|done]. by destruct (len chunks <=? limit)%N.
Qed.

(** A call that passes makes calls that pass: halving keeps the contract. *)
Lemma passes_half debug chunks (limit : N) (half : positive) :
  N.shiftr limit 1 = Npos half -> (1 < limit)%N -> passes debug chunks limit = true ->
  passes debug (take (N.to_nat (N.min (len chunks) (Npos half))) chunks) (Npos half) = true /\
  passes debug (drop (Pos.to_nat half) chunks) (Npos half) = true.
Proof.
  intros Hs Hl. unfold passes. destruct debug; [|done]. cbn [negb orb]. unfold within_contract.
  destruct limit as [|[p|p|]]; [lia|done| |lia]. cbn in Hs. injection Hs as ->.
  cbn [usize_is_power_of_two is_power_of_two]. rewrite !andb_true_iff, !N.leb_le. unfold len.
  rewrite length_take, length_drop. intros [Hpow Hlen]. split; (split; [exact Hpow|lia]).
Qed.

(** A passing call on [2 h] or [2 h + 1], given the passing calls on [h]. *)
Lemma merkleize_run_half debug fuel chunks (half : positive) (limit : N) (ok : bool) :
  N.shiftr limit 1 = Npos half -> (1 < limit)%N -> passes debug chunks limit = true ->
  (forall chunks, passes debug chunks (Npos half) = true ->
     merkleize_run debug fuel chunks (Npos half) =
     if ok then Done (merkleize_pos chunks half) else OutOfFuel) ->
  merkleize_run debug (S fuel) chunks limit =
  if ok then Done (merkleize_pos chunks (xO half)) else OutOfFuel.
Proof.
  intros Hs Hl Hp IH. destruct (passes_half debug chunks limit half Hs Hl Hp) as [Hlow Hhigh].
  cbn [merkleize_run]. rewrite debug_asserts, Hp.
  destruct limit as [|[p|p|]]; [lia| | |lia]; rewrite Hs, slice_to_min; cbn [obind]; rewrite IH by done;
    (destruct ok; [|done]); cbn [obind merkleize_pos];
    (destruct (Npos half <? len chunks)%N eqn:E;
     [rewrite (slice_from_lt _ _ E); cbn [obind]; by rewrite IH
     |cbn [usize_trailing_zeros]; by rewrite zero_hash_run_done]).
Qed.

Lemma log2_half (limit : N) (half : positive) (fuel : nat) :
  N.shiftr limit 1 = Npos half ->
  (N.log2 limit <? N.of_nat (S fuel))%N = (N.log2 (Npos half) <? N.of_nat fuel)%N.
Proof.
  intros Hs. apply eq_true_iff_eq. rewrite !N.ltb_lt, <- Hs, N.log2_shiftr.
  assert (0 < N.log2 limit)%N; [|lia]. apply N.log2_pos. destruct limit as [|[]]; done || lia.
Qed.

Lemma merkleize_run_passes debug fuel chunks limit :
  passes debug chunks limit = true ->
  merkleize_run debug fuel chunks limit =
  if (N.log2 limit <? N.of_nat fuel)%N then Done (merkleize chunks limit) else OutOfFuel.
Proof.
  revert chunks limit. induction fuel as [|fuel IH]; intros chunks limit Hp.
  { by destruct (N.ltb_spec (N.log2 limit) (N.of_nat 0)); [lia|]. }
  destruct limit as [|[p|p|]];
    [cbn [merkleize_run]; by rewrite debug_asserts, Hp
    | | |cbn [merkleize_run]; by rewrite debug_asserts, Hp];
    rewrite (log2_half _ p) by done; apply merkleize_run_half; try done; intros; by apply IH.
Qed.

Lemma merkleize_run_panics debug fuel chunks limit :
  passes debug chunks limit = false -> merkleize_run debug (S fuel) chunks limit = Panic.
Proof. intros Hp. cbn [merkleize_run]. by rewrite debug_asserts, Hp. Qed.

(** One chunk: its slice is in range and fits the buffer. *)
Lemma copy_chunk {B} bytes start n (k : list byte -> outcome B) :
  (start + n <= len bytes)%N -> (n <= 32)%N ->
  (run src := slice bytes start (start + n) in
   run chunk := copy_into_prefix (replicate 32 Byte.x00) n src in k chunk) =
  k (elems (padded 32 (take (N.to_nat n) (drop (N.to_nat start) bytes)))).
Proof.
  intros Hb Hn. unfold slice. rewrite (proj2 (N.leb_le start _)), (proj2 (N.leb_le _ (len bytes))) by lia.
  cbn [andb obind]. replace (start + n - start)%N with n by lia.
  set (src := take _ _). assert (length src = N.to_nat n) as Hsrc.
  { subst src. rewrite length_take, length_drop. unfold len in Hb. lia. }
  unfold copy_into_prefix, slice_to. rewrite (proj2 (N.leb_le n _)) by (unfold len; rewrite length_replicate; lia).
  cbn [obind]. rewrite decide_True by (rewrite length_take, length_replicate; lia).
  rewrite elems_padded by lia. by rewrite drop_replicate, Hsrc.
Qed.

Lemma pack_bytes_run_done bytes : pack_bytes_run bytes = Done (elems <$> pack_bytes bytes).
Proof.
  destruct bytes as [|b bytes]; [done|]. unfold pack_bytes_run, pack_bytes. set (l := b :: bytes).
  replace (N.to_nat ((len l + 31) / 32)) with ((length l + 31) / 32).
  2: { unfold len. replace 31%N with (N.of_nat 31) by done. replace 32%N with (N.of_nat 32) by done.
       by rewrite <- Nat2N.inj_add, <- Nat2N.inj_div, Nat2N.id. }
  rewrite (for_range_done _ (fun i chunks => chunks ++ [elems (padded 32
    (take (Nat.min (i * 32 + 32) (length l) - i * 32) (drop (i * 32) l)))])).
  - rewrite foldl_snoc_fmap. cbn [app]. by rewrite <- list_fmap_compose.
  - intros i chunks [_ Hi]. cbv zeta. assert (i * 32 < length l) as Hlt.
    { pose proof (Nat.Div0.mul_div_le (length l + 31) 32). lia. }
    set (start := (N.of_nat i * 32)%N). set (n := (N.min (start + 32) (len l) - start)%N).
    replace (N.min (start + 32) (len l)) with (start + n)%N by (subst n start; unfold len; lia).
    rewrite (copy_chunk l start n (fun chunk => Done (chunks ++ [chunk]))) by (subst n start; unfold len; lia). do 5 f_equal.
    replace (N.to_nat n) with (Nat.min (i * 32 + 32) (length l) - i * 32) by (subst n start; unfold len; lia).
    by replace (N.to_nat start) with (i * 32) by (subst start; lia).
Qed.

(** The chunks are the bytes, zero-padded to a multiple of 32. *)
Lemma pack_bytes_concat bytes :
  exists k, k < 32 /\ concat (elems <$> pack_bytes bytes) = bytes ++ replicate k Byte.x00.
Proof.
  induction bytes as [|l Hl (k & Hk & IH)] using pack_bytes_ind.
  { exists 0. split; [lia|done]. }
  rewrite (pack_bytes_step l) by done. rewrite fmap_cons. cbn [concat].
  rewrite elems_padded by (rewrite length_take; lia). rewrite length_take.
  destruct (decide (32 <= length l)) as [Hlen|Hlen].
  - exists k. split; [done|]. rewrite IH, Nat.min_l, Nat.sub_diag by lia. cbn [replicate].
    by rewrite app_nil_r, app_assoc, take_drop.
  - exists (32 - length l). assert (0 < length l) by (destruct l; [done|cbn; lia]). split; [lia|].
    rewrite drop_ge by lia. rewrite take_ge, Nat.min_r by lia. by rewrite app_nil_r.
Qed.

(** ** Theorems *)

(** C9: How a call of [merkleize] ends, in both builds and on every input, when calls may
    nest [fuel + 1] deep, the outermost included.  It panics exactly in a build with
    debug assertions, if the limit is neither zero nor a power of two or is less than the
    number of chunks; the assertion that fails is one of the outermost call.  Otherwise,
    so always in a release build, calls nest exactly [log2 limit + 1] deep (at most 64
    for any [usize]), no assertion and no slice expression in them fails, and the result
    is the value the rest of the development reasons about. *)
Theorem merkleize_terminates (debug_assertions : bool) (fuel : nat) (chunks : list Bytes32) (limit : N) :
  merkleize_run debug_assertions (S fuel) chunks limit =
  if debug_assertions && negb (within_contract chunks limit) then Panic
  else if (N.log2 limit <? N.of_nat (S fuel))%N then Done (merkleize chunks limit)
  else OutOfFuel.
Proof.
  destruct (debug_assertions && negb (within_contract chunks limit)) eqn:Hc.
  - apply merkleize_run_panics. unfold passes. by destruct debug_assertions, (within_contract chunks limit).
  - apply merkleize_run_passes. unfold passes. by destruct debug_assertions, (within_contract chunks limit).
Qed.

(** [pack_bytes] never panics: for every byte slice each chunk's source range lies in
    the slice and fits its buffer, and the chunks it pushes are those of [pack_bytes],
    whose concatenation is the input followed by fewer than 32 zero bytes. *)
Theorem pack_bytes_no_panic (bytes : list byte) :
  pack_bytes_run bytes = Done (elems <$> pack_bytes bytes) /\
  exists k, k < 32 /\ concat (elems <$> pack_bytes bytes) = bytes ++ replicate k Byte.x00.
Proof. split; [apply pack_bytes_run_done|apply pack_bytes_concat]. Qed.
End running.
