(* ===== verification/Wire.v ===== *)
(** * From wire bytes to roots

    The codec and the hashing of [shell-primitives] together: what a root says about
    the bytes it was computed from. *)

From S2P Require Import Prelude Primitives Codec Hash Sha256 Ssz.

Section wire.
Context `{SHA : Sha256}.

(** [TransactionEnvelope::from_wire_bytes] and then [canonical_root], as a receiver does. *)
Definition wire_root (bytes : list byte) : result Root PrimitiveError :=
  let? envelope := from_wire_bytes bytes in canonical_root envelope.

(** ** Theorems *)

(** C25: A root identifies the bytes on the wire: if two byte strings decode, to envelopes
    within the declared limits, and the decoded envelopes have the same root, and SHA-256
    has no collision among the strings hashed for them, the two byte strings are equal.
    So no relay can alter a transaction in transit without changing its root. *)
Theorem wire_root_binding bytes bytes' e e' r :
  (len bytes < usize_limit)%N -> (len bytes' < usize_limit)%N ->
  from_wire_bytes bytes = Ok e -> from_wire_bytes bytes' = Ok e' ->
  envelope_within_limits e -> envelope_within_limits e' ->
  collision_free (envelope_queries e ++ envelope_queries e') ->
  wire_root bytes = Ok r -> wire_root bytes' = Ok r -> bytes = bytes'.
Proof.
  intros Hb Hb' He He' Hl Hl' HQ. unfold wire_root. rewrite He, He'. cbn [bind_result].
  rewrite !envelope_root_total. intros [= <-] [= Hr].
  assert (e = e') as <-.
  { eapply (envelope_root_of_inj _ e e'); [exact HQ|done|done|apply queries_l|apply queries_r|done]. }
  apply encode_envelope_decode in He, He'; congruence.
Qed.

End wire.

(** ** Witness *)

Lemma wire_root_binding_witness :
  sample_wire = sample_wire ++ [] /\ is_ok (wire_root (SHA := poly_hash) sample_wire) = true.
Proof.
  split; [|vm_compute; reflexivity].
  apply (wire_root_binding (SHA := poly_hash) sample_wire (sample_wire ++ []) sample_envelope decoded_sample
           (envelope_root_of (SHA := poly_hash) sample_envelope)).
  - reflexivity.
  - reflexivity.
  - vm_compute. reflexivity.
  - vm_compute. reflexivity.
  - split_and!; [discriminate..|]. repeat (apply Forall_cons; split; [discriminate|]). apply Forall_nil_2.
  - split_and!; [discriminate..|]. repeat (apply Forall_cons; split; [discriminate|]). apply Forall_nil_2.
  - apply collision_free_b_ok. vm_compute. reflexivity.
  - vm_compute. reflexivity.
  - vm_compute. reflexivity.
Defined.
