(* ===== verification/State.v ===== *)
(** * shell-state: the reference state backend

    [errors.rs], [transition.rs], [witness.rs], [accumulator.rs],
    [reference_applier.rs] and [views.rs].  A method that takes [&mut self] is a
    function from the accumulator to its result and the accumulator it leaves.

    The abstract state is a finite map from state keys to leaf values ([abs]).
    The theorems say that an accumulator reached from [new] by transitions
    implements that map: transitions apply their patch to it, witnesses for it are
    exactly its entries, and the root binds it. *)

From S2P Require Import Prelude Primitives StateKeys Hash Sha256 OrdMap.

(** ** errors.rs *)

Record WitnessOrderingError : Type := mk_ordering_error { wo_index : nat; wo_context : string }.
Record RootContinuityError : Type := mk_continuity_error { rc_expected : Root; rc_actual : Root }.

Inductive StateError : Type :=
| InvalidStateKeyEncoding (context : string)
| NonCanonicalWitnessOrdering (e : WitnessOrderingError)
| RootContinuityMismatch (e : RootContinuityError)
| WitnessVerificationFailed (context : string)
| UnsupportedProofShape (context : string)
| TransitionShapeMismatch (accesses new_values : nat)
| Backend (context : string).

(** ** transition.rs *)

Record StatePatch : Type := mk_patch {
  accesses : MockProgressiveList StateKey;
  new_values : MockProgressiveList MockProgressiveByteList
}.

Definition validate_shape (p : StatePatch) : result unit StateError :=
  if decide (length (accesses p) <> length (new_values p))
  then Err (TransitionShapeMismatch (length (accesses p)) (length (new_values p)))
  else Ok tt.

Record StateTransitionOutcome : Type := mk_outcome { post_state_root : Root }.

(** The trait: an applier may keep interior state, hence the world [W]. *)
Class StateTransitionApplier (W : Type) : Type :=
  applier_apply_transition : Root -> StatePatch -> M W StateError StateTransitionOutcome.

(** ** witness.rs *)

Definition REFERENCE_BACKEND_PROOF_SHAPE_CONTEXT : string :=
  "reference backend derives proof paths locally and does not interpret committed proof bytes".

Definition ensure_canonical_witness_order (witnesses : list StateWitness) : result unit StateError :=
  for_each (fun '(index, (p0, p1)) =>
    if negb (is_lt (compare_state_keys (sw_key p0) (sw_key p1)))
    then Err (NonCanonicalWitnessOrdering (mk_ordering_error (index + 1)
           "witness keys must be strictly increasing in canonical StateKey order"))
    else Ok tt) (windows2_enumerate witnesses).

Definition ensure_reference_backend_proof_shape (witness : StateWitness) : result unit StateError :=
  match proof_shape witness with
  | ReferenceEmpty => Ok tt
  | PlaceholderCommittedNodes => Err (UnsupportedProofShape REFERENCE_BACKEND_PROOF_SHAPE_CONTEXT)
  end.

(** The trait, and its provided method. *)
Class WitnessVerifier (T : Type) : Type :=
  verify_witness : T -> StateWitness -> Root -> result unit StateError.

Definition verify_witnesses `{WitnessVerifier T} (self : T) (witnesses : list StateWitness)
    (expected_state_root : Root) : result unit StateError :=
  ensure_canonical_witness_order witnesses ?;;
  for_each (fun w => verify_witness self w expected_state_root) witnesses.

(** ** accumulator.rs *)

Record ReferenceProofLeaf : Type := mk_proof_leaf {
  pl_key : StateKey;
  pl_canonical_key : StateKeyBytes;
  pl_leaf_value : MockProgressiveByteList
}.

Record ReferenceProofPath : Type := mk_proof_path {
  pp_expected_root : Root;
  pp_leaf : ReferenceProofLeaf;
  left_neighbor : option ReferenceProofLeaf;
  right_neighbor : option ReferenceProofLeaf
}.

Definition proof_path_verify_witness (self : ReferenceProofPath) (witness : StateWitness)
    (expected_state_root : Root) : result unit StateError :=
  if decide (pp_expected_root self <> expected_state_root) then
    Err (WitnessVerificationFailed "reference proof path was built against a different state root")
  else if decide (pl_key (pp_leaf self) <> sw_key witness) then
    Err (WitnessVerificationFailed "reference proof leaf does not match witness key")
  else if decide (pl_leaf_value (pp_leaf self) <> sw_leaf_value witness) then
    Err (WitnessVerificationFailed "reference proof leaf does not match witness value")
  else
    match left_neighbor self with
    | Some l =>
        if negb (is_lt (compare_state_keys (pl_key l) (sw_key witness))) then
          Err (WitnessVerificationFailed
            "reference proof left boundary is not ordered before the witness key")
        else Ok tt
    | None => Ok tt
    end ?;;
    match right_neighbor self with
    | Some r =>
        if negb (is_lt (compare_state_keys (sw_key witness) (pl_key r))) then
          Err (WitnessVerificationFailed
            "reference proof right boundary is not ordered after the witness key")
        else Ok tt
    | None => Ok tt
    end ?;;
    Ok tt.

Record StoredLeaf : Type := mk_leaf { sl_key : StateKey; sl_leaf_value : MockProgressiveByteList }.

Record InMemoryAccumulator : Type := mk_acc { leaves : omap StoredLeaf; root : Root }.

Definition InMemoryAccumulator_new : InMemoryAccumulator := mk_acc [] (zeros 32).
Definition acc_len (self : InMemoryAccumulator) : nat := length (leaves self).
Definition acc_is_empty (self : InMemoryAccumulator) : bool := bool_decide (leaves self = []).

Definition from_stored_leaf (canonical_key : StateKeyBytes) (stored_leaf : StoredLeaf)
    : ReferenceProofLeaf :=
  mk_proof_leaf (sl_key stored_leaf) canonical_key (sl_leaf_value stored_leaf).

Definition proof_path_for_access (self : InMemoryAccumulator) (access : StateKey)
    : result ReferenceProofPath StateError :=
  let canonical_key := encode_state_key access in
  let? stored_leaf := ok_or (om_get canonical_key (leaves self))
    (Backend "reference backend only supports proof paths for materialized keys") in
  let left_neighbor := (fun p => from_stored_leaf p.1 p.2) <$> om_below canonical_key (leaves self) in
  let right_neighbor := (fun p => from_stored_leaf p.1 p.2) <$> om_above canonical_key (leaves self) in
  Ok (mk_proof_path (root self) (from_stored_leaf canonical_key stored_leaf)
        left_neighbor right_neighbor).

Definition derive_proof_path (self : InMemoryAccumulator) (witness : StateWitness)
    : result ReferenceProofPath StateError :=
  ensure_reference_backend_proof_shape witness ?;;
  let? proof_path := proof_path_for_access self (sw_key witness) in
  proof_path_verify_witness proof_path witness (root self) ?;;
  Ok proof_path.

Definition apply_leaf (self : InMemoryAccumulator) (key : StateKey) (value : MockProgressiveByteList)
    : InMemoryAccumulator :=
  mk_acc (om_insert (encode_state_key key) (mk_leaf key value) (leaves self)) (root self).

Definition ensure_canonical_access_order (accesses : list StateKey) : result unit StateError :=
  for_each (fun '(index, (p0, p1)) =>
    if negb (is_lt (compare_state_keys p0 p1))
    then Err (NonCanonicalWitnessOrdering (mk_ordering_error (index + 1)
           "access keys must be strictly increasing in canonical StateKey order"))
    else Ok tt) (windows2_enumerate accesses).

Definition get_witness_for_accesses (self : InMemoryAccumulator) (accesses : list StateKey)
    : result (list StateWitness) StateError :=
  ensure_canonical_access_order accesses ?;;
  collect (fun access =>
    let? proof_path := proof_path_for_access self access in
    Ok (mk_witness access (pl_leaf_value (pp_leaf proof_path)) [])) accesses.

#[export] Instance InMemoryAccumulator_verifier : WitnessVerifier InMemoryAccumulator :=
  fun self witness expected_state_root =>
    let? proof_path := derive_proof_path self witness in
    proof_path_verify_witness proof_path witness expected_state_root.

(** The two hash prefixes, [b"shell-state/reference-root/v1"] and
    [b"shell-state/reference-leaf/v1"]. *)
Definition bytes_of_string (s : string) : list byte := String.list_byte_of_string s.
Definition ROOT_PREFIX : list byte := bytes_of_string "shell-state/reference-root/v1".
Definition LEAF_PREFIX : list byte := bytes_of_string "shell-state/reference-leaf/v1".

(** [x.len() as u32] wraps. *)
Definition leaf_preimage (canonical_key : StateKeyBytes) (leaf : StoredLeaf) : list byte :=
  LEAF_PREFIX ++ be_bytes 4 (len canonical_key mod 2 ^ 32) ++ canonical_key
    ++ be_bytes 4 (len (sl_leaf_value leaf) mod 2 ^ 32) ++ sl_leaf_value leaf.

Section accumulator.
Context `{SHA : Sha256}.

Definition reference_leaf_digest (canonical_key : StateKeyBytes) (leaf : StoredLeaf) : Root :=
  sha256 (leaf_preimage canonical_key leaf).

Definition root_preimage (leaves : omap StoredLeaf) : list byte :=
  ROOT_PREFIX ++ concat ((fun p => elems (reference_leaf_digest p.1 p.2)) <$> leaves).

Definition compute_reference_root (leaves : omap StoredLeaf) : Root := sha256 (root_preimage leaves).

Definition recompute_root (self : InMemoryAccumulator) : InMemoryAccumulator :=
  mk_acc (leaves self) (compute_reference_root (leaves self)).

(** [StateAccumulator::apply_transition]: the error returns come before the first
    write. *)
Definition apply_transition (patch : StatePatch) : M InMemoryAccumulator StateError Root := fun self =>
  match validate_shape patch ?;; ensure_canonical_access_order (accesses patch) with
  | Err e => (Err e, self)
  | Ok _ =>
      let self := foldl (fun self p => apply_leaf self p.1 p.2) self
                    (zip (accesses patch) (new_values patch)) in
      let self := recompute_root self in
      (Ok (root self), self)
  end.

(** ** reference_applier.rs *)

(** A [RefCell]: its contents and whether a borrow is outstanding. *)
Record ReferenceStateApplier : Type := mk_applier {
  accumulator : InMemoryAccumulator;
  borrowed : bool
}.

Definition ReferenceStateApplier_new (acc : InMemoryAccumulator) : ReferenceStateApplier :=
  mk_applier acc false.

(** [RefCell::borrow] would panic under a mutable borrow; none outlives a call. *)
Definition applier_state_root (self : ReferenceStateApplier) : Root := root (accumulator self).

(** The mutable borrow ends when the method returns. *)
#[export] Instance ReferenceStateApplier_apply : StateTransitionApplier ReferenceStateApplier :=
  fun pre_state_root patch self =>
    if borrowed self then
      (Err (Backend "reference state applier accumulator is already borrowed"), self)
    else
      let actual_root := root (accumulator self) in
      if decide (actual_root <> pre_state_root) then
        (Err (RootContinuityMismatch (mk_continuity_error pre_state_root actual_root)), self)
      else
        let '(r, acc) := apply_transition patch (accumulator self) in
        (map_ok mk_outcome r, mk_applier acc false).

End accumulator.

(** ** views.rs *)

Record ReadOnlyStateView : Type := mk_view {
  account_nonce : ExecutionAddress -> option u64;
  account_balance : ExecutionAddress -> option U256
}.

(** The [StateMetadata] trait of shell-primitives has the same two queries. *)
Record StateMetadata : Type := mk_metadata {
  sm_account_nonce : ExecutionAddress -> option u64;
  sm_account_balance : ExecutionAddress -> option U256
}.

(** The trait [ExecutionStateView] of shell-execution extends it with the root. *)
Record ExecutionStateView : Type := mk_execution_view {
  ev_metadata : StateMetadata;
  ev_state_root : Root
}.

Definition MetadataAdapter (inner : ReadOnlyStateView) : StateMetadata :=
  mk_metadata (account_nonce inner) (account_balance inner).

(** ** The abstract state *)

#[export] Instance uint_countable w : Countable (uint w).
Proof.
  apply (inj_countable uval (uint_try w)). intros x. apply uint_try_some.
  split; [done|apply uval_bound].
Defined.

Definition key_to_sum (k : StateKey) :
    array 20 + (array 20 * array 32) + (array 20 * u32) + array 32 + array 31 :=
  match k with
  | AccountHeader a => inl (inl (inl (inl a)))
  | StorageSlot a s => inl (inl (inl (inr (a, s))))
  | CodeChunk a i => inl (inl (inr (a, i)))
  | RawTreeKey r => inl (inr r)
  | Stem s => inr s
  end.

Definition key_of_sum
    (s : array 20 + (array 20 * array 32) + (array 20 * u32) + array 32 + array 31) : StateKey :=
  match s with
  | inl (inl (inl (inl a))) => AccountHeader a
  | inl (inl (inl (inr (a, s)))) => StorageSlot a s
  | inl (inl (inr (a, i))) => CodeChunk a i
  | inl (inr r) => RawTreeKey r
  | inr s => Stem s
  end.

#[export] Instance StateKey_countable : Countable StateKey.
Proof. apply (inj_countable' key_to_sum key_of_sum). by intros []. Defined.

Abbreviation AbstractState := (gmap StateKey (list byte)).

Definition leaf_entry (p : list byte * StoredLeaf) : StateKey * MockProgressiveByteList :=
  (sl_key p.2, sl_leaf_value p.2).

Definition abs (acc : InMemoryAccumulator) : AbstractState :=
  list_to_map (leaf_entry <$> leaves acc).

(** A patch writes each value at its key. *)
Definition apply_patch (patch : StatePatch) (s : AbstractState) : AbstractState :=
  foldl (fun s p => <[p.1 := p.2]> s) s (zip (accesses patch) (new_values patch)).

(** ** Orders *)

Definition increasing (ks : list StateKey) : Prop := Sorted key_lt ks.

Lemma is_lt_key_lt a b : is_lt (compare_state_keys a b) = true <-> key_lt a b.
Proof. apply is_lt_true. Qed.

Lemma Sorted_weaken {A} (R S : A -> A -> Prop) l :
  (forall a b, R a b -> S a b) -> Sorted R l -> Sorted S l.
Proof.
  intros HRS. induction 1 as [|a l Hs IH Hd]; constructor; [done|].
  destruct Hd; constructor; auto.
Qed.

Lemma Sorted_fmap {A B} (f : A -> B) (R : B -> B -> Prop) l :
  Sorted (fun a b => R (f a) (f b)) l <-> Sorted R (f <$> l).
Proof.
  induction l as [|a l IH]; simpl; [split; constructor|].
  split; inversion 1 as [|? ? Hs Hd]; subst; constructor; try (by apply IH).
  - destruct Hd; by constructor.
  - destruct l; inversion Hd; subst; by constructor.
Qed.

Lemma access_order_ok ks : ensure_canonical_access_order ks = Ok tt <-> increasing ks.
Proof.
  unfold ensure_canonical_access_order.
  rewrite (windows_ok (fun a b => is_lt (compare_state_keys a b))).
  split; apply Sorted_weaken; intros a b; rewrite Is_true_true; apply is_lt_key_lt.
Qed.

Lemma witness_order_ok ws : ensure_canonical_witness_order ws = Ok tt <-> increasing (sw_key <$> ws).
Proof.
  unfold ensure_canonical_witness_order, increasing.
  rewrite (windows_ok (fun a b => is_lt (compare_state_keys (sw_key a) (sw_key b)))), <- Sorted_fmap.
  split; apply Sorted_weaken; intros a b; rewrite Is_true_true; apply is_lt_key_lt.
Qed.

Lemma increasing_NoDup ks : increasing ks -> NoDup ks.
Proof.
  intros H%Sorted_StronglySorted; [|apply _].
  induction H as [|k ks Hs IH Hf]; constructor; [|done].
  intros Hin. rewrite Forall_forall in Hf. apply Hf in Hin. by apply (irreflexivity key_lt) in Hin.
Qed.

(** ** The invariant of the leaf map *)

Definition leaves_ok (m : omap StoredLeaf) : Prop :=
  om_sorted m /\ Forall (fun p => p.1 = encode_state_key (sl_key p.2)) m.

Lemma leaves_ok_nil : leaves_ok [].
Proof. split; constructor. Qed.

Lemma Forall_om_insert {V} (P : list byte * V -> Prop) k v m :
  P (k, v) -> Forall P m -> Forall P (om_insert k v m).
Proof.
  intros Hk Hm. induction Hm as [|[k' v'] m Hp Hm IH]; simpl; [by repeat constructor|].
  destruct (bytes_cmp k k'); repeat constructor; auto.
Qed.

Lemma leaves_ok_insert k v m :
  leaves_ok m -> leaves_ok (om_insert (encode_state_key k) (mk_leaf k v) m).
Proof. intros [Hs Hf]. split; [by apply om_insert_sorted | by apply Forall_om_insert]. Qed.

Lemma leaves_ok_fold l acc :
  leaves_ok (leaves acc) ->
  leaves_ok (leaves (foldl (fun self p => apply_leaf self p.1 p.2) acc l)).
Proof.
  revert acc. induction l as [|p l IH]; intros acc Hok; [done|]. simpl. apply IH.
  by apply leaves_ok_insert.
Qed.

Lemma abs_lookup acc k :
  leaves_ok (leaves acc) ->
  abs acc !! k = sl_leaf_value <$> om_get (encode_state_key k) (leaves acc).
Proof.
  unfold abs. intros [Hs Hf]. destruct acc as [m r]; simpl in *. clear r.
  induction Hs as [|kb [k' v] m Hm Hs IH]; [done|].
  apply Forall_cons in Hf as [Hkb Hf]. simpl in Hkb. subst kb. specialize (IH Hf).
  rewrite fmap_cons. cbn [om_get]. unfold leaf_entry at 1. cbn [snd sl_key sl_leaf_value].
  rewrite list_to_map_cons.
  destruct (bytes_cmp (encode_state_key k) (encode_state_key k')) eqn:E.
  - apply bytes_cmp_eq, encode_state_key_inj in E as ->. by rewrite lookup_insert, decide_True.
  - rewrite lookup_insert_ne by (intros ->; by rewrite bytes_cmp_refl in E). etrans; [exact IH|].
    rewrite om_get_above; [done|]. eapply Forall_impl; [exact Hm|]. intros p Hp. by etrans.
  - rewrite lookup_insert_ne by (intros ->; by rewrite bytes_cmp_refl in E). exact IH.
Qed.

Lemma abs_apply_leaf acc k v :
  leaves_ok (leaves acc) -> abs (apply_leaf acc k v) = <[k := v]> (abs acc).
Proof.
  intros Hok. apply map_eq. intros i.
  rewrite abs_lookup by (by apply leaves_ok_insert). simpl.
  rewrite om_get_insert by apply Hok. case_decide as Hd.
  - apply encode_state_key_inj in Hd as ->. by rewrite lookup_insert, decide_True.
  - rewrite lookup_insert_ne by congruence. by rewrite abs_lookup.
Qed.

Lemma abs_fold l acc :
  leaves_ok (leaves acc) ->
  abs (foldl (fun self p => apply_leaf self p.1 p.2) acc l) =
  foldl (fun s p => <[p.1 := p.2]> s) (abs acc) l.
Proof.
  revert acc. induction l as [|p l IH]; intros acc Hok; [done|]. simpl.
  rewrite IH by (by apply leaves_ok_insert). by rewrite abs_apply_leaf.
Qed.

Section state_lemmas.
Context `{SHA : Sha256}.

(** Accumulators reached from [new] by transitions, failing ones included. *)
Inductive reachable : InMemoryAccumulator -> Prop :=
| reach_new : reachable InMemoryAccumulator_new
| reach_step acc patch r acc' :
    reachable acc -> apply_transition patch acc = (r, acc') -> reachable acc'.

Definition patch_ok (patch : StatePatch) : Prop :=
  length (accesses patch) = length (new_values patch) /\ increasing (accesses patch).

Lemma patch_checks_ok patch :
  (validate_shape patch ?;; ensure_canonical_access_order (accesses patch)) = Ok tt <-> patch_ok patch.
Proof.
  rewrite bind_result_ok. setoid_rewrite access_order_ok. unfold validate_shape, patch_ok. split.
  - intros (? & H & ?). case_decide; [done|]. split; [lia|done].
  - intros [H ?]. exists tt. rewrite decide_False by lia. done.
Qed.

Lemma apply_transition_ok patch acc :
  patch_ok patch ->
  apply_transition patch acc =
  let acc' := recompute_root (foldl (fun self p => apply_leaf self p.1 p.2) acc
                 (zip (accesses patch) (new_values patch))) in
  (Ok (root acc'), acc').
Proof. intros H%patch_checks_ok. unfold apply_transition. by rewrite H. Qed.

Lemma apply_transition_inv patch acc r acc' :
  apply_transition patch acc = (r, acc') ->
  (patch_ok patch /\ r = Ok (root acc') /\
   acc' = recompute_root (foldl (fun self p => apply_leaf self p.1 p.2) acc
            (zip (accesses patch) (new_values patch)))) \/
  (~ patch_ok patch /\ acc' = acc /\
   exists e, r = Err e /\ (validate_shape patch ?;; ensure_canonical_access_order (accesses patch)) = Err e).
Proof.
  unfold apply_transition.
  destruct (validate_shape patch ?;; ensure_canonical_access_order (accesses patch)) as [[]|e] eqn:E;
    intros [= <- <-].
  - left. apply patch_checks_ok in E. done.
  - right. split_and!; [|done|by eauto]. intros H%patch_checks_ok. congruence.
Qed.

Lemma reachable_inv acc :
  reachable acc ->
  leaves_ok (leaves acc) /\
  (acc = InMemoryAccumulator_new \/ root acc = compute_reference_root (leaves acc)).
Proof.
  induction 1 as [|acc patch r acc' _ [Hok Hr] Hstep].
  - split; [apply leaves_ok_nil | by left].
  - apply apply_transition_inv in Hstep as [(_ & _ & ->)|(_ & -> & _)]; [|done].
    split; [by apply leaves_ok_fold | by right].
Qed.

(** ** Witness verification *)

(** On a well-formed accumulator a proof path's own checks can only fail on the
    root and on the value: the neighbours are always on the right sides. *)
Lemma path_verify acc k p w r :
  leaves_ok (leaves acc) -> proof_path_for_access acc k = Ok p -> sw_key w = k ->
  proof_path_verify_witness p w r =
  if decide (root acc <> r) then
    Err (WitnessVerificationFailed "reference proof path was built against a different state root")
  else if decide (pl_leaf_value (pp_leaf p) <> sw_leaf_value w) then
    Err (WitnessVerificationFailed "reference proof leaf does not match witness value")
  else Ok tt.
Proof.
  intros [Hs Hf] Hp <-. unfold proof_path_for_access in Hp. inv_ok. subst p.
  unfold proof_path_verify_witness.
  cbn [pp_expected_root pp_leaf left_neighbor right_neighbor pl_key pl_leaf_value from_stored_leaf].
  case_decide; [done|]. rewrite Forall_forall in Hf.
  assert (sl_key a = sw_key w) as Hk.
  { apply om_get_elem, Hf in Ha; [|done]. by apply encode_state_key_inj in Ha. }
  rewrite (decide_False (P := sl_key a <> _)) by congruence. case_decide; [done|].
  destruct (om_below _ _) as [[kb l]|] eqn:Hb;
    destruct (om_above _ _) as [[ka r']|] eqn:Hab; cbn [fmap option_fmap option_map pl_key fst snd from_stored_leaf].
  all: try (apply om_below_spec in Hb as [Hbin Hb]; apply Hf in Hbin; simpl in *; subst kb;
            rewrite (proj2 (is_lt_key_lt _ _)) by exact Hb).
  all: try (apply om_above_spec in Hab as [Hain Hab]; apply Hf in Hain; simpl in *; subst ka;
            rewrite (proj2 (is_lt_key_lt _ _)) by exact Hab).
  all: done.
Qed.

Lemma path_access acc k :
  leaves_ok (leaves acc) ->
  match abs acc !! k with
  | Some v => exists p, proof_path_for_access acc k = Ok p /\ pl_leaf_value (pp_leaf p) = v
  | None => proof_path_for_access acc k =
              Err (Backend "reference backend only supports proof paths for materialized keys")
  end.
Proof.
  intros Hok. rewrite abs_lookup by done. unfold proof_path_for_access.
  destruct (om_get _ _) as [leaf|]; simpl; [|done]. eexists. split; [done|]. done.
Qed.

Lemma access_witness acc k :
  leaves_ok (leaves acc) ->
  (let? p := proof_path_for_access acc k in Ok (mk_witness k (pl_leaf_value (pp_leaf p)) [])) =
  match abs acc !! k with
  | Some v => Ok (mk_witness k v [])
  | None => Err (Backend "reference backend only supports proof paths for materialized keys")
  end.
Proof.
  intros Hok. pose proof (path_access acc k Hok) as Hp. destruct (abs acc !! k).
  - destruct Hp as (p & -> & <-). done.
  - by rewrite Hp.
Qed.

(** What the verifier answers, as a function of the abstract state. *)
Definition verify_spec (s : AbstractState) (state_root : Root) (w : StateWitness) (expected : Root)
    : result unit StateError :=
  if decide (sw_proof w <> []) then Err (UnsupportedProofShape REFERENCE_BACKEND_PROOF_SHAPE_CONTEXT)
  else match s !! sw_key w with
  | None => Err (Backend "reference backend only supports proof paths for materialized keys")
  | Some v =>
      if decide (v <> sw_leaf_value w) then
        Err (WitnessVerificationFailed "reference proof leaf does not match witness value")
      else if decide (state_root <> expected) then
        Err (WitnessVerificationFailed "reference proof path was built against a different state root")
      else Ok tt
  end.

Lemma verify_witness_spec acc w r :
  leaves_ok (leaves acc) -> verify_witness acc w r = verify_spec (abs acc) (root acc) w r.
Proof.
  intros Hok. unfold verify_witness, InMemoryAccumulator_verifier, derive_proof_path, verify_spec.
  unfold ensure_reference_backend_proof_shape, proof_shape.
  destruct (sw_proof w) as [|c proof]; [|rewrite decide_True by done; done].
  rewrite decide_False by naive_solver. cbn [bind_result].
  pose proof (path_access acc (sw_key w) Hok) as Hp. destruct (abs acc !! sw_key w) as [v|].
  - destruct Hp as (p & Hp & <-). rewrite Hp. cbn [bind_result].
    rewrite (path_verify acc _ p w (root acc) Hok Hp eq_refl), decide_False by naive_solver.
    case_decide; [done|]. cbn [bind_result].
    rewrite (path_verify acc _ p w r Hok Hp eq_refl). repeat case_decide; naive_solver.
  - by rewrite Hp.
Qed.

Lemma verify_spec_ok s sr w r :
  verify_spec s sr w r = Ok tt <->
  sw_proof w = [] /\ s !! sw_key w = Some (sw_leaf_value w) /\ r = sr.
Proof.
  unfold verify_spec. destruct (sw_proof w); [|rewrite decide_True by done; naive_solver].
  rewrite decide_False by naive_solver. destruct (s !! sw_key w); [|naive_solver].
  case_decide; [naive_solver|]. case_decide; naive_solver.
Qed.

(** ** Neighbours *)

Lemma abs_entry acc k :
  leaves_ok (leaves acc) -> is_Some (abs acc !! k) ->
  exists leaf, (encode_state_key k, leaf) ∈ leaves acc.
Proof.
  intros Hok [v Hv]. rewrite abs_lookup in Hv by done. apply fmap_Some in Hv as (leaf & Hg & _).
  exists leaf. apply om_get_elem; [apply Hok|done].
Qed.

Lemma left_neighbor_tight acc k p k' :
  leaves_ok (leaves acc) -> proof_path_for_access acc k = Ok p ->
  is_Some (abs acc !! k') -> key_lt k' k ->
  exists l, left_neighbor p = Some l /\ (k' = pl_key l \/ key_lt k' (pl_key l)) /\ key_lt (pl_key l) k.
Proof.
  intros Hok Hp [leaf Hin]%abs_entry Hlt; [|done]. unfold proof_path_for_access in Hp. inv_ok. subst p.
  destruct Hok as [Hs Hf]. rewrite Forall_forall in Hf. cbn [left_neighbor].
  destruct (om_below _ (leaves acc)) as [[kb l]|] eqn:Hb.
  - exists (from_stored_leaf kb l). split; [done|].
    pose proof (om_below_max _ _ _ _ Hs Hb Hin Hlt) as Hmax.
    apply om_below_spec in Hb as [Hbin Hb]. apply Hf in Hbin. simpl in *. subst kb. split; [|done].
    destruct Hmax as [[= Heq _]|?]; [left; by apply encode_state_key_inj|by right].
  - exfalso. apply last_None in Hb.
    assert ((encode_state_key k', leaf) ∈ filter (fun p => bytes_lt p.1 (encode_state_key k)) (leaves acc))
      as Hbad by (by apply list_elem_of_filter). rewrite Hb in Hbad. by apply elem_of_nil in Hbad.
Qed.

Lemma right_neighbor_tight acc k p k' :
  leaves_ok (leaves acc) -> proof_path_for_access acc k = Ok p ->
  is_Some (abs acc !! k') -> key_lt k k' ->
  exists r, right_neighbor p = Some r /\ (k' = pl_key r \/ key_lt (pl_key r) k') /\ key_lt k (pl_key r).
Proof.
  intros Hok Hp [leaf Hin]%abs_entry Hlt; [|done]. unfold proof_path_for_access in Hp. inv_ok. subst p.
  destruct Hok as [Hs Hf]. rewrite Forall_forall in Hf. cbn [right_neighbor].
  destruct (om_above _ (leaves acc)) as [[kb l]|] eqn:Hb.
  - exists (from_stored_leaf kb l). split; [done|].
    pose proof (om_above_min _ _ _ _ Hs Hb Hin Hlt) as Hmin.
    apply om_above_spec in Hb as [Hbin Hb]. apply Hf in Hbin. simpl in *. subst kb. split; [|done].
    destruct Hmin as [[= Heq _]|?]; [left; by apply encode_state_key_inj|by right].
  - exfalso. apply head_None in Hb.
    assert ((encode_state_key k', leaf) ∈ filter (fun p => bytes_lt (encode_state_key k) p.1) (leaves acc))
      as Hbad by (by apply list_elem_of_filter). rewrite Hb in Hbad. by apply elem_of_nil in Hbad.
Qed.

Lemma checks_not_borrow_error patch e :
  (validate_shape patch ?;; ensure_canonical_access_order (accesses patch)) = Err e ->
  e <> Backend "reference state applier accumulator is already borrowed".
Proof.
  intros [H|(? & _ & H)]%bind_result_err.
  - unfold validate_shape in H. case_decide; congruence.
  - unfold ensure_canonical_access_order in H.
    apply (windows_err (fun a b => is_lt (compare_state_keys a b)) (fun index =>
      NonCanonicalWitnessOrdering (mk_ordering_error (index + 1)
           "access keys must be strictly increasing in canonical StateKey order"))) in H.
    naive_solver.
Qed.

(** ** The root *)

Definition root_queries (acc : InMemoryAccumulator) : list (list byte) :=
  root_preimage (leaves acc) :: ((fun p => leaf_preimage p.1 p.2) <$> leaves acc).

Lemma leaf_preimage_inj k k' l l' :
  leaf_preimage (encode_state_key k) l = leaf_preimage (encode_state_key k') l' ->
  k = k' /\ sl_leaf_value l = sl_leaf_value l'.
Proof.
  unfold leaf_preimage. intros H%app_inv_head.
  apply app_inj_1 in H as [_ H]; [|by rewrite !length_be_bytes].
  apply encode_state_key_app_inj in H as [-> H]. split; [done|].
  apply app_inj_1 in H as [_ H]; [done|by rewrite !length_be_bytes].
Qed.

Lemma digests_inj Q m1 m2 :
  collision_free Q -> leaves_ok m1 -> leaves_ok m2 ->
  ((fun p => leaf_preimage p.1 p.2) <$> m1) ⊆ Q -> ((fun p => leaf_preimage p.1 p.2) <$> m2) ⊆ Q ->
  concat ((fun p => elems (reference_leaf_digest p.1 p.2)) <$> m1) =
  concat ((fun p => elems (reference_leaf_digest p.1 p.2)) <$> m2) -> m1 = m2.
Proof.
  intros HQ [_ H1] [_ H2]. revert m2 H2.
  induction H1 as [|[kb [k v]] m1 Hp H1 IH]; intros [|[kb' [k' v']] m2] H2 Hq1 Hq2 Heq; [done|..].
  - apply (f_equal length) in Heq. simpl in Heq. rewrite length_app, elems_length in Heq. lia.
  - apply (f_equal length) in Heq. simpl in Heq. rewrite length_app, elems_length in Heq. lia.
  - cbn [fmap list_fmap concat fst snd] in *. apply array_app_inj in Heq as [Hd Heq].
    apply Forall_cons in H2 as [Hp' H2]. simpl in Hp, Hp'. subst kb kb'.
    rewrite queries_cons in Hq1, Hq2. destruct Hq1 as [Ha Hq1], Hq2 as [Hb Hq2].
    apply HQ, leaf_preimage_inj in Hd as [-> Hv]; [|done..]. simpl in Hv. subst v'.
    f_equal. by apply IH.
Qed.

Lemma compute_reference_root_inj Q m1 m2 :
  collision_free Q -> leaves_ok m1 -> leaves_ok m2 ->
  root_preimage m1 ∈ Q -> root_preimage m2 ∈ Q ->
  ((fun p => leaf_preimage p.1 p.2) <$> m1) ⊆ Q -> ((fun p => leaf_preimage p.1 p.2) <$> m2) ⊆ Q ->
  compute_reference_root m1 = compute_reference_root m2 -> m1 = m2.
Proof.
  intros HQ Hm1 Hm2 H1 H2 Hq1 Hq2 Heq. apply HQ in Heq; [|done..].
  apply app_inv_head in Heq. by eapply digests_inj.
Qed.

(** The leaf list is a function of the abstract state. *)
Lemma leaves_elem m k v :
  leaves_ok m -> (encode_state_key k, mk_leaf k v) ∈ m <-> abs (mk_acc m (zeros 32)) !! k = Some v.
Proof.
  intros Hok. rewrite abs_lookup by done. destruct Hok as [Hs Hf]. cbn [leaves].
  rewrite fmap_Some. rewrite Forall_forall in Hf. split.
  - intros Hin. exists (mk_leaf k v). split; [by apply om_get_elem|done].
  - intros ([k' v'] & Hg & ->). apply om_get_elem in Hg; [|done].
    apply Hf in Hg as Hk. simpl in Hk. apply encode_state_key_inj in Hk as ->. done.
Qed.

Lemma leaves_canonical a b :
  leaves_ok (leaves a) -> leaves_ok (leaves b) -> abs a = abs b -> leaves a = leaves b.
Proof.
  intros Ha Hb Heq. apply om_sorted_ext; [apply Ha|apply Hb|].
  assert (forall m m' p, leaves_ok m -> leaves_ok m' ->
    abs (mk_acc m (zeros 32)) = abs (mk_acc m' (zeros 32)) -> p ∈ m -> p ∈ m') as Hsub.
  { intros m m' [kb [k v]] Hm Hm' He Hin. pose proof Hm as [_ Hf]. rewrite Forall_forall in Hf.
    pose proof (Hf _ Hin) as Hk. simpl in Hk. subst kb.
    apply leaves_elem; [done|]. rewrite <- He. by apply leaves_elem. }
  intros p. split; by apply Hsub.
Qed.

End state_lemmas.

(** ** Theorems *)

Section state_theorems.
Context `{SHA : Sha256}.

(** C3: The accumulator implements the abstract state: from any accumulator reached
    from [new], a transition whose patch has as many values as accesses and whose
    accesses strictly increase succeeds, writes exactly the patch into the state,
    and returns the recomputed root, which is also the stored one; any other patch
    is refused and leaves the accumulator as it was. *)
Theorem apply_transition_refines acc patch r acc' :
  reachable acc -> apply_transition patch acc = (r, acc') ->
  (patch_ok patch -> r = Ok (root acc') /\ abs acc' = apply_patch patch (abs acc) /\
                     root acc' = compute_reference_root (leaves acc')) /\
  (~ patch_ok patch -> acc' = acc /\ exists e, r = Err e).
Proof.
  intros [Hok _]%reachable_inv [(Hp & -> & ->)|(Hp & -> & e & -> & _)]%apply_transition_inv.
  - split; [|done]. intros _. split_and!; [done| |done]. by apply abs_fold.
  - split; [done|eauto].
Qed.

(** C29: State roots do not depend on history: two accumulators, each reached by at
    least one successful transition, that hold the same keys and values have the
    same leaves in the same order and the same root. *)
Theorem state_root_history_independent a b :
  reachable a -> reachable b -> a <> InMemoryAccumulator_new -> b <> InMemoryAccumulator_new ->
  abs a = abs b -> a = b.
Proof.
  intros [Ha [?|Hra]]%reachable_inv [Hb [?|Hrb]]%reachable_inv Hna Hnb Heq; try done.
  apply leaves_canonical in Heq; [|done..]. destruct a, b; simpl in *. congruence.
Qed.

(** C18: State roots bind the state: if SHA-256 has no collision among the strings
    hashed for two accumulators reached by at least one transition, equal roots
    come from equal states. *)
Theorem state_root_binding a b :
  reachable a -> reachable b -> a <> InMemoryAccumulator_new -> b <> InMemoryAccumulator_new ->
  collision_free (root_queries a ++ root_queries b) -> root a = root b -> abs a = abs b.
Proof.
  intros [Ha [?|Hra]]%reachable_inv [Hb [?|Hrb]]%reachable_inv Hna Hnb HQ Heq; try done.
  unfold abs. f_equal. f_equal. rewrite Hra, Hrb in Heq. unfold root_queries in HQ.
  eapply compute_reference_root_inj; [exact HQ|done|done|set_solver..|done].
Qed.

(** What witness verification decides, on every branch: on a reachable
    accumulator a witness is refused for a committed proof first, then for a key
    that is not in the state, then for a value other than the stored one, then for
    an expected root other than the accumulator's, and accepted otherwise.  The
    checks on the neighbours of a proof path never fail. *)
Theorem verify_witness_exact acc w expected :
  reachable acc -> verify_witness acc w expected = verify_spec (abs acc) (root acc) w expected.
Proof. intros [Hok _]%reachable_inv. by apply verify_witness_spec. Qed.

(** C19: A witness list is accepted exactly when its keys strictly increase in
    canonical order and every witness carries an empty proof and the stored value
    of its key, and the expected root is the accumulator's (unless the list is
    empty). *)
Theorem verify_witnesses_iff acc ws expected :
  reachable acc ->
  verify_witnesses acc ws expected = Ok tt <->
  increasing (sw_key <$> ws) /\
  Forall (fun w => sw_proof w = [] /\ abs acc !! sw_key w = Some (sw_leaf_value w) /\
                   expected = root acc) ws.
Proof.
  intros [Hok _]%reachable_inv. unfold verify_witnesses.
  rewrite then_ok, witness_order_ok, for_each_ok. apply and_iff_compat_l, Forall_proper; [|done].
  intros w. by rewrite verify_witness_spec, verify_spec_ok.
Qed.

(** C30: Proving and verifying agree: [get_witness_for_accesses] succeeds exactly on
    strictly increasing lists of keys of the state, and then returns, in that
    order, witnesses that [verify_witnesses] accepts against the current root. *)
Theorem get_witness_roundtrip acc ks :
  reachable acc ->
  (is_ok (get_witness_for_accesses acc ks) = true <->
   increasing ks /\ Forall (fun k => is_Some (abs acc !! k)) ks) /\
  (forall ws, get_witness_for_accesses acc ks = Ok ws ->
     sw_key <$> ws = ks /\ verify_witnesses acc ws (root acc) = Ok tt).
Proof.
  intros [Hok _]%reachable_inv. unfold get_witness_for_accesses. split.
  - rewrite then_is_ok, access_order_ok, collect_is_ok.
    apply and_iff_compat_l, Forall_proper; [|done]. intros k. rewrite access_witness by done.
    destruct (abs acc !! k); simpl; split; naive_solver.
  - intros ws [Hord%access_order_ok Hws%collect_ok]%then_ok.
    assert (sw_key <$> ws = ks /\ Forall (fun w => sw_proof w = [] /\
      abs acc !! sw_key w = Some (sw_leaf_value w)) ws) as [Hks Hall].
    { clear Hord. induction Hws as [|k w ks ws Hw Hws [IH1 IH2]]; [done|].
      rewrite access_witness in Hw by done. destruct (abs acc !! k) eqn:E; inv_ok. subst w.
      split; [by rewrite fmap_cons, IH1 | by constructor]. }
    split; [done|]. apply then_ok. rewrite witness_order_ok, for_each_ok, Hks. split; [done|].
    eapply Forall_impl; [exact Hall|]. intros w [? ?].
    by rewrite verify_witness_spec, verify_spec_ok.
Qed.

(** Proof paths are tight: the path derived for a key of a reachable
    accumulator names that key's stored value, and its neighbours are the nearest
    keys of the state on each side: nothing in the state lies strictly between
    them, and a missing neighbour means the state has no key on that side. *)
Theorem proof_path_neighbors_tight acc k p :
  reachable acc -> proof_path_for_access acc k = Ok p ->
  abs acc !! k = Some (pl_leaf_value (pp_leaf p)) /\
  (forall k', is_Some (abs acc !! k') -> key_lt k' k ->
     exists l, left_neighbor p = Some l /\ (k' = pl_key l \/ key_lt k' (pl_key l)) /\ key_lt (pl_key l) k) /\
  (forall k', is_Some (abs acc !! k') -> key_lt k k' ->
     exists r, right_neighbor p = Some r /\ (k' = pl_key r \/ key_lt (pl_key r) k') /\ key_lt k (pl_key r)).
Proof.
  intros [Hok _]%reachable_inv Hp. pose proof (path_access acc k Hok) as Hv.
  split; [|split].
  - destruct (abs acc !! k); [destruct Hv as (p' & Hp' & <-)|]; congruence.
  - intros k' Hk' Hlt. eapply left_neighbor_tight; done.
  - intros k' Hk' Hlt. eapply right_neighbor_tight; done.
Qed.

(** Order errors point at the first offence: [ensure_canonical_access_order]
    reports index [i + 1] exactly when the keys before that position strictly
    increase and the key at [i + 1] does not exceed the one before it. *)
Theorem access_order_error_index ks i :
  ensure_canonical_access_order ks =
    Err (NonCanonicalWitnessOrdering (mk_ordering_error (S i)
           "access keys must be strictly increasing in canonical StateKey order")) <->
  exists a b, ks !! i = Some a /\ ks !! S i = Some b /\ ~ key_lt a b /\ increasing (take (S i) ks).
Proof.
  unfold ensure_canonical_access_order, increasing.
  rewrite (windows_err (fun a b => is_lt (compare_state_keys a b)) (fun index =>
      NonCanonicalWitnessOrdering (mk_ordering_error (index + 1)
           "access keys must be strictly increasing in canonical StateKey order"))).
  assert (forall l, Sorted (fun a b => is_lt (compare_state_keys a b)) l <-> Sorted key_lt l) as Hs.
  { intros l. split; apply Sorted_weaken; intros a b; rewrite Is_true_true; apply is_lt_key_lt. }
  split.
  - intros (j & a & b & Ha & Hb & HR & [= Hj] & Hl). rewrite Hs in Hl.
    replace j with i in * by lia. exists a, b. rewrite <- is_lt_key_lt. naive_solver congruence.
  - intros (a & b & Ha & Hb & HR & Hl). exists i, a, b. rewrite Hs. rewrite <- is_lt_key_lt in HR.
    rewrite Nat.add_1_r. destruct (is_lt _); naive_solver.
Qed.

(** The reference applier keeps root continuity: outside a borrow it applies a
    patch exactly when the caller's pre-state root is the accumulator's current
    root and the patch is well formed; it then returns the accumulator's new root
    and holds no borrow.  Every failure leaves the applier as it was, and the
    borrow error never occurs. *)
Theorem applier_root_continuity self pre patch r self' :
  borrowed self = false ->
  applier_apply_transition pre patch self = (r, self') ->
  borrowed self' = false /\
  (is_ok r = true <-> pre = applier_state_root self /\ patch_ok patch) /\
  (forall out, r = Ok out ->
     post_state_root out = applier_state_root self' /\
     apply_transition patch (accumulator self) = (Ok (post_state_root out), accumulator self')) /\
  (forall e, r = Err e -> self' = self /\
     e <> Backend "reference state applier accumulator is already borrowed").
Proof.
  intros Hb. unfold applier_apply_transition, ReferenceStateApplier_apply, applier_state_root.
  rewrite Hb. case_decide as Hd.
  { intros [= <- <-]. simpl. split_and!; naive_solver. }
  destruct (apply_transition patch (accumulator self)) as [r0 acc] eqn:E. intros [= <- <-].
  apply apply_transition_inv in E as E'. destruct E' as [(Hp & -> & _)|(Hp & -> & e & -> & He)]; simpl.
  - split_and!; try done. naive_solver.
  - apply checks_not_borrow_error in He. destruct self; simpl in *. subst. split_and!; naive_solver.
Qed.

End state_theorems.

(** ** Witnesses *)

Definition sample_key1 : StateKey := AccountHeader (padded 20 (replicate 20 Byte.x11)).
Definition sample_key2 : StateKey :=
  StorageSlot (padded 20 (replicate 20 Byte.x11)) (padded 32 (replicate 32 Byte.x22)).
Definition sample_patch : StatePatch := mk_patch [sample_key1; sample_key2] [[Byte.x01]; [Byte.x02; Byte.x03]].
Definition sample_acc : InMemoryAccumulator :=
  (apply_transition (SHA := sha2) sample_patch InMemoryAccumulator_new).2.
(** The same state, written one key at a time in the other order. *)
Definition sample_acc' : InMemoryAccumulator :=
  (apply_transition (SHA := sha2) (mk_patch [sample_key1] [[Byte.x01]])
    (apply_transition (SHA := sha2) (mk_patch [sample_key2] [[Byte.x02; Byte.x03]])
       InMemoryAccumulator_new).2).2.

Lemma apply_transition_reachable `{SHA : Sha256} patch acc :
  reachable acc -> reachable (apply_transition patch acc).2.
Proof. intros H. eapply reach_step; [exact H|]. apply surjective_pairing. Qed.

Lemma sample_acc_reachable : reachable (SHA := sha2) sample_acc.
Proof. apply apply_transition_reachable, reach_new. Qed.
Lemma sample_acc'_reachable : reachable (SHA := sha2) sample_acc'.
Proof. apply apply_transition_reachable, apply_transition_reachable, reach_new. Qed.
Lemma sample_not_new : sample_acc <> InMemoryAccumulator_new /\ sample_acc' <> InMemoryAccumulator_new.
Proof. split; intros H%(f_equal (fun a => length (leaves a))); by vm_compute in H. Qed.
Lemma sample_patch_ok : patch_ok sample_patch.
Proof. split; [done|]. repeat constructor. Qed.

Lemma sample_abs_eq : abs sample_acc = abs sample_acc'.
Proof.
  assert (leaves sample_acc = leaves sample_acc') as H by (vm_compute; reflexivity).
  unfold abs. by rewrite H.
Qed.

Lemma sample_lookups :
  abs sample_acc !! sample_key1 = Some [Byte.x01] /\
  abs sample_acc !! sample_key2 = Some [Byte.x02; Byte.x03].
Proof.
  pose proof (reachable_inv (SHA := sha2) _ sample_acc_reachable) as [Hok _].
  rewrite !abs_lookup by exact Hok. split; vm_compute; reflexivity.
Qed.

Lemma apply_transition_refines_witness :
  abs sample_acc = apply_patch sample_patch (abs InMemoryAccumulator_new).
Proof.
  apply (apply_transition_refines (SHA := sha2) InMemoryAccumulator_new sample_patch
    (apply_transition (SHA := sha2) sample_patch InMemoryAccumulator_new).1 sample_acc
    (reach_new (SHA := sha2)) (surjective_pairing _)).
  apply sample_patch_ok.
Defined.

Lemma state_root_history_independent_witness : sample_acc = sample_acc'.
Proof.
  apply (state_root_history_independent (SHA := sha2)).
  - apply sample_acc_reachable.
  - apply sample_acc'_reachable.
  - apply sample_not_new.
  - apply sample_not_new.
  - apply sample_abs_eq.
Defined.

Lemma state_root_binding_witness : abs sample_acc = abs sample_acc'.
Proof.
  apply (state_root_binding (SHA := sha2)).
  - apply sample_acc_reachable.
  - apply sample_acc'_reachable.
  - apply sample_not_new.
  - apply sample_not_new.
  - apply collision_free_b_ok. vm_compute. reflexivity.
  - vm_compute. reflexivity.
Defined.

Lemma verify_witness_exact_witness :
  verify_witness sample_acc (mk_witness sample_key1 [Byte.x01] []) (root sample_acc) =
  verify_spec (abs sample_acc) (root sample_acc) (mk_witness sample_key1 [Byte.x01] []) (root sample_acc).
Proof. apply (verify_witness_exact (SHA := sha2)), sample_acc_reachable. Defined.

Lemma verify_witnesses_iff_witness :
  verify_witnesses sample_acc [mk_witness sample_key1 [Byte.x01] []] (root sample_acc) = Ok tt.
Proof.
  apply (verify_witnesses_iff (SHA := sha2) _ _ _ sample_acc_reachable). split; [repeat constructor|].
  apply Forall_cons. split; [|apply Forall_nil_2].
  split; [reflexivity|]. split; [apply sample_lookups|reflexivity].
Defined.

Lemma get_witness_roundtrip_witness :
  is_ok (get_witness_for_accesses sample_acc [sample_key1; sample_key2]) = true.
Proof.
  apply (get_witness_roundtrip (SHA := sha2) _ [sample_key1; sample_key2] sample_acc_reachable).
  split; [repeat constructor|].
  repeat (apply Forall_cons; split; [eexists; apply sample_lookups|]). apply Forall_nil_2.
Defined.

Lemma proof_path_neighbors_tight_witness :
  abs sample_acc !! sample_key2 = Some [Byte.x02; Byte.x03].
Proof.
  apply (proof_path_neighbors_tight (SHA := sha2) sample_acc sample_key2
    (mk_proof_path (root sample_acc)
       (mk_proof_leaf sample_key2 (encode_state_key sample_key2) [Byte.x02; Byte.x03])
       (Some (mk_proof_leaf sample_key1 (encode_state_key sample_key1) [Byte.x01])) None)
    sample_acc_reachable).
  vm_compute. reflexivity.
Defined.

Lemma applier_root_continuity_witness :
  borrowed (applier_apply_transition (StateTransitionApplier := ReferenceStateApplier_apply (SHA := sha2))
    (zeros 32) sample_patch (ReferenceStateApplier_new InMemoryAccumulator_new)).2 = false.
Proof.
  apply (applier_root_continuity (SHA := sha2) (ReferenceStateApplier_new InMemoryAccumulator_new) (zeros 32)
    sample_patch _ _ eq_refl (surjective_pairing _)).
Defined.
