(* ===== verification/StateSpec.v ===== *)
(** * shell-state: the accumulator against an abstract machine

    The trait [StateAccumulator] of [accumulator.rs] as a class, and a specification of
    what its implementations promise: a machine whose state is a finite map from keys
    to values.  A [LawfulAccumulator] answers every sequence of requests exactly as
    that machine does, errors and their contexts included; clients can then reason
    about the map.  [InMemoryAccumulator] is lawful. *)

From S2P Require Import Prelude Primitives StateKeys Hash Sha256 OrdMap State.

(** ** The trait *)

Class StateAccumulator (A : Type) : Type := {
  sa_get_witness_for_accesses : A -> list StateKey -> result (list StateWitness) StateError;
  sa_apply_transition : StatePatch -> M A StateError Root;
  sa_state_root : A -> Root
}.

#[export] Instance InMemoryAccumulator_accumulator `{Sha256} : StateAccumulator InMemoryAccumulator := {
  sa_get_witness_for_accesses := get_witness_for_accesses;
  sa_apply_transition := apply_transition;
  sa_state_root := root
}.

(** ** Requests *)

(** What a client of an accumulator that also verifies witnesses can ask. *)
Inductive Request : Type :=
| Transition (patch : StatePatch)
| Witnesses (accesses : list StateKey)
| Verify (witnesses : list StateWitness) (expected_state_root : Root)
| AskRoot.

Inductive Response : Type :=
| TransitionAnswer (r : result Root StateError)
| WitnessAnswer (r : result (list StateWitness) StateError)
| VerifyAnswer (r : result unit StateError)
| RootAnswer (r : Root).

Definition serve `{StateAccumulator A, WitnessVerifier A} (q : Request) (a : A) : Response * A :=
  match q with
  | Transition patch => let '(r, a) := sa_apply_transition patch a in (TransitionAnswer r, a)
  | Witnesses accesses => (WitnessAnswer (sa_get_witness_for_accesses a accesses), a)
  | Verify ws expected => (VerifyAnswer (verify_witnesses a ws expected), a)
  | AskRoot => (RootAnswer (sa_state_root a), a)
  end.

(** The state a machine is left in. *)
Definition after {S} (step : Request -> S -> Response * S) (qs : list Request) (s : S) : S :=
  foldl (fun s q => (step q s).2) s qs.

(** The answers of a machine to a sequence of requests. *)
Fixpoint trace {S} (step : Request -> S -> Response * S) (qs : list Request) (s : S) : list Response :=
  match qs with
  | [] => []
  | q :: qs => let '(r, s) := step q s in r :: trace step qs s
  end.

(** ** The abstract machine *)

Record Ledger : Type := mk_ledger {
  entries : AbstractState;
  written : bool
}.

Definition Ledger_new : Ledger := mk_ledger ∅ false.

(** Entries in the order of their keys. *)
Definition key_le (a b : StateKey) : Prop := a = b \/ key_lt a b.

#[export] Instance key_le_dec a b : Decision (key_le a b).
Proof. unfold key_le. solve_decision. Defined.

Definition sorted_entries (s : AbstractState) : list (StateKey * list byte) :=
  (fun k => (k, default [] (s !! k))) <$> merge_sort key_le ((map_to_list s).*1).

Section ledger.
Context `{SHA : Sha256}.

Definition entry_digest (p : StateKey * list byte) : Root :=
  sha256 (leaf_preimage (encode_state_key p.1) (mk_leaf p.1 p.2)).

(** The zero root before the first transition, then the digest of the entries. *)
Definition ledger_root (l : Ledger) : Root :=
  if written l then
    sha256 (ROOT_PREFIX ++ concat ((fun p => elems (entry_digest p)) <$> sorted_entries (entries l)))
  else zeros 32.

Definition ledger_witness (l : Ledger) (k : StateKey) : result StateWitness StateError :=
  match entries l !! k with
  | Some v => Ok (mk_witness k v [])
  | None => Err (Backend "reference backend only supports proof paths for materialized keys")
  end.

Definition ledger_step (q : Request) (l : Ledger) : Response * Ledger :=
  match q with
  | Transition patch =>
      match validate_shape patch ?;; ensure_canonical_access_order (accesses patch) with
      | Err e => (TransitionAnswer (Err e), l)
      | Ok _ =>
          let l := mk_ledger (apply_patch patch (entries l)) true in
          (TransitionAnswer (Ok (ledger_root l)), l)
      end
  | Witnesses accesses =>
      (WitnessAnswer (ensure_canonical_access_order accesses ?;; collect (ledger_witness l) accesses), l)
  | Verify ws expected =>
      (VerifyAnswer (ensure_canonical_witness_order ws ?;;
         for_each (fun w => verify_spec (entries l) (ledger_root l) w expected) ws), l)
  | AskRoot => (RootAnswer (ledger_root l), l)
  end.

(** ** The contract *)

(** A simulation between an implementation's states and ledgers. *)
Class LawfulAccumulator (A : Type) `{StateAccumulator A, WitnessVerifier A} : Type := {
  fresh : A;
  represents : A -> Ledger -> Prop;
  fresh_represents : represents fresh Ledger_new;
  serve_represents a l q : represents a l ->
    (serve q a).1 = (ledger_step q l).1 /\ represents (serve q a).2 (ledger_step q l).2
}.

Lemma lawful_trace `{LawfulAccumulator A} qs a l :
  represents a l -> trace serve qs a = trace ledger_step qs l.
Proof.
  revert a l. induction qs as [|q qs IH]; intros a l Hr; [done|]. cbn [trace].
  apply (serve_represents _ _ q) in Hr as [Heq Hr].
  destruct (serve q a) as [r a'], (ledger_step q l) as [r' l']. cbn in Heq, Hr. subst r'.
  f_equal. by apply IH.
Qed.

(** ** [InMemoryAccumulator] keeps the contract *)

#[export] Instance key_le_antisym : AntiSymm (=) key_le.
Proof.
  intros a b [->|Hab] [Hba|Hba]; try done. exfalso.
  apply (irreflexivity key_lt a). by etrans.
Qed.

#[export] Instance key_le_trans : Transitive key_le.
Proof. intros a b c [->|Hab] [->|Hbc]; unfold key_le; auto. right. by etrans. Qed.

#[export] Instance key_le_total : Total key_le.
Proof.
  intros a b. unfold key_le, key_lt. destruct (compare_state_keys a b) eqn:E.
  - left; left. by apply compare_state_keys_eq.
  - left; by right.
  - right; right. unfold compare_state_keys in *. by apply bytes_gt_lt in E.
Qed.

(** The leaf list is the sorted listing of the map it represents. *)
Lemma leaves_sorted_entries m :
  leaves_ok m -> leaf_entry <$> m = sorted_entries (abs (mk_acc m (zeros 32))).
Proof.
  intros Hok. set (s := abs _).
  assert (Hkeys : increasing ((leaf_entry <$> m).*1)).
  { destruct Hok as [Hs Hf]. clear s. unfold increasing.
    induction Hs as [|kb [k v] m Hm Hs IH]; [constructor|].
    apply Forall_cons in Hf as [Hkb Hf]. cbn in Hkb |- *. constructor; [by apply IH|].
    destruct m as [|[kb' [k' v']] m]; constructor. apply Forall_cons in Hm as [Hm _], Hf as [Hkb' _].
    cbn in *. by subst. }
  assert ((leaf_entry <$> m).*1 = merge_sort key_le ((map_to_list s).*1)) as Hks.
  { apply (StronglySorted_unique key_le).
    - apply Sorted_StronglySorted; [apply _|]. eapply Sorted_weaken; [|exact Hkeys]. by right.
    - apply (StronglySorted_merge_sort key_le).
    - rewrite merge_sort_Permutation. unfold s, abs. cbn [leaves].
      by rewrite map_to_list_to_map by (by apply increasing_NoDup). }
  unfold sorted_entries. rewrite <- Hks, <- list_fmap_compose.
  rewrite <- (list_fmap_id (leaf_entry <$> m)) at 1. apply list_fmap_ext.
  intros i [k v] Hi. cbn [id compose fst]. f_equal.
  apply list_elem_of_lookup_2 in Hi.
  symmetry. apply (f_equal (default []) (y := Some v)).
  apply elem_of_list_to_map_1; [by apply increasing_NoDup|done].
Qed.

(** A well-formed accumulator and the ledger it stands for. *)
Definition in_memory_represents (acc : InMemoryAccumulator) (l : Ledger) : Prop :=
  leaves_ok (leaves acc) /\ entries l = abs acc /\ root acc = ledger_root l.

Lemma recomputed_root m r :
  leaves_ok m -> compute_reference_root m = ledger_root (mk_ledger (abs (mk_acc m r)) true).
Proof.
  intros Hok. unfold ledger_root. cbn [written entries].
  change (abs (mk_acc m r)) with (abs (mk_acc m (zeros 32))).
  rewrite <- leaves_sorted_entries by done. unfold compute_reference_root, root_preimage.
  do 3 f_equal. rewrite <- list_fmap_compose. destruct Hok as [_ Hf].
  induction Hf as [|[kb [k v]] m Hk Hf IH]; [done|]. cbn in Hk. subst kb. cbn. by rewrite IH.
Qed.

Lemma serve_in_memory acc l q :
  in_memory_represents acc l ->
  (serve q acc).1 = (ledger_step q l).1 /\ in_memory_represents (serve q acc).2 (ledger_step q l).2.
Proof.
  intros (Hok & He & Hr). destruct q as [patch|ks|ws expected|]; cbn [serve ledger_step].
  - cbn [sa_apply_transition InMemoryAccumulator_accumulator]. unfold apply_transition.
    destruct (validate_shape patch ?;; ensure_canonical_access_order (accesses patch)) as [[]|e]; [|done].
    set (acc' := foldl _ acc _). cbn [fst snd].
    assert (leaves_ok (leaves acc')) as Hok' by by apply leaves_ok_fold.
    assert (abs acc' = apply_patch patch (entries l)) as Ha.
    { rewrite He. by apply abs_fold. }
    assert (root (recompute_root acc') = ledger_root (mk_ledger (apply_patch patch (entries l)) true)) as Hroot.
    { rewrite <- Ha. cbn [root recompute_root].
      rewrite (recomputed_root _ (root acc') Hok'). by destruct acc'. }
    split; [by rewrite Hroot|]. split_and!; [done| |done]. symmetry. exact Ha.
  - split; [|done]. cbn [fst sa_get_witness_for_accesses InMemoryAccumulator_accumulator].
    unfold get_witness_for_accesses. rewrite (collect_ext _ (ledger_witness l)); [done|]. intros k.
    rewrite access_witness by done. unfold ledger_witness. by rewrite He.
  - split; [|done]. cbn [fst]. unfold verify_witnesses.
    rewrite (for_each_ext _ (fun w => verify_spec (entries l) (ledger_root l) w expected)); [done|].
    intros w. by rewrite verify_witness_spec, He, Hr.
  - split; [|done]. cbn. by rewrite Hr.
Qed.

#[export] Instance InMemoryAccumulator_lawful : LawfulAccumulator InMemoryAccumulator := {
  fresh := InMemoryAccumulator_new;
  represents := in_memory_represents;
  fresh_represents := conj leaves_ok_nil (conj eq_refl eq_refl);
  serve_represents := serve_in_memory
}.

Lemma lawful_after `{LawfulAccumulator A} qs a l :
  represents a l -> represents (after serve qs a) (after ledger_step qs l).
Proof.
  revert a l. induction qs as [|q qs IH]; intros a l Hr; [done|]. cbn.
  by apply IH, serve_represents.
Qed.

(** The number of leaves is the number of entries. *)
Lemma leaves_ok_size acc : leaves_ok (leaves acc) -> acc_len acc = size (abs acc).
Proof.
  intros Hok. unfold acc_len. rewrite <- length_map_to_list.
  transitivity (length (sorted_entries (abs acc))).
  - change (abs acc) with (abs (mk_acc (leaves acc) (zeros 32))).
    by rewrite <- leaves_sorted_entries, length_fmap.
  - unfold sorted_entries. by rewrite length_fmap, merge_sort_Permutation, length_fmap.
Qed.

(** ** Theorems *)

(** An accumulator that keeps the contract is determined by it: two lawful
    implementations of [StateAccumulator] and [WitnessVerifier], started fresh, give
    the same answers, errors included, to every sequence of requests. *)
Theorem lawful_accumulators_agree `{LawfulAccumulator A} `{LawfulAccumulator B} (qs : list Request) :
  trace serve qs (fresh (A := A)) = trace serve qs (fresh (A := B)).
Proof. by rewrite !(lawful_trace qs _ _ fresh_represents). Qed.

(** C4: The reference accumulator refines the abstract ledger: whatever sequence of
    transitions, witness requests, verifications and root queries a client sends,
    [InMemoryAccumulator] answers it, errors and their contexts included, exactly as
    the machine that keeps only a finite map from keys to values and hashes its sorted
    entries. *)
Theorem in_memory_refines_ledger (qs : list Request) :
  trace serve qs InMemoryAccumulator_new = trace ledger_step qs Ledger_new.
Proof. exact (lawful_trace qs _ _ fresh_represents). Qed.

(** C23: Whatever requests an accumulator has served, it is well formed: its leaves are
    strictly sorted by encoded key and each is stored under the encoding of its own
    key, [len] is the number of keys of the state, and [is_empty] says whether there
    are none. *)
Theorem served_accumulator_well_formed (qs : list Request) :
  let acc := after serve qs InMemoryAccumulator_new in
  om_sorted (leaves acc) /\
  (forall kb leaf, (kb, leaf) ∈ leaves acc -> kb = encode_state_key (sl_key leaf)) /\
  acc_len acc = size (abs acc) /\ (acc_is_empty acc = true <-> abs acc = ∅).
Proof.
  intros acc. assert (leaves_ok (leaves acc)) as Hok.
  { exact (proj1 (lawful_after qs _ _ fresh_represents)). }
  pose proof (leaves_ok_size acc Hok) as Hlen. destruct Hok as [Hs Hf]. rewrite Forall_forall in Hf.
  split_and!; [done|by intros kb leaf Hin; apply (Hf (kb, leaf))|done|].
  unfold acc_is_empty. rewrite bool_decide_eq_true, <- map_size_empty_iff, <- Hlen.
  unfold acc_len. by destruct (leaves acc).
Qed.

End ledger.
