(* ===== verification/Validation.v ===== *)
(** * shell-primitives: closed-rule validation helpers

    [validation.rs]: the three checks the transaction path runs before any
    cryptography, with what each of them decides. *)

From S2P Require Import Prelude Primitives Hash Ssz.

Definition MAX_USER_SIGNATURE_BYTES : N := 8 * 1024.

Definition check_authorization_count (authorizations : list Authorization) : result unit PrimitiveError :=
  match authorizations with
  | [] => Err (AuthorizationCount (mk_authorization_count 1 0))
  | _ :: _ => Ok tt
  end.

Definition check_user_signature_size (signature_bytes : list byte) : result unit PrimitiveError :=
  if (MAX_USER_SIGNATURE_BYTES <? len signature_bytes)%N
  then Err (SignatureSizeExceeded (mk_signature_size MAX_USER_SIGNATURE_BYTES (len signature_bytes)))
  else Ok tt.

Section validation.
Context `{SHA : Sha256}.

Definition check_authorization_payload_roots (payload : TransactionPayloadSsz)
    (authorizations : list Authorization) : result unit PrimitiveError :=
  let? expected_root := hash_tree_root payload in
  for_each (fun auth =>
    if decide (auth_payload_root auth <> expected_root)
    then Err (PayloadRootMismatch (mk_payload_root_mismatch expected_root (auth_payload_root auth)))
    else Ok tt) authorizations.

Lemma check_authorization_payload_roots_ok p auths :
  check_authorization_payload_roots p auths = Ok tt <->
  Forall (fun a => auth_payload_root a = payload_root_of p) auths.
Proof.
  unfold check_authorization_payload_roots. rewrite payload_hash_tree_root_total.
  cbn [bind_result]. rewrite for_each_ok. apply Forall_proper; [|done].
  intros a. case_decide; naive_solver.
Qed.

End validation.

Lemma check_authorization_count_ok auths : check_authorization_count auths = Ok tt <-> auths <> [].
Proof. destruct auths; naive_solver. Qed.

Lemma check_user_signature_size_ok s :
  check_user_signature_size s = Ok tt <-> (len s <= MAX_USER_SIGNATURE_BYTES)%N.
Proof.
  unfold check_user_signature_size. destruct (N.ltb_spec MAX_USER_SIGNATURE_BYTES (len s)); split;
    naive_solver lia.
Qed.
