(* ===== verification/Crypto.v ===== *)
(** * shell-crypto: signature schemes and dispatch

    [traits.rs], [errors.rs], [schemes.rs], [schemes/ed25519.rs] and
    [dispatch.rs].  A verifier is a trait object, so its [verify] runs in a world
    [W] (a counting or caching verifier keeps interior state); its [scheme_id] and
    [max_signature_size] are plain getters.

    The curve arithmetic of ed25519-dalek is outside the repository: its key and
    signature types, its signature size and the three functions the verifier calls are the class
    [Ed25519Dalek]. *)

From S2P Require Import Prelude Primitives.

(** ** traits.rs *)

Inductive VerificationPath : Type := TransactionAuthorization | ValidatorMessage.

#[export] Instance VerificationPath_eq_dec : EqDecision VerificationPath.
Proof. solve_decision. Defined.

Record SignatureVerificationRequest : Type := mk_request {
  public_key_material : list byte;
  rq_signing_root : Root;
  signature : list byte
}.

(** ** errors.rs *)

Inductive SignatureLimitKind : Type := RepositoryRule | LocalTransportGuard | Scheme.

#[export] Instance SignatureLimitKind_eq_dec : EqDecision SignatureLimitKind.
Proof. solve_decision. Defined.

Record UnsupportedSchemeError : Type := mk_unsupported_scheme { us_scheme_id : byte }.
Record SignatureSizeExceededError : Type := mk_size_exceeded {
  se_max_size : N;
  se_actual_size : N;
  se_path : VerificationPath;
  se_kind : SignatureLimitKind
}.
Record VerificationFailure : Type := mk_failure { vf_scheme_id : byte; vf_context : string }.

Inductive CryptoError : Type :=
| UnsupportedScheme (e : UnsupportedSchemeError)
| SignatureSizeExceeded (e : SignatureSizeExceededError)
| VerificationFailed (e : VerificationFailure).

Definition CryptoError_network_validation_outcome (e : CryptoError) : option ValidationOutcome :=
  match e with
  | UnsupportedScheme _ | VerificationFailed _ => Some Reject
  | SignatureSizeExceeded error =>
      match se_path error, se_kind error with
      | ValidatorMessage, LocalTransportGuard => Some PolicyReject
      | _, _ => Some Reject
      end
  end.

(** The [SignatureVerifier] and [SignatureDispatcher] traits. *)
Record SignatureVerifier (W : Type) : Type := mk_verifier {
  scheme_id : byte;
  max_signature_size_for : VerificationPath -> option N;
  verify : SignatureVerificationRequest -> M W VerificationFailure unit
}.
Arguments mk_verifier {W}.
Arguments scheme_id {W}.
Arguments max_signature_size_for {W}.
Arguments verify {W}.

Class SignatureDispatcher (W D : Type) : Type := {
  register_verifier : D -> SignatureVerifier W -> option (SignatureVerifier W) * D;
  verifier : D -> byte -> option (SignatureVerifier W);
  verify_transaction_authorization : D -> byte -> SignatureVerificationRequest -> M W CryptoError unit;
  verify_validator_message : D -> byte -> SignatureVerificationRequest -> M W CryptoError unit
}.

(** The promise of a dispatcher to its transaction-path clients: a size refusal
    names the path it was asked for. *)
Class TxPathDispatcher (W D : Type) `{SignatureDispatcher W D} : Prop :=
  tx_size_error_path : forall (d : D) s rq (w : W) x w',
    verify_transaction_authorization d s rq w = (Err (SignatureSizeExceeded x), w') ->
    se_path x = TransactionAuthorization.

(** ** schemes.rs, schemes/ed25519.rs *)

Definition DEFAULT_USER_PATH_MAX_SIGNATURE_SIZE : N := 8 * 1024.
Definition SCHEME_ID_ED25519 : byte := Byte.x00.

Class Ed25519Dalek : Type := {
  VerifyingKey : Type;
  VerifyingKey_from_bytes : array 32 -> option VerifyingKey;
  Signature : Type;
  Signature_BYTE_SIZE : N;
  Signature_from_slice : list byte -> option Signature;
  key_verify : VerifyingKey -> list byte -> Signature -> bool
}.

Definition ed25519_verify `{Ed25519Dalek} (request : SignatureVerificationRequest)
    : result unit VerificationFailure :=
  let? public_key_bytes := ok_or (array_try 32 (public_key_material request))
    (mk_failure SCHEME_ID_ED25519 "Invalid public key length") in
  let? public_key := ok_or (VerifyingKey_from_bytes public_key_bytes)
    (mk_failure SCHEME_ID_ED25519 "Malformed public key") in
  let? signature := ok_or (Signature_from_slice (signature request))
    (mk_failure SCHEME_ID_ED25519 "Invalid signature length or encoding") in
  if key_verify public_key (elems (rq_signing_root request)) signature then Ok tt
  else Err (mk_failure SCHEME_ID_ED25519 "Signature verification failed").

Definition Ed25519Verifier `{Ed25519Dalek} {W} : SignatureVerifier W :=
  mk_verifier SCHEME_ID_ED25519 (fun _ => Some Signature_BYTE_SIZE)
    (fun request => lift (ed25519_verify request)).

(** ** dispatch.rs *)

Record DispatcherConfig : Type := mk_config {
  user_path_max_signature_size : N;
  validator_path_max_signature_size : option N
}.

Definition DispatcherConfig_default : DispatcherConfig :=
  mk_config DEFAULT_USER_PATH_MAX_SIGNATURE_SIZE None.

Record ResolvedSignatureLimit : Type := mk_limit {
  lim_max_size : N;
  lim_kind : SignatureLimitKind
}.

Section registry.
Context {W : Type}.

Record VerifierRegistry : Type := mk_registry {
  config : DispatcherConfig;
  verifiers : list (SignatureVerifier W)
}.

Definition VerifierRegistry_with_config (config : DispatcherConfig) : VerifierRegistry :=
  mk_registry config [].
Definition VerifierRegistry_new : VerifierRegistry :=
  VerifierRegistry_with_config DispatcherConfig_default.

Fixpoint find_verifier (scheme : byte) (l : list (SignatureVerifier W)) : option (SignatureVerifier W) :=
  match l with
  | [] => None
  | v :: l => if decide (scheme_id v = scheme) then Some v else find_verifier scheme l
  end.

Definition registry_verifier (self : VerifierRegistry) (scheme : byte) : option (SignatureVerifier W) :=
  find_verifier scheme (verifiers self).

(** [iter_mut().find(..)] and [mem::replace], or [push]. *)
Fixpoint replace_or_push (v : SignatureVerifier W) (l : list (SignatureVerifier W))
    : option (SignatureVerifier W) * list (SignatureVerifier W) :=
  match l with
  | [] => (None, [v])
  | existing :: l =>
      if decide (scheme_id existing = scheme_id v) then (Some existing, v :: l)
      else let '(r, l) := replace_or_push v l in (r, existing :: l)
  end.

Definition registry_register_verifier (self : VerifierRegistry) (v : SignatureVerifier W)
    : option (SignatureVerifier W) * VerifierRegistry :=
  let '(r, l) := replace_or_push v (verifiers self) in
  (r, mk_registry (config self) l).

Definition max_signature_size (self : VerifierRegistry) (verifier : SignatureVerifier W)
    (path : VerificationPath) : option ResolvedSignatureLimit :=
  let chosen :=
    match path with
    | TransactionAuthorization =>
        Some (mk_limit (user_path_max_signature_size (config self)) RepositoryRule)
    | ValidatorMessage =>
        (fun max_size => mk_limit max_size LocalTransportGuard)
          <$> validator_path_max_signature_size (config self)
    end in
  match max_signature_size_for verifier path with
  | Some max_size =>
      let verifier_limit := mk_limit max_size Scheme in
      if default true ((fun current => (max_size <? lim_max_size current)%N) <$> chosen)
      then Some verifier_limit else chosen
  | None => chosen
  end.

Definition verify_for_path (self : VerifierRegistry) (scheme : byte)
    (request : SignatureVerificationRequest) (path : VerificationPath) : M W CryptoError unit :=
  let! verifier := lift (ok_or (registry_verifier self scheme)
    (UnsupportedScheme (mk_unsupported_scheme scheme))) in
  lift match max_signature_size self verifier path with
       | Some limit =>
           if (lim_max_size limit <? len (signature request))%N then
             Err (SignatureSizeExceeded (mk_size_exceeded (lim_max_size limit)
                    (len (signature request)) path (lim_kind limit)))
           else Ok tt
       | None => Ok tt
       end !;;
  m_map_err VerificationFailed (verify verifier request).

#[export] Instance VerifierRegistry_dispatcher : SignatureDispatcher W VerifierRegistry := {
  register_verifier := registry_register_verifier;
  verifier := registry_verifier;
  verify_transaction_authorization self scheme request :=
    verify_for_path self scheme request TransactionAuthorization;
  verify_validator_message self scheme request :=
    verify_for_path self scheme request ValidatorMessage
}.

(** ** Lemmas *)

Definition unique_schemes (r : VerifierRegistry) : Prop := NoDup (scheme_id <$> verifiers r).

Lemma replace_or_push_schemes v l :
  scheme_id <$> (replace_or_push v l).2 =
  match (replace_or_push v l).1 with
  | Some _ => scheme_id <$> l
  | None => (scheme_id <$> l) ++ [scheme_id v]
  end.
Proof.
  induction l as [|e l IH]; [done|]. simpl. case_decide as Hd; simpl; [by rewrite Hd|].
  destruct (replace_or_push v l) as [[r|] l']; simpl in *; by f_equal.
Qed.

Lemma replace_or_push_result v l : (replace_or_push v l).1 = find_verifier (scheme_id v) l.
Proof.
  induction l as [|e l IH]; [done|]. simpl. case_decide; [done|].
  by destruct (replace_or_push v l).
Qed.

Lemma find_replace_or_push v l s :
  find_verifier s (replace_or_push v l).2 =
  if decide (scheme_id v = s) then Some v else find_verifier s l.
Proof.
  induction l as [|e l IH]; [done|]. cbn [replace_or_push].
  destruct (decide (scheme_id e = scheme_id v)) as [Hd|Hd].
  - cbn [snd find_verifier]. repeat case_decide; congruence.
  - destruct (replace_or_push v l) as [r l']. cbn [snd find_verifier] in *. rewrite IH.
    repeat case_decide; congruence.
Qed.

Lemma find_verifier_None s l : find_verifier s l = None <-> s ∉ (scheme_id <$> l).
Proof.
  induction l as [|e l IH]; simpl; [set_solver|]. rewrite elem_of_cons. case_decide; naive_solver.
Qed.

Lemma find_verifier_Some s l v : find_verifier s l = Some v -> scheme_id v = s /\ v ∈ l.
Proof.
  induction l as [|e l IH]; simpl; [done|]. rewrite elem_of_cons. case_decide; naive_solver.
Qed.

(** The configured bound on a path, before the scheme's. *)
Definition configured_limit (c : DispatcherConfig) (path : VerificationPath) : option N :=
  match path with
  | TransactionAuthorization => Some (user_path_max_signature_size c)
  | ValidatorMessage => validator_path_max_signature_size c
  end.

Definition effective_limit (self : VerifierRegistry) (v : SignatureVerifier W) (path : VerificationPath)
    : option N :=
  match configured_limit (config self) path, max_signature_size_for v path with
  | Some a, Some b => Some (N.min a b)
  | Some a, None => Some a
  | None, b => b
  end.

Lemma max_signature_size_spec self v path :
  lim_max_size <$> max_signature_size self v path = effective_limit self v path /\
  (forall l, max_signature_size self v path = Some l ->
     lim_kind l = Scheme \/ configured_limit (config self) path = Some (lim_max_size l)).
Proof.
  unfold max_signature_size, effective_limit, configured_limit.
  destruct path; [|destruct (validator_path_max_signature_size (config self)) as [c|]];
    destruct (max_signature_size_for v _) as [m|]; simpl; split; try naive_solver.
  all: match goal with |- context [(?a <? ?b)%N] => destruct (N.ltb_spec a b) end; simpl;
    try naive_solver; f_equal; lia.
Qed.

(** What a dispatched verification does, by cases. *)
Lemma verify_for_path_cases self s rq path w :
  verify_for_path self s rq path w =
  match registry_verifier self s with
  | None => (Err (UnsupportedScheme (mk_unsupported_scheme s)), w)
  | Some v =>
      match max_signature_size self v path with
      | Some l =>
          if (lim_max_size l <? len (signature rq))%N
          then (Err (SignatureSizeExceeded (mk_size_exceeded (lim_max_size l)
                       (len (signature rq)) path (lim_kind l))), w)
          else m_map_err VerificationFailed (verify v rq) w
      | None => m_map_err VerificationFailed (verify v rq) w
      end
  end.
Proof.
  unfold verify_for_path, bind, lift. destruct (registry_verifier self s); simpl; [|done].
  destruct (max_signature_size _ _ _) as [l|]; [|done]. by destruct (_ <? _)%N.
Qed.

(** What the dispatcher promises the admission pipeline: a size refusal on the
    transaction path says so. *)
Lemma registry_tx_size_path self s rq w x w' :
  verify_for_path self s rq TransactionAuthorization w = (Err (SignatureSizeExceeded x), w') ->
  se_path x = TransactionAuthorization.
Proof.
  rewrite verify_for_path_cases. destruct (registry_verifier self s); [|done].
  assert (m_map_err VerificationFailed (verify s0 rq) w = (Err (SignatureSizeExceeded x), w') -> False) as Hv.
  { by intros (f & ? & ?)%m_map_err_err. }
  destruct (max_signature_size _ _ _); [|by intros ?%Hv].
  destruct (_ <? _)%N; [by intros [= <-]|by intros ?%Hv].
Qed.

#[export] Instance VerifierRegistry_tx_path : TxPathDispatcher W VerifierRegistry.
Proof. intros self s rq w x w'. apply registry_tx_size_path. Qed.

(** Registries built by registrations. *)
Inductive registered : VerifierRegistry -> Prop :=
| reg_new c : registered (VerifierRegistry_with_config c)
| reg_step r v old r' : registered r -> registry_register_verifier r v = (old, r') -> registered r'.

(** ** Theorems *)

(** The registry keeps at most one verifier per scheme: in every registry built
    by registrations the scheme ids are distinct. *)
Theorem registry_schemes_unique r : registered r -> unique_schemes r.
Proof.
  induction 1 as [c|r v old r' _ IH Hreg]; [constructor|]. unfold unique_schemes in *.
  unfold registry_register_verifier in Hreg.
  pose proof (replace_or_push_schemes v (verifiers r)) as Hs.
  pose proof (replace_or_push_result v (verifiers r)) as Hr.
  destruct (replace_or_push v (verifiers r)) as [o l]. injection Hreg as <- <-. simpl in *. rewrite Hs.
  destruct o; [done|]. apply NoDup_app. split_and!; [done| |apply NoDup_singleton].
  symmetry in Hr. apply find_verifier_None in Hr. set_solver.
Qed.

(** Registering replaces by scheme: after [register_verifier v] the lookup of
    [v]'s scheme returns [v], every other lookup is unchanged, the configuration is
    unchanged, and the call returns the verifier it displaced, if any. *)
Theorem register_lookup_roundtrip r v s :
  let '(old, r') := registry_register_verifier r v in
  registry_verifier r' s = (if decide (scheme_id v = s) then Some v else registry_verifier r s) /\
  old = registry_verifier r (scheme_id v) /\ config r' = config r.
Proof.
  unfold registry_register_verifier, registry_verifier.
  pose proof (replace_or_push_result v (verifiers r)) as Hr.
  pose proof (find_replace_or_push v (verifiers r) s) as Hf.
  by destruct (replace_or_push v (verifiers r)) as [o l].
Qed.

Lemma verify_for_path_ok self s rq path w w' :
  verify_for_path self s rq path w = (Ok tt, w') <->
  exists v, registry_verifier self s = Some v /\
    (forall m, effective_limit self v path = Some m -> (len (signature rq) <= m)%N) /\
    verify v rq w = (Ok tt, w').
Proof.
  rewrite verify_for_path_cases. destruct (registry_verifier self s) as [v|]; [|naive_solver].
  pose proof (proj1 (max_signature_size_spec self v path)) as Hm.
  destruct (max_signature_size self v path) as [l|]; simpl in Hm.
  - destruct (N.ltb_spec (lim_max_size l) (len (signature rq))).
    + split; [done|]. intros (? & [= <-] & Hle & _). specialize (Hle _ (eq_sym Hm)). lia.
    + rewrite m_map_err_ok. split; [|naive_solver]. intros. exists v. split_and!; [done| |done].
      intros m Hm'. rewrite <- Hm in Hm'. by injection Hm' as <-.
  - rewrite m_map_err_ok. split; [|naive_solver]. intros. exists v. split_and!; [done| |done].
    intros m Hm'. by rewrite <- Hm in Hm'.
Qed.

(** C17: When dispatch succeeds: exactly when a verifier for the scheme is
    registered, the signature is no longer than both the configured bound of the
    path and the scheme's own bound (whichever exist), and that verifier accepts
    the request; the world is then the one the verifier leaves. *)
Theorem dispatch_succeeds_iff self s rq path w w' :
  verify_for_path self s rq path w = (Ok tt, w') <->
  exists v, registry_verifier self s = Some v /\
    (forall m, effective_limit self v path = Some m -> (len (signature rq) <= m)%N) /\
    verify v rq w = (Ok tt, w').
Proof. apply verify_for_path_ok. Qed.

(** Refusals before cryptography have no effect: dispatch answers
    [UnsupportedScheme] or [SignatureSizeExceeded] without running any verifier, so
    the world is untouched, and the reported limit is the smaller of the path's and
    the scheme's and is really exceeded. *)
Theorem dispatch_cheap_rejects self s rq path w e w' :
  verify_for_path self s rq path w = (Err e, w') ->
  match e with
  | UnsupportedScheme u => us_scheme_id u = s /\ registry_verifier self s = None /\ w' = w
  | SignatureSizeExceeded x =>
      w' = w /\ se_path x = path /\ se_actual_size x = len (signature rq) /\
      (se_max_size x < se_actual_size x)%N /\
      exists v, registry_verifier self s = Some v /\ effective_limit self v path = Some (se_max_size x)
  | VerificationFailed f =>
      exists v, registry_verifier self s = Some v /\ verify v rq w = (Err f, w')
  end.
Proof.
  rewrite verify_for_path_cases. destruct (registry_verifier self s) as [v|]; [|by intros [= <- <-]].
  pose proof (proj1 (max_signature_size_spec self v path)) as Hm.
  assert (m_map_err VerificationFailed (verify v rq) w = (Err e, w') ->
    exists f, e = VerificationFailed f /\ verify v rq w = (Err f, w')) as Hv.
  { intros (f & ? & ->)%m_map_err_err. eauto. }
  destruct (max_signature_size self v path) as [l|]; simpl in Hm.
  - destruct (N.ltb_spec (lim_max_size l) (len (signature rq))).
    + intros [= <- <-]. simpl. split_and!; eauto.
    + intros (f & -> & ?)%Hv. eauto.
  - intros (f & -> & ?)%Hv. eauto.
Qed.

(** C33: A validator message is refused by local policy rather than as invalid
    exactly when its scheme is registered, the signature exceeds the configured
    transport guard, and the scheme's own bound is not smaller than that guard.
    Nothing on the transaction path is ever a policy refusal. *)
Theorem policy_reject_iff_transport_guard self s rq path w e w' :
  verify_for_path self s rq path w = (Err e, w') ->
  CryptoError_network_validation_outcome e = Some PolicyReject <->
  path = ValidatorMessage /\
  exists v g, registry_verifier self s = Some v /\
    validator_path_max_signature_size (config self) = Some g /\
    (g < len (signature rq))%N /\
    (forall m, max_signature_size_for v path = Some m -> (g <= m)%N).
Proof.
  rewrite verify_for_path_cases.
  destruct (registry_verifier self s) as [v|]; [|intros [= <- <-]; naive_solver].
  assert (m_map_err VerificationFailed (verify v rq) w = (Err e, w') ->
    CryptoError_network_validation_outcome e = Some PolicyReject -> False) as Hv.
  { by intros (f & ? & ->)%m_map_err_err. }
  unfold max_signature_size.
  destruct path; [|destruct (validator_path_max_signature_size (config self)) as [g|]];
    destruct (max_signature_size_for v _) as [m|] eqn:Hmax; simpl;
    repeat match goal with |- context [(?a <? ?b)%N] => destruct (N.ltb_spec a b); simpl end;
    intros He; try (injection He as <- <-; simpl); split; try naive_solver lia.
  intros (_ & v' & g' & [= <-] & [= <-] & _ & Hle). apply Hle in Hmax. lia.
Qed.

End registry.

(** Ed25519 through the dispatcher: with the Ed25519 verifier registered and a
    path bound of at least [Signature::BYTE_SIZE], a request for scheme 0 is accepted exactly when
    the key material is 32 bytes that decode to a key, the signature bytes decode to
    a signature, and the key verifies that signature over the signing root; no
    shared state changes.  The one fact about ed25519-dalek used is that
    [Signature::from_slice] only accepts slices of [Signature::BYTE_SIZE] bytes. *)
Theorem ed25519_dispatch_iff `{Ed25519Dalek} {W} (self : VerifierRegistry (W := W)) rq path w w' :
  (forall s sg, Signature_from_slice s = Some sg -> len s = Signature_BYTE_SIZE) ->
  registry_verifier self SCHEME_ID_ED25519 = Some Ed25519Verifier ->
  (forall m, configured_limit (config self) path = Some m -> (Signature_BYTE_SIZE <= m)%N) ->
  verify_for_path self SCHEME_ID_ED25519 rq path w = (Ok tt, w') <->
  w' = w /\ exists pk key sg,
    public_key_material rq = elems (n := 32) pk /\ VerifyingKey_from_bytes pk = Some key /\
    Signature_from_slice (signature rq) = Some sg /\
    key_verify key (elems (rq_signing_root rq)) sg = true.
Proof.
  intros Hlen Hreg Hlim. rewrite verify_for_path_cases, Hreg.
  assert (m_map_err VerificationFailed (verify Ed25519Verifier rq) w = (Ok tt, w') <->
    w = w' /\ ed25519_verify rq = Ok tt) as Hv.
  { rewrite m_map_err_ok. cbn [verify Ed25519Verifier]. rewrite lift_eq. naive_solver. }
  assert (ed25519_verify rq = Ok tt <-> exists pk key sg,
    public_key_material rq = elems (n := 32) pk /\ VerifyingKey_from_bytes pk = Some key /\
    Signature_from_slice (signature rq) = Some sg /\
    key_verify key (elems (rq_signing_root rq)) sg = true) as He.
  { unfold ed25519_verify. rewrite bind_result_ok. setoid_rewrite ok_or_ok. setoid_rewrite array_try_some.
    setoid_rewrite bind_result_ok. setoid_rewrite ok_or_ok. setoid_rewrite bind_result_ok.
    setoid_rewrite ok_or_ok. split.
    - intros (pk & Hpk & key & Hkey & sg & Hsg & Hver). exists pk, key, sg.
      destruct (key_verify _ _ _) eqn:E; naive_solver.
    - intros (pk & key & sg & Hpk & Hkey & Hsg & Hver). exists pk. split; [done|]. exists key. split; [done|].
      exists sg. rewrite Hver. done. }
  rewrite <- He. pose proof (proj1 (max_signature_size_spec self (Ed25519Verifier (W := W)) path)) as Hm.
  destruct (max_signature_size _ _ _) as [l|]; simpl in Hm; [|rewrite Hv; naive_solver].
  destruct (N.ltb_spec (lim_max_size l) (len (signature rq))); [|rewrite Hv; naive_solver].
  split; [done|]. intros (_ & (_ & _ & sg & _ & _ & Hsg & _)%He). apply Hlen in Hsg. exfalso.
  unfold effective_limit in Hm. destruct (configured_limit (config self) path) as [c|];
    cbn [max_signature_size_for Ed25519Verifier] in Hm.
  - specialize (Hlim _ eq_refl). injection Hm as Hm. lia.
  - injection Hm as Hm. lia.
Qed.

(** ** Witnesses *)

(** A verifier that counts its calls and accepts non-empty signatures. *)
Definition counting_verifier (id : byte) (bound : option N) : SignatureVerifier nat :=
  mk_verifier id (fun _ => bound) (fun rq calls =>
    (match signature rq with [] => Err (mk_failure id "empty") | _ => Ok tt end, S calls)).

Definition sample_registry : VerifierRegistry (W := nat) :=
  (registry_register_verifier (VerifierRegistry_with_config (mk_config 8192 (Some 3%N)))
     (counting_verifier Byte.x07 (Some 100%N))).2.

Definition sample_request (n : nat) : SignatureVerificationRequest :=
  mk_request [] (zeros 32) (replicate n Byte.xaa).

Lemma registry_schemes_unique_witness : unique_schemes sample_registry.
Proof.
  apply registry_schemes_unique.
  eapply (reg_step _ (counting_verifier Byte.x07 (Some 100%N)) None);
    [apply (reg_new (mk_config 8192 (Some 3%N)))|reflexivity].
Defined.

Lemma dispatch_cheap_rejects_witness :
  effective_limit sample_registry (counting_verifier Byte.x07 (Some 100%N)) ValidatorMessage = Some 3%N.
Proof.
  destruct (dispatch_cheap_rejects sample_registry Byte.x07 (sample_request 5) ValidatorMessage 0
    (SignatureSizeExceeded (mk_size_exceeded 3 5 ValidatorMessage LocalTransportGuard)) 0 eq_refl)
    as (_ & _ & _ & _ & v & [= <-] & Hl).
  exact Hl.
Defined.

Lemma policy_reject_iff_transport_guard_witness :
  exists v g, registry_verifier sample_registry Byte.x07 = Some v /\
    validator_path_max_signature_size (config sample_registry) = Some g /\ (g < 5)%N /\
    (forall m, max_signature_size_for v ValidatorMessage = Some m -> (g <= m)%N).
Proof.
  apply (policy_reject_iff_transport_guard sample_registry Byte.x07 (sample_request 5) ValidatorMessage 0
    (SignatureSizeExceeded (mk_size_exceeded 3 5 ValidatorMessage LocalTransportGuard)) 0 eq_refl).
  reflexivity.
Defined.

(** A stand-in for the curve: keys are any 32 bytes, signatures any 64, and a
    signature verifies when it starts with the message. *)
Definition toy_dalek : Ed25519Dalek := {|
  VerifyingKey := array 32;
  VerifyingKey_from_bytes := Some;
  Signature := array 64;
  Signature_BYTE_SIZE := 64;
  Signature_from_slice := array_try 64;
  key_verify _ msg sg := bool_decide (take 32 (elems sg) = msg)
|}.

Definition ed_registry : VerifierRegistry (W := nat) :=
  (registry_register_verifier VerifierRegistry_new (@Ed25519Verifier toy_dalek nat)).2.

Lemma ed25519_dispatch_iff_witness :
  verify_for_path ed_registry SCHEME_ID_ED25519
    (mk_request (replicate 32 Byte.x05) (zeros 32) (replicate 64 Byte.x00))
    TransactionAuthorization 4 = (Ok tt, 4).
Proof.
  apply (@ed25519_dispatch_iff toy_dalek).
  - intros s sg Hs%array_try_some. rewrite <- Hs. exact (elems_len (n := 64) sg).
  - reflexivity.
  - intros m [= <-]. unfold DEFAULT_USER_PATH_MAX_SIGNATURE_SIZE. cbn. lia.
  - split; [reflexivity|]. exists (padded 32 (replicate 32 Byte.x05)), (padded 32 (replicate 32 Byte.x05)),
      (padded 64 (replicate 64 Byte.x00)). repeat split; reflexivity.
Defined.
