(* ===== verification/Mempool.v ===== *)
(** * shell-mempool: transaction admission

    [fees.rs], [errors.rs], [outcomes.rs] and [admission.rs].  The pipeline is
    generic in the dispatcher, as in the source; a state view is the function
    [observed_nonce] of the trait.  Screening touches no shared object; the
    authorization checks call the dispatcher and run in its world. *)

From S2P Require Import Prelude Primitives Codec Hash Sha256 Ssz Validation Crypto.

(** ** fees.rs *)

Inductive FeeLane : Type := Payload | Witness.

Record FeeSchedule : Type := mk_fee_schedule {
  payload_lane_base_fee : GasPrice;
  witness_lane_base_fee : GasPrice
}.

Definition transaction_fees (envelope : TransactionEnvelope) : BasicFeesPerGas :=
  match payload (env_payload envelope) with
  | Basic p => b_fees p
  | Create p => c_fees p
  end.

Definition payload_lane_fee (envelope : TransactionEnvelope) : GasPrice :=
  regular (transaction_fees envelope).

Definition witness_lane_fee (envelope : TransactionEnvelope) : GasPrice :=
  max_witness_priority_fee (transaction_fees envelope).

(** The loop over [left.rev().zip(right.rev())]. *)
Fixpoint compare_byte_pairs (pairs : list (byte * byte)) : comparison :=
  match pairs with
  | [] => Eq
  | (left_byte, right_byte) :: pairs =>
      match N.compare (byte_val left_byte) (byte_val right_byte) with
      | Eq => compare_byte_pairs pairs
      | ordering => ordering
      end
  end.

Definition compare_u256 (left right : U256) : comparison :=
  compare_byte_pairs (zip (reverse (elems left)) (reverse (elems right))).

Definition gas_price_covers (actual required : GasPrice) : bool :=
  negb (is_lt (compare_u256 actual required)).

(** ** errors.rs *)

Record FeeFloorError : Type := mk_fee_floor {
  lane : FeeLane;
  required : GasPrice;
  ff_actual : GasPrice
}.
Record NoncePolicyError : Type := mk_nonce_error { np_context : string }.
Record SigningRootUnavailableError : Type := mk_signing_unavailable { su_context : string }.
Record AuthorizationMaterialCountError : Type := mk_material_count {
  mc_expected : N;
  mc_actual : N
}.

Inductive ValidationError : Type :=
| Primitive (e : PrimitiveError)
| UnsupportedScheme (e : UnsupportedSchemeError)
| SignatureSizeExceeded (e : SignatureSizeExceededError)
| SignatureVerification (e : VerificationFailure)
| FeeFloor (e : FeeFloorError)
| NoncePolicyViolation (e : NoncePolicyError)
| SigningRootUnavailable (e : SigningRootUnavailableError)
| AuthorizationMaterialCount (e : AuthorizationMaterialCountError).

(** The [From] impl. *)
#[export] Instance PrimitiveError_into_validation : From PrimitiveError ValidationError := Primitive.

Definition ValidationError_network_validation_outcome (e : ValidationError)
    : option ValidationOutcome :=
  match e with
  | Primitive error => PrimitiveError_network_validation_outcome error
  | UnsupportedScheme _ | SignatureSizeExceeded _ | SignatureVerification _ => Some Reject
  | FeeFloor _ | NoncePolicyViolation _ => Some PolicyReject
  | SigningRootUnavailable _ | AuthorizationMaterialCount _ => None
  end.

(** ** outcomes.rs *)

Record TentativeAccepted : Type := mk_tentative {
  ta_payload_root : Root;
  authorization_count : N
}.
Record AuthorizationValidated : Type := mk_validated {
  av_payload_root : Root;
  av_signing_root : Root;
  verified_authorization_count : N
}.

(** ** admission.rs *)

Record NoncePolicy : Type := mk_nonce_policy { max_future_nonce_gap : u64 }.

Inductive TransactionAuthorizationDomain : Type :=
| Canonical
| Explicit (domain_type : Bytes4).

Inductive MultiAuthorizationPolicy : Type := RequireAll.

Record AdmissionPolicy : Type := mk_policy {
  fee_schedule : FeeSchedule;
  nonce_policy : NoncePolicy;
  authorization_domain : TransactionAuthorizationDomain;
  multi_authorization_policy : MultiAuthorizationPolicy
}.

Definition AdmissionPolicy_default : AdmissionPolicy :=
  mk_policy (mk_fee_schedule (zeros 32) (zeros 32)) (mk_nonce_policy (uint_wrap 64 0))
    Canonical RequireAll.

Record AuthorizationMaterial : Type := mk_material { am_public_key_material : list byte }.

(** The trait [AdmissionStateView], by its one method. *)
Definition AdmissionStateView : Type := TransactionEnvelope -> option u64.

Definition transaction_nonce (envelope : TransactionEnvelope) : u64 :=
  match payload (env_payload envelope) with
  | Basic p => tm_nonce p
  | Create p => tm_nonce p
  end.

Definition map_crypto_error (error : CryptoError) : ValidationError :=
  match error with
  | Crypto.UnsupportedScheme error => UnsupportedScheme error
  | Crypto.SignatureSizeExceeded error => SignatureSizeExceeded error
  | Crypto.VerificationFailed error => SignatureVerification error
  end.

Definition check_fee_policy (policy : AdmissionPolicy) (envelope : TransactionEnvelope)
    : result unit ValidationError :=
  let payload_fee := payload_lane_fee envelope in
  if negb (gas_price_covers payload_fee (payload_lane_base_fee (fee_schedule policy))) then
    Err (FeeFloor (mk_fee_floor Payload (payload_lane_base_fee (fee_schedule policy)) payload_fee))
  else
    let witness_fee := witness_lane_fee envelope in
    if negb (gas_price_covers witness_fee (witness_lane_base_fee (fee_schedule policy))) then
      Err (FeeFloor (mk_fee_floor Witness (witness_lane_base_fee (fee_schedule policy)) witness_fee))
    else Ok tt.

Definition check_nonce_policy (policy : AdmissionPolicy) (envelope : TransactionEnvelope)
    (state_view : option AdmissionStateView) : result unit ValidationError :=
  match state_view with
  | None => Ok tt
  | Some state_view =>
      match state_view envelope with
      | None => Ok tt
      | Some observed_nonce =>
          let tx_nonce := transaction_nonce envelope in
          if (uval tx_nonce <? uval observed_nonce)%N then
            Err (NoncePolicyViolation (mk_nonce_error
              "transaction nonce is lower than the observed replay lane nonce"))
          else
            let max_nonce := saturating_add observed_nonce
                               (max_future_nonce_gap (nonce_policy policy)) in
            if (max_nonce <? uval tx_nonce)%N then
              Err (NoncePolicyViolation (mk_nonce_error
                "transaction nonce exceeds the configured future replay lane gap"))
            else Ok tt
      end
  end.

Section admission.
Context `{SHA : Sha256}.

Definition TransactionAuthorizationDomain_signing_root (self : TransactionAuthorizationDomain)
    (payload_root : Root) : result Root SigningRootUnavailableError :=
  let? signing_data :=
    match self with
    | Canonical =>
        map_err (fun _ => mk_signing_unavailable
          "failed to construct signing_root from the canonical transaction authorization domain")
          (build_signing_data payload_root Primitives.TransactionAuthorization)
    | Explicit domain_type => Ok (mk_signing_data payload_root domain_type)
    end in
  map_err (fun _ => mk_signing_unavailable
    "failed to construct signing_root from transaction authorization domain bytes")
    (canonical_root signing_data).

Definition screen_transaction (policy : AdmissionPolicy) (envelope : TransactionEnvelope)
    (state_view : option AdmissionStateView) : result TentativeAccepted ValidationError :=
  let? payload_root := map_err from (payload_root envelope) in
  map_err (fun e => from (UnsupportedPayloadVariant e))
    (ensure_supported_tag (protocol_tag (env_payload envelope))) ?;;
  map_err from (check_authorization_count (authorizations envelope)) ?;;
  map_err from
    (check_authorization_payload_roots (env_payload envelope) (authorizations envelope)) ?;;
  for_each (fun authorization =>
    map_err from (check_user_signature_size (auth_signature authorization)))
    (authorizations envelope) ?;;
  check_fee_policy policy envelope ?;;
  check_nonce_policy policy envelope state_view ?;;
  Ok (mk_tentative payload_root (len (authorizations envelope))).

Section pipeline.
Context {W D : Type} `{SignatureDispatcher W D}.

Record AdmissionPipeline : Type := mk_pipeline { dispatcher : D; policy : AdmissionPolicy }.

(** The request built for one authorization. *)
Definition authorization_request (signing_root : Root) (p : Authorization * AuthorizationMaterial)
    : SignatureVerificationRequest :=
  mk_request (am_public_key_material p.2) signing_root (auth_signature p.1).

Definition verify_authorizations (self : AdmissionPipeline) (envelope : TransactionEnvelope)
    (accepted : TentativeAccepted) (authorization_materials : list AuthorizationMaterial)
    : M W ValidationError AuthorizationValidated :=
  if decide (length authorization_materials <> length (authorizations envelope)) then
    fail_with (AuthorizationMaterialCount (mk_material_count
      (len (authorizations envelope)) (len authorization_materials)))
  else
    let! signing_root := lift (map_err SigningRootUnavailable
      (TransactionAuthorizationDomain_signing_root (authorization_domain (policy self))
         (ta_payload_root accepted))) in
    match multi_authorization_policy (policy self) with
    | RequireAll =>
        m_for_each (fun p =>
          m_map_err map_crypto_error
            (verify_transaction_authorization (dispatcher self) (auth_scheme_id p.1)
               (authorization_request signing_root p)))
          (zip (authorizations envelope) authorization_materials)
    end !;;
    ret (mk_validated (ta_payload_root accepted) signing_root (len (authorizations envelope))).

Definition admit_and_verify (self : AdmissionPipeline) (envelope : TransactionEnvelope)
    (state_view : option AdmissionStateView) (authorization_materials : list AuthorizationMaterial)
    : M W ValidationError AuthorizationValidated :=
  let! accepted := lift (screen_transaction (policy self) envelope state_view) in
  verify_authorizations self envelope accepted authorization_materials.

End pipeline.
End admission.
Arguments AdmissionPipeline D : clear implicits.

(** ** Fees and nonces *)

(** The number a [U256] denotes: its bytes are little-endian. *)
Definition u256_val (x : U256) : N := le_val (elems x).

Lemma le_val_app l r : le_val (l ++ r) = (le_val l + 256 ^ len l * le_val r)%N.
Proof.
  induction l as [|b l IH]; cbn [app le_val].
  - change (len (@nil byte)) with 0%N. rewrite N.pow_0_r. lia.
  - rewrite IH, len_cons, N.pow_add_r, N.pow_1_r. lia.
Qed.

Lemma compare_byte_pairs_le l r :
  length l = length r ->
  compare_byte_pairs (zip (reverse l) (reverse r)) = N.compare (le_val l) (le_val r).
Proof.
  revert r. induction l as [|a l IH] using rev_ind; intros r Hl.
  - by destruct r.
  - destruct r as [|b r _] using rev_ind; rewrite !length_app in Hl; simpl in Hl; [lia|].
    assert (length l = length r) as Hlen by lia.
    rewrite !reverse_snoc. cbn [zip_with compare_byte_pairs]. rewrite IH by done.
    rewrite !le_val_app. unfold len. rewrite Hlen. cbn [le_val].
    pose proof (le_val_bound l) as Bl. pose proof (le_val_bound r) as Br.
    unfold len in Bl, Br. rewrite Hlen in Bl.
    destruct (N.compare_spec (byte_val a) (byte_val b)) as [E|E|E].
    + rewrite E. destruct (N.compare_spec (le_val l) (le_val r)); symmetry;
        [apply N.compare_eq_iff|apply N.compare_lt_iff|apply N.compare_gt_iff]; lia.
    + symmetry. apply N.compare_lt_iff. nia.
    + symmetry. apply N.compare_gt_iff. nia.
Qed.

Lemma compare_u256_val a b : compare_u256 a b = N.compare (u256_val a) (u256_val b).
Proof. apply compare_byte_pairs_le. by rewrite !elems_length. Qed.

Lemma gas_price_covers_iff a r : gas_price_covers a r = true <-> (u256_val r <= u256_val a)%N.
Proof.
  unfold gas_price_covers. rewrite compare_u256_val.
  destruct (N.compare_spec (u256_val a) (u256_val r)); simpl; split; done || lia.
Qed.

Definition fees_cover (policy : AdmissionPolicy) (e : TransactionEnvelope) : Prop :=
  (u256_val (payload_lane_base_fee (fee_schedule policy)) <= u256_val (payload_lane_fee e))%N /\
  (u256_val (witness_lane_base_fee (fee_schedule policy)) <= u256_val (witness_lane_fee e))%N.

(** The nonce window, with the upper end clipped at [u64::MAX]. *)
Definition nonce_in_window (policy : AdmissionPolicy) (e : TransactionEnvelope)
    (view : option AdmissionStateView) : Prop :=
  forall v observed, view = Some v -> v e = Some observed ->
    (uval observed <= uval (transaction_nonce e))%N /\
    (uval (transaction_nonce e) <= uval observed + uval (max_future_nonce_gap (nonce_policy policy)))%N.

Lemma check_fee_policy_ok p e : check_fee_policy p e = Ok tt <-> fees_cover p e.
Proof.
  unfold check_fee_policy, fees_cover. rewrite <- !gas_price_covers_iff.
  destruct (gas_price_covers (payload_lane_fee e) _); simpl; [|naive_solver].
  destruct (gas_price_covers (witness_lane_fee e) _); simpl; naive_solver.
Qed.

Lemma check_nonce_policy_ok p e v : check_nonce_policy p e v = Ok tt <-> nonce_in_window p e v.
Proof.
  unfold check_nonce_policy, nonce_in_window.
  destruct v as [v|]; [|naive_solver]. destruct (v e) as [o|] eqn:Hv; [|naive_solver].
  pose proof (uval_bound (transaction_nonce e)) as Hb. unfold saturating_add.
  destruct (N.ltb_spec (uval (transaction_nonce e)) (uval o)) as [Hlo|Hlo].
  { split; [done|]. intros H. destruct (H v o eq_refl Hv). lia. }
  destruct (N.ltb_spec (N.min (uval o + uval (max_future_nonce_gap (nonce_policy p))) (2 ^ 64 - 1))
              (uval (transaction_nonce e))) as [Hhi|Hhi].
  - split; [done|]. intros H. destruct (H v o eq_refl Hv). lia.
  - split; [|done]. intros _ v' o' [= <-] Ho. rewrite Hv in Ho. injection Ho as <-. lia.
Qed.

Lemma fee_error_policy p e err :
  check_fee_policy p e = Err err -> ValidationError_network_validation_outcome err = Some PolicyReject.
Proof. unfold check_fee_policy. repeat case_match; naive_solver. Qed.

Lemma nonce_error_policy p e v err :
  check_nonce_policy p e v = Err err -> ValidationError_network_validation_outcome err = Some PolicyReject.
Proof. unfold check_nonce_policy. repeat case_match; naive_solver. Qed.

(** ** Screening and verification *)

Section admission_lemmas.
Context `{SHA : Sha256}.

(** The rules every node applies, as opposed to local fee and nonce policy. *)
Definition closed_rules (e : TransactionEnvelope) : Prop :=
  authorizations e <> [] /\
  Forall (fun a => auth_payload_root a = payload_root_of (env_payload e)) (authorizations e) /\
  Forall (fun a => len (auth_signature a) <= MAX_USER_SIGNATURE_BYTES)%N (authorizations e).

(** The checks of [screen_transaction] that implement them. *)
Definition closed_checks (e : TransactionEnvelope) : result unit ValidationError :=
  map_err from (check_authorization_count (authorizations e)) ?;;
  map_err from (check_authorization_payload_roots (env_payload e) (authorizations e)) ?;;
  for_each (fun a => map_err from (check_user_signature_size (auth_signature a)))
    (authorizations e).

Lemma closed_checks_ok e : closed_checks e = Ok tt <-> closed_rules e.
Proof.
  unfold closed_checks, closed_rules. rewrite !then_ok, !map_err_ok.
  rewrite check_authorization_count_ok, check_authorization_payload_roots_ok, for_each_ok.
  do 2 apply and_iff_compat_l. apply Forall_proper; [|done].
  intros a. by rewrite map_err_ok, check_user_signature_size_ok.
Qed.

Lemma screen_transaction_eq policy e v :
  screen_transaction policy e v =
  (closed_checks e ?;; check_fee_policy policy e ?;; check_nonce_policy policy e v ?;;
   Ok (mk_tentative (payload_root_of (env_payload e)) (len (authorizations e)))).
Proof.
  unfold screen_transaction, closed_checks. rewrite payload_root_total, ensure_supported_tag_ok.
  cbn [map_err bind_result].
  destruct (map_err from (check_authorization_count _)); [|done]. cbn [bind_result].
  by destruct (map_err from (check_authorization_payload_roots _ _)).
Qed.

Lemma closed_checks_reject e err :
  closed_checks e = Err err -> ValidationError_network_validation_outcome err = Some Reject.
Proof.
  unfold closed_checks. rewrite !bind_result_err.
  intros [H|(? & _ & [H|(? & _ & H)]%bind_result_err)].
  - apply map_err_err in H as (e' & H & ->). destruct (authorizations e); naive_solver.
  - apply map_err_err in H as (e' & H & ->). unfold check_authorization_payload_roots in H.
    rewrite payload_hash_tree_root_total in H. cbn [bind_result] in H.
    apply for_each_err in H as (? & a & ? & _ & _ & H). case_decide; naive_solver.
  - apply for_each_err in H as (? & a & ? & _ & _ & H).
    apply map_err_err in H as (e' & H & ->). unfold check_user_signature_size in H.
    case_match; naive_solver.
Qed.

Lemma screen_ok policy e v acc :
  screen_transaction policy e v = Ok acc <->
  closed_rules e /\ fees_cover policy e /\ nonce_in_window policy e v /\
  acc = mk_tentative (payload_root_of (env_payload e)) (len (authorizations e)).
Proof.
  rewrite screen_transaction_eq, !then_ok, closed_checks_ok, check_fee_policy_ok, check_nonce_policy_ok.
  naive_solver.
Qed.

(** The signing root a policy asks signatures over. *)
Definition policy_domain (d : TransactionAuthorizationDomain) : Bytes4 :=
  match d with
  | Canonical => DOMAIN_TX_SHELL
  | Explicit domain_type => domain_type
  end.

Lemma domain_signing_root_total d r :
  TransactionAuthorizationDomain_signing_root d r = Ok (signing_root_of (mk_signing_data r (policy_domain d))).
Proof. by destruct d. Qed.

Section pipeline_lemmas.
Context {W D : Type} `{SD : SignatureDispatcher W D}.

Definition authorization_step (d : D) (signing_root : Root) (p : Authorization * AuthorizationMaterial)
    : M W ValidationError unit :=
  m_map_err map_crypto_error
    (verify_transaction_authorization d (auth_scheme_id p.1) (authorization_request signing_root p)).

Lemma verify_authorizations_eq (self : AdmissionPipeline D) e acc ms w :
  length ms = length (authorizations e) ->
  let sr := signing_root_of (mk_signing_data (ta_payload_root acc) (policy_domain (authorization_domain (policy self)))) in
  verify_authorizations self e acc ms w =
  (m_for_each (authorization_step (dispatcher self) sr) (zip (authorizations e) ms) !;;
   ret (mk_validated (ta_payload_root acc) sr (len (authorizations e)))) w.
Proof.
  intros Hl sr. unfold verify_authorizations. rewrite decide_False by lia.
  rewrite domain_signing_root_total. by destruct (multi_authorization_policy (policy self)).
Qed.

Lemma admit_cases (self : AdmissionPipeline D) e v ms w :
  admit_and_verify self e v ms w =
  match screen_transaction (policy self) e v with
  | Ok acc => verify_authorizations self e acc ms w
  | Err err => (Err err, w)
  end.
Proof. unfold admit_and_verify, bind, lift. by destruct (screen_transaction _ _ _). Qed.

Lemma admit_ok (self : AdmissionPipeline D) e v ms w out w' :
  let r := payload_root_of (env_payload e) in
  let sr := signing_root_of (mk_signing_data r (policy_domain (authorization_domain (policy self)))) in
  admit_and_verify self e v ms w = (Ok out, w') <->
  is_ok (screen_transaction (policy self) e v) = true /\
  length ms = length (authorizations e) /\
  runs (authorization_step (dispatcher self) sr) (zip (authorizations e) ms) w w' /\
  out = mk_validated r sr (len (authorizations e)).
Proof.
  intros r sr. rewrite admit_cases.
  destruct (screen_transaction (policy self) e v) as [acc|err] eqn:Hs; [|naive_solver].
  assert (ta_payload_root acc = r) as Hr.
  { rewrite screen_transaction_eq, !then_ok in Hs. destruct Hs as (_ & _ & _ & [= <-]). done. }
  destruct (decide (length ms = length (authorizations e))) as [Hl|Hl].
  - rewrite verify_authorizations_eq, Hr, bind_ok by done. setoid_rewrite ret_eq. fold sr. split.
    + intros ([] & w1 & ?%m_for_each_ok & [= <-] & ->). done.
    + intros (_ & _ & ?%m_for_each_ok & ->). by exists tt, w'.
  - unfold verify_authorizations. rewrite decide_True by done. split; [done|naive_solver].
Qed.

End pipeline_lemmas.
End admission_lemmas.

(** ** Theorems *)

(** [compare_u256] is numeric comparison: on two 32-byte little-endian integers
    the byte loop from the most significant end returns the comparison of their
    values, so the fee floors are compared as numbers. *)
Theorem compare_u256_numeric left right :
  compare_u256 left right = N.compare (u256_val left) (u256_val right).
Proof. apply compare_u256_val. Qed.

(** What screening accepts: exactly the envelopes with at least one
    authorization, all of whose authorizations name the payload's root and carry at
    most 8192 signature bytes, whose two fee lanes cover the floors, and whose
    nonce, when the view observes one, lies between the observed nonce and the
    observed nonce plus the allowed gap; the saturating addition at the top of the
    [u64] range never changes the answer.  The result then names the payload root
    and the number of authorizations. *)
Theorem screen_accepts_iff `{Sha256} policy e v acc :
  screen_transaction policy e v = Ok acc <->
  closed_rules e /\ fees_cover policy e /\ nonce_in_window policy e v /\
  acc = mk_tentative (payload_root_of (env_payload e)) (len (authorizations e)).
Proof. apply screen_ok. Qed.

(** Screening separates invalid from unwanted: when it fails, the network
    outcome is [Reject] if a closed rule is violated, and [PolicyReject] if the
    closed rules hold and only local fee or nonce policy is not met.  It never fails
    without an outcome. *)
Theorem screen_outcome_classifies `{Sha256} policy e v err :
  screen_transaction policy e v = Err err ->
  (closed_rules e -> ValidationError_network_validation_outcome err = Some PolicyReject) /\
  (~ closed_rules e -> ValidationError_network_validation_outcome err = Some Reject).
Proof.
  rewrite screen_transaction_eq. intros Hs. destruct (closed_checks e) as [[]|x] eqn:Hc.
  - pose proof (proj1 (closed_checks_ok e) Hc) as Hr. split; [intros _|done]. cbn [bind_result] in Hs.
    apply bind_result_err in Hs as [Hf|(? & _ & [Hn|(? & _ & Hn)]%bind_result_err)]; [| |done].
    + by eapply fee_error_policy.
    + by eapply nonce_error_policy.
  - cbn [bind_result] in Hs. injection Hs as ->. split.
    + intros Hr%closed_checks_ok. congruence.
    + intros _. by eapply closed_checks_reject.
Qed.

(** Cheap checks first: when screening refuses an envelope, or the number of
    key materials differs from the number of authorizations, admission fails
    without calling the dispatcher at all: the world is the one it was given. *)
Theorem admission_cheap_checks_first `{Sha256} {W D} `{SignatureDispatcher W D}
    (self : AdmissionPipeline D) e v ms w :
  (is_ok (screen_transaction (policy self) e v) = false \/ length ms <> length (authorizations e)) ->
  exists err, admit_and_verify self e v ms w = (Err err, w).
Proof.
  rewrite admit_cases. intros [Hs|Hl].
  - destruct (screen_transaction _ _ _); [done|eauto].
  - destruct (screen_transaction _ _ _); [|eauto]. unfold verify_authorizations.
    rewrite decide_True by done. by eexists.
Qed.

(** C5: What admission accepts: exactly the envelopes that pass screening, with one
    key material per authorization, for which the dispatcher accepts every
    authorization in order, each over the same signing root, that of the payload
    root under the policy's domain; the outcome reports that root, the signing root
    and the number of authorizations, and the world is the one after the last
    dispatcher call. *)
Theorem admit_accepts_iff `{Sha256} {W D} `{SignatureDispatcher W D}
    (self : AdmissionPipeline D) e v ms w out w' :
  let r := payload_root_of (env_payload e) in
  let sr := signing_root_of (mk_signing_data r (policy_domain (authorization_domain (policy self)))) in
  admit_and_verify self e v ms w = (Ok out, w') <->
  is_ok (screen_transaction (policy self) e v) = true /\
  length ms = length (authorizations e) /\
  runs (authorization_step (dispatcher self) sr) (zip (authorizations e) ms) w w' /\
  out = mk_validated r sr (len (authorizations e)).
Proof. apply admit_ok. Qed.

(** Authorizations verified one after the other, each by the registered verifier of its
    scheme, over [signing_root], with its key material and within its size bound; the
    worlds are those the verifiers leave. *)
Inductive verified_in_turn {W} (registry : VerifierRegistry (W := W)) (signing_root : Root)
    : list (Authorization * AuthorizationMaterial) -> W -> W -> Prop :=
| verified_nil w : verified_in_turn registry signing_root [] w w
| verified_cons a m l ver w w1 w2 :
    registry_verifier registry (auth_scheme_id a) = Some ver ->
    (forall b, effective_limit registry ver TransactionAuthorization = Some b ->
       (len (auth_signature a) <= b)%N) ->
    verify ver (mk_request (am_public_key_material m) signing_root (auth_signature a)) w = (Ok tt, w1) ->
    verified_in_turn registry signing_root l w1 w2 ->
    verified_in_turn registry signing_root ((a, m) :: l) w w2.

Lemma registry_runs_verified `{Sha256} {W} (registry : VerifierRegistry (W := W)) sr l w w' :
  runs (authorization_step registry sr) l w w' -> verified_in_turn registry sr l w w'.
Proof.
  induction 1 as [|[a m] l w w1 w2 Hst _ IH]; [constructor|].
  apply m_map_err_ok, verify_for_path_ok in Hst as (ver & Hver & Hsz & Hv). by econstructor.
Qed.

(** C27: Every authorization really is verified: with the verifier registry as
    dispatcher, an admitted envelope has at least one authorization, the key materials
    are paired with the authorizations position by position with none left over on
    either side, and between the initial and the final world the pairs are verified in
    order, each by the registered verifier of its scheme, which accepts the signature
    over the signing root of the payload under the policy's domain, no signature
    exceeding its effective size bound; that signing root is the one reported. *)
Theorem admitted_authorizations_verified `{Sha256} {W} (self : AdmissionPipeline (VerifierRegistry (W := W)))
    e v ms w out w' :
  admit_and_verify self e v ms w = (Ok out, w') ->
  let sr := signing_root_of (mk_signing_data (payload_root_of (env_payload e))
              (policy_domain (authorization_domain (policy self)))) in
  authorizations e <> [] /\
  (exists pairs, pairs.*1 = authorizations e /\ pairs.*2 = ms /\
     verified_in_turn (dispatcher self) sr pairs w w') /\
  av_signing_root out = sr.
Proof.
  intros (Hs & Hl & Hr%registry_runs_verified & ->)%admit_ok sr. split_and!; [|exists (zip (authorizations e) ms); split_and!|done].
  - destruct (screen_transaction _ _ _) as [acc|] eqn:Hsc; [|done].
    rewrite screen_transaction_eq, then_ok in Hsc. by destruct Hsc as [[Hne _]%closed_checks_ok _].
  - apply fst_zip. lia.
  - apply snd_zip. lia.
  - exact Hr.
Qed.

(** Admission and the dispatcher agree on blame: a dispatcher error met on the
    transaction path has the same network outcome once mapped to an admission
    error, and that outcome is [Reject]. *)
Theorem crypto_outcome_preserved {W D} `{TxPathDispatcher W D} (d : D) s rq w err w' :
  verify_transaction_authorization d s rq w = (Err err, w') ->
  ValidationError_network_validation_outcome (map_crypto_error err) = Some Reject /\
  CryptoError_network_validation_outcome err = Some Reject.
Proof.
  intros Hv. destruct err as [|x|]; [done| |done]. apply tx_size_error_path in Hv. simpl.
  by rewrite Hv.
Qed.

(** ** Witnesses *)

Section mempool_samples.
#[local] Existing Instance poly_hash.

Definition pool_root : Root := Eval vm_compute in payload_root_of TransactionPayloadSsz_default.
Definition pool_envelope : TransactionEnvelope :=
  mk_envelope TransactionPayloadSsz_default [mk_authorization Byte.x07 pool_root [Byte.xaa; Byte.xbb]].
Definition pool_pipeline : AdmissionPipeline (VerifierRegistry (W := nat)) :=
  mk_pipeline sample_registry AdmissionPolicy_default.

Lemma screen_outcome_classifies_witness :
  ValidationError_network_validation_outcome
    (Primitive (AuthorizationCount (mk_authorization_count 1 0))) = Some Reject.
Proof.
  apply (screen_outcome_classifies AdmissionPolicy_default unsigned_sample None).
  - vm_compute. reflexivity.
  - intros [Hne _]. by apply Hne.
Defined.

Lemma admission_cheap_checks_first_witness :
  exists err, admit_and_verify pool_pipeline unsigned_sample None [] 3 = (Err err, 3).
Proof. apply (admission_cheap_checks_first pool_pipeline). left. vm_compute. reflexivity. Defined.

Definition pool_materials : list AuthorizationMaterial := [mk_material [Byte.x01]].

Lemma admitted_authorizations_verified_witness :
  let sr := signing_root_of (mk_signing_data (payload_root_of (env_payload pool_envelope)) DOMAIN_TX_SHELL) in
  authorizations pool_envelope <> [] /\
  (exists pairs, pairs.*1 = authorizations pool_envelope /\ pairs.*2 = pool_materials /\
     verified_in_turn sample_registry sr pairs 0 1) /\
  av_signing_root (mk_validated pool_root sr 1) = sr.
Proof.
  apply (admitted_authorizations_verified pool_pipeline pool_envelope None pool_materials 0
    (mk_validated pool_root
       (signing_root_of (mk_signing_data (payload_root_of (env_payload pool_envelope)) DOMAIN_TX_SHELL)) 1) 1).
  vm_compute. reflexivity.
Defined.

Lemma crypto_outcome_preserved_witness :
  ValidationError_network_validation_outcome (map_crypto_error
    (Crypto.UnsupportedScheme (mk_unsupported_scheme Byte.x09))) = Some Reject.
Proof.
  apply (crypto_outcome_preserved sample_registry Byte.x09 (sample_request 2) 5 _ 5). reflexivity.
Defined.

End mempool_samples.
