(* ===== verification/Violations.v ===== *)
(** * shell-mempool: the admission rules as a table

    A reference definition of what [screen_transaction] and [admit_and_verify] report:
    the list of all the rules an envelope violates, each with its error, in the order
    the rules are stated.  Fees and nonces are compared as numbers and no rule refers to
    another.  The pipeline reports the first violation of the table, and touches the
    dispatcher only when there is none. *)

From S2P Require Import Prelude Primitives Hash Ssz Validation Crypto Mempool.

(** ** Reporting the first of several errors *)

Definition report {E} (violations : list E) : result unit E :=
  match violations with
  | [] => Ok tt
  | e :: _ => Err e
  end.

(** A rule that is violated when [b] holds. *)
Definition violated {E} (b : bool) (e : E) : list E := if b then [e] else [].

Lemma report_app {E} (l r : list E) : report (l ++ r) = (report l ?;; report r).
Proof. by destruct l. Qed.

Lemma report_violated {E} (b : bool) (e : E) : report (violated b e) = if b then Err e else Ok tt.
Proof. by destruct b. Qed.

Lemma report_fmap {E F} (f : E -> F) (l : list E) : report (f <$> l) = map_err f (report l).
Proof. by destruct l. Qed.

Lemma report_flat_map {A E} (f : A -> list E) (l : list A) :
  report (l ≫= f) = for_each (fun x => report (f x)) l.
Proof. induction l as [|x l IH]; [done|]. rewrite bind_cons, report_app, IH. done. Qed.

Lemma report_err {E} (l : list E) e : report l = Err e <-> head l = Some e.
Proof. destruct l; cbn; naive_solver. Qed.

(** ** The rules *)

Section rules.
Context `{SHA : Sha256}.

(** The rules every node applies. *)
Definition closed_violations (e : TransactionEnvelope) : list PrimitiveError :=
  let root := payload_root_of (env_payload e) in
  violated (bool_decide (authorizations e = [])) (AuthorizationCount (mk_authorization_count 1 0)) ++
  (authorizations e ≫= fun a =>
     violated (bool_decide (auth_payload_root a <> root))
       (PayloadRootMismatch (mk_payload_root_mismatch root (auth_payload_root a)))) ++
  (authorizations e ≫= fun a =>
     violated (MAX_USER_SIGNATURE_BYTES <? len (auth_signature a))%N
       (Primitives.SignatureSizeExceeded (mk_signature_size MAX_USER_SIGNATURE_BYTES (len (auth_signature a))))).

(** One fee lane against its floor. *)
Definition lane_violation (l : FeeLane) (floor fee : GasPrice) : list ValidationError :=
  violated (u256_val fee <? u256_val floor)%N (FeeFloor (mk_fee_floor l floor fee)).

Definition fee_violations (policy : AdmissionPolicy) (e : TransactionEnvelope) : list ValidationError :=
  lane_violation Payload (payload_lane_base_fee (fee_schedule policy)) (payload_lane_fee e) ++
  lane_violation Witness (witness_lane_base_fee (fee_schedule policy)) (witness_lane_fee e).

(** The nonce against the observed one, when one is observed. *)
Definition nonce_violations (policy : AdmissionPolicy) (e : TransactionEnvelope)
    (view : option AdmissionStateView) : list ValidationError :=
  match view ≫= (fun v => v e) with
  | None => []
  | Some observed =>
      let nonce := uval (transaction_nonce e) in
      violated (nonce <? uval observed)%N (NoncePolicyViolation (mk_nonce_error
        "transaction nonce is lower than the observed replay lane nonce")) ++
      violated (uval observed + uval (max_future_nonce_gap (nonce_policy policy)) <? nonce)%N
        (NoncePolicyViolation (mk_nonce_error
           "transaction nonce exceeds the configured future replay lane gap"))
  end.

Definition violations (policy : AdmissionPolicy) (e : TransactionEnvelope)
    (view : option AdmissionStateView) : list ValidationError :=
  (Mempool.Primitive <$> closed_violations e) ++ fee_violations policy e ++ nonce_violations policy e view.

(** ** The checks report them *)

Lemma closed_checks_report e :
  closed_checks e = map_err Mempool.Primitive (report (closed_violations e)).
Proof.
  unfold closed_checks, closed_violations. rewrite !report_app, !report_flat_map, report_violated.
  rewrite for_each_map_err.
  assert (check_authorization_payload_roots (env_payload e) (authorizations e) =
    for_each (fun a => report (violated (bool_decide (auth_payload_root a <> payload_root_of (env_payload e)))
      (PayloadRootMismatch (mk_payload_root_mismatch (payload_root_of (env_payload e)) (auth_payload_root a)))))
      (authorizations e)) as ->.
  { unfold check_authorization_payload_roots. rewrite payload_hash_tree_root_total. cbn [bind_result].
    apply for_each_ext. intros a. rewrite report_violated. by case_decide as Hd; case_bool_decide. }
  rewrite (for_each_ext (fun a => check_user_signature_size (auth_signature a))
    (fun a => report (violated (MAX_USER_SIGNATURE_BYTES <? len (auth_signature a))%N
      (Primitives.SignatureSizeExceeded (mk_signature_size MAX_USER_SIGNATURE_BYTES (len (auth_signature a)))))))
    by (intros a; by rewrite report_violated).
  destruct (authorizations e) as [|a l]; [done|].
  cbn [check_authorization_count bool_decide]. rewrite bool_decide_eq_false_2 by done. cbn [map_err bind_result].
  by destruct (for_each _ (a :: l)).
Qed.

Lemma lane_report l floor fee (k : result unit ValidationError) :
  (if negb (gas_price_covers fee floor) then Err (FeeFloor (mk_fee_floor l floor fee)) else k) =
  (report (lane_violation l floor fee) ?;; k).
Proof.
  unfold lane_violation. rewrite report_violated. pose proof (gas_price_covers_iff fee floor) as Hg.
  destruct (gas_price_covers fee floor), (N.ltb_spec (u256_val fee) (u256_val floor)); try done; cbn; naive_solver lia.
Qed.

Lemma fee_checks_report policy e : check_fee_policy policy e = report (fee_violations policy e).
Proof.
  unfold check_fee_policy, fee_violations. rewrite lane_report, lane_report, report_app.
  destruct (report (lane_violation Payload _ _)) as [[]|]; [|done]. cbn [bind_result].
  by destruct (report (lane_violation Witness _ _)) as [[]|].
Qed.

(** The saturating end of the window decides as the exact sum does. *)
Lemma nonce_checks_report policy e view : check_nonce_policy policy e view = report (nonce_violations policy e view).
Proof.
  unfold check_nonce_policy, nonce_violations. destruct view as [view|]; [|done]. cbn [mbind option_bind].
  destruct (view e) as [o|]; [|done]. rewrite report_app, !report_violated.
  destruct (N.ltb_spec (uval (transaction_nonce e)) (uval o)); [done|]. cbn [bind_result].
  unfold saturating_add. pose proof (uval_bound (transaction_nonce e)).
  destruct (N.ltb_spec (N.min (uval o + uval (max_future_nonce_gap (nonce_policy policy))) (2 ^ 64 - 1))
              (uval (transaction_nonce e))),
    (N.ltb_spec (uval o + uval (max_future_nonce_gap (nonce_policy policy))) (uval (transaction_nonce e)));
    done || lia.
Qed.

Lemma screen_report policy e view :
  screen_transaction policy e view =
  (report (violations policy e view) ?;;
   Ok (mk_tentative (payload_root_of (env_payload e)) (len (authorizations e)))).
Proof.
  rewrite screen_transaction_eq, closed_checks_report, fee_checks_report, nonce_checks_report.
  unfold violations. rewrite !report_app, report_fmap.
  destruct (map_err _ (report (closed_violations e))) as [[]|]; [|done]. cbn [bind_result].
  by destruct (report (fee_violations policy e)) as [[]|].
Qed.

End rules.

(** ** Theorems *)

(** C14: Screening is the rule table: [screen_transaction] accepts an envelope exactly when
    the table lists no violation, and otherwise reports the first one listed: a missing
    authorization before a foreign payload root, that before an oversized signature,
    that before the payload and then the witness fee floor, and those before a stale and
    then a far-future nonce; among authorizations the earliest is blamed. *)
Theorem screen_is_first_violation `{Sha256} policy e view :
  screen_transaction policy e view =
  match violations policy e view with
  | [] => Ok (mk_tentative (payload_root_of (env_payload e)) (len (authorizations e)))
  | error :: _ => Err error
  end.
Proof. rewrite screen_report. by destruct (violations policy e view). Qed.

(** C15: How admission fails: with the first violation of the table, or, when there is none,
    because the number of key materials differs from the number of authorizations, in
    both cases without a call to the dispatcher; or at the first authorization the
    dispatcher refuses, after it accepted all the earlier ones, with the dispatcher's
    own error in the mempool's terms.  There is no other failure. *)
Theorem admit_fails_iff `{Sha256} {W D} `{SignatureDispatcher W D} (self : AdmissionPipeline D) e view ms w error w' :
  let auths := authorizations e in
  let sr := signing_root_of (mk_signing_data (payload_root_of (env_payload e))
              (policy_domain (authorization_domain (policy self)))) in
  admit_and_verify self e view ms w = (Err error, w') <->
  (head (violations (policy self) e view) = Some error /\ w' = w) \/
  (violations (policy self) e view = [] /\ length ms <> length auths /\ w' = w /\
     error = AuthorizationMaterialCount (mk_material_count (len auths) (len ms))) \/
  (violations (policy self) e view = [] /\ length ms = length auths /\
     exists before a m after w1 cause,
       zip auths ms = before ++ (a, m) :: after /\
       runs (authorization_step (dispatcher self) sr) before w w1 /\
       verify_transaction_authorization (dispatcher self) (auth_scheme_id a)
         (mk_request (am_public_key_material m) sr (auth_signature a)) w1 = (Err cause, w') /\
       error = map_crypto_error cause).
Proof.
  intros auths sr. rewrite admit_cases, screen_report.
  destruct (violations (policy self) e view) as [|v l]; cbn [report bind_result head]; [|naive_solver].
  destruct (decide (length ms = length auths)) as [Hl|Hl].
  - rewrite verify_authorizations_eq, bind_err, m_for_each_err by done. cbn [ta_payload_root]. fold auths sr. split.
    + intros [(l1 & [a m] & l2 & w1 & Hz & Hr & (cause & Hc & ->)%m_map_err_err)|(? & ? & _ & Hr)]; [|done].
      right; right. split_and!; [done..|]. by exists l1, a, m, l2, w1, cause.
    + intros [[? _]|[(_ & ? & _)|(_ & _ & l1 & a & m & l2 & w1 & cause & Hz & Hr & Hc & ->)]]; [done..|].
      left. exists l1, (a, m), l2, w1. split_and!; [done..|]. apply m_map_err_err. by exists cause.
  - unfold verify_authorizations. rewrite decide_True by done. fold auths. split; [|naive_solver].
    intros [= <- <-]. naive_solver.
Qed.
