(* ===== verification/Execution.v ===== *)
(** * shell-execution: stateless block execution

    [errors.rs], [outputs.rs], [engine.rs] and [planned.rs].  [execute_block] drives
    two trait objects, a transaction executor and a state applier; both run in the
    same world, since a caller may hand in objects that share state.  The loop of
    [execute_block] is a recursion on the transactions that carries the current
    root and the two vectors it pushes to. *)

From S2P Require Import Prelude Primitives StateKeys Codec Hash Sha256 OrdMap Ssz State.

(** ** errors.rs *)

Inductive ExecutionError : Type :=
| TransactionRoot (e : PrimitiveError)
| StateTransition (e : StateError)
| Executor (context : string)
| PostStateRootMismatch (expected actual : Root)
| ReceiptsRootMismatch (expected actual : Root).

(** ** outputs.rs *)

Record ExecutionReceipt : Type := mk_receipt {
  status_code : byte;
  output : MockProgressiveByteList
}.

Record TransactionExecutionOutcome : Type := mk_tx_outcome {
  to_transaction_root : Root;
  to_post_state_root : Root;
  to_receipt : ExecutionReceipt
}.

Record BlockExecutionOutcome : Type := mk_block_outcome {
  be_post_state_root : Root;
  be_receipts_root : Root;
  transaction_outcomes : list TransactionExecutionOutcome
}.

Record CommittedExecutionRoots : Type := mk_committed {
  ce_state_root : Root;
  ce_receipts_root : Root
}.

Definition receipt_preimage (self : ExecutionReceipt) : list byte :=
  bytes_of_string "shell-execution/receipt-v1" ++ [status_code self]
    ++ be_bytes 8 (len (output self) mod 2 ^ 64) ++ output self.

Definition ensure_matches (self : BlockExecutionOutcome) (committed_roots : CommittedExecutionRoots)
    : result unit ExecutionError :=
  if decide (be_post_state_root self <> ce_state_root committed_roots) then
    Err (PostStateRootMismatch (ce_state_root committed_roots) (be_post_state_root self))
  else if decide (be_receipts_root self <> ce_receipts_root committed_roots) then
    Err (ReceiptsRootMismatch (ce_receipts_root committed_roots) (be_receipts_root self))
  else Ok tt.

(** ** engine.rs (data) *)

Record TransactionExecutionPlan : Type := mk_plan {
  state_patch : StatePatch;
  receipt : ExecutionReceipt
}.

(** The trait [TransactionExecutor]. *)
Class TransactionExecutor (W : Type) : Type :=
  execute_transaction : Root -> TransactionEnvelope -> M W ExecutionError TransactionExecutionPlan.

Section execution.
Context `{SHA : Sha256}.

Definition receipt_canonical_root (self : ExecutionReceipt) : Root := sha256 (receipt_preimage self).

Definition receipts_preimage (receipts : list ExecutionReceipt) : list byte :=
  bytes_of_string "shell-execution/receipts-root-v1" ++ be_bytes 8 (len receipts mod 2 ^ 64)
    ++ concat ((fun r => elems (receipt_canonical_root r)) <$> receipts).

Definition compute_receipts_root (receipts : list ExecutionReceipt) : Root :=
  sha256 (receipts_preimage receipts).

(** ** engine.rs *)

Section engine.
Context {W : Type} `{TransactionExecutor W, StateTransitionApplier W}.

Fixpoint execute_loop (transactions : list TransactionEnvelope) (current_state_root : Root)
    (receipts : list ExecutionReceipt) (outcomes : list TransactionExecutionOutcome)
    : M W ExecutionError (Root * list ExecutionReceipt * list TransactionExecutionOutcome) :=
  match transactions with
  | [] => ret (current_state_root, receipts, outcomes)
  | transaction :: transactions =>
      let! transaction_root := lift (map_err TransactionRoot (canonical_root transaction)) in
      let! plan := execute_transaction current_state_root transaction in
      let! transition_outcome :=
        m_map_err StateTransition (applier_apply_transition current_state_root (state_patch plan)) in
      let current_state_root := post_state_root transition_outcome in
      execute_loop transactions current_state_root (receipts ++ [receipt plan])
        (outcomes ++ [mk_tx_outcome transaction_root current_state_root (receipt plan)])
  end.

Definition execute_block (pre_state_root : Root) (transactions : list TransactionEnvelope)
    : M W ExecutionError BlockExecutionOutcome :=
  let! out := execute_loop transactions pre_state_root [] [] in
  let '(current_state_root, receipts, outcomes) := out in
  ret (mk_block_outcome current_state_root (compute_receipts_root receipts) outcomes).

(** What a run of the loop does, transaction by transaction. *)
Inductive executes : Root -> W -> list TransactionEnvelope -> list TransactionExecutionOutcome ->
    Root -> W -> Prop :=
| executes_nil r w : executes r w [] [] r w
| executes_cons r w tx txs plan w1 tr w2 outs r' w' :
    execute_transaction r tx w = (Ok plan, w1) ->
    applier_apply_transition r (state_patch plan) w1 = (Ok tr, w2) ->
    executes (post_state_root tr) w2 txs outs r' w' ->
    executes r w (tx :: txs)
      (mk_tx_outcome (envelope_root_of tx) (post_state_root tr) (receipt plan) :: outs) r' w'.

(** How one transaction fails. *)
Definition fails_at (r : Root) (w : W) (tx : TransactionEnvelope) (e : ExecutionError) (w' : W) : Prop :=
  execute_transaction r tx w = (Err e, w') \/
  exists plan w1 se, execute_transaction r tx w = (Ok plan, w1) /\
    applier_apply_transition r (state_patch plan) w1 = (Err se, w') /\ e = StateTransition se.

Lemma execute_loop_ok txs r rs os w r' rs' os' w' :
  execute_loop txs r rs os w = (Ok (r', rs', os'), w') <->
  exists outs, executes r w txs outs r' w' /\ os' = os ++ outs /\ rs' = rs ++ (to_receipt <$> outs).
Proof.
  revert r rs os w. induction txs as [|tx txs IH]; intros r rs os w; cbn [execute_loop].
  - unfold ret. split.
    + intros [= <- <- <- <-]. exists []. rewrite !app_nil_r. split; [constructor|done].
    + intros (outs & Hex & -> & ->). inversion Hex; subst. by rewrite !app_nil_r.
  - rewrite envelope_root_total, bind_ok. setoid_rewrite bind_ok. setoid_rewrite bind_ok. split.
    + intros (tr & w0 & (Htr & <-)%lift_eq & plan & w1 & Hplan & st & w2 & Hst & Hloop).
      injection Htr as <-. apply m_map_err_ok in Hst. apply IH in Hloop as (outs & Hex & -> & ->).
      eexists. split; [by eapply executes_cons|]. by rewrite <- !app_assoc.
    + intros (outs & Hex & -> & ->). inversion Hex as [|? ? ? ? plan w1 tr w2 outs' ? ? Hp Ha Hrest]; subst.
      exists (envelope_root_of tx), w. split; [done|]. exists plan, w1. split; [done|].
      exists tr, w2. split; [by apply m_map_err_ok|]. apply IH. exists outs'.
      by rewrite <- !app_assoc.
Qed.

Lemma execute_loop_err txs r rs os w e w' :
  execute_loop txs r rs os w = (Err e, w') <->
  exists done_ tx rest outs r1 w1, txs = done_ ++ tx :: rest /\
    executes r w done_ outs r1 w1 /\ fails_at r1 w1 tx e w'.
Proof.
  revert r rs os w. induction txs as [|tx txs IH]; intros r rs os w; cbn [execute_loop].
  - split; [done|]. intros ([|] & ? & ? & ? & ? & ? & ? & _); done.
  - rewrite envelope_root_total, bind_err. setoid_rewrite bind_err. setoid_rewrite bind_err.
    setoid_rewrite IH. clear IH. split.
    + intros [Hbad|(tr & w0 & (Htr & <-)%lift_eq & [Hx|(plan & w1 & Hplan & [Hx|Hrest])])].
      * by apply lift_eq in Hbad as [? _].
      * exists [], tx, txs, [], r, w. split_and!; [done|constructor|by left].
      * apply m_map_err_err in Hx as (se & Hx & ->).
        exists [], tx, txs, [], r, w. split_and!; [done|constructor|right]. by eexists _, _, _.
      * destruct Hrest as (st & w2 & Hst & d & tx' & rest & outs & r1 & w3 & -> & Hex & Hf).
        apply m_map_err_ok in Hst. eexists (tx :: d), tx', rest, _, r1, w3.
        split_and!; [done|by eapply executes_cons|done].
    + intros (d & tx' & rest & outs & r1 & w1 & Heq & Hex & Hf). right.
      exists (envelope_root_of tx), w. split; [done|].
      destruct d as [|tx0 d]; simplify_eq/=; inversion Hex; subst.
      * destruct Hf as [Hf|(plan & w2 & se & Hp & Ha & ->)]; [by left|right].
        exists plan, w2. split; [done|]. left. apply m_map_err_err. eauto.
      * right. eexists _, _. split; [done|]. right. eexists _, _. split; [by apply m_map_err_ok|].
        by eexists _, _, _, _, _, _.
Qed.

End engine.

(** ** planned.rs *)

Record PlannedTransaction : Type := mk_planned {
  pt_transaction_root : Root;
  pt_plan : TransactionExecutionPlan
}.

Definition PlannedTransaction_from_transaction (transaction : TransactionEnvelope)
    (plan : TransactionExecutionPlan) : result PlannedTransaction ExecutionError :=
  let? transaction_root := map_err TransactionRoot (canonical_root transaction) in
  Ok (mk_planned transaction_root plan).

Record PlannedTransactionExecutor : Type := mk_planned_executor {
  planned_transactions : list PlannedTransaction;
  next_index : nat
}.

Definition PlannedTransactionExecutor_new (planned : list PlannedTransaction)
    : PlannedTransactionExecutor := mk_planned_executor planned 0.

Definition is_exhausted (self : PlannedTransactionExecutor) : bool :=
  next_index self =? length (planned_transactions self).

Definition ensure_exhausted (self : PlannedTransactionExecutor) : result unit ExecutionError :=
  if is_exhausted self then Ok tt else Err (Executor "unconsumed planned transaction steps").

#[export] Instance PlannedTransactionExecutor_execute : TransactionExecutor PlannedTransactionExecutor :=
  fun _pre_state_root transaction self =>
    let index := next_index self in
    match (let? planned := ok_or (planned_transactions self !! index)
             (Executor "missing planned transaction step") in
           let? transaction_root := map_err TransactionRoot (canonical_root transaction) in
           if decide (transaction_root <> pt_transaction_root planned)
           then Err (Executor "planned transaction root mismatch")
           else Ok (pt_plan planned)) with
    | Ok plan => (Ok plan, mk_planned_executor (planned_transactions self) (index + 1))
    | Err e => (Err e, self)
    end.

End execution.

(** ** Receipts *)

Section receipts_lemmas.
Context `{SHA : Sha256}.

Definition receipts_queries (rs : list ExecutionReceipt) : list (list byte) :=
  receipts_preimage rs :: (receipt_preimage <$> rs).

Lemma receipt_preimage_inj a b : receipt_preimage a = receipt_preimage b -> a = b.
Proof.
  unfold receipt_preimage. intros Heq%app_inv_head. apply cons_eq_inj in Heq as [Hs Ho].
  apply app_inj_1 in Ho as [_ Ho]; [|by rewrite !length_be_bytes].
  destruct a, b; simpl in *; congruence.
Qed.

Lemma receipts_preimage_inj Q rs rs' :
  collision_free Q -> receipts_queries rs ⊆ Q -> receipts_queries rs' ⊆ Q ->
  receipts_preimage rs = receipts_preimage rs' -> rs = rs'.
Proof.
  intros HQ [_ Hq]%queries_cons [_ Hq']%queries_cons Heq.
  apply app_inv_head in Heq. apply app_inj_1 in Heq as [_ Heq]; [|by rewrite !length_be_bytes].
  revert rs' Hq' Heq. induction rs as [|r rs IH]; intros [|r' rs'] Hq' Heq; [done|..].
  - apply (f_equal length) in Heq. simpl in Heq. rewrite length_app, elems_length in Heq. lia.
  - apply (f_equal length) in Heq. simpl in Heq. rewrite length_app, elems_length in Heq. lia.
  - cbn [fmap list_fmap concat] in *. apply array_app_inj in Heq as [Hd Heq].
    rewrite queries_cons in Hq, Hq'. destruct Hq as [Ha Hq], Hq' as [Hb Hq'].
    apply HQ, receipt_preimage_inj in Hd as ->; [|done..]. f_equal. by apply IH.
Qed.

End receipts_lemmas.

(** ** The reference pair: a planned executor and a reference applier *)

Section reference_pair.
Context `{SHA : Sha256}.

Definition ReferencePair : Type := PlannedTransactionExecutor * ReferenceStateApplier.

#[export] Instance pair_executor : TransactionExecutor ReferencePair := fun pre tx =>
  zoom fst (fun x w => (x, w.2)) (execute_transaction pre tx).
#[export] Instance pair_applier : StateTransitionApplier ReferencePair := fun pre patch =>
  zoom snd (fun y w => (w.1, y)) (applier_apply_transition pre patch).

Lemma planned_step (before : list PlannedTransaction) p rest pre tx :
  pt_transaction_root p = envelope_root_of tx ->
  execute_transaction pre tx (mk_planned_executor (before ++ p :: rest) (length before)) =
  (Ok (pt_plan p), mk_planned_executor ((before ++ [p]) ++ rest) (length (before ++ [p]))).
Proof.
  intros Hp. unfold execute_transaction, PlannedTransactionExecutor_execute.
  cbn [planned_transactions next_index].
  rewrite list_lookup_middle by done. rewrite envelope_root_total. cbn [ok_or bind_result map_err].
  rewrite decide_False by (rewrite Hp; tauto). rewrite <- app_assoc, length_app. done.
Qed.

Lemma applier_step acc patch :
  patch_ok patch ->
  exists acc', applier_apply_transition (root acc) patch (mk_applier acc false) =
      (Ok (mk_outcome (root acc')), mk_applier acc' false) /\
    apply_transition patch acc = (Ok (root acc'), acc').
Proof.
  intros Hp. unfold applier_apply_transition, ReferenceStateApplier_apply. cbn [borrowed accumulator].
  rewrite decide_False by tauto. rewrite apply_transition_ok by done. by eexists.
Qed.

(** The state the patches of the plans lead to. *)
Definition apply_plans (plans : list PlannedTransaction) (s : AbstractState) : AbstractState :=
  foldl (fun s p => apply_patch (state_patch (pt_plan p)) s) s plans.

Lemma reference_executes plans : forall txs before acc,
  reachable acc ->
  Forall2 (fun tx p => pt_transaction_root p = envelope_root_of tx) txs plans ->
  Forall (fun p => patch_ok (state_patch (pt_plan p))) plans ->
  exists outs acc',
    executes (root acc)
      (mk_planned_executor (before ++ plans) (length before), mk_applier acc false)
      txs outs (root acc')
      (mk_planned_executor (before ++ plans) (length (before ++ plans)), mk_applier acc' false) /\
    reachable acc' /\ abs acc' = apply_plans plans (abs acc) /\
    to_receipt <$> outs = (fun p => receipt (pt_plan p)) <$> plans.
Proof.
  induction plans as [|p plans IH]; intros txs before acc Hacc Htx Hp.
  - inversion Htx; subst. exists [], acc. rewrite app_nil_r. split_and!; [constructor|done..].
  - inversion Htx as [|tx ? txs' ? Hroot Htx']; subst. apply Forall_cons in Hp as [Hp Hps].
    destruct (applier_step acc _ Hp) as (acc1 & Happly & Htr).
    assert (reachable acc1) as Hacc1 by (by eapply reach_step).
    assert (abs acc1 = apply_patch (state_patch (pt_plan p)) (abs acc)) as Habs.
    { apply reachable_inv in Hacc as [Hok _].
      apply apply_transition_inv in Htr as [(_ & _ & ->)|(Hbad & _)]; [|done]. by apply abs_fold. }
    destruct (IH txs' (before ++ [p]) acc1 Hacc1 Htx' Hps) as (outs & acc' & Hex & Hr & Ha & Hrec).
    rewrite <- !app_assoc in Hex. cbn [app] in Hex.
    eexists _, acc'. split_and!; [|done| |].
    + eapply executes_cons with (tr := mk_outcome (root acc1)); [| |exact Hex].
      * unfold execute_transaction at 1, pair_executor. erewrite zoom_eq.
        2:{ cbn [fst]. by apply planned_step. }
        cbn [snd]. by rewrite <- app_assoc.
      * unfold applier_apply_transition at 1, pair_applier. erewrite zoom_eq.
        2:{ cbn [snd]. exact Happly. }
        done.
    + rewrite Ha, Habs. done.
    + by rewrite !fmap_cons, Hrec.
Qed.

(** Conversely, what a successful run on the pair must have been. *)
Lemma reference_executes_inv r w txs outs r' w' :
  executes r w txs outs r' w' -> forall planned k acc,
  w = (mk_planned_executor planned k, mk_applier acc false) -> reachable acc -> r = root acc ->
  exists acc',
    w' = (mk_planned_executor planned (k + length txs), mk_applier acc' false) /\
    reachable acc' /\ r' = root acc' /\
    Forall2 (fun tx p => pt_transaction_root p = envelope_root_of tx) txs (take (length txs) (drop k planned)) /\
    Forall (fun p => patch_ok (state_patch (pt_plan p))) (take (length txs) (drop k planned)) /\
    abs acc' = apply_plans (take (length txs) (drop k planned)) (abs acc) /\
    to_receipt <$> outs = (fun p => receipt (pt_plan p)) <$> take (length txs) (drop k planned).
Proof.
  induction 1 as [r w|r w tx txs plan w1 tr w2 outs r' w' Hex Hap _ IH]; intros planned k acc -> Hacc ->.
  - exists acc. rewrite Nat.add_0_r. split_and!; done || constructor.
  - unfold execute_transaction, pair_executor, zoom in Hex. cbn [fst snd] in Hex.
    unfold execute_transaction, PlannedTransactionExecutor_execute in Hex.
    cbn [planned_transactions next_index] in Hex. rewrite envelope_root_total in Hex.
    destruct (planned !! k) as [p|] eqn:Hk; [|done]. cbn [ok_or bind_result map_err] in Hex.
    case_decide as Hroot; [done|]. injection Hex as <- <-.
    unfold applier_apply_transition, pair_applier, zoom in Hap. cbn [fst snd] in Hap.
    unfold applier_apply_transition, ReferenceStateApplier_apply in Hap.
    cbn [borrowed accumulator] in Hap. rewrite decide_False in Hap by tauto.
    destruct (apply_transition (state_patch (pt_plan p)) acc) as [rt acc1] eqn:Ht.
    apply apply_transition_inv in Ht as Hinv. destruct Hinv as [(Hpok & -> & Ha1)|(_ & _ & e & -> & _)]; [|done].
    injection Hap as <- <-. cbn [post_state_root] in IH.
    destruct (IH planned (k + 1) acc1) as (acc' & -> & Hr & -> & Hf & Hpf & Habs & Hrec); [done|by eapply reach_step|done|].
    exists acc'. rewrite (drop_S _ _ _ Hk). cbn [length take].
    replace (S k) with (k + 1) by lia. replace (k + S (length txs)) with (k + 1 + length txs) by lia.
    split_and!; try done.
    + by constructor.
    + by constructor.
    + rewrite Habs. assert (abs acc1 = apply_patch (state_patch (pt_plan p)) (abs acc)) as ->; [|done].
      rewrite Ha1. apply abs_fold. by apply reachable_inv in Hacc as [? _].
    + by rewrite !fmap_cons, Hrec.
Qed.

End reference_pair.

(** ** Theorems *)

Section execution_theorems.
Context `{SHA : Sha256}.

(** C20: What block execution returns: it succeeds exactly when every transaction in
    turn is planned by the executor and its patch is applied from the state root the
    previous one left (the given pre-state root for the first); the outcome then
    lists, per transaction and in order, the envelope root, that state root and the
    receipt, ends with the last state root, and commits to exactly those receipts. *)
Theorem execute_block_ok_iff {W} `{TransactionExecutor W, StateTransitionApplier W} pre txs w out w' :
  execute_block pre txs w = (Ok out, w') <->
  executes pre w txs (transaction_outcomes out) (be_post_state_root out) w' /\
  be_receipts_root out = compute_receipts_root (to_receipt <$> transaction_outcomes out).
Proof.
  unfold execute_block. rewrite bind_ok. split.
  - intros ([[r rs] os] & w1 & (outs & Hex & -> & ->)%execute_loop_ok & (Hout & <-)%ret_eq).
    injection Hout as <-. done.
  - intros [Hex Hr]. destruct out as [r rr os]; simpl in *. subst rr.
    exists (r, to_receipt <$> os, os), w'. split; [|done]. apply execute_loop_ok. by exists os.
Qed.

(** C31: How block execution fails: at the first transaction that the executor
    refuses or whose patch the applier refuses; the earlier transactions have run
    and their effects stay in the world (there is no rollback), the later ones have
    not run, and the error is the executor's own or the state error as
    [StateTransition]. *)
Theorem execute_block_err_iff {W} `{TransactionExecutor W, StateTransitionApplier W} pre txs w e w' :
  execute_block pre txs w = (Err e, w') <->
  exists ran tx rest outs r1 w1, txs = ran ++ tx :: rest /\
    executes pre w ran outs r1 w1 /\ fails_at r1 w1 tx e w'.
Proof.
  unfold execute_block. rewrite bind_err, execute_loop_err. split; [|by left].
  intros [Hf|([[? ?] ?] & ? & _ & Hr)]; [done|]. by apply ret_eq in Hr as [? _].
Qed.

(** C21: Planned blocks execute: with one well-formed planned step per transaction,
    in order and with matching envelope roots, execution against a reference applier
    at its own root succeeds, uses up the plan, applies exactly the planned patches
    in order to the state, releases the applier, and returns the root of the state it
    leaves and the planned receipts. *)
Theorem planned_block_executes plans txs acc :
  reachable acc ->
  Forall2 (fun tx p => pt_transaction_root p = envelope_root_of tx) txs plans ->
  Forall (fun p => patch_ok (state_patch (pt_plan p))) plans ->
  exists out ex ap,
    execute_block (root acc) txs (PlannedTransactionExecutor_new plans, ReferenceStateApplier_new acc)
      = (Ok out, (ex, ap)) /\
    ensure_exhausted ex = Ok tt /\ borrowed ap = false /\
    be_post_state_root out = applier_state_root ap /\
    abs (accumulator ap) = apply_plans plans (abs acc) /\
    to_receipt <$> transaction_outcomes out = (fun p => receipt (pt_plan p)) <$> plans.
Proof.
  intros Hacc Htx Hp. destruct (reference_executes plans txs [] acc Hacc Htx Hp)
    as (outs & acc' & Hex & Hr & Habs & Hrec).
  exists (mk_block_outcome (root acc') (compute_receipts_root (to_receipt <$> outs)) outs),
    (mk_planned_executor plans (length plans)), (mk_applier acc' false).
  split_and!; try done.
  - unfold execute_block. apply bind_ok. eexists (root acc', to_receipt <$> outs, outs), _.
    split; [|done]. apply execute_loop_ok. by exists outs.
  - unfold ensure_exhausted, is_exhausted. cbn. by rewrite Nat.eqb_refl.
Qed.

(** Receipts roots bind the receipts: if SHA-256 has no collision among the
    strings hashed for two receipt lists, equal receipts roots come from the same
    receipts in the same order. *)
Theorem receipts_root_binding rs rs' :
  collision_free (receipts_queries rs ++ receipts_queries rs') ->
  compute_receipts_root rs = compute_receipts_root rs' -> rs = rs'.
Proof.
  intros HQ Heq. apply HQ in Heq; [|set_solver..].
  eapply receipts_preimage_inj; [exact HQ|apply queries_l|apply queries_r|done].
Qed.

End execution_theorems.

(** ** Witnesses *)

Section execution_samples.
#[local] Existing Instance poly_hash.

Definition exec_plan : TransactionExecutionPlan :=
  mk_plan sample_patch (mk_receipt Byte.x01 [Byte.x2a]).
Definition exec_planned : PlannedTransaction :=
  mk_planned (envelope_root_of unsigned_sample) exec_plan.

Lemma planned_block_executes_witness :
  exists out ex ap,
    execute_block (zeros 32) [unsigned_sample]
      (PlannedTransactionExecutor_new [exec_planned], ReferenceStateApplier_new InMemoryAccumulator_new)
      = (Ok out, (ex, ap)) /\
    ensure_exhausted ex = Ok tt /\ borrowed ap = false /\
    be_post_state_root out = applier_state_root ap /\
    abs (accumulator ap) = apply_plans [exec_planned] (abs InMemoryAccumulator_new) /\
    to_receipt <$> transaction_outcomes out = [mk_receipt Byte.x01 [Byte.x2a]].
Proof.
  apply (planned_block_executes [exec_planned] [unsigned_sample] InMemoryAccumulator_new).
  - apply reach_new.
  - apply Forall2_cons. split; [reflexivity|constructor].
  - apply Forall_cons. split; [apply sample_patch_ok|constructor].
Defined.

Lemma receipts_root_binding_witness :
  [mk_receipt Byte.x01 [Byte.x2a]] = [receipt (pt_plan exec_planned)].
Proof.
  apply (receipts_root_binding (SHA := sha2)); [|reflexivity].
  apply collision_free_b_ok. vm_compute. reflexivity.
Defined.

End execution_samples.
