(* ===== verification/Consensus.v ===== *)
(** * shell-consensus: block import

    [outcomes.rs], [header_checks.rs], [sidecars.rs], [execution_bridge.rs],
    [objects.rs] and [import.rs].  The objects behind [&dyn ConsensusHeader],
    [&dyn ConsensusBody] and [&dyn ConsensusSidecar] are read only through getters,
    so each is the record of its getters' values.  The services keep state of their
    own and may share it, so every service call runs in one world [W]. *)

From S2P Require Import Prelude Primitives StateKeys Codec Hash Sha256 OrdMap Ssz State Validation.
From S2P Require Import Crypto Mempool Execution.

(** ** outcomes.rs *)

Record WitnessByteLimitExceededError : Type := mk_witness_limit {
  wl_max_bytes : u64;
  wl_actual_bytes : u64
}.
Record HeaderBodyRootMismatchError : Type := mk_body_mismatch { hb_expected : Root; hb_actual : Root }.
Record SidecarBlockRootMismatchError : Type := mk_sidecar_root_mismatch {
  sb_expected : Root;
  sb_actual : Root
}.
Record SidecarCommitmentMismatchError : Type := mk_sidecar_commitment_mismatch {
  sc_expected : Root;
  sc_actual : Root
}.

Inductive ConsensusError : Type :=
| Primitive (e : PrimitiveError)
| Domain (e : DomainError)
| Crypto (e : CryptoError)
| TransactionValidation (e : ValidationError)
| Execution (e : ExecutionError)
| State (e : StateError)
| ProposerCredentialResolution (e : ProposerCredentialResolutionError)
| WitnessByteLimitExceeded (e : WitnessByteLimitExceededError)
| HeaderBodyRootMismatch (e : HeaderBodyRootMismatchError)
| SidecarBlockRootMismatch (e : SidecarBlockRootMismatchError)
| SidecarCommitmentMismatch (e : SidecarCommitmentMismatchError).

(** The [From] impls. *)
#[export] Instance PrimitiveError_into_consensus : From PrimitiveError ConsensusError := Primitive.
#[export] Instance DomainError_into_consensus : From DomainError ConsensusError := Domain.
#[export] Instance CryptoError_into_consensus : From CryptoError ConsensusError := Crypto.
#[export] Instance ValidationError_into_consensus : From ValidationError ConsensusError := TransactionValidation.
#[export] Instance ExecutionError_into_consensus : From ExecutionError ConsensusError := Execution.
#[export] Instance StateError_into_consensus : From StateError ConsensusError := State.
#[export] Instance ProposerCredentialResolutionError_into_consensus :
  From ProposerCredentialResolutionError ConsensusError := ProposerCredentialResolution.

Definition ConsensusError_network_validation_outcome (e : ConsensusError)
    : option ValidationOutcome :=
  match e with
  | Primitive error => PrimitiveError_network_validation_outcome error
  | Domain _ => None
  | Crypto error => CryptoError_network_validation_outcome error
  | TransactionValidation error => ValidationError_network_validation_outcome error
  | Execution _ | State _ | HeaderBodyRootMismatch _ | SidecarBlockRootMismatch _
  | SidecarCommitmentMismatch _ => Some Reject
  | ProposerCredentialResolution error => if is_consensus_invalid error then Some Reject else None
  | WitnessByteLimitExceeded _ => Some PolicyReject
  end.

Record BlockImportOutcome : Type := mk_import_outcome {
  bi_block_root : Root;
  bi_post_state_root : Root;
  bi_receipts_root : Root
}.

(** ** header_checks.rs, sidecars.rs, import.rs: the traits *)

Record ConsensusHeader : Type := mk_header {
  h_canonical_root : result Root PrimitiveError;
  witness_bytes : u64;
  h_transactions_root : Root;
  execution_witnesses_root : Root;
  h_state_root : Root;
  h_receipts_root : Root;
  proposer_signature : list byte;
  proposer_index_hint : option u64
}.

Record ConsensusBody : Type := mk_body {
  b_transactions_root : result Root PrimitiveError;
  transactions : list TransactionEnvelope
}.

Record ConsensusSidecar : Type := mk_sidecar {
  s_block_root : Root;
  committed_root : Root
}.

(** ** objects.rs *)

Record CanonicalBlockHeader : Type := mk_canonical_header {
  ch_block_root : Root;
  ch_block_number : u64;
  ch_timestamp : u64;
  ch_parent_root : Root;
  ch_witness_bytes : u64;
  ch_transactions_root : Root;
  ch_execution_witnesses_root : Root;
  ch_state_root : Root;
  ch_receipts_root : Root;
  ch_proposer_signature : list byte;
  ch_proposer_index_hint : option u64
}.

Definition CanonicalBlockHeader_header (self : CanonicalBlockHeader) : ConsensusHeader :=
  mk_header (Ok (ch_block_root self)) (ch_witness_bytes self) (ch_transactions_root self)
    (ch_execution_witnesses_root self) (ch_state_root self) (ch_receipts_root self)
    (ch_proposer_signature self) (ch_proposer_index_hint self).

Record CanonicalBlockBody : Type := mk_canonical_body {
  cb_transactions : list TransactionEnvelope;
  cb_transactions_root : Root
}.

Definition CanonicalBlockBody_body (self : CanonicalBlockBody) : ConsensusBody :=
  mk_body (Ok (cb_transactions_root self)) (cb_transactions self).

Record CanonicalBlockSidecar : Type := mk_canonical_sidecar {
  cs_block_root : Root;
  cs_execution_witnesses_root : Root;
  witnesses : list StateWitness
}.

Definition CanonicalBlockSidecar_sidecar (self : CanonicalBlockSidecar) : ConsensusSidecar :=
  mk_sidecar (cs_block_root self) (cs_execution_witnesses_root self).

Record CanonicalBlock : Type := mk_block {
  header : CanonicalBlockHeader;
  body : CanonicalBlockBody;
  sidecar : CanonicalBlockSidecar
}.

Definition split (self : CanonicalBlock)
    : CanonicalBlockHeader * CanonicalBlockBody * CanonicalBlockSidecar :=
  (header self, body self, sidecar self).

(** ** header_checks.rs *)

Record HeaderPrefilterConfig : Type := mk_prefilter { max_witness_bytes : option u64 }.
Record HeaderCheckOutcome : Type := mk_header_outcome { hc_block_root : Root }.

Definition prefilter_header (header : ConsensusHeader) (config : HeaderPrefilterConfig)
    : result HeaderCheckOutcome ConsensusError :=
  let? block_root := map_err from (h_canonical_root header) in
  match max_witness_bytes config with
  | Some max_bytes =>
      let actual_bytes := witness_bytes header in
      if (uval max_bytes <? uval actual_bytes)%N
      then Err (WitnessByteLimitExceeded (mk_witness_limit max_bytes actual_bytes))
      else Ok tt
  | None => Ok tt
  end ?;;
  Ok (mk_header_outcome block_root).

(** ** import.rs *)

Definition verify_body_binding (header : ConsensusHeader) (body : ConsensusBody)
    : result unit ConsensusError :=
  let? actual := map_err from (b_transactions_root body) in
  let expected := h_transactions_root header in
  if decide (actual <> expected)
  then Err (HeaderBodyRootMismatch (mk_body_mismatch expected actual))
  else Ok tt.

Record BlockImportConfig : Type := mk_import_config {
  header_prefilter : HeaderPrefilterConfig;
  bc_multi_authorization_policy : MultiAuthorizationPolicy
}.

(** The service traits, each by its one method. *)
Definition TransactionRevalidator (W : Type) : Type :=
  TransactionEnvelope -> MultiAuthorizationPolicy -> M W ValidationError unit.
Definition WitnessPreparer (W : Type) : Type :=
  ConsensusHeader -> ConsensusSidecar -> M W StateError unit.
Definition BlockExecutionEngine (W : Type) : Type :=
  ConsensusHeader -> ConsensusBody -> ConsensusSidecar -> M W ExecutionError BlockExecutionOutcome.

Section import.
Context {W D : Type} `{SHA : Sha256} `{SD : SignatureDispatcher W D}.

Record BlockImportServices : Type := mk_services {
  resolver : ProposerCredentialResolver W;
  sv_dispatcher : D;
  revalidator : TransactionRevalidator W;
  preparer : WitnessPreparer W;
  execution_engine : BlockExecutionEngine W
}.

Definition verify_header_signature (header : ConsensusHeader) (block_root : Root)
    (services : BlockImportServices) : M W ConsensusError unit :=
  let! credential := m_map_err from
    (resolver services (mk_query block_root (proposer_index_hint header))) in
  let! signing_data := lift (map_err from
    (build_signing_data block_root Primitives.ValidatorMessage)) in
  let! signing_root := lift (map_err from (signing_root signing_data)) in
  let request := mk_request (pc_public_key_material credential) signing_root
                   (proposer_signature header) in
  m_map_err from
    (verify_validator_message (sv_dispatcher services) (pc_scheme_id credential) request) !;;
  ret tt.

Definition revalidate_body_transactions (body : ConsensusBody) (services : BlockImportServices)
    (multi_authorization_policy : MultiAuthorizationPolicy) : M W ConsensusError unit :=
  m_for_each (fun transaction =>
    m_map_err from (revalidator services transaction multi_authorization_policy))
    (transactions body).

(** ** sidecars.rs *)

Definition verify_sidecar_binding (header : ConsensusHeader) (block_root : Root)
    (sidecar : ConsensusSidecar) (services : BlockImportServices) : M W ConsensusError unit :=
  if decide (s_block_root sidecar <> block_root) then
    fail_with (SidecarBlockRootMismatch (mk_sidecar_root_mismatch block_root (s_block_root sidecar)))
  else if decide (committed_root sidecar <> execution_witnesses_root header) then
    fail_with (SidecarCommitmentMismatch
      (mk_sidecar_commitment_mismatch (execution_witnesses_root header) (committed_root sidecar)))
  else
    m_map_err from (preparer services header sidecar) !;;
    ret tt.

(** ** execution_bridge.rs *)

Definition execute_and_compare (header : ConsensusHeader) (body : ConsensusBody)
    (sidecar : ConsensusSidecar) (services : BlockImportServices)
    : M W ConsensusError BlockExecutionOutcome :=
  let! outcome := m_map_err from (execution_engine services header body sidecar) in
  lift (map_err from (ensure_matches outcome
    (mk_committed (h_state_root header) (h_receipts_root header)))) !;;
  ret outcome.

Definition import_block (config : BlockImportConfig) (header : ConsensusHeader) (body : ConsensusBody)
    (sidecar : ConsensusSidecar) (services : BlockImportServices)
    : M W ConsensusError BlockImportOutcome :=
  let! header_outcome := lift (prefilter_header header (header_prefilter config)) in
  lift (verify_body_binding header body) !;;
  verify_header_signature header (hc_block_root header_outcome) services !;;
  revalidate_body_transactions body services (bc_multi_authorization_policy config) !;;
  verify_sidecar_binding header (hc_block_root header_outcome) sidecar services !;;
  let! execution_outcome := execute_and_compare header body sidecar services in
  ret (mk_import_outcome (hc_block_root header_outcome)
         (be_post_state_root execution_outcome) (be_receipts_root execution_outcome)).

(** ** The stages of an import *)

(** The block root and the checks that call no service. *)
Definition bindings_ok (config : BlockImportConfig) (h : ConsensusHeader) (b : ConsensusBody)
    (root : Root) : Prop :=
  h_canonical_root h = Ok root /\
  (forall m, max_witness_bytes (header_prefilter config) = Some m -> (uval (witness_bytes h) <= uval m)%N) /\
  b_transactions_root b = Ok (h_transactions_root h).

(** The proposer's credential resolves and its verifier accepts the header. *)
Definition signature_ok (h : ConsensusHeader) (root : Root) (services : BlockImportServices)
    (w w' : W) : Prop :=
  exists credential w1,
    resolver services (mk_query root (proposer_index_hint h)) w = (Ok credential, w1) /\
    verify_validator_message (sv_dispatcher services) (pc_scheme_id credential)
      (mk_request (pc_public_key_material credential)
         (signing_root_of (mk_signing_data root DOMAIN_VALIDATOR_MESSAGE)) (proposer_signature h)) w1
      = (Ok tt, w').

Definition revalidation_step (services : BlockImportServices) (policy : MultiAuthorizationPolicy)
    (tx : TransactionEnvelope) : M W ConsensusError unit :=
  m_map_err TransactionValidation (revalidator services tx policy).

Definition sidecar_ok (h : ConsensusHeader) (root : Root) (s : ConsensusSidecar)
    (services : BlockImportServices) (w w' : W) : Prop :=
  s_block_root s = root /\ committed_root s = execution_witnesses_root h /\
  preparer services h s w = (Ok tt, w').

Definition execution_ok (h : ConsensusHeader) (b : ConsensusBody) (s : ConsensusSidecar)
    (services : BlockImportServices) (w w' : W) : Prop :=
  exists out, execution_engine services h b s w = (Ok out, w') /\
    be_post_state_root out = h_state_root h /\ be_receipts_root out = h_receipts_root h.

Lemma prefilter_ok config h out :
  prefilter_header h config = Ok out <->
  h_canonical_root h = Ok (hc_block_root out) /\
  (forall m, max_witness_bytes config = Some m -> (uval (witness_bytes h) <= uval m)%N).
Proof.
  unfold prefilter_header. rewrite bind_result_ok. setoid_rewrite map_err_ok. setoid_rewrite then_ok.
  assert ((match max_witness_bytes config with
      | Some m => if (uval m <? uval (witness_bytes h))%N
                  then Err (WitnessByteLimitExceeded (mk_witness_limit m (witness_bytes h))) else Ok tt
      | None => Ok tt end) = Ok tt <->
    (forall m, max_witness_bytes config = Some m -> (uval (witness_bytes h) <= uval m)%N)) as Hm.
  { destruct (max_witness_bytes config) as [m|]; [|naive_solver].
    destruct (N.ltb_spec (uval m) (uval (witness_bytes h))); split; try naive_solver lia.
    intros Hle. specialize (Hle m eq_refl). lia. }
  setoid_rewrite Hm. destruct out as [root]. simpl. split.
  - intros (r & Hr & Hle & [= ->]). done.
  - intros [Hr Hle]. exists root. done.
Qed.

Lemma body_binding_ok h b :
  verify_body_binding h b = Ok tt <-> b_transactions_root b = Ok (h_transactions_root h).
Proof.
  unfold verify_body_binding. destruct (b_transactions_root b) as [r|]; simpl; [|naive_solver].
  case_decide; naive_solver.
Qed.

Lemma header_signature_ok h root services w w' :
  verify_header_signature h root services w = (Ok tt, w') <-> signature_ok h root services w w'.
Proof.
  unfold verify_header_signature, signature_ok. rewrite bind_ok. split.
  - intros (c & w1 & Hc%m_map_err_ok & Hk). exists c, w1. split; [done|].
    unfold bind at 1 2, lift in Hk. cbn in Hk. apply bind_ok in Hk as ([] & w2 & Hv%m_map_err_ok & Hr).
    apply ret_eq in Hr as [_ <-]. exact Hv.
  - intros (c & w1 & Hc & Hv). exists c, w1. split; [by apply m_map_err_ok|].
    unfold bind at 1 2, lift. cbn. apply bind_ok. exists tt, w'. split; [by apply m_map_err_ok|done].
Qed.

(** Primitive errors come from the header's or the body's own root, and the signing
    domain never fails. *)
Lemma import_error_source config h b s services w e w' :
  import_block config h b s services w = (Err e, w') ->
  match e with
  | Primitive pe => h_canonical_root h = Err pe \/ b_transactions_root b = Err pe
  | Domain _ => False
  | _ => True
  end.
Proof.
  unfold import_block. intros [[Hp _]%lift_eq|(ho & w0 & _ & Himp)]%bind_err.
  { unfold prefilter_header in Hp.
    apply bind_result_err in Hp as [(pe & Hpe & ->)%map_err_err|(r & _ & [Hl|(? & _ & ?)]%bind_result_err)];
      [by left| |done].
    destruct (max_witness_bytes (header_prefilter config)) as [m|]; [|done].
    destruct (uval m <? uval (witness_bytes h))%N; [|done]. by injection Hl as <-. }
  apply bind_err in Himp as [[Hb _]%lift_eq|([] & w1 & _ & Himp)].
  { unfold verify_body_binding in Hb.
    apply bind_result_err in Hb as [(pe & Hpe & ->)%map_err_err|(r & _ & Hb)]; [by right|].
    cbn in Hb. case_decide; [by injection Hb as <-|done]. }
  apply bind_err in Himp as [Hs|([] & w2 & _ & Himp)].
  { unfold verify_header_signature in Hs.
    apply bind_err in Hs as [(re & _ & ->)%m_map_err_err|(c & w2 & _ & Hs)]; [done|].
    unfold bind at 1 2, lift in Hs. cbn in Hs.
    by apply bind_err in Hs as [(ce & _ & ->)%m_map_err_err|([] & ? & _ & [? _]%ret_eq)]. }
  apply bind_err in Himp as [Hr|([] & w3 & _ & Himp)].
  { by apply m_for_each_err in Hr as (? & tx & ? & ? & _ & _ & (ve & _ & ->)%m_map_err_err). }
  apply bind_err in Himp as [Hsc|([] & w4 & _ & Himp)].
  { unfold verify_sidecar_binding in Hsc.
    destruct (decide (s_block_root s <> hc_block_root ho)); [by injection Hsc as <- <-|].
    destruct (decide (committed_root s <> execution_witnesses_root h)); [by injection Hsc as <- <-|].
    by apply bind_err in Hsc as [(se & _ & ->)%m_map_err_err|([] & ? & _ & [? _]%ret_eq)]. }
  apply bind_err in Himp as [He|(eo & w5 & _ & [? _]%ret_eq)]; [|done].
  unfold execute_and_compare in He.
  apply bind_err in He as [(ee & _ & ->)%m_map_err_err|(o & ? & _ & [[Hm _]%lift_eq|([] & ? & _ & [? _]%ret_eq)]%bind_err)];
    [done| |done].
  by apply map_err_err in Hm as (? & _ & ->).
Qed.

Lemma sidecar_binding_ok h root s services w w' :
  verify_sidecar_binding h root s services w = (Ok tt, w') <-> sidecar_ok h root s services w w'.
Proof.
  unfold verify_sidecar_binding, sidecar_ok. case_decide; [naive_solver|]. case_decide; [naive_solver|].
  rewrite bind_ok. setoid_rewrite m_map_err_ok. setoid_rewrite ret_eq. split.
  - intros ([] & w1 & Hp & _ & <-). naive_solver.
  - intros (_ & _ & Hp). by exists tt, w'.
Qed.

Lemma ensure_matches_ok out c :
  ensure_matches out c = Ok tt <->
  be_post_state_root out = ce_state_root c /\ be_receipts_root out = ce_receipts_root c.
Proof. unfold ensure_matches. case_decide; [naive_solver|]. case_decide; naive_solver. Qed.

Lemma execute_and_compare_ok h b s services w out w' :
  execute_and_compare h b s services w = (Ok out, w') <->
  execution_engine services h b s w = (Ok out, w') /\
  be_post_state_root out = h_state_root h /\ be_receipts_root out = h_receipts_root h.
Proof.
  unfold execute_and_compare. rewrite bind_ok. split.
  - intros (o & w1 & He%m_map_err_ok & ([] & w2 & [Hm <-]%lift_eq & [Ho <-]%ret_eq)%bind_ok).
    injection Ho as <-. apply map_err_ok, ensure_matches_ok in Hm. done.
  - intros [He Hm]. exists out, w'. split; [by apply m_map_err_ok|]. apply bind_ok. exists tt, w'.
    split; [|done]. apply lift_eq. split; [|done]. by apply map_err_ok, ensure_matches_ok.
Qed.

Lemma import_stages config h b s services w out w' :
  import_block config h b s services w = (Ok out, w') <->
  exists root w1 w2 w3,
    bindings_ok config h b root /\
    signature_ok h root services w w1 /\
    runs (revalidation_step services (bc_multi_authorization_policy config)) (transactions b) w1 w2 /\
    sidecar_ok h root s services w2 w3 /\
    execution_ok h b s services w3 w' /\
    out = mk_import_outcome root (h_state_root h) (h_receipts_root h).
Proof.
  unfold import_block, bindings_ok. split.
  - intros (ho & w0 & [Hp <-]%lift_eq & Hrest)%bind_ok. apply prefilter_ok in Hp as [Hroot Hlim].
    apply bind_ok in Hrest as ([] & w0 & [Hb%body_binding_ok <-]%lift_eq & Hrest).
    apply bind_ok in Hrest as ([] & w1 & Hsig%header_signature_ok & Hrest).
    apply bind_ok in Hrest as ([] & w2 & Hrev & Hrest).
    apply bind_ok in Hrest as ([] & w3 & Hside%sidecar_binding_ok & Hrest).
    apply bind_ok in Hrest as (eo & w4 & (He & Hs & Hr)%execute_and_compare_ok & [Hout <-]%ret_eq).
    injection Hout as <-. apply m_for_each_ok in Hrev.
    exists (hc_block_root ho), w1, w2, w3. rewrite <- Hs, <- Hr.
    split_and!; try done. by exists eo.
  - intros (root & w1 & w2 & w3 & (Hroot & Hlim & Hb) & Hsig & Hrev & Hside & (eo & He & Hs & Hr) & ->).
    apply bind_ok. exists (mk_header_outcome root), w.
    split; [apply lift_eq; split; [by apply prefilter_ok|done]|].
    apply bind_ok. exists tt, w. split; [apply lift_eq; split; [by apply body_binding_ok|done]|].
    apply bind_ok. exists tt, w1. split; [by apply header_signature_ok|].
    apply bind_ok. exists tt, w2. split; [by apply m_for_each_ok|].
    apply bind_ok. exists tt, w3. split; [by apply sidecar_binding_ok|].
    apply bind_ok. exists eo, w'. split; [by apply execute_and_compare_ok|].
    rewrite <- Hs, <- Hr. done.
Qed.

End import.
Arguments BlockImportServices W D : clear implicits.

(** ** Theorems *)

Section consensus_theorems.
Context {W D : Type} `{SHA : Sha256} `{SD : SignatureDispatcher W D}.

(** C2: What block import accepts: exactly the blocks whose header has a root within
    the witness byte limit and commits to the body's transactions root; whose
    proposer credential resolves and verifies the proposer signature over the block
    root under the validator-message domain; whose transactions all revalidate in
    order; whose sidecar names the block root and the header's witness commitment and
    prepares; and whose execution yields the committed state and receipts roots.  The
    stages run in that order, each in the world the previous one left, and the
    outcome reports the block root and the header's own two roots. *)
Theorem import_succeeds_iff config h b s (sv : BlockImportServices W D) w out w' :
  import_block config h b s sv w = (Ok out, w') <->
  exists root w1 w2 w3,
    bindings_ok config h b root /\
    signature_ok h root sv w w1 /\
    runs (revalidation_step sv (bc_multi_authorization_policy config)) (transactions b) w1 w2 /\
    sidecar_ok h root s sv w2 w3 /\
    execution_ok h b s sv w3 w' /\
    out = mk_import_outcome root (h_state_root h) (h_receipts_root h).
Proof. apply import_stages. Qed.

(** A block that fails the header prefilter or the body binding is refused
    without calling the credential resolver, the dispatcher, the revalidator, the
    witness preparer or the execution engine: the world is untouched. *)
Theorem import_cheap_rejects config h b s (sv : BlockImportServices W D) w :
  ~ (exists root, bindings_ok config h b root) ->
  exists e, import_block config h b s sv w = (Err e, w).
Proof.
  intros Hno. unfold import_block, bind at 1, lift at 1.
  destruct (prefilter_header h (header_prefilter config)) as [ho|e] eqn:Hp; [|by exists e].
  unfold bind at 1, lift at 1. destruct (verify_body_binding h b) as [[]|e] eqn:Hb; [|by exists e].
  exfalso. apply Hno. exists (hc_block_root ho). apply prefilter_ok in Hp as [? ?].
  apply body_binding_ok in Hb. done.
Qed.

(** C28: Later stages never run after an earlier one fails: an import error comes
    from exactly one stage, every stage before it succeeded, and the world is the one
    that stage left.  In particular nothing is revalidated, prepared or executed for
    a header whose signature does not verify. *)
Theorem import_error_stage config h b s (sv : BlockImportServices W D) w e w' :
  import_block config h b s sv w = (Err e, w') ->
  (prefilter_header h (header_prefilter config) = Err e /\ w' = w) \/
  (is_ok (prefilter_header h (header_prefilter config)) = true /\
     verify_body_binding h b = Err e /\ w' = w) \/
  (exists root, bindings_ok config h b root /\
    (verify_header_signature h root sv w = (Err e, w') \/
     exists w1, signature_ok h root sv w w1 /\
      (revalidate_body_transactions b sv (bc_multi_authorization_policy config) w1 = (Err e, w') \/
       exists w2, runs (revalidation_step sv (bc_multi_authorization_policy config)) (transactions b) w1 w2 /\
        (verify_sidecar_binding h root s sv w2 = (Err e, w') \/
         exists w3, sidecar_ok h root s sv w2 w3 /\
          execute_and_compare h b s sv w3 = (Err e, w'))))).
Proof.
  unfold import_block. intros [[Hp <-]%lift_eq|(ho & w0 & [Hp <-]%lift_eq & Hrest)]%bind_err; [by left|].
  right. apply bind_err in Hrest as [[Hb <-]%lift_eq|([] & w0 & [Hb <-]%lift_eq & Hrest)];
    [left; by rewrite Hp|].
  right. exists (hc_block_root ho). apply prefilter_ok in Hp as [? ?]. apply body_binding_ok in Hb.
  split; [done|].
  apply bind_err in Hrest as [Hs|([] & w1 & Hs%header_signature_ok & Hrest)]; [by left|].
  right. exists w1. split; [done|].
  apply bind_err in Hrest as [Hr|([] & w2 & Hr & Hrest)]; [by left|].
  right. exists w2. split; [by apply m_for_each_ok|].
  apply bind_err in Hrest as [Hs'|([] & w3 & Hs'%sidecar_binding_ok & Hrest)]; [by left|].
  right. exists w3. split; [done|].
  apply bind_err in Hrest as [He|(eo & w4 & _ & [Hbad _]%ret_eq)]; done.
Qed.

(** Which import errors carry no verdict on the block: only an unavailable
    resolver, an internal error of transaction revalidation, or a header or body
    whose root could not be computed.  In particular the signing domain never fails
    to build, so the [Domain] error does not occur. *)
Theorem import_internal_errors config h b s (sv : BlockImportServices W D) w e w' :
  import_block config h b s sv w = (Err e, w') ->
  ConsensusError_network_validation_outcome e = None ->
  e = ProposerCredentialResolution ResolverUnavailable \/
  (exists ve, e = TransactionValidation ve /\ ValidationError_network_validation_outcome ve = None) \/
  (exists pe, e = Primitive pe /\ (h_canonical_root h = Err pe \/ b_transactions_root b = Err pe)).
Proof.
  intros Himp Hnone. destruct e as [pe|de|ce|ve| | |re| | | |]; try done.
  - right; right. exists pe. split; [done|]. exact (import_error_source _ _ _ _ _ _ _ _ Himp).
  - destruct (import_error_source _ _ _ _ _ _ _ _ Himp).
  - simpl in Hnone. destruct ce as [|x|]; try done. simpl in Hnone. by destruct (se_path x), (se_kind x).
  - right; left. by exists ve.
  - left. by destruct re.
Qed.

End consensus_theorems.

(** ** Witnesses *)

Section consensus_samples.
#[local] Existing Instance poly_hash.

Definition sample_header : ConsensusHeader :=
  CanonicalBlockHeader_header (mk_canonical_header (zeros 32) (uint_wrap 64 1) (uint_wrap 64 2) (zeros 32)
    (uint_wrap 64 100) (zeros 32) (zeros 32) (zeros 32) (zeros 32) [Byte.x01] None).
Definition sample_body : ConsensusBody := CanonicalBlockBody_body (mk_canonical_body [] (zeros 32)).
Definition sample_sidecar : ConsensusSidecar :=
  CanonicalBlockSidecar_sidecar (mk_canonical_sidecar (zeros 32) (zeros 32) []).
Definition sample_services : BlockImportServices nat (VerifierRegistry (W := nat)) :=
  mk_services (fun _ w => (Err ResolverUnavailable, S w)) sample_registry (fun _ _ => ret tt) (fun _ _ => ret tt)
    (fun _ _ _ => fail_with (Executor "none")).
Definition strict_config : BlockImportConfig :=
  mk_import_config (mk_prefilter (Some (uint_wrap 64 99))) RequireAll.
Definition open_config : BlockImportConfig := mk_import_config (mk_prefilter None) RequireAll.

Lemma import_cheap_rejects_witness :
  exists e, import_block strict_config sample_header sample_body sample_sidecar sample_services 7 = (Err e, 7).
Proof.
  apply (import_cheap_rejects strict_config). intros (root & _ & Hlim & _).
  specialize (Hlim (uint_wrap 64 99) eq_refl). by apply N.leb_le in Hlim.
Defined.

Lemma import_error_stage_witness :
  exists root, bindings_ok open_config sample_header sample_body root.
Proof.
  destruct (import_error_stage open_config sample_header sample_body sample_sidecar sample_services 7
    (ProposerCredentialResolution ResolverUnavailable) 8) as [[Hp _]|[(_ & Hb & _)|(root & Hr & _)]].
  - vm_compute. reflexivity.
  - discriminate Hp.
  - vm_compute in Hb. discriminate Hb.
  - by exists root.
Defined.

Lemma import_internal_errors_witness :
  ProposerCredentialResolution ResolverUnavailable = ProposerCredentialResolution ResolverUnavailable \/
  (exists ve, ProposerCredentialResolution ResolverUnavailable = TransactionValidation ve /\
     ValidationError_network_validation_outcome ve = None) \/
  (exists pe, ProposerCredentialResolution ResolverUnavailable = Primitive pe /\
     (h_canonical_root sample_header = Err pe \/ b_transactions_root sample_body = Err pe)).
Proof.
  apply (import_internal_errors open_config sample_header sample_body sample_sidecar sample_services 7 _ 8);
    vm_compute; reflexivity.
Defined.

End consensus_samples.
