(* ===== verification/Signing.v ===== *)
(** * Signing and verifying

    What a client of [ed25519_dalek] that holds signing keys gets from the program:
    transactions it signs are admitted and headers it signs pass the header check.  The
    crate only verifies; signing is the library's, and what is used of it is stated as
    the laws of [Ed25519Signer] (the documented behaviour of the library: keys and
    signatures parse back from their bytes, and a signature verifies under the key that
    made it). *)

From S2P Require Import Prelude Primitives Codec Hash Sha256 Ssz Validation Crypto Mempool.
From S2P Require Import StateKeys OrdMap State Execution Consensus.

Class Ed25519Signer `{Ed25519Dalek} : Type := {
  SigningKey : Type;
  SigningKey_from_bytes : array 32 -> SigningKey;
  verifying_key : SigningKey -> VerifyingKey;
  sign : SigningKey -> list byte -> Signature;
  VerifyingKey_as_bytes : VerifyingKey -> array 32;
  Signature_to_bytes : Signature -> array 64;
  byte_size_64 : Signature_BYTE_SIZE = 64%N;
  verifying_key_parses key : VerifyingKey_from_bytes (VerifyingKey_as_bytes key) = Some key;
  signature_parses sg : Signature_from_slice (elems (Signature_to_bytes sg)) = Some sg;
  sign_verifies key message : key_verify (verifying_key key) message (sign key message) = true
}.

Section signing.
Context `{SHA : Sha256} `{DALEK : Ed25519Dalek} `{!Ed25519Signer} {W : Type}.

Definition public_key (key : SigningKey) : list byte := elems (VerifyingKey_as_bytes (verifying_key key)).

Definition sign_bytes (key : SigningKey) (message : Root) : list byte :=
  elems (Signature_to_bytes (sign key (elems message))).

(** The request a verifier gets for a signed root. *)
Definition signed_request (key : SigningKey) (message : Root) : SignatureVerificationRequest :=
  mk_request (public_key key) message (sign_bytes key message).

(** The Ed25519 verifier is registered and neither configured bound is below 64. *)
Definition ed25519_enabled (r : VerifierRegistry (W := W)) : Prop :=
  registry_verifier r SCHEME_ID_ED25519 = Some Ed25519Verifier /\
  (64 <= user_path_max_signature_size (Crypto.config r))%N /\
  (forall g, validator_path_max_signature_size (Crypto.config r) = Some g -> 64 <= g)%N.

Lemma ed25519_accepts_signed key message : ed25519_verify (signed_request key message) = Ok tt.
Proof.
  unfold ed25519_verify, signed_request, public_key, sign_bytes.
  cbn [public_key_material rq_signing_root signature].
  rewrite array_try_elems. cbn [ok_or bind_result]. rewrite verifying_key_parses. cbn [ok_or bind_result].
  rewrite signature_parses. cbn [ok_or bind_result]. by rewrite sign_verifies.
Qed.

Lemma enabled_limit r path :
  ed25519_enabled r -> effective_limit r (Ed25519Verifier (W := W)) path = Some 64%N.
Proof.
  intros (_ & Huser & Hval). unfold effective_limit. cbn [max_signature_size_for Ed25519Verifier].
  rewrite byte_size_64. destruct path; cbn [configured_limit]; [f_equal; lia|].
  destruct (validator_path_max_signature_size (Crypto.config r)) as [g|]; [|done].
  specialize (Hval g eq_refl). f_equal. lia.
Qed.

Lemma signed_dispatch r key message path w :
  ed25519_enabled r -> verify_for_path r SCHEME_ID_ED25519 (signed_request key message) path w = (Ok tt, w).
Proof.
  intros He. rewrite verify_for_path_cases. pose proof (enabled_limit r path He) as Hl.
  destruct He as (Hv & _). rewrite Hv.
  pose proof (max_signature_size_spec r Ed25519Verifier path) as [Hm _]. rewrite Hl in Hm.
  destruct (max_signature_size r _ path) as [l|]; [|done]. cbn in Hm. injection Hm as Hm. rewrite Hm.
  assert (len (signature (signed_request key message)) = 64%N) as ->.
  { unfold len, signed_request, sign_bytes. cbn. by rewrite elems_length. }
  apply m_map_err_ok, lift_eq. split; [apply ed25519_accepts_signed|done].
Qed.

(** ** Signed transactions *)

Definition transaction_signing_root (policy : AdmissionPolicy) (payload : TransactionPayloadSsz) : Root :=
  signing_root_of (mk_signing_data (payload_root_of payload) (policy_domain (authorization_domain policy))).

(** The payload with one Ed25519 authorization per key. *)
Definition signed_envelope (policy : AdmissionPolicy) (payload : TransactionPayloadSsz)
    (keys : list SigningKey) : TransactionEnvelope :=
  mk_envelope payload
    ((fun key => mk_authorization SCHEME_ID_ED25519 (payload_root_of payload)
        (sign_bytes key (transaction_signing_root policy payload))) <$> keys).

Definition signer_materials (keys : list SigningKey) : list AuthorizationMaterial :=
  (fun key => mk_material (public_key key)) <$> keys.

Lemma signed_closed_rules policy payload keys :
  keys <> [] -> closed_rules (signed_envelope policy payload keys).
Proof.
  intros Hk. unfold closed_rules, signed_envelope. cbn [authorizations env_payload]. split_and!.
  - by destruct keys.
  - by apply Forall_fmap, Forall_true.
  - apply Forall_fmap, Forall_true. intros key. cbn. unfold sign_bytes, len. rewrite elems_length.
    unfold MAX_USER_SIGNATURE_BYTES. lia.
Qed.

Lemma signed_authorizations_run r sr root keys w :
  ed25519_enabled r ->
  runs (authorization_step r sr)
    (zip ((fun key => mk_authorization SCHEME_ID_ED25519 root (sign_bytes key sr)) <$> keys) (signer_materials keys))
    w w.
Proof.
  intros He. induction keys as [|key keys IH]; [constructor|]. cbn.
  econstructor; [|exact IH]. apply m_map_err_ok. by apply (signed_dispatch r key sr).
Qed.

(** ** Theorems *)

(** C16: Signed transactions are admitted: with a registry in which Ed25519 is enabled, a
    payload signed over its signing root by any non-empty list of keys, whose fees
    cover the floors and whose nonce is in the window, is admitted with the keys'
    public bytes as materials; the outcome names the payload root, the signing root
    and the number of keys, and no verifier state changes. *)
Theorem signed_transaction_admitted (r : VerifierRegistry (W := W)) policy payload keys view w :
  let e := signed_envelope policy payload keys in
  ed25519_enabled r -> keys <> [] -> fees_cover policy e -> nonce_in_window policy e view ->
  admit_and_verify (mk_pipeline r policy) e view (signer_materials keys) w =
  (Ok (mk_validated (payload_root_of payload) (transaction_signing_root policy payload) (len keys)), w).
Proof.
  intros e He Hk Hf Hn. apply admit_ok. split_and!.
  - destruct (screen_transaction _ _ _) as [|err] eqn:Hs; [done|]. exfalso.
    assert (exists acc, screen_transaction policy e view = Ok acc) as [acc Hacc]; [|cbn in Hs; congruence].
    eexists. apply screen_ok. split_and!; [by apply signed_closed_rules|done..].
  - unfold signer_materials, e. cbn. by rewrite !length_fmap.
  - by apply signed_authorizations_run.
  - unfold e. cbn [authorizations signed_envelope env_payload]. unfold len. by rewrite length_fmap.
Qed.

(** Signed headers pass: when the resolver answers with the proposer's Ed25519 public
    key and the header carries the proposer's signature over the block root under the
    validator-message domain, the header check succeeds in the world the resolver
    left. *)
Theorem signed_header_verifies (sv : BlockImportServices W (VerifierRegistry (W := W))) h block_root key w w' :
  ed25519_enabled (sv_dispatcher sv) ->
  resolver sv (mk_query block_root (proposer_index_hint h)) w =
    (Ok (mk_credential SCHEME_ID_ED25519 (public_key key)), w') ->
  proposer_signature h =
    sign_bytes key (signing_root_of (mk_signing_data block_root DOMAIN_VALIDATOR_MESSAGE)) ->
  verify_header_signature h block_root sv w = (Ok tt, w').
Proof.
  intros He Hr Hs. apply header_signature_ok. exists (mk_credential SCHEME_ID_ED25519 (public_key key)), w'.
  split; [done|]. rewrite Hs. by apply (signed_dispatch (sv_dispatcher sv) key).
Qed.

End signing.

(** ** Witnesses *)

(** A stand-in for the curve: a signature is the message, zero-padded to 64 bytes. *)
Definition echo_dalek : Ed25519Dalek := {|
  VerifyingKey := array 32;
  VerifyingKey_from_bytes := Some;
  Signature := array 64;
  Signature_BYTE_SIZE := 64;
  Signature_from_slice := array_try 64;
  key_verify _ msg sg := bool_decide (sg = padded 64 msg)
|}.

Definition echo_signer : @Ed25519Signer echo_dalek.
Proof.
  refine (@Build_Ed25519Signer echo_dalek (array 32) id id (fun _ msg => padded 64 msg) id id eq_refl _ _ _).
  - done.
  - intros sg. apply array_try_elems.
  - intros key msg. by apply bool_decide_eq_true_2.
Defined.

Definition echo_registry : VerifierRegistry (W := nat) :=
  (registry_register_verifier VerifierRegistry_new (@Ed25519Verifier echo_dalek nat)).2.

Lemma echo_enabled : @ed25519_enabled echo_dalek nat echo_registry.
Proof. split_and!; [reflexivity|cbn; unfold DEFAULT_USER_PATH_MAX_SIGNATURE_SIZE; lia|done]. Qed.

Definition echo_keys : list (array 32) := [padded 32 [Byte.x01]; padded 32 [Byte.x02]].

Lemma signed_transaction_admitted_witness :
  exists out, admit_and_verify (SHA := poly_hash) (mk_pipeline echo_registry AdmissionPolicy_default)
    (@signed_envelope poly_hash echo_dalek echo_signer AdmissionPolicy_default TransactionPayloadSsz_default echo_keys)
    None (@signer_materials echo_dalek echo_signer echo_keys) 3 = (Ok out, 3).
Proof.
  eexists. apply (@signed_transaction_admitted poly_hash echo_dalek echo_signer nat echo_registry
    AdmissionPolicy_default TransactionPayloadSsz_default echo_keys None 3).
  - apply echo_enabled.
  - discriminate.
  - split; vm_compute; discriminate.
  - by intros v o [=].
Defined.

Definition echo_services : BlockImportServices nat (VerifierRegistry (W := nat)) :=
  mk_services (fun _ w => (Ok (mk_credential SCHEME_ID_ED25519 (elems (padded 32 [Byte.x01]))), S w))
    echo_registry (fun _ _ => ret tt) (fun _ _ => ret tt) (fun _ _ _ => fail_with (Executor "none")).

Definition echo_header : ConsensusHeader :=
  mk_header (Ok (zeros 32)) (uint_wrap 64 0) (zeros 32) (zeros 32) (zeros 32) (zeros 32)
    (@sign_bytes echo_dalek echo_signer (padded 32 [Byte.x01])
       (signing_root_of (SHA := poly_hash) (mk_signing_data (zeros 32) DOMAIN_VALIDATOR_MESSAGE))) None.

Lemma signed_header_verifies_witness :
  verify_header_signature (SHA := poly_hash) echo_header (zeros 32) echo_services 0 = (Ok tt, 1).
Proof.
  apply (@signed_header_verifies poly_hash echo_dalek echo_signer nat echo_services echo_header (zeros 32)
    (padded 32 [Byte.x01]) 0 1); [apply echo_enabled|reflexivity|reflexivity].
Defined.
