(* ===== verification/Network.v ===== *)
(** * shell-network: peer policy

    [lib.rs], [errors.rs], [fetch], [gossip], [reputation] and [sync].  The crate
    decides what to fetch and how to treat the peer behind an invalid object; its
    transport traits are implemented elsewhere and are listed here as records.  The
    theorems relate those decisions to the validation outcomes of the other crates. *)

From S2P Require Import Prelude Primitives StateKeys Codec Hash Sha256 OrdMap Ssz State Validation.
From S2P Require Import Crypto Mempool Execution Consensus.

(** ** lib.rs *)

Record PeerId : Type := PeerId_new { as_bytes : list byte }.

#[export] Instance PeerId_from : From (array 32) PeerId := fun value => PeerId_new (elems value).

Inductive NetworkOrigin : Type :=
| Gossip (peer : PeerId)
| FetchFrom (peer : PeerId)
| Sync (peer : PeerId)
| LocalRpc
| LocalBuilder
| TestHarness.

Definition peer_id (self : NetworkOrigin) : option PeerId :=
  match self with
  | Gossip p | FetchFrom p | Sync p => Some p
  | LocalRpc | LocalBuilder | TestHarness => None
  end.

Definition penalizes_peer (self : NetworkOrigin) : bool :=
  match self with
  | Gossip _ | FetchFrom _ | Sync _ => true
  | _ => false
  end.

(** ** errors.rs *)

Inductive NetworkError : Type :=
| NetPrimitive (e : PrimitiveError)
| Validation (e : ValidationError)
| Consensus (e : ConsensusError)
| Storage (context : string)
| Unavailable (context : string).

(** The [From] impls. *)
#[export] Instance PrimitiveError_into_network : From PrimitiveError NetworkError := NetPrimitive.
#[export] Instance ValidationError_into_network : From ValidationError NetworkError := Validation.
#[export] Instance ConsensusError_into_network : From ConsensusError NetworkError := Consensus.

(** ** fetch *)

Inductive FetchDecision : Type := Fetch | Skip | Defer.

Record SidecarFetchPolicy : Type := mk_fetch_policy {
  fp_max_witness_bytes : option u64;
  require_explicit_request : bool
}.

Definition decide_for_header (self : SidecarFetchPolicy) (header : ConsensusHeader)
    (was_requested : bool) : FetchDecision :=
  let rest :=
    if require_explicit_request self && negb was_requested then Defer else Fetch in
  match fp_max_witness_bytes self with
  | Some limit => if (uval limit <? uval (witness_bytes header))%N then Skip else rest
  | None => rest
  end.

(** The trait [FetchScheduler]. *)
Record FetchScheduler (W : Type) : Type := mk_scheduler {
  schedule_transaction_fetch : PeerId -> Root -> M W NetworkError FetchDecision;
  schedule_sidecar_fetch : PeerId -> Root -> M W NetworkError FetchDecision
}.

(** ** gossip *)

(** The trait [AnnouncementDecoder], implemented by the transport; the decoded
    objects are read through the consensus getters. *)
Record AnnouncementDecoder : Type := mk_decoder {
  decode_transaction_envelope : list byte -> result TransactionEnvelope PrimitiveError;
  decode_header : list byte -> result ConsensusHeader PrimitiveError;
  decode_body : list byte -> result ConsensusBody PrimitiveError;
  decode_sidecar : list byte -> result ConsensusSidecar PrimitiveError
}.

Record AnnouncementFilter : Type := mk_filter {
  max_transaction_bytes : option u64;
  max_sidecar_bytes : option u64;
  allow_unsolicited_sidecars : bool
}.

Definition transaction_fetch_decision (self : AnnouncementFilter) (announced_size : u64)
    : FetchDecision :=
  match max_transaction_bytes self with
  | Some limit => if (uval limit <? uval announced_size)%N then Skip else Fetch
  | None => Fetch
  end.

Definition sidecar_fetch_decision (self : AnnouncementFilter) (announced_size : u64)
    (was_requested : bool) : FetchDecision :=
  let rest :=
    if negb (allow_unsolicited_sidecars self) && negb was_requested then Defer else Fetch in
  match max_sidecar_bytes self with
  | Some limit => if (uval limit <? uval announced_size)%N then Skip else rest
  | None => rest
  end.

(** ** reputation *)

Inductive PeerActionHint : Type :=
| RejectedObject
| MalformedAnnouncement
| InvalidTransaction
| InvalidBlock
| InvalidSignature
| OversizedObject
| PolicyRejected
| InternalError.

(** An [i32]; the only values built are two negative constants. *)
Record ReputationDelta : Type := ReputationDelta_new { value : Z; rd_hint : PeerActionHint }.

Inductive PeerAction : Type :=
| AcceptPeer
| Ignore (hint : PeerActionHint)
| AdjustReputation (delta : ReputationDelta)
| Disconnect (hint : PeerActionHint).

Definition POLICY_REPUTATION_DELTA : Z := -10.
Definition OVERSIZED_REPUTATION_DELTA : Z := -5.

Definition disconnect_action (origin : NetworkOrigin) (hint : PeerActionHint) : PeerAction :=
  if penalizes_peer origin then Disconnect hint else Ignore hint.

Definition policy_action (origin : NetworkOrigin) (value : Z) (hint : PeerActionHint) : PeerAction :=
  if penalizes_peer origin then AdjustReputation (ReputationDelta_new value hint) else Ignore hint.

Definition peer_action_for_validation_outcome (origin : NetworkOrigin) (outcome : ValidationOutcome)
    : PeerAction :=
  match outcome with
  | Accept => AcceptPeer
  | Reject => disconnect_action origin RejectedObject
  | PolicyReject => policy_action origin POLICY_REPUTATION_DELTA PolicyRejected
  end.

Definition peer_action_for_mempool_error (origin : NetworkOrigin) (stage : ValidationStage)
    (error : ValidationError) : PeerAction :=
  match error with
  | Mempool.Primitive primitive =>
      match primitive with
      | MalformedSsz _ =>
          match stage with
          | T0 => disconnect_action origin MalformedAnnouncement
          | _ => disconnect_action origin InvalidTransaction
          end
      | UnsupportedPayloadVariant _ | PayloadRootMismatch _ | AuthorizationCount _
      | Primitives.SignatureSizeExceeded _ => disconnect_action origin InvalidTransaction
      | SigningRootConstruction _ | Unimplemented _ => Ignore InternalError
      end
  | Mempool.UnsupportedScheme _ | Mempool.SignatureSizeExceeded _ | SignatureVerification _ =>
      disconnect_action origin InvalidSignature
  | FeeFloor _ | NoncePolicyViolation _ =>
      policy_action origin POLICY_REPUTATION_DELTA PolicyRejected
  | SigningRootUnavailable _ | AuthorizationMaterialCount _ => Ignore InternalError
  end.

Definition peer_action_for_proposer_credential_error (origin : NetworkOrigin)
    (error : ProposerCredentialResolutionError) : PeerAction :=
  match error with
  | ResolverUnavailable => Ignore InternalError
  | NotFound | InvalidCredentialEncoding _ => disconnect_action origin InvalidBlock
  end.

Definition peer_action_for_consensus_crypto_error (origin : NetworkOrigin) (error : CryptoError)
    : PeerAction :=
  match error with
  | Crypto.SignatureSizeExceeded size_error =>
      if decide (se_path size_error = ValidatorMessage /\ se_kind size_error = LocalTransportGuard)
      then policy_action origin OVERSIZED_REPUTATION_DELTA OversizedObject
      else disconnect_action origin InvalidSignature
  | Crypto.UnsupportedScheme _ | VerificationFailed _ => disconnect_action origin InvalidSignature
  end.

Definition peer_action_for_consensus_error (origin : NetworkOrigin) (error : ConsensusError)
    : PeerAction :=
  match error with
  | Consensus.Primitive _ => disconnect_action origin MalformedAnnouncement
  | Domain _ => Ignore InternalError
  | ProposerCredentialResolution error => peer_action_for_proposer_credential_error origin error
  | Consensus.Crypto error => peer_action_for_consensus_crypto_error origin error
  | TransactionValidation error => peer_action_for_mempool_error origin B3 error
  | Consensus.Execution _ | Consensus.State _ => disconnect_action origin InvalidBlock
  | WitnessByteLimitExceeded _ => policy_action origin OVERSIZED_REPUTATION_DELTA OversizedObject
  | HeaderBodyRootMismatch _ | SidecarBlockRootMismatch _ | SidecarCommitmentMismatch _ =>
      disconnect_action origin InvalidBlock
  end.

(** The traits [PeerStore] and [ReputationStore], and the two adapters of [sync]. *)
Record PeerStore : Type := mk_peer_store {
  is_known_peer : PeerId -> bool;
  is_connected : PeerId -> bool
}.
Record ReputationStore (W : Type) : Type := mk_reputation_store {
  apply_reputation : PeerId -> ReputationDelta -> M W NetworkError unit;
  reputation : PeerId -> W -> Z
}.
Record NetworkMempoolAdapter (W : Type) : Type := mk_mempool_adapter {
  validate_gossip_transaction : NetworkOrigin -> TransactionEnvelope ->
    M W ValidationError ValidationOutcome
}.
Record NetworkConsensusAdapter (W : Type) : Type := mk_consensus_adapter {
  validate_gossip_block : NetworkOrigin -> ConsensusHeader -> ConsensusBody -> ConsensusSidecar ->
    M W ConsensusError ValidationOutcome
}.

(** ** What a verdict should cost a remote peer *)

Definition fits_verdict (verdict : option ValidationOutcome) (action : PeerAction) : Prop :=
  match verdict with
  | Some Reject => exists hint, action = Disconnect hint
  | Some PolicyReject => exists v hint, action = AdjustReputation (ReputationDelta_new v hint) /\ (v < 0)%Z
  | Some Accept => action = AcceptPeer
  | None => action = Ignore InternalError
  end.

Arguments fits_verdict : simpl never.

Definition harmless (action : PeerAction) : Prop :=
  match action with
  | AcceptPeer | Ignore _ => True
  | AdjustReputation _ | Disconnect _ => False
  end.

Lemma disconnect_fits o h : penalizes_peer o = true -> fits_verdict (Some Reject) (disconnect_action o h).
Proof. unfold disconnect_action. intros ->. by exists h. Qed.

Lemma policy_fits o v h :
  penalizes_peer o = true -> (v < 0)%Z -> fits_verdict (Some PolicyReject) (policy_action o v h).
Proof. unfold policy_action. intros -> Hv. by exists v, h. Qed.

Lemma disconnect_harmless o h : penalizes_peer o = false -> harmless (disconnect_action o h).
Proof. unfold disconnect_action. by intros ->. Qed.
Lemma policy_harmless o v h : penalizes_peer o = false -> harmless (policy_action o v h).
Proof. unfold policy_action. by intros ->. Qed.

Create HintDb verdict.
#[export] Hint Resolve disconnect_fits policy_fits disconnect_harmless policy_harmless : verdict.

Lemma mempool_action_fits o stage e :
  penalizes_peer o = true ->
  fits_verdict (ValidationError_network_validation_outcome e) (peer_action_for_mempool_error o stage e).
Proof.
  intros Ho. destruct e as [[]| | | | | | |]; simpl; try done;
    try (destruct stage); auto with verdict; apply policy_fits; done.
Qed.

Lemma consensus_action_fits o e :
  penalizes_peer o = true ->
  (forall pe, e = Consensus.Primitive pe -> PrimitiveError_network_validation_outcome pe <> None) ->
  fits_verdict (ConsensusError_network_validation_outcome e) (peer_action_for_consensus_error o e).
Proof.
  intros Ho Hp. destruct e as [pe| |ce|ve| | |re| | | |]; simpl; auto with verdict.
  - specialize (Hp pe eq_refl). destruct pe; simpl in *; auto with verdict; done.
  - done.
  - destruct ce as [|x|]; simpl; auto with verdict. case_decide as Hd.
    + destruct Hd as [-> ->]. by apply policy_fits.
    + destruct (se_path x), (se_kind x); auto with verdict. naive_solver.
  - by apply mempool_action_fits.
  - destruct re; simpl; auto with verdict. done.
  - by apply policy_fits.
Qed.

(** ** Theorems *)

(** Only remote peers are penalized: for an object that came from the local RPC,
    the local builder or the test harness, no verdict and no error leads to a
    disconnect or a reputation change; the object is at most ignored. *)
Theorem local_origins_never_penalized o outcome stage ve ce :
  peer_id o = None ->
  harmless (peer_action_for_validation_outcome o outcome) /\
  harmless (peer_action_for_mempool_error o stage ve) /\
  harmless (peer_action_for_consensus_error o ce).
Proof.
  intros Ho. assert (penalizes_peer o = false) as Hp by (by destruct o).
  assert (forall st v, harmless (peer_action_for_mempool_error o st v)) as Hm.
  { intros st v. destruct v as [[]| | | | | | |]; simpl; auto with verdict. destruct st; auto with verdict. }
  split_and!; [destruct outcome; simpl; auto with verdict|apply Hm|].
  destruct ce as [| |[]| | | |[]| | | |]; simpl; auto with verdict. case_decide; auto with verdict.
Qed.

(** Peer actions follow verdicts: for an object from a remote peer, an admission
    error whose network outcome is [Reject] disconnects the peer, one whose outcome is
    [PolicyReject] lowers its reputation, and one with no outcome is ignored as
    internal, at every validation stage. *)
Theorem mempool_actions_follow_verdicts o stage e :
  is_Some (peer_id o) ->
  fits_verdict (ValidationError_network_validation_outcome e) (peer_action_for_mempool_error o stage e).
Proof.
  intros [p Hp]. apply mempool_action_fits. by destruct o.
Qed.

(** C34: The same holds for import errors of canonical blocks: whatever error
    [import_block] returns for a canonical header, body and sidecar, the action taken
    against the remote peer that sent the block is the one its network outcome calls
    for. *)
Theorem import_actions_follow_verdicts `{Sha256} {W D} `{SignatureDispatcher W D}
    o config blk (sv : BlockImportServices W D) w e w' :
  is_Some (peer_id o) ->
  import_block config (CanonicalBlockHeader_header (header blk)) (CanonicalBlockBody_body (body blk))
    (CanonicalBlockSidecar_sidecar (sidecar blk)) sv w = (Err e, w') ->
  fits_verdict (ConsensusError_network_validation_outcome e) (peer_action_for_consensus_error o e).
Proof.
  intros [p Hp] Himp. apply consensus_action_fits; [by destruct o|]. intros pe -> Hnone.
  apply import_error_source in Himp. by destruct Himp.
Qed.

(** C40: The one disagreement between consensus verdicts and peer actions: for a remote
    peer, the action for a consensus error departs from the one its network outcome calls
    for exactly when the error wraps an internal primitive error (a signing root that
    could not be built, an unimplemented operation).  Such an error has no network
    outcome, yet the peer is disconnected for a malformed announcement, whereas the same
    primitive error met during admission, at any stage, is ignored as internal. *)
Theorem consensus_internal_primitive_disconnects o :
  is_Some (peer_id o) ->
  (forall e, ~ fits_verdict (ConsensusError_network_validation_outcome e) (peer_action_for_consensus_error o e) <->
     exists pe, e = Consensus.Primitive pe /\ PrimitiveError_network_validation_outcome pe = None) /\
  (forall pe stage, PrimitiveError_network_validation_outcome pe = None ->
     ConsensusError_network_validation_outcome (Consensus.Primitive pe) = None /\
     peer_action_for_consensus_error o (Consensus.Primitive pe) = Disconnect MalformedAnnouncement /\
     peer_action_for_mempool_error o stage (Mempool.Primitive pe) = Ignore InternalError).
Proof.
  intros [p Hp]. assert (penalizes_peer o = true) as Ho by (by destruct o).
  assert (forall pe, peer_action_for_consensus_error o (Consensus.Primitive pe) = Disconnect MalformedAnnouncement)
    as Hact by (intros pe; cbn; unfold disconnect_action; by rewrite Ho).
  split; [intros e; split|intros pe stage Hpe; split_and!; [done|apply Hact|by destruct pe]].
  - intros Hnot. destruct e as [pe| | | | | | | | | |];
      try (exfalso; apply Hnot, consensus_action_fits; [done|by intros ? [=]]).
    exists pe. split; [done|]. destruct (PrimitiveError_network_validation_outcome pe) eqn:Hn; [|done].
    exfalso. apply Hnot, consensus_action_fits; [done|]. intros ? [= <-]. by rewrite Hn.
  - intros (pe & -> & Hpe). rewrite Hact. cbn. by rewrite Hpe.
Qed.

(** Fetching agrees with importing: under the same witness byte limit a sidecar is
    skipped exactly for the headers whose import would be refused for that limit, so
    a sidecar that is fetched is never refused for its size, and one that import would
    take is never skipped. *)
Theorem sidecar_fetch_matches_prefilter limit explicit requested h root :
  h_canonical_root h = Ok root ->
  decide_for_header (mk_fetch_policy limit explicit) h requested = Skip <->
  exists m, limit = Some m /\
    prefilter_header h (mk_prefilter limit) = Err (WitnessByteLimitExceeded (mk_witness_limit m (witness_bytes h))).
Proof.
  intros Hr. unfold decide_for_header, prefilter_header. rewrite Hr. cbn [map_err bind_result max_witness_bytes fp_max_witness_bytes require_explicit_request].
  destruct limit as [m|]; [|destruct explicit, requested; naive_solver].
  destruct (uval m <? uval (witness_bytes h))%N; simpl; [naive_solver|].
  destruct explicit, requested; naive_solver.
Qed.

(** ** Witnesses *)

Definition sample_peer : NetworkOrigin := Gossip (PeerId_new [Byte.x01]).

Lemma local_origins_never_penalized_witness :
  harmless (peer_action_for_validation_outcome LocalRpc Reject).
Proof.
  apply (local_origins_never_penalized LocalRpc Reject T0
    (FeeFloor (mk_fee_floor Payload (zeros 32) (zeros 32))) (Domain (mk_domain_error "none")) eq_refl).
Defined.

Lemma mempool_actions_follow_verdicts_witness :
  exists hint, peer_action_for_mempool_error sample_peer T1
    (Mempool.Primitive (AuthorizationCount (mk_authorization_count 1 0))) = Disconnect hint.
Proof.
  apply (mempool_actions_follow_verdicts sample_peer T1
    (Mempool.Primitive (AuthorizationCount (mk_authorization_count 1 0)))). by eexists.
Defined.

Definition sample_block : CanonicalBlock :=
  mk_block (mk_canonical_header (zeros 32) (uint_wrap 64 1) (uint_wrap 64 2) (zeros 32)
    (uint_wrap 64 100) (zeros 32) (zeros 32) (zeros 32) (zeros 32) [Byte.x01] None)
    (mk_canonical_body [] (zeros 32)) (mk_canonical_sidecar (zeros 32) (zeros 32) []).

Lemma import_actions_follow_verdicts_witness :
  peer_action_for_consensus_error sample_peer (ProposerCredentialResolution ResolverUnavailable) =
  Ignore InternalError.
Proof.
  apply (import_actions_follow_verdicts (H := poly_hash) sample_peer open_config sample_block sample_services 7
    (ProposerCredentialResolution ResolverUnavailable) 8).
  - by eexists.
  - vm_compute. reflexivity.
Defined.

Lemma consensus_internal_primitive_disconnects_witness :
  peer_action_for_consensus_error sample_peer (Consensus.Primitive (Unimplemented "x")) =
  Disconnect MalformedAnnouncement.
Proof.
  apply (proj2 (consensus_internal_primitive_disconnects sample_peer ltac:(by eexists)) (Unimplemented "x") T1).
  reflexivity.
Defined.

Lemma sidecar_fetch_matches_prefilter_witness :
  decide_for_header (mk_fetch_policy (Some (uint_wrap 64 99)) false) sample_header true = Skip.
Proof.
  apply (sidecar_fetch_matches_prefilter _ _ _ _ (zeros 32)); [reflexivity|].
  exists (uint_wrap 64 99). split; reflexivity.
Defined.
