(* ===== verification/Fixtures.v ===== *)
(** * shell-fixtures: test-vector loading and the reference roots

    [crates/shell-fixtures/src/lib.rs]: the two roots the reference harness commits
    to, hexadecimal parsing, the conversion of vector files into protocol objects and
    the resolution of root-check scenarios.  A panic ([assert!], [unwrap_or_else(panic!)])
    is [None].  JSON decoding is outside the model: a vector is
    the record [serde] fills in.  Reading a vector by its id is the parameter of
    [resolve_root_check_scenario]; [VectorFiles] gives it over a file system. *)

From S2P Require Import Prelude Primitives StateKeys Codec Hash Sha256 OrdMap Ssz State.

(** ** Hexadecimal *)

(** A digit of [u8::from_str_radix(_, 16)]. *)
Definition hex_digit (c : Ascii.ascii) : option N :=
  let n := Ascii.N_of_ascii c in
  if (48 <=? n)%N && (n <=? 57)%N then Some (n - 48)%N
  else if (97 <=? n)%N && (n <=? 102)%N then Some (n - 87)%N
  else if (65 <=? n)%N && (n <=? 70)%N then Some (n - 55)%N
  else None.

(** [u8::from_str_radix] of two characters, which also takes a leading plus sign. *)
Definition hex_byte (a b : Ascii.ascii) : option byte :=
  lo ← hex_digit b;
  if (Ascii.N_of_ascii a =? 43)%N then Some (byte_of_N lo)
  else hi ← hex_digit a; Some (byte_of_N (16 * hi + lo)).

Fixpoint hex_bytes (s : string) : option (list byte) :=
  match s with
  | String.EmptyString => Some []
  | String.String a (String.String b s) =>
      x ← hex_byte a b; xs ← hex_bytes s; Some (x :: xs)
  | String.String _ String.EmptyString => None
  end.

Definition parse_hex (value : string) : option (list byte) :=
  match value with
  | String.String zero (String.String x hex) =>
      if (Ascii.N_of_ascii zero =? 48)%N && (Ascii.N_of_ascii x =? 120)%N then hex_bytes hex else None
  | _ => None
  end.

Definition parse_root (value : string) : option Root := bytes ← parse_hex value; array_try 32 bytes.
Definition parse_address (value : string) : option ExecutionAddress :=
  bytes ← parse_hex value; array_try 20 bytes.
Definition parse_bytes_32 (value : string) : option Bytes32 := bytes ← parse_hex value; array_try 32 bytes.
Definition parse_bytes_31 (value : string) : option Bytes31 := bytes ← parse_hex value; array_try 31 bytes.

(** ** Root modes *)

Inductive PayloadRootMode : Type := PayloadCanonical | PayloadFlipFirstByte.
Inductive RootMode : Type := RootCanonical | RootFlipFirstByte.

(** [mutated[0] ^= mask]. *)
Definition xor_first (mask : N) (root : Root) : Root :=
  match elems root with
  | b :: rest => padded 32 (byte_of_N (N.lxor (byte_val b) mask) :: rest)
  | [] => root
  end.

Definition PayloadRootMode_apply (self : PayloadRootMode) (root : Root) : Root :=
  match self with
  | PayloadCanonical => root
  | PayloadFlipFirstByte => xor_first 0xFF root
  end.

Definition RootMode_apply (self : RootMode) (root : Root) : Root :=
  match self with
  | RootCanonical => root
  | RootFlipFirstByte => xor_first 0x01 root
  end.

(** ** Vector records *)

Record FeeInput : Type := mk_fee_input {
  fi_regular : string;
  fi_max_priority_fee_per_gas : string;
  fi_max_witness_priority_fee : string
}.

Inductive TransactionPayloadInput : Type :=
| BasicInput (chain_id : string) (nonce gas_limit : u64) (fees : FeeInput)
    (to value input_hex access_commitment : string)
| CreateInput (chain_id : string) (nonce gas_limit : u64) (fees : FeeInput)
    (value initcode_hex access_commitment : string).

Record TransactionVectorInput : Type := mk_transaction_input {
  tv_payload : option TransactionPayloadInput;
  wire_hex : option string
}.

Record TransactionExpectedError : Type := mk_transaction_expected {
  te_kind : string;
  te_tag : option byte;
  te_context : option string
}.

Record TransactionVector : Type := mk_transaction_vector {
  tv_id : string;
  tv_category : string;
  tv_description : string;
  tv_input : TransactionVectorInput;
  tv_expected_outcome : string;
  tv_expected_error : option TransactionExpectedError;
  tv_owned_by : string;
  tv_notes : option string;
  tv_payload_tag : option byte;
  tv_payload_root : option string;
  tv_authorization_count : option N
}.

Inductive StateKeyInput : Type :=
| AccountHeaderInput (address : string) (canonical_key_hex : option string)
| StorageSlotInput (address slot : string) (canonical_key_hex : option string)
| CodeChunkInput (address : string) (chunk_index : u32) (canonical_key_hex : option string)
| RawTreeKeyInput (raw_key : string) (canonical_key_hex : option string)
| StemInput (stem : string) (canonical_key_hex : option string).

Record WitnessFixture : Type := mk_witness_fixture {
  wf_key : StateKeyInput;
  wf_leaf_value_hex : string;
  proof_hex : list string
}.

Record MaterializedLeafFixture : Type := mk_leaf_fixture {
  ml_key : StateKeyInput;
  ml_leaf_value_hex : string
}.

Record WitnessInput : Type := mk_witness_input {
  wi_ordering_is_canonical : option bool;
  wi_proof_shape_kind : option string;
  wi_expected_state_root : option string;
  wi_witnesses : option (list WitnessFixture);
  wi_witness : option WitnessFixture;
  wi_materialized_state : option (list MaterializedLeafFixture)
}.

Record WitnessExpectedError : Type := mk_witness_expected {
  we_kind : string;
  we_index : option N;
  we_context : option string
}.

Record WitnessVector : Type := mk_witness_vector {
  wv_id : string;
  wv_category : string;
  wv_rule : string;
  wv_description : string;
  wv_input : WitnessInput;
  wv_expected_outcome : string;
  wv_expected_error : option WitnessExpectedError;
  wv_owned_by : string;
  wv_notes : option string;
  wv_state_keys : option (list string);
  wv_proof_shape_kind : option string
}.

Record RootCheckHeaderInput : Type := mk_header_input {
  hi_block_root : string;
  hi_block_number : u64;
  hi_timestamp : u64;
  hi_proposer_index : u64;
  hi_parent_root : string;
  hi_transactions_root : string;
  hi_execution_witnesses_root : string;
  hi_state_root : string;
  hi_receipts_root : string;
  hi_witness_bytes : u64;
  hi_proposer_signature_hex : string
}.

Record RootCheckSidecarInput : Type := mk_sidecar_input {
  si_block_root : string;
  witness_vector_ids : list string
}.

Record RootCheckExecutionStep : Type := mk_execution_step {
  transaction_vector_id : string;
  witness_vector_id : string;
  new_leaf_value_hex : string;
  es_receipt_status_code : byte;
  receipt_output_hex : string
}.

Record RootCheckBodyInput : Type := mk_body_input { transaction_vector_ids : list string }.
Record RootCheckExecutionInput : Type := mk_execution_input { steps : list RootCheckExecutionStep }.

Record RootCheckInput : Type := mk_root_check_input {
  ri_header : RootCheckHeaderInput;
  ri_body : RootCheckBodyInput;
  ri_sidecar : RootCheckSidecarInput;
  ri_execution : RootCheckExecutionInput
}.

Record RootCheckExpectedError : Type := mk_root_check_expected {
  re_kind : string;
  re_expected_root : string;
  re_actual_root : string
}.

Record RootCheckVector : Type := mk_root_check_vector {
  rv_id : string;
  rv_category : string;
  rv_rule : string;
  rv_description : string;
  rv_input : RootCheckInput;
  rv_expected_outcome : string;
  rv_expected_error : option RootCheckExpectedError;
  rv_owned_by : string;
  rv_notes : option string;
  rv_transactions_root : string;
  rv_execution_witnesses_root : string;
  rv_state_root : string;
  rv_receipts_root : string
}.

Record ExecutionSemanticsPatch : Type := mk_semantics_patch { writes : list MaterializedLeafFixture }.

Record ExecutionSemanticsStep : Type := mk_semantics_step {
  ss_transaction_vector_id : string;
  ss_patch : ExecutionSemanticsPatch;
  ss_receipt_status_code : byte;
  ss_receipt_output_hex : string;
  ss_expected_post_state_root : option string;
  ss_expected_receipt_root : option string
}.

Record ExecutionSemanticsInput : Type := mk_semantics_input {
  sm_transaction_vector_ids : list string;
  sm_materialized_state : list MaterializedLeafFixture;
  sm_steps : list ExecutionSemanticsStep
}.

Record ExecutionSemanticsExpectedError : Type := mk_semantics_expected {
  xe_kind : string;
  xe_index : option N;
  xe_context : option string
}.

Record ExecutionSemanticsVector : Type := mk_semantics_vector {
  sv_id : string;
  sv_category : string;
  sv_rule : string;
  sv_description : string;
  sv_input : ExecutionSemanticsInput;
  sv_expected_outcome : string;
  sv_expected_error : option ExecutionSemanticsExpectedError;
  sv_owned_by : string;
  sv_notes : option string;
  sv_pre_state_root : string;
  sv_post_state_root : option string;
  sv_receipts_root : option string;
  sv_planner_exhausted : option bool
}.

(** ** Resolved scenarios *)

Record RootCheckScenarioHeader : Type := mk_scenario_header {
  rh_block_root : Root;
  rh_block_number : u64;
  rh_timestamp : u64;
  rh_proposer_index : u64;
  rh_parent_root : Root;
  rh_transactions_root : Root;
  rh_execution_witnesses_root : Root;
  rh_state_root : Root;
  rh_receipts_root : Root;
  rh_witness_bytes : u64;
  rh_proposer_signature : list byte
}.

Record RootCheckScenarioSidecar : Type := mk_scenario_sidecar { rs_block_root : Root }.

Record RootCheckScenarioStep : Type := mk_scenario_step {
  st_transaction_root : Root;
  st_key : StateKey;
  st_new_leaf_value : list byte;
  st_receipt_status_code : byte;
  st_receipt_output : list byte
}.

Record RootCheckScenario : Type := mk_scenario {
  sn_header : RootCheckScenarioHeader;
  sn_sidecar : RootCheckScenarioSidecar;
  sn_transactions : list TransactionEnvelope;
  sn_witnesses : list StateWitness;
  sn_materialized_state : list (StateKey * list byte);
  sn_pre_state_root : Root;
  sn_steps : list RootCheckScenarioStep
}.

Record LoadedRootCheckScenario : Type := mk_loaded_scenario {
  lo_fixture : RootCheckVector;
  lo_scenario : RootCheckScenario
}.

(** ** Building objects from vectors *)

Definition parse_fees (fees : FeeInput) : option BasicFeesPerGas :=
  regular ← parse_bytes_32 (fi_regular fees);
  priority ← parse_bytes_32 (fi_max_priority_fee_per_gas fees);
  witness ← parse_bytes_32 (fi_max_witness_priority_fee fees);
  Some (mk_fees regular priority witness).

Definition build_payload (input : TransactionPayloadInput) : option TransactionPayloadSsz :=
  match input with
  | BasicInput chain_id nonce gas_limit fees to value input_hex access_commitment =>
      chain_id ← parse_bytes_32 chain_id;
      fees ← parse_fees fees;
      to ← parse_address to;
      value ← parse_bytes_32 value;
      input ← parse_hex input_hex;
      access_commitment ← parse_root access_commitment;
      Some (TransactionPayloadSsz_new
        (Basic (mk_basic chain_id nonce gas_limit fees to value input access_commitment)))
  | CreateInput chain_id nonce gas_limit fees value initcode_hex access_commitment =>
      chain_id ← parse_bytes_32 chain_id;
      fees ← parse_fees fees;
      value ← parse_bytes_32 value;
      initcode ← parse_hex initcode_hex;
      access_commitment ← parse_root access_commitment;
      Some (TransactionPayloadSsz_new
        (Create (mk_create chain_id nonce gas_limit fees value initcode access_commitment)))
  end.

Definition TransactionVector_payload (self : TransactionVector) : option TransactionPayloadSsz :=
  payload ← tv_payload (tv_input self); build_payload payload.

Definition TransactionVector_envelope (self : TransactionVector) : option TransactionEnvelope :=
  payload ← TransactionVector_payload self; Some (mk_envelope payload []).

Definition canonical_key_hex (self : StateKeyInput) : option string :=
  match self with
  | AccountHeaderInput _ h | StorageSlotInput _ _ h | CodeChunkInput _ _ h
  | RawTreeKeyInput _ h | StemInput _ h => h
  end.

Definition to_state_key (self : StateKeyInput) : option StateKey :=
  key ← match self with
        | AccountHeaderInput address _ => AccountHeader <$> parse_address address
        | StorageSlotInput address slot _ =>
            address ← parse_address address; slot ← parse_bytes_32 slot;
            Some (StorageSlot address slot)
        | CodeChunkInput address chunk_index _ =>
            address ← parse_address address; Some (CodeChunk address chunk_index)
        | RawTreeKeyInput raw_key _ => RawTreeKey <$> parse_bytes_32 raw_key
        | StemInput stem _ => Stem <$> parse_bytes_31 stem
        end;
  match canonical_key_hex self with
  | Some expected_hex =>
      expected ← parse_hex expected_hex;
      if decide (encode_state_key key = expected) then Some key else None
  | None => Some key
  end.

Definition to_entry (self : MaterializedLeafFixture) : option (StateKey * list byte) :=
  key ← to_state_key (ml_key self);
  value ← parse_hex (ml_leaf_value_hex self);
  Some (key, value).

Definition to_state_witness (self : WitnessFixture) : option StateWitness :=
  key ← to_state_key (wf_key self);
  leaf_value ← parse_hex (wf_leaf_value_hex self);
  proof ← mapM parse_bytes_32 (proof_hex self);
  Some (mk_witness key leaf_value proof).

(** [Option<StateWitness>] of the source, under a possible panic. *)
Definition WitnessVector_witness (self : WitnessVector) : option (option StateWitness) :=
  match wi_witness (wv_input self) with
  | Some w => Some <$> to_state_witness w
  | None => Some None
  end.

Definition WitnessVector_witnesses (self : WitnessVector) : option (list StateWitness) :=
  match wi_witnesses (wv_input self) with
  | Some ws => mapM to_state_witness ws
  | None =>
      w ← WitnessVector_witness self;
      Some match w with Some w => [w] | None => [] end
  end.

Definition WitnessVector_materialized_state (self : WitnessVector)
    : option (list (StateKey * list byte)) :=
  match wi_materialized_state (wv_input self) with
  | Some entries => mapM to_entry entries
  | None => Some []
  end.

Definition WitnessVector_expected_state_root (self : WitnessVector) : option (option Root) :=
  match wi_expected_state_root (wv_input self) with
  | Some s => Some <$> parse_root s
  | None => Some None
  end.

Definition ExecutionSemanticsVector_materialized_state (self : ExecutionSemanticsVector)
    : option (list (StateKey * list byte)) := mapM to_entry (sm_materialized_state (sv_input self)).

Definition ExecutionSemanticsStep_state_patch (self : ExecutionSemanticsStep) : option StatePatch :=
  entries ← mapM to_entry (writes (ss_patch self));
  Some (mk_patch (fst <$> entries) (snd <$> entries)).

Definition ExecutionSemanticsStep_receipt_output (self : ExecutionSemanticsStep) : option (list byte) :=
  parse_hex (ss_receipt_output_hex self).

(** ** Sorting ([sort_by], which is stable) *)

Fixpoint insert_entry (x : StateKey * list byte) (l : list (StateKey * list byte))
    : list (StateKey * list byte) :=
  match l with
  | [] => [x]
  | y :: l' =>
      match compare_state_keys x.1 y.1 with
      | Gt => y :: insert_entry x l'
      | _ => x :: l
      end
  end.

Definition sort_entries (l : list (StateKey * list byte)) : list (StateKey * list byte) :=
  foldr insert_entry [] l.

Definition canonical_root_check_materialized_state (materialized_state : list (StateKey * list byte))
    : option (list (StateKey * list byte)) :=
  let canonical := sort_entries materialized_state in
  match canonical with
  | [] => None
  | _ :: _ => Some canonical
  end.

Definition entries_patch (entries : list (StateKey * list byte)) : StatePatch :=
  mk_patch (fst <$> entries) (snd <$> entries).

(** ** Hashes *)

Definition witness_bytes_enc (w : StateWitness) : list byte :=
  let encoded_key := encode_state_key (sw_key w) in
  be_bytes 8 (len encoded_key mod 2 ^ 64) ++ encoded_key
    ++ be_bytes 8 (len (sw_leaf_value w) mod 2 ^ 64) ++ sw_leaf_value w
    ++ be_bytes 8 (len (sw_proof w) mod 2 ^ 64) ++ concat (elems <$> sw_proof w).

Definition witnesses_preimage (witnesses : list StateWitness) : list byte :=
  bytes_of_string "shell-fixtures/execution-witnesses-root/v1" ++ be_bytes 8 (len witnesses mod 2 ^ 64)
    ++ concat (witness_bytes_enc <$> witnesses).

Section fixtures.
Context `{SHA : Sha256}.

Definition compute_execution_witnesses_root (witnesses : list StateWitness) : Root :=
  sha256 (witnesses_preimage witnesses).

Definition compute_transactions_root (transactions : list TransactionEnvelope)
    : result Root PrimitiveError :=
  let? roots := collect (fun transaction => canonical_root transaction) transactions in
  Ok (sha256 (bytes_of_string "shell-fixtures/transactions-root/v1"
                ++ be_bytes 8 (len transactions mod 2 ^ 64) ++ concat (elems <$> roots))).

Definition materialize_root_check_accumulator (materialized_state : list (StateKey * list byte))
    : option InMemoryAccumulator :=
  match apply_transition (entries_patch materialized_state) InMemoryAccumulator_new with
  | (Ok _, accumulator) => Some accumulator
  | (Err _, _) => None
  end.

(** ** Resolving a root-check scenario *)

Section resolve.
Context (load_transaction_fixture_by_id : string -> option TransactionVector).
Context (load_witness_fixture_by_id : string -> option WitnessVector).

(** [assert!]. *)
Definition assert_that (P : Prop) `{Decision P} : option unit := if decide P then Some tt else None.

Definition resolve_transaction (id : string) : option TransactionEnvelope :=
  vector ← load_transaction_fixture_by_id id;
  _ ← assert_that (tv_expected_outcome vector = "accept");
  TransactionVector_envelope vector.

Definition resolve_witness_vector (id : string) : option WitnessVector :=
  vector ← load_witness_fixture_by_id id;
  _ ← assert_that (wv_expected_outcome vector = "accept");
  Some vector.

Definition single_witness (vector : WitnessVector) : option StateWitness :=
  w ← WitnessVector_witness vector; w.

Fixpoint find_witness_vector (id : string) (vectors : list WitnessVector) : option WitnessVector :=
  match vectors with
  | [] => None
  | v :: vectors => if decide (wv_id v = id) then Some v else find_witness_vector id vectors
  end.

Definition resolve_step (witness_vectors : list WitnessVector)
    (p : RootCheckExecutionStep * string * TransactionEnvelope) : option RootCheckScenarioStep :=
  let '(step, transaction_id, transaction) := p in
  _ ← assert_that (transaction_vector_id step = transaction_id);
  vector ← find_witness_vector (witness_vector_id step) witness_vectors;
  witness ← single_witness vector;
  transaction_root ← match canonical_root transaction with Ok r => Some r | Err _ => None end;
  new_leaf_value ← parse_hex (new_leaf_value_hex step);
  receipt_output ← parse_hex (receipt_output_hex step);
  Some (mk_scenario_step transaction_root (sw_key witness) new_leaf_value
          (es_receipt_status_code step) receipt_output).

Definition agrees_with_first (pre_state_root : Root) (base : list (StateKey * list byte))
    (vector : WitnessVector) : option unit :=
  expected ← WitnessVector_expected_state_root vector;
  _ ← assert_that (expected = Some pre_state_root);
  state ← WitnessVector_materialized_state vector;
  canonical ← canonical_root_check_materialized_state state;
  assert_that (canonical = base).

(** The end of [resolve_root_check_scenario]: the header's own roots, and the scenario. *)
Definition assemble_scenario (fixture : RootCheckVector) (transactions : list TransactionEnvelope)
    (witnesses : list StateWitness) (base_materialized : list (StateKey * list byte)) (pre_state_root : Root)
    (steps : list RootCheckScenarioStep) (expected_transactions_root expected_witnesses_root : Root)
    : option RootCheckScenario :=
  let input := rv_input fixture in
  expected_state_root ← parse_root (rv_state_root fixture);
  expected_receipts_root ← parse_root (rv_receipts_root fixture);
  header_state_root ← parse_root (hi_state_root (ri_header input));
  _ ← assert_that (header_state_root = expected_state_root);
  header_receipts_root ← parse_root (hi_receipts_root (ri_header input));
  _ ← assert_that (header_receipts_root = expected_receipts_root);
  expected_block_root ← parse_root (hi_block_root (ri_header input));
  sidecar_block_root ← parse_root (si_block_root (ri_sidecar input));
  _ ← assert_that (sidecar_block_root = expected_block_root);
  parent_root ← parse_root (hi_parent_root (ri_header input));
  proposer_signature ← parse_hex (hi_proposer_signature_hex (ri_header input));
  Some (mk_scenario
    (mk_scenario_header expected_block_root (hi_block_number (ri_header input))
       (hi_timestamp (ri_header input)) (hi_proposer_index (ri_header input)) parent_root
       expected_transactions_root expected_witnesses_root expected_state_root
       expected_receipts_root (hi_witness_bytes (ri_header input)) proposer_signature)
    (mk_scenario_sidecar expected_block_root) transactions witnesses base_materialized
    pre_state_root steps).

Definition resolve_root_check_scenario (fixture : RootCheckVector) : option RootCheckScenario :=
  let input := rv_input fixture in
  transactions ← mapM resolve_transaction (transaction_vector_ids (ri_body input));
  expected_transactions_root ← parse_root (rv_transactions_root fixture);
  computed_transactions_root ←
    match compute_transactions_root transactions with Ok r => Some r | Err _ => None end;
  _ ← assert_that (computed_transactions_root = expected_transactions_root);
  header_transactions_root ← parse_root (hi_transactions_root (ri_header input));
  _ ← assert_that (header_transactions_root = expected_transactions_root);
  witness_vectors ← mapM resolve_witness_vector (witness_vector_ids (ri_sidecar input));
  witnesses ← mapM single_witness witness_vectors;
  expected_witnesses_root ← parse_root (rv_execution_witnesses_root fixture);
  _ ← assert_that (compute_execution_witnesses_root witnesses = expected_witnesses_root);
  header_witnesses_root ← parse_root (hi_execution_witnesses_root (ri_header input));
  _ ← assert_that (header_witnesses_root = expected_witnesses_root);
  first ← head witness_vectors;
  first_state ← WitnessVector_materialized_state first;
  base_materialized ← canonical_root_check_materialized_state first_state;
  first_root ← WitnessVector_expected_state_root first;
  pre_state_root ← first_root;
  witness_accumulator ← materialize_root_check_accumulator base_materialized;
  _ ← assert_that (root witness_accumulator = pre_state_root);
  _ ← match verify_witnesses witness_accumulator witnesses pre_state_root with
      | Ok _ => Some tt
      | Err _ => None
      end;
  _ ← mapM (agrees_with_first pre_state_root base_materialized) (drop 1 witness_vectors);
  steps ← mapM (resolve_step witness_vectors)
    (zip (zip (steps (ri_execution input)) (transaction_vector_ids (ri_body input))) transactions);
  _ ← assert_that (length steps = length transactions);
  assemble_scenario fixture transactions witnesses base_materialized pre_state_root steps
    expected_transactions_root expected_witnesses_root.

(** [load_root_check_scenario] after the file has been read. *)
Definition load_root_check_scenario (fixture : RootCheckVector) : option LoadedRootCheckScenario :=
  scenario ← resolve_root_check_scenario fixture;
  Some (mk_loaded_scenario fixture scenario).

End resolve.
End fixtures.

(** ** Lemmas *)

(** Printing, to state the round trip. *)
Definition hex_char (n : N) : Ascii.ascii :=
  Ascii.ascii_of_N (if (n <? 10)%N then 48 + n else 87 + n).

Fixpoint hex_string (l : list byte) : string :=
  match l with
  | [] => String.EmptyString
  | b :: l =>
      String.String (hex_char (byte_val b / 16))
        (String.String (hex_char (byte_val b mod 16)) (hex_string l))
  end.

Lemma hex_byte_print b : hex_byte (hex_char (byte_val b / 16)) (hex_char (byte_val b mod 16)) = Some b.
Proof. by destruct b. Qed.

Lemma hex_bytes_print l : hex_bytes (hex_string l) = Some l.
Proof. induction l as [|b l IH]; [done|]. cbn [hex_string hex_bytes]. by rewrite hex_byte_print, IH. Qed.

Lemma xor_first_elems m r :
  exists b rest, elems r = b :: rest /\ elems (xor_first m r) = byte_of_N (N.lxor (byte_val b) m) :: rest.
Proof.
  pose proof (elems_length r) as Hl. unfold xor_first.
  destruct (elems r) as [|b rest]; [done|]. exists b, rest. split; [done|].
  rewrite elems_padded by (simpl in *; lia). simpl length in Hl |- *. rewrite Hl. by rewrite Nat.sub_diag, app_nil_r.
Qed.

Lemma xor_byte_bound b m : (m < 256)%N -> (N.lxor (byte_val b) m < 256)%N.
Proof.
  intros Hm. pose proof (byte_val_bound b) as Hb.
  destruct (N.eq_dec (N.lxor (byte_val b) m) 0) as [->|Hne]; [lia|].
  change 256%N with (2 ^ 8)%N. apply N.log2_lt_pow2; [lia|].
  eapply N.le_lt_trans; [apply N.log2_lxor|]. apply N.max_lub_lt.
  - destruct (N.eq_dec (byte_val b) 0) as [->|]; [done|]. apply N.log2_lt_pow2; simpl; lia.
  - destruct (N.eq_dec m 0) as [->|]; [done|]. apply N.log2_lt_pow2; simpl; lia.
Qed.

Lemma xor_first_involutive m r : (m < 256)%N -> xor_first m (xor_first m r) = r.
Proof.
  intros Hm. apply array_eq.
  destruct (xor_first_elems m r) as (b & rest & Hr & H1).
  destruct (xor_first_elems m (xor_first m r)) as (b' & rest' & Hr' & H2).
  rewrite H1 in Hr'. injection Hr' as <- <-. rewrite H2, Hr. f_equal.
  apply byte_val_inj. rewrite !byte_val_of, (N.mod_small (N.lxor (byte_val b) m)) by (by apply xor_byte_bound).
  rewrite N.lxor_assoc, N.lxor_nilpotent, N.lxor_0_r. apply N.mod_small, byte_val_bound.
Qed.

Lemma xor_first_ne m r : (0 < m < 256)%N -> xor_first m r <> r.
Proof.
  intros Hm Heq. destruct (xor_first_elems m r) as (b & rest & Hr & H1).
  rewrite Heq, Hr in H1. injection H1 as Hb. apply (f_equal byte_val) in Hb.
  rewrite byte_val_of, N.mod_small in Hb by (apply xor_byte_bound; lia).
  assert (N.lxor (byte_val b) (N.lxor (byte_val b) m) = 0)%N as Hz by (rewrite <- Hb; apply N.lxor_nilpotent).
  rewrite <- N.lxor_assoc, N.lxor_nilpotent, N.lxor_0_l in Hz. lia.
Qed.

(** Sorting. *)

Definition entry_le (x y : StateKey * list byte) : Prop := compare_state_keys x.1 y.1 <> Gt.

Lemma insert_entry_perm x l : insert_entry x l ≡ₚ x :: l.
Proof.
  induction l as [|y l IH]; simpl; [done|]. destruct (compare_state_keys x.1 y.1); [done..|].
  rewrite IH. by constructor.
Qed.

Lemma sort_entries_perm l : sort_entries l ≡ₚ l.
Proof. induction l as [|x l IH]; simpl; [done|]. by rewrite insert_entry_perm, IH. Qed.

Lemma insert_entry_sorted x l : Sorted entry_le l -> Sorted entry_le (insert_entry x l).
Proof.
  induction 1 as [|y l Hs IH Hd]; simpl; [repeat constructor|].
  destruct (compare_state_keys x.1 y.1) eqn:E;
    try (constructor; [by constructor|]; constructor; unfold entry_le; congruence).
  constructor; [done|].
  assert (entry_le y x) as Hyx.
  { unfold entry_le, compare_state_keys in *. rewrite bytes_cmp_antisym, E. done. }
  destruct l as [|z l]; simpl; [by constructor|].
  destruct (compare_state_keys x.1 z.1); constructor; try done; by inversion Hd.
Qed.

Lemma sort_entries_sorted l : Sorted entry_le (sort_entries l).
Proof. induction l; simpl; [constructor|]. by apply insert_entry_sorted. Qed.

Lemma sorted_nodup_increasing l : Sorted entry_le l -> NoDup (fst <$> l) -> increasing (fst <$> l).
Proof.
  unfold increasing. rewrite <- Sorted_fmap.
  induction 1 as [|x l Hs IH Hd]; [constructor|]. rewrite fmap_cons, NoDup_cons. intros [Hx Hnd].
  constructor; [by apply IH|]. destruct Hd as [|y l Hle]; constructor.
  unfold entry_le, key_lt in *. destruct (compare_state_keys x.1 y.1) eqn:E; [|done|done].
  apply compare_state_keys_eq in E. exfalso. apply Hx. rewrite E. set_solver.
Qed.

Lemma apply_patch_entries l s :
  apply_patch (entries_patch l) s = foldl (fun s p => <[p.1 := p.2]> s) s l.
Proof.
  unfold apply_patch, entries_patch. cbn [accesses new_values].
  assert (zip (fst <$> l) (snd <$> l) = l) as Hz.
  { clear s. induction l as [|[k v] l IH]; [done|]. cbn. by f_equal. }
  exact (f_equal (foldl (fun s p => <[p.1 := p.2]> s) s) Hz).
Qed.

Lemma foldl_insert_map l (s : AbstractState) :
  NoDup (fst <$> l) -> foldl (fun s p => <[p.1 := p.2]> s) s l = list_to_map l ∪ s.
Proof.
  revert s. induction l as [|[k v] l IH]; intros s Hnd; [by rewrite list_to_map_nil, (left_id_L ∅ (∪))|].
  rewrite fmap_cons in Hnd. apply NoDup_cons in Hnd as [Hk Hnd]. cbn [foldl fst snd]. rewrite IH by done.
  rewrite list_to_map_cons, <- insert_union_l.
  apply map_eq. intros i. destruct (decide (i = k)) as [->|Hne].
  - rewrite lookup_union_r by (by apply not_elem_of_list_to_map_1). by simplify_map_eq.
  - rewrite !lookup_union, !lookup_insert_ne, lookup_union by done. done.
Qed.

(** Lengths written as eight bytes. *)
Lemma be8_inj n m s s' :
  (n < 2 ^ 64)%N -> (m < 2 ^ 64)%N ->
  be_bytes 8 (n mod 2 ^ 64) ++ s = be_bytes 8 (m mod 2 ^ 64) ++ s' -> n = m /\ s = s'.
Proof.
  intros Hn Hm Heq. apply app_inj_1 in Heq as [Heq ->]; [|by rewrite !length_be_bytes].
  rewrite !N.mod_small in Heq by done. split; [|done]. by apply be_bytes_inj in Heq.
Qed.

(** The lists of a witness have a [usize] length. *)
Definition witness_fits (w : StateWitness) : Prop :=
  (len (sw_leaf_value w) < 2 ^ 64)%N /\ (len (sw_proof w) < 2 ^ 64)%N.

Lemma concat_elems_inj {n} (a b : list (array n)) s s' :
  length a = length b -> concat (elems <$> a) ++ s = concat (elems <$> b) ++ s' -> a = b /\ s = s'.
Proof.
  revert b. induction a as [|x a IH]; intros [|y b] Hl Heq; try done.
  cbn [fmap list_fmap concat] in Heq. rewrite <- !app_assoc in Heq.
  apply array_app_inj in Heq as [-> Heq]. apply IH in Heq as [-> ->]; [done|]. simpl in Hl. lia.
Qed.

Lemma witness_enc_app_inj w w' s s' :
  witness_fits w -> witness_fits w' ->
  witness_bytes_enc w ++ s = witness_bytes_enc w' ++ s' -> w = w' /\ s = s'.
Proof.
  intros [Hv Hp] [Hv' Hp'] Heq. unfold witness_bytes_enc in Heq. rewrite <- !app_assoc in Heq.
  assert (forall k, len (encode_state_key k) < 2 ^ 64)%N as Hk.
  { intros k. pose proof (encode_state_key_len_bound k). lia. }
  apply be8_inj in Heq as [_ Heq]; [|done..]. apply encode_state_key_app_inj in Heq as [Hkey Heq].
  apply be8_inj in Heq as [Hlv Heq]; [|done..].
  apply app_inj_1 in Heq as [Hval Heq]; [|by apply Nat2N.inj].
  apply be8_inj in Heq as [Hlp Heq]; [|done..].
  apply concat_elems_inj in Heq as [Hproof ->]; [|by apply Nat2N.inj].
  destruct w, w'; simpl in *. by subst.
Qed.

Lemma witnesses_preimage_inj ws ws' :
  Forall witness_fits ws -> Forall witness_fits ws' ->
  (len ws < 2 ^ 64)%N -> (len ws' < 2 ^ 64)%N ->
  witnesses_preimage ws = witnesses_preimage ws' -> ws = ws'.
Proof.
  intros Hf Hf' Hl Hl' Heq. apply app_inv_head in Heq. apply be8_inj in Heq as [Hn Heq]; [|done..].
  assert (length ws = length ws') as Hlen by (unfold len in Hn; lia). clear Hl Hl' Hn.
  revert ws' Hf' Hlen Heq. induction Hf as [|w ws Hw Hf IH]; intros [|w' ws'] Hf' Hlen Heq; try done.
  apply Forall_cons in Hf' as [Hw' Hf']. cbn [fmap list_fmap concat] in Heq.
  apply witness_enc_app_inj in Heq as [-> Heq]; [|done..]. f_equal. apply IH; try done. simpl in Hlen. lia.
Qed.

Section fixtures_lemmas.
Context `{SHA : Sha256}.

Definition transactions_preimage (txs : list TransactionEnvelope) : list byte :=
  bytes_of_string "shell-fixtures/transactions-root/v1" ++ be_bytes 8 (len txs mod 2 ^ 64)
    ++ concat (elems <$> (envelope_root_of <$> txs)).

Lemma compute_transactions_root_total txs :
  compute_transactions_root txs = Ok (sha256 (transactions_preimage txs)).
Proof.
  unfold compute_transactions_root.
  assert (collect (fun tx : TransactionEnvelope => canonical_root tx) txs = Ok (envelope_root_of <$> txs)) as ->;
    [|done].
  apply collect_ok. induction txs; constructor; [apply envelope_root_total|done].
Qed.

Definition transactions_queries (txs : list TransactionEnvelope) : list (list byte) :=
  transactions_preimage txs :: concat (envelope_queries <$> txs).

Lemma envelope_roots_inj Q txs txs' :
  collision_free Q -> Forall envelope_within_limits txs -> Forall envelope_within_limits txs' ->
  concat (envelope_queries <$> txs) ⊆ Q -> concat (envelope_queries <$> txs') ⊆ Q ->
  envelope_root_of <$> txs = envelope_root_of <$> txs' -> txs = txs'.
Proof.
  intros HQ Hf. revert txs'. induction Hf as [|e txs He Hf IH]; intros [|e' txs'] Hf' Hq Hq' Heq; try done.
  cbn [fmap list_fmap concat] in *. rewrite queries_app in Hq, Hq'. destruct Hq as [Hq1 Hq2], Hq' as [Hq1' Hq2'].
  apply Forall_cons in Hf' as [He' Hf']. apply cons_eq_inj in Heq as [Hr Heq].
  f_equal; [by eapply envelope_root_of_inj|by apply IH].
Qed.

Lemma transactions_preimage_inj Q txs txs' :
  collision_free Q -> Forall envelope_within_limits txs -> Forall envelope_within_limits txs' ->
  (len txs < 2 ^ 64)%N -> (len txs' < 2 ^ 64)%N ->
  concat (envelope_queries <$> txs) ⊆ Q -> concat (envelope_queries <$> txs') ⊆ Q ->
  transactions_preimage txs = transactions_preimage txs' -> txs = txs'.
Proof.
  intros HQ Hf Hf' Hl Hl' Hq Hq' Heq. apply app_inv_head in Heq.
  apply be8_inj in Heq as [Hn Heq]; [|done..]. eapply envelope_roots_inj; try done.
  rewrite <- (app_nil_r (concat _)), <- (app_nil_r (concat (elems <$> (envelope_root_of <$> txs')))) in Heq.
  apply concat_elems_inj in Heq as [Heq _]; [done|]. rewrite !length_fmap. unfold len in Hn. lia.
Qed.

Lemma materialize_entries l acc :
  materialize_root_check_accumulator l = Some acc <->
  increasing (fst <$> l) /\ apply_transition (entries_patch l) InMemoryAccumulator_new = (Ok (root acc), acc).
Proof.
  unfold materialize_root_check_accumulator.
  destruct (apply_transition (entries_patch l) InMemoryAccumulator_new) as [r a] eqn:E.
  apply apply_transition_inv in E as [([_ Hp] & -> & Ha)|(Hp & -> & e & -> & _)].
  - cbn in Hp. split; [intros [= <-]; done|]. intros [_ [= _ <-]]. done.
  - split; [done|]. intros [Hinc [=]].
Qed.

End fixtures_lemmas.

(** ** Resolved scenarios *)

Lemma assert_that_some (P : Prop) `{Decision P} u : assert_that P = Some u -> P.
Proof. unfold assert_that. by case_decide. Qed.

(** Takes apart a successful chain of steps that can panic. *)
Ltac inv_some :=
  repeat match goal with
  | H : (_ ≫= _) = Some _ |- _ =>
      let a := fresh "a" in let Ha := fresh "Ha" in apply bind_Some in H as (a & Ha & H)
  | H : assert_that _ = Some _ |- _ => apply assert_that_some in H
  | H : Some _ = Some _ |- _ => injection H as H
  end.

Lemma resolve_transaction_unsigned load id tx :
  resolve_transaction load id = Some tx -> authorizations tx = [].
Proof.
  unfold resolve_transaction, TransactionVector_envelope. intros Hr. inv_some. by subst tx.
Qed.

Section resolve_lemmas.
Context `{SHA : Sha256}.

Lemma resolve_step_root vs p st :
  resolve_step vs p = Some st -> st_transaction_root st = envelope_root_of p.2.
Proof.
  destruct p as [[step id] tx]. unfold resolve_step. rewrite envelope_root_total. intros Hr.
  inv_some. by subst st.
Qed.

(** What a resolved scenario guarantees, whatever the vector files hold. *)
Definition scenario_consistent (sc : RootCheckScenario) : Prop :=
  compute_transactions_root (sn_transactions sc) = Ok (rh_transactions_root (sn_header sc)) /\
  compute_execution_witnesses_root (sn_witnesses sc) = rh_execution_witnesses_root (sn_header sc) /\
  rs_block_root (sn_sidecar sc) = rh_block_root (sn_header sc) /\
  sn_materialized_state sc <> [] /\
  (exists acc, materialize_root_check_accumulator (sn_materialized_state sc) = Some acc /\
     root acc = sn_pre_state_root sc /\
     verify_witnesses acc (sn_witnesses sc) (sn_pre_state_root sc) = Ok tt) /\
  Forall2 (fun tx st => st_transaction_root st = envelope_root_of tx) (sn_transactions sc) (sn_steps sc) /\
  Forall (fun tx => authorizations tx = []) (sn_transactions sc).

Lemma zip3_steps {A B} (f : A * B * TransactionEnvelope -> option RootCheckScenarioStep) xs ys txs steps :
  (forall p st, f p = Some st -> st_transaction_root st = envelope_root_of p.2) ->
  mapM f (zip (zip xs ys) txs) = Some steps -> length steps = length txs ->
  Forall2 (fun tx st => st_transaction_root st = envelope_root_of tx) txs steps.
Proof.
  intros Hf Hm%mapM_Some Hl.
  revert xs ys txs Hm Hl. induction steps as [|st steps IH]; intros xs ys txs Hm Hl.
  - by destruct txs.
  - inversion Hm as [|p ? ps ? Hp Hps Heq]; subst.
    destruct xs as [|x xs], ys as [|y ys], txs as [|tx txs]; try done.
    simplify_eq/=. constructor.
    + by apply Hf in Hp.
    + eapply IH; [exact Hps|lia].
Qed.

Lemma resolve_consistent load_tx load_w fixture sc :
  resolve_root_check_scenario load_tx load_w fixture = Some sc -> scenario_consistent sc.
Proof.
  unfold resolve_root_check_scenario, assemble_scenario.
  intros Hr. inv_some. subst sc. unfold scenario_consistent.
  cbn [sn_transactions sn_header sn_witnesses sn_sidecar sn_materialized_state sn_pre_state_root
       sn_steps rh_transactions_root rh_execution_witnesses_root rh_block_root rs_block_root].
  split_and!; try done.
  - destruct (compute_transactions_root _); [|done]. simplify_eq. done.
  - intros ->. unfold canonical_root_check_materialized_state in *. by destruct (sort_entries _).
  - exists a16. split_and!; try done. by destruct (verify_witnesses _ _ _) as [[]|].
  - eapply zip3_steps; [|done|done]. intros p st. apply resolve_step_root.
  - rewrite Forall_forall. intros tx Hin. apply mapM_Some in Ha as Hall.
    apply list_elem_of_lookup in Hin as [i Hi].
    destruct (Forall2_lookup_r _ _ _ _ _ Hall Hi) as (id & _ & Hid).
    by apply resolve_transaction_unsigned in Hid.
Qed.

End resolve_lemmas.

(** ** Theorems *)

(** Hexadecimal parsing inverts printing: the lower-case digits of any byte
    string, prefixed with [0x], parse back to those bytes. *)
Theorem parse_hex_roundtrip l :
  parse_hex (String.String (Ascii.ascii_of_N 48) (String.String (Ascii.ascii_of_N 120) (hex_string l))) = Some l.
Proof. apply hex_bytes_print. Qed.

(** The corrupting root modes corrupt: [FlipFirstByte] of both kinds always yields
    a different root, and applying it twice restores the original. *)
Theorem root_modes_corrupt r :
  PayloadRootMode_apply PayloadFlipFirstByte r <> r /\ RootMode_apply RootFlipFirstByte r <> r /\
  PayloadRootMode_apply PayloadFlipFirstByte (PayloadRootMode_apply PayloadFlipFirstByte r) = r /\
  RootMode_apply RootFlipFirstByte (RootMode_apply RootFlipFirstByte r) = r.
Proof.
  split_and!; simpl; (apply xor_first_ne || apply xor_first_involutive); lia.
Qed.

Section fixtures_theorems.
Context `{SHA : Sha256}.

(** The execution-witnesses root binds the witness list: if SHA-256 does not
    collide on the two strings hashed, equal roots come from the same witnesses (keys,
    leaf values and proofs) in the same order, for lists whose lengths fit a [usize]. *)
Theorem witnesses_root_binding ws ws' :
  Forall witness_fits ws -> Forall witness_fits ws' ->
  (len ws < usize_limit)%N -> (len ws' < usize_limit)%N ->
  collision_free [witnesses_preimage ws; witnesses_preimage ws'] ->
  compute_execution_witnesses_root ws = compute_execution_witnesses_root ws' -> ws = ws'.
Proof.
  intros Hf Hf' Hl Hl' HQ Heq. apply HQ in Heq; [|set_solver..]. by apply witnesses_preimage_inj.
Qed.

(** The transactions root binds the transactions: if SHA-256 has no collision among
    the strings hashed for the two lists and their envelopes are within the declared
    limits, equal transactions roots come from the same envelopes in the same order. *)
Theorem transactions_root_binding txs txs' r :
  Forall envelope_within_limits txs -> Forall envelope_within_limits txs' ->
  (len txs < usize_limit)%N -> (len txs' < usize_limit)%N ->
  collision_free (transactions_queries txs ++ transactions_queries txs') ->
  compute_transactions_root txs = Ok r -> compute_transactions_root txs' = Ok r -> txs = txs'.
Proof.
  intros Hf Hf' Hl Hl' HQ. rewrite !compute_transactions_root_total.
  intros Hr%Ok_inj Hr'%Ok_inj. rewrite <- Hr' in Hr. unfold transactions_queries in HQ.
  pose proof (queries_l (transactions_preimage txs :: concat (envelope_queries <$> txs))
    (transactions_preimage txs' :: concat (envelope_queries <$> txs'))) as [Hin Hq]%queries_cons.
  pose proof (queries_r (transactions_preimage txs :: concat (envelope_queries <$> txs))
    (transactions_preimage txs' :: concat (envelope_queries <$> txs'))) as [Hin' Hq']%queries_cons.
  apply HQ in Hr; [|done..]. by eapply transactions_preimage_inj.
Qed.

(** Materializing a fixture state: sorting its entries canonically and applying
    them to a fresh accumulator succeeds exactly when it has an entry and no key
    twice; the accumulator then holds exactly the fixture's entries, whatever order
    they were written in. *)
Theorem canonical_materialization l :
  match canonical_root_check_materialized_state l with
  | None => l = []
  | Some c =>
      l <> [] /\
      (is_Some (materialize_root_check_accumulator c) <-> NoDup (fst <$> l)) /\
      (forall acc, materialize_root_check_accumulator c = Some acc ->
         reachable acc /\ abs acc = list_to_map l)
  end.
Proof.
  unfold canonical_root_check_materialized_state.
  pose proof (sort_entries_perm l) as Hperm. pose proof (sort_entries_sorted l) as Hsorted.
  destruct (sort_entries l) as [|p c] eqn:Hc; [by apply Permutation_nil in Hperm|].
  assert (NoDup (fst <$> p :: c) <-> NoDup (fst <$> l)) as Hnd by (by rewrite Hperm).
  split_and!.
  - intros ->. by apply Permutation_nil_r in Hperm.
  - rewrite <- Hnd. split.
    + intros [acc [Hinc _]%materialize_entries]. by apply increasing_NoDup.
    + intros Hn. assert (increasing (fst <$> p :: c)) as Hinc by (by apply sorted_nodup_increasing).
      unfold materialize_root_check_accumulator. rewrite apply_transition_ok; [by eexists|].
      split; [unfold entries_patch; cbn; by rewrite !length_fmap|done].
  - intros acc [Hinc Ht]%materialize_entries.
    split; [eapply reach_step; [apply reach_new|exact Ht]|].
    apply apply_transition_inv in Ht as [(_ & _ & ->)|(_ & _ & ? & [=] & _)].
    change (abs (recompute_root ?a)) with (abs a). rewrite abs_fold by apply leaves_ok_nil.
    assert (NoDup (fst <$> p :: c)) as Hn by (by apply increasing_NoDup).
    fold (apply_patch (entries_patch (p :: c)) (abs InMemoryAccumulator_new)).
    rewrite apply_patch_entries, foldl_insert_map by done.
    change (abs InMemoryAccumulator_new) with (∅ : AbstractState).
    rewrite (right_id_L ∅ (∪)). by apply list_to_map_proper.
Qed.

(** C35: A scenario that resolves is internally consistent: its transactions and
    witnesses hash to the header's roots, its sidecar names the header's block, its
    state materializes to the pre-state root and verifies every witness, its steps
    carry the envelope roots of the transactions one by one, and its transactions are
    unsigned; every inconsistency of the vector files panics instead. *)
Theorem resolved_scenario_consistent load_tx load_w fixture sc :
  resolve_root_check_scenario load_tx load_w fixture = Some sc -> scenario_consistent sc.
Proof. apply resolve_consistent. Qed.

End fixtures_theorems.
