(* ===== verification/VectorFiles.v ===== *)
(** * shell-fixtures: the vector files

    The part of [crates/shell-fixtures/src/lib.rs] that reads [vectors/]: listing a
    category, paths, loading by path and by id.  The file system is what [std::fs]
    shows of that directory: for a category the entries [read_dir] yields, in whatever
    order, each possibly an error, and for a path the bytes [read] returns.  Decoding is
    [serde_json::from_slice], a parameter ([Deserialize]).  A panic is [None]. *)

From S2P Require Import Prelude Primitives StateKeys Codec Hash Sha256 OrdMap Ssz State Fixtures.

(** ** Paths *)

(** A path under [vectors/]: the category directory and the file name. *)
Record PathBuf : Type := mk_path {
  path_category : string;
  path_file_name : string
}.

#[export] Instance PathBuf_eq_dec : EqDecision PathBuf.
Proof. solve_decision. Defined.

Definition dot : Ascii.ascii := Ascii.ascii_of_N 46.

(** The parts of a name around its last dot ([rsplitn(2, '.')]). *)
Fixpoint rsplit_dot (name : string) : option (string * string) :=
  match name with
  | String.EmptyString => None
  | String.String c rest =>
      match rsplit_dot rest with
      | Some (before, after) => Some (String.String c before, after)
      | None => if decide (c = dot) then Some ("", rest) else None
      end
  end.

(** [Path::file_stem] and [Path::extension]: a name that starts with its only dot has no
    extension. *)
Definition split_name (name : string) : string * option string :=
  if decide (name = "..") then (name, None)
  else match rsplit_dot name with
       | None => (name, None)
       | Some (before, after) => if decide (before = "") then (name, None) else (before, Some after)
       end.

Definition file_stem (path : PathBuf) : option string := Some (split_name (path_file_name path)).1.
Definition extension (path : PathBuf) : option string := (split_name (path_file_name path)).2.

Definition fixture_path_for_id (category id : string) : PathBuf := mk_path category (id +:+ ".json").

(** [paths.sort()]: paths compare component by component, and those by their bytes. *)
Definition path_cmp (p q : PathBuf) : comparison :=
  match bytes_cmp (bytes_of_string (path_category p)) (bytes_of_string (path_category q)) with
  | Eq => bytes_cmp (bytes_of_string (path_file_name p)) (bytes_of_string (path_file_name q))
  | ordering => ordering
  end.

Definition path_le (p q : PathBuf) : Prop := path_cmp p q <> Gt.

#[export] Instance path_le_dec p q : Decision (path_le p q).
Proof. unfold path_le. solve_decision. Defined.

Definition sort_paths (paths : list PathBuf) : list PathBuf := merge_sort path_le paths.

(** ** The file system *)

Record FileSystem : Type := mk_fs {
  read_dir : string -> option (list (option string));
  read : PathBuf -> option (list byte)
}.

(** [T: DeserializeOwned] by [serde_json::from_slice]. *)
Class Deserialize (T : Type) : Type := from_slice : list byte -> option T.

Section loading.
Context (fs : FileSystem).

Definition json_paths (category : string) (entries : list (option string)) : list PathBuf :=
  filter (fun path => extension path = Some "json")
    (mk_path category <$> base.omap (fun entry => entry) entries).

Definition fixture_paths (category : string) : option (list PathBuf) :=
  json_paths category <$> read_dir fs category.

Definition validation_order_fixture_paths : option (list PathBuf) := fixture_paths "validation-order".
Definition mempool_policy_fixture_paths : option (list PathBuf) := fixture_paths "mempool-policy".
Definition peer_action_fixture_paths : option (list PathBuf) := fixture_paths "peer-actions".
Definition crypto_fixture_paths : option (list PathBuf) := fixture_paths "crypto".
Definition transaction_fixture_paths : option (list PathBuf) := fixture_paths "transactions".
Definition witness_fixture_paths : option (list PathBuf) := fixture_paths "witnesses".
Definition root_check_fixture_paths : option (list PathBuf) := fixture_paths "root-checks".
Definition execution_semantics_fixture_paths : option (list PathBuf) := fixture_paths "execution-semantics".

Definition load_fixture {T} `{Deserialize T} (path : PathBuf) : option T :=
  bytes ← read fs path; from_slice bytes.

Definition load_transaction_fixture_by_id `{Deserialize TransactionVector} (id : string)
    : option TransactionVector := load_fixture (fixture_path_for_id "transactions" id).

Definition load_witness_fixture_by_id `{Deserialize WitnessVector} (id : string) : option WitnessVector :=
  load_fixture (fixture_path_for_id "witnesses" id).

(** [load_root_check_scenario]. *)
Definition load_root_check_scenario_at `{Sha256} `{Deserialize TransactionVector, Deserialize WitnessVector,
    Deserialize RootCheckVector} (path : PathBuf) : option LoadedRootCheckScenario :=
  fixture ← load_fixture path;
  load_root_check_scenario load_transaction_fixture_by_id load_witness_fixture_by_id fixture.

(** What the tests over a category have in common, by the first lines of one of them:
    [paths.sort()], a listing that is not empty, and for every path the file decodes and
    the vector's id is the file's stem.  The assertions that follow in the loop differ
    from test to test: each test passes its own as [body]. *)
Definition check_vector {T} `{Deserialize T} (id_of : T -> string) (body : T -> bool) (path : PathBuf) : bool :=
  match load_fixture path with
  | Some fixture => bool_decide (file_stem path = Some (id_of fixture)) && body fixture
  | None => false
  end.

Definition check_directory {T} `{Deserialize T} (id_of : T -> string) (body : T -> bool)
    (paths : option (list PathBuf)) : bool :=
  match paths with
  | Some paths =>
      negb (bool_decide (paths = [])) && forallb (check_vector id_of body) (sort_paths paths)
  | None => false
  end.

(** The loop of the tests that [continue] past the vectors of another layer: every file
    decodes, the body holds of those selected, and at least one is ([seen > 0]). *)
Definition check_selected {T} `{Deserialize T} (selects : T -> bool) (body : PathBuf -> T -> bool)
    (paths : option (list PathBuf)) : bool :=
  match paths ≫= (fun paths => mapM (fun path => pair path <$> load_fixture path) (sort_paths paths)) with
  | Some loaded =>
      let seen := filter (fun entry => selects entry.2 = true) loaded in
      negb (bool_decide (seen = [])) && forallb (fun '(path, fixture) => body path fixture) seen
  | None => false
  end.

End loading.

(** ** Lemmas *)

Lemma rsplit_dot_json (id : string) : rsplit_dot (id +:+ ".json") = Some (id, "json").
Proof.
  induction id as [|c id IH]; [done|].
  change (String.String c id +:+ ".json") with (String.String c (id +:+ ".json")).
  cbn [rsplit_dot]. by rewrite IH.
Qed.

Lemma rsplit_dot_inv (name before after : string) :
  rsplit_dot name = Some (before, after) -> name = before +:+ String.String dot after.
Proof.
  revert before. induction name as [|c name IH]; intros before; cbn; [done|].
  destruct (rsplit_dot name) as [[b a]|].
  - intros [= <- <-]. change (String.String c name = String.String c (b +:+ String.String dot a)).
    f_equal. by apply IH.
  - case_decide as Hc; [|done]. intros [= <- <-]. by subst.
Qed.

(** The file names with a stem and the extension [json] are those of ids. *)
Lemma json_path_iff (p : PathBuf) (id : string) :
  file_stem p = Some id /\ extension p = Some "json" <-> id <> "" /\ p = fixture_path_for_id (path_category p) id.
Proof.
  unfold file_stem, extension, fixture_path_for_id, split_name. destruct p as [c name]. cbn [path_category path_file_name].
  split.
  - case_decide; [naive_solver|]. destruct (rsplit_dot name) as [[b a]|] eqn:Hr; [|naive_solver].
    case_decide as Hb; [naive_solver|]. intros [[= <-] [= ->]]. split; [done|].
    apply rsplit_dot_inv in Hr. by rewrite Hr.
  - intros [Hid [= ->]]. rewrite rsplit_dot_json. rewrite (decide_False (P := id = "")) by done.
    rewrite decide_False; [done|]. intros Heq. apply (f_equal rsplit_dot) in Heq.
    rewrite rsplit_dot_json in Heq. vm_compute in Heq. congruence.
Qed.

Lemma fixture_paths_elem fs category paths p :
  fixture_paths fs category = Some paths ->
  p ∈ paths <-> exists entries, read_dir fs category = Some entries /\ path_category p = category /\
    Some (path_file_name p) ∈ entries /\ extension p = Some "json".
Proof.
  unfold fixture_paths, json_paths. intros (entries & Hd & ->)%fmap_Some_1. rewrite list_elem_of_filter, list_elem_of_fmap.
  rewrite Hd. split.
  - intros (Hx & name & -> & Hin). exists entries. apply list_elem_of_omap in Hin as (o & Ho & Heq).
    cbn in Heq. by subst o.
  - intros (? & [= <-] & <- & Hin & Hx). split; [done|]. exists (path_file_name p). split; [by destruct p|].
    apply list_elem_of_omap. by exists (Some (path_file_name p)).
Qed.

(** Sorting makes a listing canonical. *)
Lemma bytes_of_string_inj (s t : string) : bytes_of_string s = bytes_of_string t -> s = t.
Proof.
  intros H. apply (f_equal String.string_of_list_byte) in H. unfold bytes_of_string in H.
  by rewrite !String.string_of_list_byte_of_string in H.
Qed.

Lemma path_cmp_eq p q : path_cmp p q = Eq <-> p = q.
Proof.
  unfold path_cmp. split.
  - destruct (bytes_cmp (bytes_of_string (path_category p)) _) eqn:Ec; try done. intros En.
    apply bytes_cmp_eq, bytes_of_string_inj in Ec, En. destruct p, q; cbn in *. congruence.
  - intros ->. by rewrite !bytes_cmp_refl.
Qed.

Lemma path_cmp_antisym p q : path_cmp q p = CompOpp (path_cmp p q).
Proof.
  unfold path_cmp. rewrite (bytes_cmp_antisym (bytes_of_string (path_category p))).
  rewrite (bytes_cmp_antisym (bytes_of_string (path_file_name p))).
  by destruct (bytes_cmp (bytes_of_string (path_category p)) _).
Qed.

Lemma path_lt_trans p q r : path_cmp p q = Lt -> path_cmp q r = Lt -> path_cmp p r = Lt.
Proof.
  unfold path_cmp. intros Hpq Hqr.
  destruct (bytes_cmp (bytes_of_string (path_category p)) (bytes_of_string (path_category q))) eqn:E1; [| |done];
  destruct (bytes_cmp (bytes_of_string (path_category q)) (bytes_of_string (path_category r))) eqn:E2; try done.
  - apply bytes_cmp_eq in E1 as ->, E2 as ->. rewrite bytes_cmp_refl. by eapply bytes_lt_trans.
  - apply bytes_cmp_eq in E1 as ->. by rewrite E2.
  - apply bytes_cmp_eq in E2 as <-. by rewrite E1.
  - by rewrite (bytes_lt_trans _ _ _ E1 E2).
Qed.

#[export] Instance path_le_trans : Transitive path_le.
Proof.
  intros p q r. unfold path_le. intros Hpq Hqr.
  destruct (path_cmp p q) eqn:E1; [apply path_cmp_eq in E1 as ->; done| |done].
  destruct (path_cmp q r) eqn:E2; [apply path_cmp_eq in E2 as <-; by rewrite E1| |done].
  by rewrite (path_lt_trans _ _ _ E1 E2).
Qed.

#[export] Instance path_le_total : Total path_le.
Proof. intros p q. unfold path_le. rewrite (path_cmp_antisym p q). destruct (path_cmp p q); auto. Qed.

#[export] Instance path_le_antisym : AntiSymm (=) path_le.
Proof.
  intros p q. unfold path_le. rewrite (path_cmp_antisym p q).
  destruct (path_cmp p q) eqn:E; try done. by apply path_cmp_eq in E.
Qed.

Lemma sort_paths_perm ps qs : ps ≡ₚ qs -> sort_paths ps = sort_paths qs.
Proof.
  intros Hp. apply (StronglySorted_unique path_le); [apply (StronglySorted_merge_sort path_le)..|].
  etrans; [apply merge_sort_Permutation|]. rewrite Hp. symmetry. apply merge_sort_Permutation.
Qed.

(** ** Listing and naming *)

(** C36: Listing a category and naming its vectors by id agree.  If the directory cannot
    be read, listing panics.  Otherwise the listed paths whose file stem is [id] are
    exactly the path [fixture_path_for_id] gives to [id], provided that [id] is not empty
    and the directory has the entry [id.json]: every listed file is the one its stem
    names, every entry named after a non-empty id is listed, with dots in the id or not,
    and neither files of other extensions, nor a file called [.json], nor entries that
    are errors are. *)
Theorem listed_paths_are_named_by_ids (fs : FileSystem) (category : string) :
  match read_dir fs category with
  | None => fixture_paths fs category = None
  | Some entries =>
      exists paths, fixture_paths fs category = Some paths /\
        forall p id, p ∈ paths /\ file_stem p = Some id <->
          id <> "" /\ p = fixture_path_for_id category id /\ Some (id +:+ ".json") ∈ entries
  end.
Proof.
  destruct (read_dir fs category) as [entries|] eqn:Hd; [|unfold fixture_paths; by rewrite Hd].
  assert (fixture_paths fs category = Some (json_paths category entries)) as Hf
    by (unfold fixture_paths; by rewrite Hd).
  eexists. split; [exact Hf|]. intros p id. rewrite (fixture_paths_elem _ _ _ _ Hf). split.
  - intros [(? & He & Hc & Hin & Hx) Hs]. rewrite Hd in He. injection He as <-.
    destruct (proj1 (json_path_iff p id) (conj Hs Hx)) as [Hid Hp]. rewrite Hc in Hp.
    split_and!; [done..|]. by rewrite Hp in Hin.
  - intros (Hid & -> & Hin).
    destruct (proj2 (json_path_iff (fixture_path_for_id category id) id)) as [Hs Hx]; [done|]. naive_solver.
Qed.

Section checked.
Context (fs : FileSystem) (category : string).
Context {T : Type} `{Deserialize T} (id_of : T -> string) (body : T -> bool).

(** The verdict of a directory test does not depend on the order in which the file
    system yields the entries, nor on entries that are errors or not JSON files. *)
Lemma directory_check_order_independent (fs' : FileSystem) entries entries' :
  read_dir fs category = Some entries -> read_dir fs' category = Some entries' ->
  json_paths category entries ≡ₚ json_paths category entries' ->
  (forall path, read fs path = read fs' path) ->
  check_directory fs id_of body (fixture_paths fs category) =
  check_directory fs' id_of body (fixture_paths fs' category).
Proof.
  intros Hd Hd' Hp Hr. unfold fixture_paths. rewrite Hd, Hd'. cbn. f_equal.
  - f_equal. apply bool_decide_ext. split; intros Heq; rewrite Heq in Hp;
      [symmetry; by apply Permutation_nil_l|by apply Permutation_nil_r].
  - rewrite (sort_paths_perm _ _ Hp). induction (sort_paths _) as [|path paths IH]; [done|].
    cbn. rewrite IH. unfold check_vector, load_fixture. by rewrite Hr.
Qed.

End checked.
