(* ===== verification/Cli.v ===== *)
(** * shell-cli: the local reference runtime

    [fixtures.rs], [runtime.rs] and [adapters.rs]: the runtime that wires mempool
    admission, block import, witness verification and planned execution together
    against a resolved scenario, and its two network adapters.  The dispatcher and the
    credential resolver are the caller's objects and live in the world [W]; the
    accumulator, the planner and the applier are created inside a call and do not
    outlive it.  [BTreeMap<Root, _>] is only inserted into and looked up, so it is a
    finite map. *)

From S2P Require Import Prelude Primitives StateKeys Codec Hash Sha256 OrdMap Ssz State Validation.
From S2P Require Import Crypto Mempool Execution Consensus Network Fixtures.

(** ** fixtures.rs *)

Record OwnedAuthorizationMaterial : Type := OwnedAuthorizationMaterial_new {
  om_public_key_material : list byte
}.

Definition reference_default : OwnedAuthorizationMaterial :=
  OwnedAuthorizationMaterial_new (replicate 32 Byte.x00).

Definition as_borrowed (self : OwnedAuthorizationMaterial) : AuthorizationMaterial :=
  mk_material (om_public_key_material self).

Record LocalReferenceScenario : Type := mk_local_scenario {
  ls_block : CanonicalBlock;
  admission_transactions : list TransactionEnvelope;
  ls_pre_state_root : Root;
  ls_materialized_state : list (StateKey * list byte);
  ls_planned_transactions : list PlannedTransaction;
  transaction_authorization_materials : list (list OwnedAuthorizationMaterial)
}.

Definition planned_of_step (step : RootCheckScenarioStep) : PlannedTransaction :=
  mk_planned (st_transaction_root step)
    (mk_plan (mk_patch [st_key step] [st_new_leaf_value step])
       (mk_receipt (st_receipt_status_code step) (st_receipt_output step))).

Definition materials_for (transaction : TransactionEnvelope) : list OwnedAuthorizationMaterial :=
  let authorization_count :=
    match authorizations transaction with [] => 1 | _ :: _ => length (authorizations transaction) end in
  replicate authorization_count reference_default.

(** ** runtime.rs (data) *)

Record ScenarioShapeError : Type := mk_shape_error {
  sh_expected : nat;
  sh_actual : nat;
  sh_context : string
}.

Inductive LocalReferenceError : Type :=
| ScenarioShape (e : ScenarioShapeError)
| DuplicateAdmissionPayloadRoot (r : Root)
| RefPrimitive (e : PrimitiveError)
| Admission (e : ValidationError)
| RefConsensus (e : ConsensusError).

(** The [From] impls. *)
#[export] Instance PrimitiveError_into_reference : From PrimitiveError LocalReferenceError := RefPrimitive.
#[export] Instance ValidationError_into_reference : From ValidationError LocalReferenceError := Admission.
#[export] Instance ConsensusError_into_reference : From ConsensusError LocalReferenceError := RefConsensus.

Record LocalReferenceFlowOutcome : Type := mk_flow_outcome {
  admissions : list AuthorizationValidated;
  import_outcome : BlockImportOutcome
}.

Definition validate_scenario_shape (scenario : LocalReferenceScenario)
    : result unit LocalReferenceError :=
  let transaction_count := length (cb_transactions (body (ls_block scenario))) in
  let admission_count := length (admission_transactions scenario) in
  if decide (admission_count <> transaction_count) then
    Err (ScenarioShape (mk_shape_error transaction_count admission_count
      "admission transactions must align one-to-one with block body transactions"))
  else
  let planned_count := length (ls_planned_transactions scenario) in
  if decide (planned_count <> transaction_count) then
    Err (ScenarioShape (mk_shape_error transaction_count planned_count
      "planned transactions must align one-to-one with block body transactions"))
  else
  let materials_count := length (transaction_authorization_materials scenario) in
  if decide (materials_count <> transaction_count) then
    Err (ScenarioShape (mk_shape_error transaction_count materials_count
      "authorization material entries must align one-to-one with block body transactions"))
  else Ok tt.

Abbreviation AdmissionIndex := (gmap Root (TransactionEnvelope * list OwnedAuthorizationMaterial)).

Definition borrow_authorization_materials (materials : list OwnedAuthorizationMaterial)
    : list AuthorizationMaterial := as_borrowed <$> materials.

Section runtime.
Context `{SHA : Sha256}.

(** The source [expect]s [payload_root], which never fails ([payload_root_total]). *)
Definition synthesize_reference_admission_transaction (transaction : TransactionEnvelope)
    : TransactionEnvelope :=
  match authorizations transaction with
  | _ :: _ => transaction
  | [] =>
      mk_envelope (env_payload transaction)
        [mk_authorization Byte.x00 (payload_root_of (env_payload transaction)) (replicate 64 Byte.xa5)]
  end.

Definition from_root_check_scenario (scenario : RootCheckScenario) : LocalReferenceScenario :=
  let h := sn_header scenario in
  let block := mk_block
    (mk_canonical_header (rh_block_root h) (rh_block_number h) (rh_timestamp h) (rh_parent_root h)
       (rh_witness_bytes h) (rh_transactions_root h) (rh_execution_witnesses_root h) (rh_state_root h)
       (rh_receipts_root h) (rh_proposer_signature h) (Some (rh_proposer_index h)))
    (mk_canonical_body (sn_transactions scenario) (rh_transactions_root h))
    (mk_canonical_sidecar (rs_block_root (sn_sidecar scenario)) (rh_execution_witnesses_root h)
       (sn_witnesses scenario)) in
  mk_local_scenario block
    (synthesize_reference_admission_transaction <$> sn_transactions scenario)
    (sn_pre_state_root scenario) (sn_materialized_state scenario)
    (planned_of_step <$> sn_steps scenario)
    (materials_for <$> sn_transactions scenario).

(** ** runtime.rs *)

(** The loop inserts and then looks at what it displaced. *)
Fixpoint index_loop (pairs : list (TransactionEnvelope * list OwnedAuthorizationMaterial))
    (by_root : AdmissionIndex) : result AdmissionIndex LocalReferenceError :=
  match pairs with
  | [] => Ok by_root
  | (transaction, materials) :: pairs =>
      let? payload_root := map_err from (payload_root transaction) in
      match by_root !! payload_root with
      | Some _ => Err (DuplicateAdmissionPayloadRoot payload_root)
      | None => index_loop pairs (<[payload_root := (transaction, materials)]> by_root)
      end
  end.

Definition build_admission_transactions_by_payload_root (transactions : list TransactionEnvelope)
    (authorization_materials : list (list OwnedAuthorizationMaterial))
    : result AdmissionIndex LocalReferenceError :=
  index_loop (zip transactions authorization_materials) ∅.

Definition materialize_accumulator (materialized_state : list (StateKey * list byte))
    : result InMemoryAccumulator StateError :=
  match materialized_state with
  | [] => Ok InMemoryAccumulator_new
  | _ :: _ =>
      match apply_transition (entries_patch materialized_state) InMemoryAccumulator_new with
      | (Ok _, accumulator) => Ok accumulator
      | (Err e, _) => Err e
      end
  end.

Record ReferenceWitnessScenarioPreparer : Type := mk_scenario_preparer {
  wp_pre_state_root : Root;
  wp_materialized_state : list (StateKey * list byte);
  wp_witnesses : list StateWitness
}.

(** [ReferenceWitnessScenarioPreparer::prepare_witness]. *)
Definition reference_prepare_witness (self : ReferenceWitnessScenarioPreparer)
    (header : ConsensusHeader) (_sidecar : ConsensusSidecar) : result unit StateError :=
  if decide (compute_execution_witnesses_root (wp_witnesses self) <> execution_witnesses_root header) then
    Err (WitnessVerificationFailed
      "reference witness set does not match the committed execution_witnesses_root")
  else
    let? accumulator := materialize_accumulator (wp_materialized_state self) in
    if decide (root accumulator <> wp_pre_state_root self) then
      Err (RootContinuityMismatch (mk_continuity_error (wp_pre_state_root self) (root accumulator)))
    else verify_witnesses accumulator (wp_witnesses self) (wp_pre_state_root self).

Record ReferenceExecutionEngine : Type := mk_reference_engine {
  re_pre_state_root : Root;
  re_materialized_state : list (StateKey * list byte);
  re_planned_transactions : list PlannedTransaction
}.

(** [ReferenceExecutionEngine::execute_block]: the planner and the applier are fresh. *)
Definition reference_execute_block (self : ReferenceExecutionEngine)
    (_header : ConsensusHeader) (body : ConsensusBody) (_sidecar : ConsensusSidecar)
    : result BlockExecutionOutcome ExecutionError :=
  let? accumulator := map_err StateTransition (materialize_accumulator (re_materialized_state self)) in
  if decide (root accumulator <> re_pre_state_root self) then
    Err (StateTransition (RootContinuityMismatch
      (mk_continuity_error (re_pre_state_root self) (root accumulator))))
  else
    let planner := PlannedTransactionExecutor_new (re_planned_transactions self) in
    let applier := ReferenceStateApplier_new accumulator in
    let '(outcome, (planner, _)) :=
      execute_block (re_pre_state_root self) (transactions body) (planner, applier) in
    let? outcome := outcome in
    ensure_exhausted planner ?;;
    Ok outcome.

Section world.
Context {W D : Type} `{SD : SignatureDispatcher W D}.

Record LocalReferenceRuntime : Type := mk_runtime {
  rt_dispatcher : D;
  rt_resolver : ProposerCredentialResolver W;
  admission_policy : AdmissionPolicy;
  import_config : BlockImportConfig;
  admission_state_view : option AdmissionStateView
}.

Definition LocalReferenceRuntime_new dispatcher resolver policy config : LocalReferenceRuntime :=
  mk_runtime dispatcher resolver policy config None.

Definition with_admission_state_view (self : LocalReferenceRuntime) (view : AdmissionStateView)
    : LocalReferenceRuntime :=
  mk_runtime (rt_dispatcher self) (rt_resolver self) (admission_policy self) (import_config self)
    (Some view).

Definition validate_transaction (self : LocalReferenceRuntime) (envelope : TransactionEnvelope)
    (authorization_materials : list OwnedAuthorizationMaterial)
    : M W ValidationError AuthorizationValidated :=
  admit_and_verify (mk_pipeline (rt_dispatcher self) (admission_policy self)) envelope
    (admission_state_view self) (borrow_authorization_materials authorization_materials).

Definition admit_transactions (self : LocalReferenceRuntime) (scenario : LocalReferenceScenario)
    : M W LocalReferenceError (list AuthorizationValidated) :=
  m_collect (fun '(transaction, materials) =>
    m_map_err from (validate_transaction self transaction materials))
    (zip (admission_transactions scenario) (transaction_authorization_materials scenario)).

Record ReferenceTransactionRevalidator : Type := mk_reference_revalidator {
  rv_dispatcher : D;
  rv_policy : AdmissionPolicy;
  rv_state_view : option AdmissionStateView;
  rv_admission_transactions : AdmissionIndex
}.

(** [ReferenceTransactionRevalidator::revalidate]. *)
Definition reference_revalidate (self : ReferenceTransactionRevalidator)
    (transaction : TransactionEnvelope) (_multi_authorization_policy : MultiAuthorizationPolicy)
    : M W ValidationError unit :=
  let! payload_root := lift (map_err from (payload_root transaction)) in
  let! entry := lift (ok_or (rv_admission_transactions self !! payload_root)
    (AuthorizationMaterialCount (mk_material_count 1 0))) in
  let '(admission_transaction, materials) := entry in
  admit_and_verify (mk_pipeline (rv_dispatcher self) (rv_policy self)) admission_transaction
    (rv_state_view self) (borrow_authorization_materials materials) !;;
  ret tt.

Definition scenario_revalidator (self : LocalReferenceRuntime) (index : AdmissionIndex)
    : ReferenceTransactionRevalidator :=
  mk_reference_revalidator (rt_dispatcher self) (admission_policy self) (admission_state_view self) index.

Definition scenario_preparer (scenario : LocalReferenceScenario) : ReferenceWitnessScenarioPreparer :=
  mk_scenario_preparer (ls_pre_state_root scenario) (ls_materialized_state scenario)
    (witnesses (Consensus.sidecar (ls_block scenario))).

Definition scenario_engine (scenario : LocalReferenceScenario) : ReferenceExecutionEngine :=
  mk_reference_engine (ls_pre_state_root scenario) (ls_materialized_state scenario)
    (ls_planned_transactions scenario).

Definition reference_services (self : LocalReferenceRuntime) (scenario : LocalReferenceScenario)
    (index : AdmissionIndex) : BlockImportServices W D :=
  mk_services (rt_resolver self) (rt_dispatcher self)
    (reference_revalidate (scenario_revalidator self index))
    (fun header sidecar => lift (reference_prepare_witness (scenario_preparer scenario) header sidecar))
    (fun header body sidecar =>
       lift (reference_execute_block (scenario_engine scenario) header body sidecar)).

Definition validate_block_against_reference (self : LocalReferenceRuntime)
    (scenario : LocalReferenceScenario) (header : ConsensusHeader) (body : ConsensusBody)
    (sidecar : ConsensusSidecar) (index : AdmissionIndex) : M W ConsensusError BlockImportOutcome :=
  import_block (import_config self) header body sidecar (reference_services self scenario index).

Definition scenario_header (scenario : LocalReferenceScenario) : ConsensusHeader :=
  CanonicalBlockHeader_header (Consensus.header (ls_block scenario)).
Definition scenario_body (scenario : LocalReferenceScenario) : ConsensusBody :=
  CanonicalBlockBody_body (Consensus.body (ls_block scenario)).
Definition scenario_sidecar (scenario : LocalReferenceScenario) : ConsensusSidecar :=
  CanonicalBlockSidecar_sidecar (Consensus.sidecar (ls_block scenario)).

Definition run (self : LocalReferenceRuntime) (scenario : LocalReferenceScenario)
    : M W LocalReferenceError LocalReferenceFlowOutcome :=
  lift (validate_scenario_shape scenario) !;;
  let! admissions := admit_transactions self scenario in
  let! index := lift (build_admission_transactions_by_payload_root
    (admission_transactions scenario) (transaction_authorization_materials scenario)) in
  let! import_outcome := m_map_err from
    (validate_block_against_reference self scenario (scenario_header scenario)
       (scenario_body scenario) (scenario_sidecar scenario) index) in
  ret (mk_flow_outcome admissions import_outcome).

(** ** adapters.rs *)

(** The same insertion loop, keeping the materials only. *)
Fixpoint materials_loop (pairs : list (TransactionEnvelope * list OwnedAuthorizationMaterial))
    (by_root : gmap Root (list OwnedAuthorizationMaterial))
    : result (gmap Root (list OwnedAuthorizationMaterial)) LocalReferenceError :=
  match pairs with
  | [] => Ok by_root
  | (transaction, materials) :: pairs =>
      let? payload_root := map_err from (payload_root transaction) in
      match by_root !! payload_root with
      | Some _ => Err (DuplicateAdmissionPayloadRoot payload_root)
      | None => materials_loop pairs (<[payload_root := materials]> by_root)
      end
  end.

Record LocalReferenceNetworkMempoolAdapter : Type := mk_local_mempool_adapter {
  ma_runtime : LocalReferenceRuntime;
  ma_authorization_materials : gmap Root (list OwnedAuthorizationMaterial)
}.

Definition mempool_adapter_try_new (runtime : LocalReferenceRuntime) (scenario : LocalReferenceScenario)
    : result LocalReferenceNetworkMempoolAdapter LocalReferenceError :=
  validate_scenario_shape scenario ?;;
  let? authorization_materials := materials_loop
    (zip (admission_transactions scenario) (transaction_authorization_materials scenario)) ∅ in
  Ok (mk_local_mempool_adapter runtime authorization_materials).

(** A validation result as a gossip verdict: errors with an outcome become it. *)
Definition gossip_verdict {E A} (outcome_of : E -> option ValidationOutcome) (m : M W E A)
    : M W E ValidationOutcome := fun w =>
  match m w with
  | (Ok _, w') => (Ok Accept, w')
  | (Err error, w') =>
      match outcome_of error with
      | Some outcome => (Ok outcome, w')
      | None => (Err error, w')
      end
  end.

Definition mempool_adapter_validate (self : LocalReferenceNetworkMempoolAdapter)
    (_origin : NetworkOrigin) (envelope : TransactionEnvelope) : M W ValidationError ValidationOutcome :=
  let! payload_root := lift (map_err from (payload_root envelope)) in
  let! materials := lift (ok_or (ma_authorization_materials self !! payload_root)
    (AuthorizationMaterialCount (mk_material_count (len (authorizations envelope)) 0))) in
  gossip_verdict ValidationError_network_validation_outcome
    (validate_transaction (ma_runtime self) envelope materials).

Definition LocalReferenceNetworkMempoolAdapter_adapter (self : LocalReferenceNetworkMempoolAdapter)
    : NetworkMempoolAdapter W := mk_mempool_adapter W (mempool_adapter_validate self).

Record LocalReferenceNetworkConsensusAdapter : Type := mk_local_consensus_adapter {
  ca_runtime : LocalReferenceRuntime;
  ca_scenario : LocalReferenceScenario;
  ca_admission_transactions : AdmissionIndex
}.

Definition consensus_adapter_try_new (runtime : LocalReferenceRuntime) (scenario : LocalReferenceScenario)
    : result LocalReferenceNetworkConsensusAdapter LocalReferenceError :=
  validate_scenario_shape scenario ?;;
  let? index := build_admission_transactions_by_payload_root
    (admission_transactions scenario) (transaction_authorization_materials scenario) in
  Ok (mk_local_consensus_adapter runtime scenario index).

Definition consensus_adapter_validate (self : LocalReferenceNetworkConsensusAdapter)
    (_origin : NetworkOrigin) (header : ConsensusHeader) (body : ConsensusBody)
    (sidecar : ConsensusSidecar) : M W ConsensusError ValidationOutcome :=
  gossip_verdict ConsensusError_network_validation_outcome
    (validate_block_against_reference (ca_runtime self) (ca_scenario self) header body sidecar
       (ca_admission_transactions self)).

Definition LocalReferenceNetworkConsensusAdapter_adapter (self : LocalReferenceNetworkConsensusAdapter)
    : NetworkConsensusAdapter W := mk_consensus_adapter W (consensus_adapter_validate self).

End world.
End runtime.
Arguments LocalReferenceRuntime W D : clear implicits.

(** ** Lemmas *)

Section cli_lemmas.
Context `{SHA : Sha256}.

Lemma materialize_accumulator_ok l acc :
  materialize_accumulator l = Ok acc -> reachable acc /\ increasing (fst <$> l) /\ abs acc = list_to_map l.
Proof.
  unfold materialize_accumulator. destruct l as [|p l].
  { intros [= <-]. split_and!; [apply reach_new|constructor|done]. }
  destruct (apply_transition _ _) as [[r|e] a] eqn:Ht; [|done]. intros [= <-].
  split; [eapply reach_step; [apply reach_new|exact Ht]|].
  apply apply_transition_inv in Ht as [([_ Hinc] & _ & ->)|(_ & _ & ? & [=] & _)].
  split; [exact Hinc|]. change (abs (recompute_root ?a)) with (abs a).
  rewrite abs_fold by apply leaves_ok_nil.
  fold (apply_patch (entries_patch (p :: l)) (abs InMemoryAccumulator_new)).
  rewrite apply_patch_entries, foldl_insert_map by (by apply increasing_NoDup).
  change (abs InMemoryAccumulator_new) with (∅ : AbstractState). by rewrite (right_id_L ∅ (∪)).
Qed.

Lemma materialize_accumulator_total l :
  increasing (fst <$> l) -> exists acc, materialize_accumulator l = Ok acc.
Proof.
  intros Hinc. destruct l as [|p l]; [by eexists|]. unfold materialize_accumulator.
  rewrite apply_transition_ok; [by eexists|].
  split; [unfold entries_patch; cbn; by rewrite !length_fmap|exact Hinc].
Qed.

(** The fixture crate's materialization and the runtime's agree on non-empty states. *)
Lemma materialize_agree l acc :
  l <> [] -> materialize_root_check_accumulator l = Some acc -> materialize_accumulator l = Ok acc.
Proof.
  intros Hne. unfold materialize_root_check_accumulator, materialize_accumulator.
  destruct l; [done|]. destruct (apply_transition _ _) as [[] ]; [|done]. by intros [= <-].
Qed.

Lemma reference_prepare_ok pre st ws h s :
  reference_prepare_witness (mk_scenario_preparer pre st ws) h s = Ok tt <->
  compute_execution_witnesses_root ws = execution_witnesses_root h /\
  exists acc, materialize_accumulator st = Ok acc /\ root acc = pre /\
    verify_witnesses acc ws pre = Ok tt.
Proof.
  unfold reference_prepare_witness.
  cbn [wp_pre_state_root wp_materialized_state wp_witnesses]. case_decide as Hw; [naive_solver|]. rewrite bind_result_ok. split.
  - intros (acc & Hacc & Hv). case_decide as Hr; [done|]. split; [done|].
    exists acc. split_and!; done.
  - intros (_ & acc & Hacc & Hr & Hv). exists acc. split; [done|]. rewrite decide_False by tauto. done.
Qed.

(** What the reference engine returns. *)
Lemma reference_engine_ok pre st planned h b s out :
  reference_execute_block (mk_reference_engine pre st planned) h b s = Ok out <->
  exists acc acc',
    materialize_accumulator st = Ok acc /\ root acc = pre /\
    Forall2 (fun tx p => pt_transaction_root p = envelope_root_of tx) (transactions b) planned /\
    Forall (fun p => patch_ok (state_patch (pt_plan p))) planned /\
    executes pre (PlannedTransactionExecutor_new planned, ReferenceStateApplier_new acc) (transactions b)
      (transaction_outcomes out) (be_post_state_root out)
      (mk_planned_executor planned (length planned), mk_applier acc' false) /\
    reachable acc' /\ abs acc' = apply_plans planned (abs acc) /\
    be_post_state_root out = root acc' /\
    to_receipt <$> transaction_outcomes out = (fun p => receipt (pt_plan p)) <$> planned /\
    be_receipts_root out = compute_receipts_root ((fun p => receipt (pt_plan p)) <$> planned).
Proof.
  unfold reference_execute_block.
  cbn [re_pre_state_root re_materialized_state re_planned_transactions]. rewrite bind_result_ok. split.
  - intros (acc & Hacc%map_err_ok & Hrest). case_decide as Hr; [done|].
    destruct (execute_block pre (transactions b) _) as [r [ex ap]] eqn:Hex.
    apply bind_result_ok in Hrest as (o & -> & [Hexh Ho]%then_ok). injection Ho as ->.
    apply materialize_accumulator_ok in Hacc as Hm. destruct Hm as (Hreach & _ & _).
    unfold execute_block in Hex. apply bind_ok in Hex as ([[r' rs] os] & w1 & Hloop & Hret).
    apply ret_eq in Hret as [Hret ->]. injection Hret as <-.
    apply execute_loop_ok in Hloop as (outs & Hrun & -> & ->). cbn.
    destruct (reference_executes_inv _ _ _ _ _ _ Hrun planned 0 acc) as
      (acc' & Hw & Hreach' & Hroot & Hf & Hp & Habs & Hrec); [done|done|done|].
    injection Hw as -> ->. rewrite drop_0 in *.
    assert (length (transactions b) = length planned) as Hlen.
    { unfold ensure_exhausted, is_exhausted in Hexh. cbn in Hexh.
      destruct (Nat.eqb_spec (length (transactions b)) (length planned)); done. }
    rewrite Hlen, take_ge in * by lia. exists acc, acc'. rewrite <- Hrec. split_and!; done.
  - intros (acc & acc' & Hacc & Hr & Hf & Hp & Hex & _ & _ & Hpost & Hrec & Hrr).
    exists acc. split; [by apply map_err_ok|]. rewrite decide_False by tauto.
    assert (execute_block pre (transactions b)
      (PlannedTransactionExecutor_new planned, ReferenceStateApplier_new acc) =
      (Ok out, (mk_planned_executor planned (length planned), mk_applier acc' false))) as ->.
    { unfold execute_block. apply bind_ok.
      eexists (be_post_state_root out, to_receipt <$> transaction_outcomes out, transaction_outcomes out), _.
      split; [apply execute_loop_ok; by exists (transaction_outcomes out)|].
      apply ret_eq. split; [|done]. rewrite Hrec, <- Hrr. by destruct out. }
    cbn [bind_result]. apply then_ok. split; [|done].
    unfold ensure_exhausted, is_exhausted. cbn. by rewrite Nat.eqb_refl.
Qed.

Lemma reference_engine_total pre st planned h b s acc :
  materialize_accumulator st = Ok acc -> root acc = pre ->
  Forall2 (fun tx p => pt_transaction_root p = envelope_root_of tx) (transactions b) planned ->
  Forall (fun p => patch_ok (state_patch (pt_plan p))) planned ->
  exists out, reference_execute_block (mk_reference_engine pre st planned) h b s = Ok out.
Proof.
  intros Hacc <- Hf Hp. apply materialize_accumulator_ok in Hacc as Hm. destruct Hm as (Hreach & _ & _).
  destruct (reference_executes planned (transactions b) [] acc Hreach Hf Hp)
    as (outs & acc' & Hex & Hr & Habs & Hrec).
  exists (mk_block_outcome (root acc') (compute_receipts_root (to_receipt <$> outs)) outs).
  apply reference_engine_ok. exists acc, acc'. cbn. rewrite Hrec. split_and!; done.
Qed.

(** The admission index. *)

Definition pair_root (p : TransactionEnvelope * list OwnedAuthorizationMaterial) : Root :=
  payload_root_of (env_payload p.1).

Lemma index_loop_ok pairs : forall m m',
  index_loop pairs m = Ok m' <->
  NoDup (pair_root <$> pairs) /\ Forall (fun p => m !! pair_root p = None) pairs /\
  m' = list_to_map ((fun p => (pair_root p, p)) <$> pairs) ∪ m.
Proof.
  induction pairs as [|[tx mats] pairs IH]; intros m m'; cbn [index_loop].
  - rewrite !fmap_nil, list_to_map_nil, (left_id_L ∅ (∪)). split; [intros [= ->]; split_and!; constructor|].
    by intros (_ & _ & ->).
  - rewrite payload_root_total. cbn [map_err bind_result]. change (payload_root_of (env_payload tx)) with (pair_root (tx, mats)).
    rewrite !fmap_cons, NoDup_cons, Forall_cons, list_to_map_cons.
    destruct (m !! pair_root (tx, mats)) as [e|] eqn:Hm; [naive_solver|].
    rewrite IH. clear IH. rewrite <- insert_union_l.
    assert (Forall (fun p => <[pair_root (tx, mats):=(tx, mats)]> m !! pair_root p = None) pairs <->
      pair_root (tx, mats) ∉ pair_root <$> pairs /\ Forall (fun p => m !! pair_root p = None) pairs) as Hall.
    { rewrite !Forall_forall, list_elem_of_fmap. setoid_rewrite lookup_insert_None. naive_solver. }
    rewrite Hall. split.
    + intros (Hnd & [Hni Hf] & ->). split_and!; try done. symmetry. apply insert_union_r.
      apply not_elem_of_list_to_map_1. by rewrite <- list_fmap_compose.
    + intros ([Hni Hnd] & [_ Hf] & ->). split_and!; try done. apply insert_union_r.
      apply not_elem_of_list_to_map_1. by rewrite <- list_fmap_compose.
Qed.

Lemma shape_ok scenario :
  validate_scenario_shape scenario = Ok tt <->
  let n := length (cb_transactions (Consensus.body (ls_block scenario))) in
  length (admission_transactions scenario) = n /\ length (ls_planned_transactions scenario) = n /\
  length (transaction_authorization_materials scenario) = n.
Proof.
  unfold validate_scenario_shape. repeat case_decide; naive_solver.
Qed.

(** The revalidator looks at a transaction's payload only. *)
Lemma reference_revalidate_payload {W D} `{SignatureDispatcher W D} (self : ReferenceTransactionRevalidator)
    tx tx' pol w :
  env_payload tx = env_payload tx' -> reference_revalidate self tx pol w = reference_revalidate self tx' pol w.
Proof. intros Hp. unfold reference_revalidate. by rewrite !payload_root_total, Hp. Qed.

(** A patch of one key is always canonical. *)
Lemma single_patch_ok k v : patch_ok (mk_patch [k] [v]).
Proof. split; [done|]. repeat constructor. Qed.

End cli_lemmas.

(** ** Theorems *)

Section cli_theorems.
Context `{SHA : Sha256} {W D : Type} `{SD : SignatureDispatcher W D}.

(** End to end: when the reference runtime accepts a scenario, every admission
    transaction was admitted; every block transaction is the planned one at its
    position; the block's witnesses hash to the header's commitment and prove entries
    of the pre-state; and the reported state root, which is the header's, is the root
    of the pre-state with the planned patches applied in order, while the reported
    receipts root, also the header's, commits to the planned receipts. *)
Theorem run_accepts_sound (rt : LocalReferenceRuntime W D) sc w flow w' :
  run rt sc w = (Ok flow, w') ->
  length (admissions flow) = length (admission_transactions sc) /\
  exists acc acc',
    materialize_accumulator (ls_materialized_state sc) = Ok acc /\ root acc = ls_pre_state_root sc /\
    abs acc = list_to_map (ls_materialized_state sc) /\
    verify_witnesses acc (witnesses (Consensus.sidecar (ls_block sc))) (root acc) = Ok tt /\
    compute_execution_witnesses_root (witnesses (Consensus.sidecar (ls_block sc))) =
      execution_witnesses_root (scenario_header sc) /\
    Forall2 (fun tx p => pt_transaction_root p = envelope_root_of tx)
      (transactions (scenario_body sc)) (ls_planned_transactions sc) /\
    reachable acc' /\ abs acc' = apply_plans (ls_planned_transactions sc) (abs acc) /\
    bi_post_state_root (import_outcome flow) = root acc' /\ h_state_root (scenario_header sc) = root acc' /\
    bi_receipts_root (import_outcome flow) =
      compute_receipts_root ((fun p => receipt (pt_plan p)) <$> ls_planned_transactions sc) /\
    h_receipts_root (scenario_header sc) = bi_receipts_root (import_outcome flow).
Proof.
  unfold run. intros ([] & w0 & [Hshape <-]%lift_eq & Hrun)%bind_ok.
  apply bind_ok in Hrun as (adm & w1 & Hadm & Hrun). apply bind_ok in Hrun as (idx & w2 & [Hidx <-]%lift_eq & Hrun).
  apply bind_ok in Hrun as (io & w3 & Himp%m_map_err_ok & [Hflow _]%ret_eq). injection Hflow as <-. cbn [admissions import_outcome].
  apply shape_ok in Hshape as (Hn1 & _ & Hn3). split.
  { apply m_collect_length in Hadm. rewrite Hadm, length_zip_with. lia. }
  apply import_stages in Himp as (br & w4 & w5 & w6 & _ & _ & _ & (_ & _ & Hprep) & (eo & Heng & Hs & Hr) & ->).
  apply lift_eq in Hprep as [Hprep _]. apply lift_eq in Heng as [Heng _].
  apply reference_prepare_ok in Hprep as (Hw & acc & Hacc & Hroot & Hver).
  apply reference_engine_ok in Heng as (acc0 & acc' & Hacc0 & _ & Hf & _ & _ & Hreach & Habs & Hpost & _ & Hrr).
  rewrite Hacc in Hacc0. injection Hacc0 as <-. exists acc, acc'.
  apply materialize_accumulator_ok in Hacc as Hm. destruct Hm as (_ & _ & Hmap). cbn [bi_post_state_root bi_receipts_root].
  rewrite <- Hs, <- Hr. subst. split_and!; try done. by rewrite Hroot.
Qed.

(** A consistent scenario can only fail on signatures, revalidation or the two
    committed execution roots: for the local scenario built from a consistent
    root-check scenario, the shape check, the body binding, the sidecar binding and
    witness preparation succeed, and execution produces an outcome. *)
Theorem consistent_scenario_progress (rt : LocalReferenceRuntime W D) rsc index :
  scenario_consistent rsc ->
  let sc := from_root_check_scenario rsc in
  let services := reference_services rt sc index in
  validate_scenario_shape sc = Ok tt /\
  verify_body_binding (scenario_header sc) (scenario_body sc) = Ok tt /\
  (forall w, verify_sidecar_binding (scenario_header sc) (rh_block_root (sn_header rsc))
     (scenario_sidecar sc) services w = (Ok tt, w)) /\
  exists out, forall w,
    execution_engine services (scenario_header sc) (scenario_body sc) (scenario_sidecar sc) w = (Ok out, w).
Proof.
  intros (_ & Hwr & Hsb & Hne & (acc & Hacc & Hroot & Hver) & Hf & _) sc services.
  apply materialize_agree in Hacc; [|done].
  assert (length (sn_transactions rsc) = length (sn_steps rsc)) as Hlen by (by eapply Forall2_length).
  split_and!.
  - apply shape_ok. cbn. rewrite !length_fmap. split_and!; [done|by rewrite Hlen|done].
  - apply body_binding_ok. done.
  - intros w. apply sidecar_binding_ok. split_and!; [exact Hsb|done|].
    apply lift_eq. split; [|done]. apply reference_prepare_ok. split; [exact Hwr|]. exists acc. done.
  - destruct (reference_engine_total (sn_pre_state_root rsc) (sn_materialized_state rsc)
      (planned_of_step <$> sn_steps rsc) (scenario_header sc) (scenario_body sc) (scenario_sidecar sc) acc)
      as [out Hout]; [done|done| | |].
    + cbn. apply Forall2_fmap_r. eapply Forall2_impl; [exact Hf|]. done.
    + apply Forall_fmap, Forall_true. intros st. apply single_patch_ok.
    + exists out. intros w. apply lift_eq. split; [exact Hout|done].
Qed.

(** The admission index is exact: it is built exactly when the payload roots of the
    admission transactions are pairwise distinct, and then maps each of those roots to
    its transaction and materials and nothing else. *)
Theorem admission_index_exact txs mats index :
  build_admission_transactions_by_payload_root txs mats = Ok index <->
  NoDup (pair_root <$> zip txs mats) /\
  index = list_to_map ((fun p => (pair_root p, p)) <$> zip txs mats).
Proof.
  unfold build_admission_transactions_by_payload_root. rewrite index_loop_ok, (right_id_L ∅ (∪)).
  split; [naive_solver|]. intros [Hnd ->]. split_and!; try done. by apply Forall_true.
Qed.

(** C38: Revalidation at import does not look at the block's authorizations: the
    reference revalidator finds, by payload root, the transaction that was submitted
    for admission and verifies that one.  So for two block bodies with the same
    payloads the whole revalidation stage gives the same answer with the same calls to
    the dispatcher, whatever authorizations the block's transactions carry (forged
    ones or none included). *)
Theorem revalidation_ignores_block_authorizations (rt : LocalReferenceRuntime W D) sc index body body' pol w :
  env_payload <$> transactions body = env_payload <$> transactions body' ->
  revalidate_body_transactions body (reference_services rt sc index) pol w =
  revalidate_body_transactions body' (reference_services rt sc index) pol w.
Proof.
  unfold revalidate_body_transactions. generalize (transactions body) as l, (transactions body') as l'.
  clear. intros l. revert w. induction l as [|tx l IH]; intros w [|tx' l'] Heq; try done.
  rewrite !fmap_cons in Heq. apply cons_eq_inj in Heq as [Hp Heq]. cbn [m_for_each]. unfold bind.
  assert (forall w, revalidator (reference_services rt sc index) tx pol w =
    revalidator (reference_services rt sc index) tx' pol w) as Htx.
  { intros v. by apply (reference_revalidate_payload (scenario_revalidator rt index)). }
  unfold m_map_err. rewrite Htx. destruct (revalidator _ tx' pol w) as [[] w1]; [by apply IH|done].
Qed.

(** Gossip verdicts are total on blame: the mempool adapter answers [Accept] exactly
    when the transaction is admitted with the materials recorded for its payload root;
    any other answer is the network outcome of the admission error; and it returns an
    error only when that error has no outcome. *)
Theorem mempool_adapter_verdicts (ad : LocalReferenceNetworkMempoolAdapter (W := W) (D := D)) o e w r w' :
  mempool_adapter_validate ad o e w = (r, w') ->
  match r with
  | Ok Accept => exists mats v, ma_authorization_materials ad !! payload_root_of (env_payload e) = Some mats /\
      validate_transaction (ma_runtime ad) e mats w = (Ok v, w')
  | Ok verdict => exists mats err,
      ma_authorization_materials ad !! payload_root_of (env_payload e) = Some mats /\
      validate_transaction (ma_runtime ad) e mats w = (Err err, w') /\
      ValidationError_network_validation_outcome err = Some verdict
  | Err err => ValidationError_network_validation_outcome err = None
  end.
Proof.
  unfold mempool_adapter_validate. rewrite payload_root_total. unfold bind at 1, lift at 1.
  cbn [map_err]. unfold bind, lift. destruct (ma_authorization_materials ad !! _) as [mats|] eqn:Hm; cbn [ok_or].
  2:{ by intros [= <- <-]. }
  unfold gossip_verdict. destruct (validate_transaction (ma_runtime ad) e mats w) as [[v|err] w1] eqn:Hv.
  - intros [= <- <-]. by exists mats, v.
  - destruct (ValidationError_network_validation_outcome err) as [verdict|] eqn:Ho; intros [= <- <-]; [|done].
    destruct verdict; [|by exists mats, err..].
    exfalso. clear -Ho. by destruct err as [[]| | | | | | |].
Qed.

End cli_theorems.
