(* ===== verification/EndToEnd.v ===== *)
(** * The reference runtime, end to end

    What [LocalReferenceRuntime::run] accepts, stated without the accumulator, the
    planner or the applier it creates: the pre-state and the post-state are ledgers of
    [StateSpec], and the runtime accepts a scenario exactly when the block commits to
    what the ledgers say and the signatures verify.  The second half shows that
    scenarios resolved from the fixtures are accepted, and that what two fields of a
    network verdict report is what admission and import decided. *)

From S2P Require Import Prelude Primitives StateKeys Codec Hash Sha256 OrdMap Ssz State StateSpec.
From S2P Require Import Validation Crypto Mempool Execution Consensus Network Fixtures Cli.

Section end_to_end.
Context `{SHA : Sha256}.

(** ** The ledgers of a scenario *)

Definition nonempty {A} (l : list A) : bool := negb (bool_decide (l = [])).

(** The ledger a scenario starts from: written once if it has any entry. *)
Definition pre_ledger (sc : LocalReferenceScenario) : Ledger :=
  mk_ledger (list_to_map (ls_materialized_state sc)) (nonempty (ls_materialized_state sc)).

(** The ledger its planned transactions lead to. *)
Definition post_ledger (sc : LocalReferenceScenario) : Ledger :=
  mk_ledger (apply_plans (ls_planned_transactions sc) (entries (pre_ledger sc)))
    (nonempty (ls_materialized_state sc) || nonempty (ls_planned_transactions sc)).

Lemma represents_written acc l :
  leaves_ok (leaves acc) -> root acc = compute_reference_root (leaves acc) -> entries l = abs acc ->
  written l = true -> in_memory_represents acc l.
Proof.
  intros Hok Hr He Hw. split_and!; [done..|]. rewrite Hr, (recomputed_root _ (root acc) Hok).
  destruct l as [s b], acc as [m r]. cbn in *. by subst.
Qed.

(** The accumulator a scenario is materialized into stands for its pre-ledger. *)
Lemma materialize_represents l acc :
  materialize_accumulator l = Ok acc ->
  increasing (fst <$> l) /\ reachable acc /\
  in_memory_represents acc (mk_ledger (list_to_map l) (nonempty l)).
Proof.
  intros Hm. apply materialize_accumulator_ok in Hm as Hr. destruct Hr as (Hreach & Hinc & Habs).
  split_and!; [done..|]. apply reachable_inv in Hreach as Hinv. destruct Hinv as [Hok _].
  unfold materialize_accumulator in Hm. destruct l as [|p l]; [injection Hm as <-; by split|].
  destruct (apply_transition _ _) as [[r|e] a] eqn:Ht; [|done]. injection Hm as <-.
  apply represents_written; [done| |by symmetry|done].
  apply apply_transition_inv in Ht as [(_ & _ & ->)|(_ & _ & ? & [=] & _)]. done.
Qed.

Lemma pair_applier_root r p (w w' : ReferencePair) tr :
  applier_apply_transition r p w = (Ok tr, w') ->
  root (accumulator w'.2) = compute_reference_root (leaves (accumulator w'.2)).
Proof.
  destruct w as [ex [acc b]]. unfold applier_apply_transition, pair_applier, zoom. cbn [snd fst].
  unfold applier_apply_transition, ReferenceStateApplier_apply. cbn [borrowed accumulator].
  destruct b; [done|]. case_decide; [done|].
  destruct (apply_transition p acc) as [[r0|e] acc'] eqn:Ht; [|done]. intros [= _ <-]. cbn.
  apply apply_transition_inv in Ht as [(_ & _ & ->)|(_ & _ & ? & [=] & _)]. done.
Qed.

(** A run that applied anything left a recomputed root. *)
Lemma executes_root r (w : ReferencePair) txs outs r' w' :
  executes r w txs outs r' w' ->
  (txs = [] /\ w' = w) \/
  (txs <> [] /\ root (accumulator w'.2) = compute_reference_root (leaves (accumulator w'.2))).
Proof.
  induction 1 as [|r w tx txs plan w1 tr w2 outs r' w' _ Hap _ [[_ ->]|[_ IH]]]; [by left|right..]; [|done].
  split; [done|]. by eapply pair_applier_root.
Qed.

(** ** Preparation and execution against the ledgers *)

(** A ledger accepts a witness list. *)
Definition ledger_proves (l : Ledger) (ws : list StateWitness) : Prop :=
  increasing (sw_key <$> ws) /\
  Forall (fun w => sw_proof w = [] /\ entries l !! sw_key w = Some (sw_leaf_value w)) ws.

Lemma represents_verify acc l ws :
  in_memory_represents acc l -> verify_witnesses acc ws (root acc) = Ok tt <-> ledger_proves l ws.
Proof.
  intros (Hok & He & Hr). unfold verify_witnesses, ledger_proves.
  rewrite then_ok, witness_order_ok, for_each_ok. apply and_iff_compat_l, Forall_proper; [|done].
  intros w. rewrite verify_witness_spec, verify_spec_ok, He by done. naive_solver.
Qed.

(** The scenario's own part of what the runtime checks: the pre-state root is the
    pre-ledger's, the block's transactions are the planned ones in order, and every
    planned patch is well formed. *)
Definition plan_valid (sc : LocalReferenceScenario) : Prop :=
  increasing (fst <$> ls_materialized_state sc) /\
  ledger_root (pre_ledger sc) = ls_pre_state_root sc /\
  Forall2 (fun tx p => pt_transaction_root p = envelope_root_of tx)
    (cb_transactions (Consensus.body (ls_block sc))) (ls_planned_transactions sc) /\
  Forall (fun p => patch_ok (state_patch (pt_plan p))) (ls_planned_transactions sc).

Definition scenario_witnesses (sc : LocalReferenceScenario) : list StateWitness :=
  witnesses (Consensus.sidecar (ls_block sc)).

Lemma materialize_pre_ledger sc :
  increasing (fst <$> ls_materialized_state sc) ->
  exists acc, materialize_accumulator (ls_materialized_state sc) = Ok acc /\ reachable acc /\
    in_memory_represents acc (pre_ledger sc) /\ root acc = ledger_root (pre_ledger sc).
Proof.
  intros [acc Hacc]%materialize_accumulator_total. exists acc. split; [done|].
  apply materialize_represents in Hacc as (_ & Hreach & Hrep). split_and!; [done..|apply Hrep].
Qed.

Lemma prepare_ledger sc h s :
  plan_valid sc ->
  reference_prepare_witness (scenario_preparer sc) h s = Ok tt <->
  compute_execution_witnesses_root (scenario_witnesses sc) = execution_witnesses_root h /\
  ledger_proves (pre_ledger sc) (scenario_witnesses sc).
Proof.
  intros (Hinc & Hroot & _). destruct (materialize_pre_ledger sc Hinc) as (acc & Hacc & _ & Hrep & Hr).
  unfold scenario_preparer. rewrite reference_prepare_ok. apply and_iff_compat_l. rewrite <- (represents_verify acc) by done.
  rewrite <- Hroot, <- Hr, Hacc. naive_solver.
Qed.

Lemma engine_ledger sc h s out :
  reference_execute_block (scenario_engine sc) h (scenario_body sc) s = Ok out ->
  plan_valid sc /\ be_post_state_root out = ledger_root (post_ledger sc) /\
  be_receipts_root out =
    compute_receipts_root ((fun p => receipt (pt_plan p)) <$> ls_planned_transactions sc).
Proof.
  intros (acc & acc' & Hacc & Hroot & Hf & Hp & Hex & Hreach & Habs & Hpost & _ & Hrr)%reference_engine_ok.
  apply materialize_represents in Hacc as (Hinc & _ & Hrep).
  split; [split_and!; try done; rewrite <- Hroot; symmetry; apply Hrep|]. split; [|done].
  rewrite Hpost. change (transactions (scenario_body sc)) with (cb_transactions (Consensus.body (ls_block sc))) in *.
  unfold post_ledger. destruct (executes_root _ _ _ _ _ _ Hex) as [[Hnil Heq]|[Hne Hcr]].
  - rewrite Hnil in Hf. inversion Hf as [Hn|]. injection Heq as _ ->. cbn.
    rewrite orb_false_r. apply Hrep.
  - apply reachable_inv in Hreach as [Hok _].
    assert (in_memory_represents acc' (mk_ledger (abs acc') true)) as (_ & _ & ->) by by apply represents_written.
    rewrite Habs. destruct Hrep as (_ & <- & _). do 2 f_equal.
    inversion Hf as [|? ? ? ? ? ? Ht Hpl]; [congruence|]. by rewrite orb_true_r.
Qed.

Lemma engine_total sc h s :
  plan_valid sc ->
  exists out, reference_execute_block (scenario_engine sc) h (scenario_body sc) s = Ok out.
Proof.
  intros (Hinc & Hroot & Hf & Hp). destruct (materialize_pre_ledger sc Hinc) as (acc & Hacc & _ & _ & Hr).
  eapply reference_engine_total; [exact Hacc|congruence|done..].
Qed.

(** ** The runtime *)

Section runtime_world.
Context {W D : Type} `{SD : SignatureDispatcher W D}.

(** The transactions submitted for admission, each with its key materials. *)
Definition submissions (sc : LocalReferenceScenario) :
    list (TransactionEnvelope * list OwnedAuthorizationMaterial) :=
  zip (admission_transactions sc) (transaction_authorization_materials sc).

Definition submission_index (sc : LocalReferenceScenario) : AdmissionIndex :=
  list_to_map ((fun p => (pair_root p, p)) <$> submissions sc).

Definition scenario_services (rt : LocalReferenceRuntime W D) (sc : LocalReferenceScenario)
    : BlockImportServices W D := reference_services rt sc (submission_index sc).

(** The block commits to its parts and to the ledger its plan leads to. *)
Definition commitments_hold (rt : LocalReferenceRuntime W D) (sc : LocalReferenceScenario) : Prop :=
  let h := Consensus.header (ls_block sc) in
  let s := Consensus.sidecar (ls_block sc) in
  (forall m, max_witness_bytes (header_prefilter (import_config rt)) = Some m ->
     (uval (ch_witness_bytes h) <= uval m)%N) /\
  cb_transactions_root (Consensus.body (ls_block sc)) = ch_transactions_root h /\
  cs_block_root s = ch_block_root h /\
  cs_execution_witnesses_root s = ch_execution_witnesses_root h /\
  compute_execution_witnesses_root (witnesses s) = ch_execution_witnesses_root h /\
  ledger_proves (pre_ledger sc) (witnesses s) /\
  ch_state_root h = ledger_root (post_ledger sc) /\
  ch_receipts_root h =
    compute_receipts_root ((fun p => receipt (pt_plan p)) <$> ls_planned_transactions sc).

Definition scenario_outcome (sc : LocalReferenceScenario) : BlockImportOutcome :=
  let h := Consensus.header (ls_block sc) in
  mk_import_outcome (ch_block_root h) (ch_state_root h) (ch_receipts_root h).

Lemma index_ok sc index :
  build_admission_transactions_by_payload_root (admission_transactions sc)
    (transaction_authorization_materials sc) = Ok index <->
  NoDup (pair_root <$> submissions sc) /\ index = submission_index sc.
Proof.
  unfold build_admission_transactions_by_payload_root. rewrite index_loop_ok, (right_id_L ∅ (∪)).
  split; [naive_solver|]. intros [Hnd ->]. split_and!; try done. by apply Forall_true.
Qed.

(** Import of the scenario's block. *)
Lemma scenario_import_ok rt sc w io w' :
  validate_block_against_reference rt sc (scenario_header sc) (scenario_body sc) (scenario_sidecar sc)
    (submission_index sc) w = (Ok io, w') <->
  exists w1,
    plan_valid sc /\ commitments_hold rt sc /\ io = scenario_outcome sc /\
    signature_ok (scenario_header sc) (ch_block_root (Consensus.header (ls_block sc)))
      (scenario_services rt sc) w w1 /\
    runs (revalidation_step (scenario_services rt sc)
            (bc_multi_authorization_policy (import_config rt)))
      (cb_transactions (Consensus.body (ls_block sc))) w1 w'.
Proof.
  unfold validate_block_against_reference. fold (scenario_services rt sc). rewrite import_stages. split.
  - intros (br & w1 & w2 & w3 & (Hr & Hlim & Hb) & Hsig & Hrev & (Hs1 & Hs2 & Hprep) & (out & Hex & Hst & Hrr) & ->).
    injection Hr as <-. injection Hb as Hb. apply lift_eq in Hprep as [Hprep <-], Hex as [Hex <-].
    apply engine_ledger in Hex as (Hv & Hpost & Hrec).
    apply (prepare_ledger sc) in Hprep as [Hwr Hlp]; [|done].
    exists w1. split_and!; try done.
    split_and!; try done; [by rewrite <- Hpost|by rewrite <- Hrec].
  - intros (w1 & Hv & (Hlim & Hb & Hs1 & Hs2 & Hwr & Hlp & Hst & Hrr) & -> & Hsig & Hrev).
    eexists _, w1, w', w'. split_and!; [split_and!; [done|done|by apply (f_equal Ok)]|done|done| | |done].
    + split_and!; [done|done|]. apply lift_eq. split; [|done]. by apply (prepare_ledger sc).
    + destruct (engine_total sc (scenario_header sc) (scenario_sidecar sc) Hv) as [out Hout].
      apply engine_ledger in Hout as Ho. destruct Ho as (_ & Hpost & Hrec).
      exists out. split_and!; [by apply lift_eq|by rewrite Hpost|by rewrite Hrec].
Qed.

Lemma run_ok (rt : LocalReferenceRuntime W D) sc w flow w' :
  run rt sc w = (Ok flow, w') <->
  exists w1 w2,
    (let n := length (cb_transactions (Consensus.body (ls_block sc))) in
     length (admission_transactions sc) = n /\ length (ls_planned_transactions sc) = n /\
     length (transaction_authorization_materials sc) = n) /\
    admit_transactions rt sc w = (Ok (admissions flow), w1) /\
    NoDup (pair_root <$> submissions sc) /\
    plan_valid sc /\ commitments_hold rt sc /\ import_outcome flow = scenario_outcome sc /\
    signature_ok (scenario_header sc) (ch_block_root (Consensus.header (ls_block sc)))
      (scenario_services rt sc) w1 w2 /\
    runs (revalidation_step (scenario_services rt sc) (bc_multi_authorization_policy (import_config rt)))
      (cb_transactions (Consensus.body (ls_block sc))) w2 w'.
Proof.
  unfold run. split.
  - intros ([] & w0 & [Hshape <-]%lift_eq & Hrun)%bind_ok.
    apply bind_ok in Hrun as (adm & w1 & Hadm & Hrun). apply bind_ok in Hrun as (idx & ? & [Hidx <-]%lift_eq & Hrun).
    apply bind_ok in Hrun as (io & w3 & Himp%m_map_err_ok & [Hflow <-]%ret_eq). injection Hflow as <-.
    apply index_ok in Hidx as [Hnd ->]. apply scenario_import_ok in Himp as (w2 & Hrest).
    apply shape_ok in Hshape. exists w1, w2. naive_solver.
  - intros (w1 & w2 & Hshape & Hadm & Hnd & Hv & Hc & Ho & Hsig & Hrev).
    apply bind_ok. exists tt, w. split; [apply lift_eq; split; [by apply shape_ok|done]|].
    apply bind_ok. exists (admissions flow), w1. split; [done|].
    apply bind_ok. exists (submission_index sc), w1. split; [apply lift_eq; split; [by apply index_ok|done]|].
    apply bind_ok. exists (import_outcome flow), w'.
    split; [apply m_map_err_ok, scenario_import_ok; by exists w2|]. by destruct flow.
Qed.

(** ** The consensus adapter *)

Lemma adapter_new_ok (rt : LocalReferenceRuntime W D) sc ad :
  consensus_adapter_try_new rt sc = Ok ad <->
  (let n := length (cb_transactions (Consensus.body (ls_block sc))) in
   length (admission_transactions sc) = n /\ length (ls_planned_transactions sc) = n /\
   length (transaction_authorization_materials sc) = n) /\
  NoDup (pair_root <$> submissions sc) /\
  ad = mk_local_consensus_adapter rt sc (submission_index sc).
Proof.
  unfold consensus_adapter_try_new. rewrite then_ok, shape_ok, bind_result_ok.
  setoid_rewrite index_ok. naive_solver.
Qed.

(** No error is an acceptance. *)
Lemma consensus_error_not_accept e : ConsensusError_network_validation_outcome e <> Some Accept.
Proof.
  destruct e as [[]| |c|v| | |[]| | | |]; try done; cbn.
  - destruct c as [|x|]; try done. cbn. by destruct (se_path x), (se_kind x).
  - by destruct v as [[]| | | | | | |].
Qed.

Lemma consensus_accept_iff (ad : LocalReferenceNetworkConsensusAdapter (W := W) (D := D)) o h b s w w' :
  consensus_adapter_validate ad o h b s w = (Ok Accept, w') <->
  exists out, validate_block_against_reference (ca_runtime ad) (ca_scenario ad) h b s
    (ca_admission_transactions ad) w = (Ok out, w').
Proof.
  unfold consensus_adapter_validate, gossip_verdict.
  destruct (validate_block_against_reference _ _ _ _ _ _ w) as [[out|e] w1]; [naive_solver|].
  split; [|naive_solver]. pose proof (consensus_error_not_accept e) as He.
  destruct (ConsensusError_network_validation_outcome e) as [v|]; [|done]. intros [= -> ->]. done.
Qed.

(** ** Scenarios resolved from the fixtures *)

(** The authorization the runtime synthesizes for an unsigned fixture transaction,
    and the request the dispatcher gets for it. *)
Definition synthetic_request (rt : LocalReferenceRuntime W D) (tx : TransactionEnvelope)
    : SignatureVerificationRequest :=
  mk_request (replicate 32 Byte.x00)
    (signing_root_of (mk_signing_data (payload_root_of (env_payload tx))
       (policy_domain (authorization_domain (admission_policy rt)))))
    (replicate 64 Byte.xa5).

(** What a runtime must bring to accept a fixture transaction. *)
Definition admits (rt : LocalReferenceRuntime W D) (tx : TransactionEnvelope) : Prop :=
  fees_cover (admission_policy rt) tx /\
  (forall view, admission_state_view rt = Some view ->
     nonce_in_window (admission_policy rt) (synthesize_reference_admission_transaction tx) (Some view)) /\
  forall w, exists w', verify_transaction_authorization (rt_dispatcher rt) Byte.x00
    (synthetic_request rt tx) w = (Ok tt, w').

Lemma synthesized_admitted rt tx w :
  authorizations tx = [] -> admits rt tx ->
  exists v w', validate_transaction rt (synthesize_reference_admission_transaction tx) (materials_for tx) w = (Ok v, w').
Proof.
  intros Hauth (Hfee & Hnonce & Hver). destruct (Hver w) as [w' Hw'].
  eexists _, w'. unfold validate_transaction. apply admit_ok. split_and!; [| | |reflexivity].
  - destruct (screen_transaction _ _ _) eqn:Hs; [done|]. exfalso.
    assert (exists acc, screen_transaction (admission_policy rt) (synthesize_reference_admission_transaction tx)
      (admission_state_view rt) = Ok acc) as [acc Hacc]; [|cbn in Hs; congruence].
    eexists. apply screen_ok. split_and!; [| | |reflexivity].
    + unfold closed_rules, synthesize_reference_admission_transaction. rewrite Hauth. cbn.
      split_and!; [done|by repeat constructor..].
    + destruct tx as [pl auths]. cbn in *. by subst auths.
    + destruct (admission_state_view rt) as [view|]; [by apply Hnonce|]. by intros ? ? [=].
  - unfold materials_for, synthesize_reference_admission_transaction. by rewrite Hauth.
  - unfold materials_for, synthesize_reference_admission_transaction. rewrite Hauth. cbn.
    econstructor; [|constructor]. apply m_map_err_ok. exact Hw'.
Qed.

Lemma fixture_submissions rsc :
  submissions (from_root_check_scenario rsc) =
  (fun tx => (synthesize_reference_admission_transaction tx, materials_for tx)) <$> sn_transactions rsc.
Proof.
  unfold submissions. cbn. generalize (sn_transactions rsc). intros l.
  induction l as [|tx l IH]; [done|]. cbn. by rewrite IH.
Qed.

Lemma synthesized_pair_root tx ms :
  pair_root (synthesize_reference_admission_transaction tx, ms) = payload_root_of (env_payload tx).
Proof. unfold pair_root, synthesize_reference_admission_transaction. cbn. by destruct (authorizations tx). Qed.

Lemma fixture_roots rsc :
  pair_root <$> submissions (from_root_check_scenario rsc) =
  (fun tx => payload_root_of (env_payload tx)) <$> sn_transactions rsc.
Proof.
  rewrite fixture_submissions, <- list_fmap_compose. apply list_fmap_ext.
  intros i x _. apply synthesized_pair_root.
Qed.

(** A fixture transaction in the block finds its own submission. *)
Lemma fixture_index rsc tx :
  NoDup ((fun tx => payload_root_of (env_payload tx)) <$> sn_transactions rsc) -> tx ∈ sn_transactions rsc ->
  submission_index (from_root_check_scenario rsc) !! payload_root_of (env_payload tx) =
    Some (synthesize_reference_admission_transaction tx, materials_for tx).
Proof.
  intros Hnd Hin. unfold submission_index. apply elem_of_list_to_map_1.
  - rewrite <- list_fmap_compose. change (compose fst _) with pair_root. by rewrite fixture_roots.
  - rewrite fixture_submissions, <- list_fmap_compose. apply list_elem_of_fmap. exists tx.
    split; [|done]. cbn. by rewrite synthesized_pair_root.
Qed.

Lemma fixture_revalidates rt rsc tx policy w :
  NoDup ((fun tx => payload_root_of (env_payload tx)) <$> sn_transactions rsc) -> tx ∈ sn_transactions rsc ->
  authorizations tx = [] -> admits rt tx ->
  exists w', revalidation_step (scenario_services rt (from_root_check_scenario rsc)) policy tx w = (Ok tt, w').
Proof.
  intros Hnd Hin Hauth Hadm. pose proof (fixture_index rsc tx Hnd Hin) as Hidx.
  destruct (synthesized_admitted rt tx w Hauth Hadm) as (v & w' & Hv). exists w'.
  apply m_map_err_ok. change (reference_revalidate (scenario_revalidator rt (submission_index (from_root_check_scenario rsc))) tx policy w = (Ok tt, w')).
  unfold reference_revalidate. rewrite payload_root_total.
  apply bind_ok. exists (payload_root_of (env_payload tx)), w. split; [done|].
  apply bind_ok. eexists (_, _), w. split; [apply lift_eq; cbn [rv_admission_transactions scenario_revalidator]; by rewrite Hidx|].
  apply bind_ok. by exists v, w'.
Qed.

(** The plan and the commitments of a consistent scenario. *)
Lemma consistent_plan_valid rsc : scenario_consistent rsc -> plan_valid (from_root_check_scenario rsc).
Proof.
  intros (_ & _ & _ & Hne & (acc & Hacc & Hroot & _) & Hf & _). apply materialize_agree in Hacc; [|done].
  apply materialize_represents in Hacc as (Hinc & _ & Hrep). split_and!; [done| | |].
  - change (ls_pre_state_root (from_root_check_scenario rsc)) with (sn_pre_state_root rsc).
    rewrite <- Hroot. symmetry. apply Hrep.
  - cbn. apply Forall2_fmap_r. eapply Forall2_impl; [exact Hf|]. done.
  - apply Forall_fmap, Forall_true. intros st. apply single_patch_ok.
Qed.

Lemma consistent_witnesses rsc :
  scenario_consistent rsc -> ledger_proves (pre_ledger (from_root_check_scenario rsc)) (sn_witnesses rsc).
Proof.
  intros (_ & _ & _ & Hne & (acc & Hacc & Hroot & Hver) & _). apply materialize_agree in Hacc; [|done].
  apply materialize_represents in Hacc as (_ & _ & Hrep). rewrite <- Hroot in Hver.
  by apply (represents_verify acc).
Qed.

End runtime_world.

End end_to_end.

(** ** Theorems *)

Section end_to_end_theorems.
Context `{SHA : Sha256} {W D : Type} `{SD : SignatureDispatcher W D}.

(** C1: What the reference runtime accepts, end to end and exactly: the scenario has as
    many submissions and plans as block transactions; every submission is admitted in
    order, starting from the caller's world; submitted payload roots are distinct; the
    block's transactions are the planned ones and the pre-state root is that of the
    ledger of materialized entries; the block commits to its body, its sidecar, its
    witnesses, and to the state and receipts roots of the ledger with the planned
    patches applied in order; its witnesses are entries of the pre-state; the
    proposer's signature verifies; and every block transaction revalidates.  The
    outcome reports the admissions and the header's own roots.  The accumulator, the
    planner and the applier do not appear: they implement the ledgers. *)
Theorem run_accepts_iff (rt : LocalReferenceRuntime W D) sc w flow w' :
  run rt sc w = (Ok flow, w') <->
  exists w1 w2,
    (let n := length (cb_transactions (Consensus.body (ls_block sc))) in
     length (admission_transactions sc) = n /\ length (ls_planned_transactions sc) = n /\
     length (transaction_authorization_materials sc) = n) /\
    admit_transactions rt sc w = (Ok (admissions flow), w1) /\
    NoDup (pair_root <$> submissions sc) /\
    plan_valid sc /\ commitments_hold rt sc /\ import_outcome flow = scenario_outcome sc /\
    signature_ok (scenario_header sc) (ch_block_root (Consensus.header (ls_block sc)))
      (scenario_services rt sc) w1 w2 /\
    runs (revalidation_step (scenario_services rt sc) (bc_multi_authorization_policy (import_config rt)))
      (cb_transactions (Consensus.body (ls_block sc))) w2 w'.
Proof. apply run_ok. Qed.

(** C11: Fixture scenarios are accepted: for a scenario whose fixtures are consistent
    (as every scenario [resolve_root_check_scenario] returns is) and whose transactions
    have distinct payload roots, a runtime that admits each transaction, resolves and
    verifies the proposer, and whose witness byte limit covers the header, accepts the
    scenario from every world, provided only that the header commits to the state and
    receipts roots of the planned ledger.  The outcome reports the header's roots and
    one admission per transaction. *)
Theorem consistent_scenario_accepted (rt : LocalReferenceRuntime W D) rsc w :
  let sc := from_root_check_scenario rsc in
  let h := sn_header rsc in
  scenario_consistent rsc ->
  NoDup ((fun tx => payload_root_of (env_payload tx)) <$> sn_transactions rsc) ->
  Forall (admits rt) (sn_transactions rsc) ->
  (forall w, exists w', signature_ok (scenario_header sc) (rh_block_root h) (scenario_services rt sc) w w') ->
  (forall m, max_witness_bytes (header_prefilter (import_config rt)) = Some m ->
     (uval (rh_witness_bytes h) <= uval m)%N) ->
  rh_state_root h = ledger_root (post_ledger sc) ->
  rh_receipts_root h = compute_receipts_root ((fun p => receipt (pt_plan p)) <$> ls_planned_transactions sc) ->
  exists flow w', run rt sc w = (Ok flow, w') /\ import_outcome flow = scenario_outcome sc /\
    length (admissions flow) = length (sn_transactions rsc).
Proof.
  intros sc h Hc Hnd Hadm Hsig Hlim Hst Hrr. pose proof Hc as (_ & Hwr & Hsb & _ & _ & Hf & Hauth).
  rewrite Forall_forall in Hadm, Hauth.
  destruct (m_collect_total (fun '(tx, ms) => m_map_err Admission (validate_transaction rt tx ms))
    (submissions sc)) with (w := w) as (adm & w1 & Hadm1).
  { intros x v Hx. unfold sc in Hx. rewrite fixture_submissions in Hx. apply list_elem_of_fmap in Hx as (tx & -> & Hin).
    destruct (synthesized_admitted rt tx v) as (y & v' & Hy); [by apply Hauth|by apply Hadm|].
    exists y, v'. by apply m_map_err_ok. }
  destruct (Hsig w1) as [w2 Hsig2].
  destruct (runs_total (revalidation_step (scenario_services rt sc) (bc_multi_authorization_policy (import_config rt)))
    (sn_transactions rsc)) with (w := w2) as [w3 Hrev].
  { intros tx v Hin. apply fixture_revalidates; [done|done|by apply Hauth|by apply Hadm]. }
  exists (mk_flow_outcome adm (scenario_outcome sc)), w3. split_and!; [|done|].
  - apply run_ok. exists w1, w2. split; [|split; [exact Hadm1|]].
    { apply Forall2_length in Hf. cbn. rewrite !length_fmap. by rewrite Hf. }
    split; [unfold sc; by rewrite fixture_roots|]. split; [by apply consistent_plan_valid|].
    split; [|done]. split_and!; try done; by apply consistent_witnesses.
  - apply m_collect_length in Hadm1. rewrite <- (length_fmap (fun tx =>
      (synthesize_reference_admission_transaction tx, materials_for tx))), <- fixture_submissions. exact Hadm1.
Qed.

(** C22: Running a scenario is admitting it and then gossiping it: the runtime accepts a
    scenario exactly when the gossip adapter can be built for it, every submission is
    admitted, and the adapter, in the world admission left, answers [Accept] for the
    scenario's own block, whatever peer it is said to come from. *)
Theorem run_is_admission_then_gossip (rt : LocalReferenceRuntime W D) sc origin w flow w' :
  run rt sc w = (Ok flow, w') <->
  exists ad w1,
    consensus_adapter_try_new rt sc = Ok ad /\
    admit_transactions rt sc w = (Ok (admissions flow), w1) /\
    consensus_adapter_validate ad origin (scenario_header sc) (scenario_body sc) (scenario_sidecar sc) w1
      = (Ok Accept, w') /\
    import_outcome flow = scenario_outcome sc.
Proof.
  rewrite run_ok. split.
  - intros (w1 & w2 & Hshape & Hadm & Hnd & Hrest). exists (mk_local_consensus_adapter rt sc (submission_index sc)), w1.
    split; [by apply adapter_new_ok|]. split; [done|]. split; [|apply Hrest].
    apply consensus_accept_iff. exists (scenario_outcome sc). apply scenario_import_ok. exists w2. naive_solver.
  - intros (ad & w1 & (Hshape & Hnd & ->)%adapter_new_ok & Hadm & (io & Himp)%consensus_accept_iff & Ho).
    apply scenario_import_ok in Himp as (w2 & Hrest). exists w1, w2. naive_solver.
Qed.

End end_to_end_theorems.
