(* ===== verification/Commitments.v ===== *)
(** * What an accepted header commits to

    Two questions about a header the reference runtime has accepted.  It binds the
    witnesses, the post-state and the receipts: two accepted scenarios whose headers
    agree on those three roots agree on what the roots stand for.  It does not bind the
    envelopes of the block body: the transactions root of a canonical body is a stored
    field, and the authorizations of the block's transactions are not looked at. *)

From S2P Require Import Prelude Primitives StateKeys Codec Hash Sha256 OrdMap Ssz State StateSpec.
From S2P Require Import Validation Crypto Mempool Execution Consensus Network Fixtures Cli EndToEnd.

(** ** Ledger roots *)

Section ledger_roots.
Context `{SHA : Sha256}.

Definition entry_preimage (p : StateKey * list byte) : list byte :=
  leaf_preimage (encode_state_key p.1) (mk_leaf p.1 p.2).

Definition ledger_preimage (l : Ledger) : list byte :=
  ROOT_PREFIX ++ concat ((fun p => elems (entry_digest p)) <$> sorted_entries (entries l)).

Definition ledger_queries (l : Ledger) : list (list byte) :=
  ledger_preimage l :: (entry_preimage <$> sorted_entries (entries l)).

Lemma sorted_entries_perm (s : AbstractState) : sorted_entries s ≡ₚ map_to_list s.
Proof.
  unfold sorted_entries. rewrite merge_sort_Permutation, <- list_fmap_compose.
  rewrite <- (list_fmap_id (map_to_list s)) at 2. apply reflexive_eq, list_fmap_ext.
  intros i [k v] Hi%list_elem_of_lookup_2. apply elem_of_map_to_list in Hi. cbn. by rewrite Hi.
Qed.

Lemma sorted_entries_inj (s s' : AbstractState) : sorted_entries s = sorted_entries s' -> s = s'.
Proof. intros Heq. apply map_to_list_inj. by rewrite <- !sorted_entries_perm, Heq. Qed.

Lemma entry_digests_inj Q (l l' : list (StateKey * list byte)) :
  collision_free Q -> entry_preimage <$> l ⊆ Q -> entry_preimage <$> l' ⊆ Q ->
  concat ((fun p => elems (entry_digest p)) <$> l) = concat ((fun p => elems (entry_digest p)) <$> l') -> l = l'.
Proof.
  intros HQ. revert l'. induction l as [|[k v] l IH]; intros [|[k' v'] l'] Hq Hq' Heq; [done|..].
  - apply (f_equal length) in Heq. simpl in Heq. rewrite length_app, elems_length in Heq. lia.
  - apply (f_equal length) in Heq. simpl in Heq. rewrite length_app, elems_length in Heq. lia.
  - rewrite !fmap_cons in *. cbn [concat] in Heq. apply array_app_inj in Heq as [Hd Heq].
    apply queries_cons in Hq as [Ha Hq], Hq' as [Hb Hq'].
    apply HQ, leaf_preimage_inj in Hd as [Hk Hv]; [|done..]. cbn in Hk, Hv. subst. f_equal. by apply IH.
Qed.

(** Equal roots of written ledgers come from equal entries. *)
Lemma ledger_root_inj Q l l' :
  collision_free Q -> ledger_queries l ⊆ Q -> ledger_queries l' ⊆ Q ->
  written l = true -> written l' = true -> ledger_root l = ledger_root l' -> entries l = entries l'.
Proof.
  intros HQ [Hp Hq]%queries_cons [Hp' Hq']%queries_cons Hw Hw'. unfold ledger_root. rewrite Hw, Hw'.
  intros Heq%HQ; [|done..]. apply app_inv_head in Heq. apply sorted_entries_inj. by eapply entry_digests_inj.
Qed.

End ledger_roots.

(** ** What the commitments of a scenario hash *)

Section scenarios.
Context `{SHA : Sha256}.

Definition planned_receipts (sc : LocalReferenceScenario) : list ExecutionReceipt :=
  (fun p => receipt (pt_plan p)) <$> ls_planned_transactions sc.

Definition scenario_queries (sc : LocalReferenceScenario) : list (list byte) :=
  witnesses_preimage (scenario_witnesses sc) ::
  ledger_queries (pre_ledger sc) ++ ledger_queries (post_ledger sc) ++ receipts_queries (planned_receipts sc).

(** The lengths in a witness list are those of values in memory. *)
Definition witnesses_fit (ws : list StateWitness) : Prop :=
  Forall witness_fits ws /\ (len ws < usize_limit)%N.

(** The commitments of a header, as [import_block] compares them. *)
Definition same_commitments (h h' : CanonicalBlockHeader) : Prop :=
  ch_execution_witnesses_root h = ch_execution_witnesses_root h' /\
  ch_state_root h = ch_state_root h' /\ ch_receipts_root h = ch_receipts_root h'.

(** A scenario with a non-empty pre-state has written ledgers. *)
Lemma materialized_written sc :
  ls_materialized_state sc <> [] -> written (pre_ledger sc) = true /\ written (post_ledger sc) = true.
Proof. intros Hne. unfold post_ledger, pre_ledger, nonempty. cbn. by rewrite bool_decide_eq_false_2. Qed.

Lemma receipts_root_inj Q rs rs' :
  collision_free Q -> receipts_queries rs ⊆ Q -> receipts_queries rs' ⊆ Q ->
  compute_receipts_root rs = compute_receipts_root rs' -> rs = rs'.
Proof.
  intros HQ Hq Hq' Heq. pose proof Hq as [Hp _]%queries_cons. pose proof Hq' as [Hp' _]%queries_cons.
  apply HQ in Heq; [|done..]. by eapply receipts_preimage_inj.
Qed.

Lemma witnesses_root_inj Q ws ws' :
  collision_free Q -> witnesses_fit ws -> witnesses_fit ws' ->
  witnesses_preimage ws ∈ Q -> witnesses_preimage ws' ∈ Q ->
  compute_execution_witnesses_root ws = compute_execution_witnesses_root ws' -> ws = ws'.
Proof. intros HQ [Hf Hl] [Hf' Hl'] Hp Hp' Heq%HQ; [|done..]. by apply witnesses_preimage_inj. Qed.

(** The block of a scenario with other envelopes, and the plan naming their roots. *)
Definition with_envelopes (sc : LocalReferenceScenario) (txs : list TransactionEnvelope)
    : LocalReferenceScenario :=
  mk_local_scenario
    (mk_block (Consensus.header (ls_block sc))
       (mk_canonical_body txs (cb_transactions_root (Consensus.body (ls_block sc))))
       (Consensus.sidecar (ls_block sc)))
    (admission_transactions sc) (ls_pre_state_root sc) (ls_materialized_state sc)
    (zip_with (fun tx p => mk_planned (envelope_root_of tx) (pt_plan p)) txs (ls_planned_transactions sc))
    (transaction_authorization_materials sc).

Lemma rerooted_plans (txs : list TransactionEnvelope) plans :
  length txs = length plans ->
  pt_plan <$> zip_with (fun tx p => mk_planned (envelope_root_of tx) (pt_plan p)) txs plans = pt_plan <$> plans /\
  Forall2 (fun tx p => pt_transaction_root p = envelope_root_of tx) txs
    (zip_with (fun tx p => mk_planned (envelope_root_of tx) (pt_plan p)) txs plans).
Proof.
  revert plans. induction txs as [|tx txs IH]; intros [|p plans] Hl; try done.
  cbn in *. injection Hl as Hl. destruct (IH plans Hl) as [Hp Hf]. split; [by f_equal|by constructor].
Qed.

(** State patches and receipts are those of the plans. *)
Lemma apply_plans_plans plans plans' s :
  pt_plan <$> plans = pt_plan <$> plans' -> apply_plans plans s = apply_plans plans' s.
Proof.
  revert plans' s. induction plans as [|p plans IH]; intros [|p' plans'] s Heq; try done.
  rewrite !fmap_cons in Heq. apply cons_eq_inj in Heq as [Hp Heq]. unfold apply_plans in *. cbn.
  rewrite Hp. by apply IH.
Qed.

End scenarios.

(** ** Theorems *)

Section commitment_theorems.
Context `{SHA : Sha256}.

(** C6: An accepted header binds what was executed: take two scenarios, each accepted by
    some runtime in some world, with non-empty pre-states, whose headers agree on the
    execution-witnesses, state and receipts roots.  If SHA-256 has no collision among
    the strings hashed for the two, the scenarios carry the same witnesses, lead to the
    same post-state and report the same receipts in the same order; and if they name
    the same pre-state root, they start from the same pre-state. *)
Theorem accepted_header_binds_execution {W D W' D'} `{SignatureDispatcher W D, SignatureDispatcher W' D'}
    (rt : LocalReferenceRuntime W D) (rt' : LocalReferenceRuntime W' D') sc sc' w w' flow flow' v v' :
  run rt sc w = (Ok flow, v) -> run rt' sc' w' = (Ok flow', v') ->
  same_commitments (Consensus.header (ls_block sc)) (Consensus.header (ls_block sc')) ->
  ls_materialized_state sc <> [] -> ls_materialized_state sc' <> [] ->
  witnesses_fit (scenario_witnesses sc) -> witnesses_fit (scenario_witnesses sc') ->
  collision_free (scenario_queries sc ++ scenario_queries sc') ->
  scenario_witnesses sc = scenario_witnesses sc' /\
  entries (post_ledger sc) = entries (post_ledger sc') /\
  planned_receipts sc = planned_receipts sc' /\
  (ls_pre_state_root sc = ls_pre_state_root sc' -> entries (pre_ledger sc) = entries (pre_ledger sc')).
Proof.
  intros (? & ? & _ & _ & _ & Hv & Hc & _)%run_ok (? & ? & _ & _ & _ & Hv' & Hc' & _)%run_ok
    (Hw & Hs & Hr) Hne Hne' Hf Hf' HQ.
  destruct Hc as (_ & _ & _ & _ & Hcw & _ & Hcs & Hcr), Hc' as (_ & _ & _ & _ & Hcw' & _ & Hcs' & Hcr').
  destruct Hv as (_ & Hpre & _), Hv' as (_ & Hpre' & _).
  destruct (materialized_written sc Hne) as [Hw1 Hw2], (materialized_written sc' Hne') as [Hw1' Hw2'].
  pose proof (queries_l (scenario_queries sc) (scenario_queries sc')) as Hq.
  pose proof (queries_r (scenario_queries sc) (scenario_queries sc')) as Hq'.
  revert HQ Hq Hq'. generalize (scenario_queries sc ++ scenario_queries sc') as Q. intros Q HQ.
  unfold scenario_queries. autorewrite with queries. intros (Hqw & Hqp & Hqs & Hqr) (Hqw' & Hqp' & Hqs' & Hqr').
  split_and!.
  - eapply (witnesses_root_inj Q); [done..|]. unfold scenario_witnesses. congruence.
  - eapply (ledger_root_inj Q); try done. congruence.
  - eapply (receipts_root_inj Q); try done. unfold planned_receipts. congruence.
  - intros Heq. eapply (ledger_root_inj Q); try done. congruence.
Qed.

(** C39: An accepted header does not bind the envelopes of its block: in a scenario the
    runtime accepts, the block's transactions can be replaced by any others with the
    same payloads, whatever authorizations they carry, with the header, its
    transactions root included, and everything else but the plan's transaction roots
    unchanged, and the runtime still accepts, with the same outcome and the same calls. *)
Theorem accepted_block_envelopes_replaceable {W D} `{SignatureDispatcher W D}
    (rt : LocalReferenceRuntime W D) sc txs w flow w' :
  env_payload <$> txs = env_payload <$> cb_transactions (Consensus.body (ls_block sc)) ->
  run rt sc w = (Ok flow, w') -> run rt (with_envelopes sc txs) w = (Ok flow, w').
Proof.
  intros Hp (w1 & w2 & (Hl1 & Hl2 & Hl3) & Hadm & Hnd & Hv & Hc & Ho & Hsig & Hrev)%run_ok.
  assert (length txs = length (cb_transactions (Consensus.body (ls_block sc)))) as Hlen.
  { by rewrite <- (length_fmap env_payload txs), Hp, length_fmap. }
  destruct (rerooted_plans txs (ls_planned_transactions sc)) as [Hplans Hroots]; [by rewrite Hlen, Hl2|].
  apply run_ok. exists w1, w2. destruct Hv as (Hinc & Hpre & _ & Hpatches).
  split; [cbn; rewrite length_zip_with; lia|]. split; [exact Hadm|]. split; [exact Hnd|].
  split; [|split; [|split; [exact Ho|split; [exact Hsig|]]]].
  - split_and!; [done|done|done|].
    apply (Forall_fmap pt_plan (fun p => patch_ok (state_patch p))) in Hpatches.
    apply (Forall_fmap pt_plan (fun p => patch_ok (state_patch p))). by rewrite <- Hplans in Hpatches.
  - destruct Hc as (? & ? & ? & ? & ? & ? & Hst & Hrr). split_and!; try done.
    + etrans; [exact Hst|]. f_equal. unfold post_ledger. f_equal; [by apply apply_plans_plans|].
      f_equal. unfold nonempty. do 2 f_equal. cbn [with_envelopes ls_planned_transactions].
      destruct txs, (ls_planned_transactions sc); cbn in *; done || lia.
    + etrans; [exact Hrr|]. f_equal. cbn [with_envelopes ls_planned_transactions].
      apply (f_equal (fmap receipt)) in Hplans. by rewrite <- !list_fmap_compose in Hplans.
  - change (runs (revalidation_step (scenario_services rt sc) (bc_multi_authorization_policy (import_config rt)))
      txs w2 w').
    revert Hrev Hp. generalize (cb_transactions (Consensus.body (ls_block sc))) as l. clear. intros l Hr.
    revert txs. induction Hr as [v|tx l v v1 v2 Hst _ IH]; intros [|tx' txs] Hp; try done; [constructor|].
    rewrite !fmap_cons in Hp. apply cons_eq_inj in Hp as [Hp Hps]. econstructor; [|by apply IH].
    rewrite <- Hst. unfold revalidation_step, m_map_err.
    cbn [revalidator scenario_services reference_services].
    by rewrite (reference_revalidate_payload _ tx' tx _ _ Hp).
Qed.

End commitment_theorems.
