(* ===== verification/Chain.v ===== *)
(** * Blocks accepted one after another

    [LocalReferenceRuntime::run] takes the pre-state it executes against from the
    scenario, so nothing in one call relates it to an earlier one: two calls are related
    by the roots alone, when the later scenario names as its pre-state root the state
    root that the earlier header committed to.  A chain is a sequence of accepted
    scenarios related that way.  The theorem shows that the roots are enough: the
    pre-state of every block of the chain is what the blocks before it left. *)

From S2P Require Import Prelude Primitives StateKeys Codec Hash Sha256 OrdMap Ssz State StateSpec.
From S2P Require Import Validation Crypto Mempool Execution Consensus Network Fixtures Cli EndToEnd Commitments.

Section chains.
Context `{SHA : Sha256} {W D : Type} `{SignatureDispatcher W D}.

(** The state root a scenario's header commits to. *)
Definition committed_state_root (sc : LocalReferenceScenario) : Root :=
  ch_state_root (Consensus.header (ls_block sc)).

(** [chain_run rt r w scs r' w']: the runtime accepts the scenarios in order, each one
    on the state root the one before it committed to, starting from [r] in world [w]. *)
Inductive chain_run (rt : LocalReferenceRuntime W D) : Root -> W -> list LocalReferenceScenario -> Root -> W -> Prop :=
| chain_done r w : chain_run rt r w [] r w
| chain_block r w sc flow w1 scs r' w' :
    run rt sc w = (Ok flow, w1) ->
    ls_pre_state_root sc = r ->
    ls_materialized_state sc <> [] ->
    chain_run rt (committed_state_root sc) w1 scs r' w' ->
    chain_run rt r w (sc :: scs) r' w'.

(** The state after the blocks of a chain: every planned patch, in order. *)
Definition chain_state (scs : list LocalReferenceScenario) (s : AbstractState) : AbstractState :=
  foldl (fun s sc => apply_plans (ls_planned_transactions sc) s) s scs.

(** The strings hashed for the state roots of a chain. *)
Definition chain_queries (scs : list LocalReferenceScenario) : list (list byte) :=
  scs ≫= fun sc => ledger_queries (pre_ledger sc) ++ ledger_queries (post_ledger sc).

(** Every block of the chain starts from what the blocks before it left. *)
Definition starts_from_previous (scs : list LocalReferenceScenario) (s : AbstractState) : Prop :=
  forall before sc after, scs = before ++ sc :: after ->
    entries (pre_ledger sc) = chain_state before s.

Lemma starts_from_previous_cons sc scs s :
  entries (pre_ledger sc) = s ->
  starts_from_previous scs (apply_plans (ls_planned_transactions sc) s) ->
  starts_from_previous (sc :: scs) s.
Proof.
  intros Hs Hrest [|sc0 before] sc' after Heq; cbn in Heq; apply cons_eq_inj in Heq as [<- Heq]; [done|].
  by eapply Hrest.
Qed.

Lemma chain_queries_cons Q sc scs :
  chain_queries (sc :: scs) ⊆ Q <->
  ledger_queries (pre_ledger sc) ⊆ Q /\ ledger_queries (post_ledger sc) ⊆ Q /\ chain_queries scs ⊆ Q.
Proof. unfold chain_queries. rewrite bind_cons, !queries_app. tauto. Qed.

(** What acceptance says of the two state roots of a block. *)
Lemma accepted_state_roots (rt : LocalReferenceRuntime W D) sc w flow w' :
  run rt sc w = (Ok flow, w') ->
  ledger_root (pre_ledger sc) = ls_pre_state_root sc /\
  ledger_root (post_ledger sc) = committed_state_root sc.
Proof. intros (? & ? & _ & _ & _ & (_ & ? & _) & (_ & _ & _ & _ & _ & _ & ? & _) & _)%run_ok. done. Qed.

(** The invariant, for any set of hashed strings. *)
Lemma chain_run_state Q (rt : LocalReferenceRuntime W D) r w scs r' w' :
  chain_run rt r w scs r' w' -> collision_free Q -> chain_queries scs ⊆ Q ->
  forall l, written l = true -> ledger_root l = r -> ledger_queries l ⊆ Q ->
  starts_from_previous scs (entries l) /\ r' = ledger_root (mk_ledger (chain_state scs (entries l)) true).
Proof.
  intros Hrun HQ. induction Hrun as [r w|r w sc flow w1 scs r' w' Hok Hpre Hne _ IH]; intros Hq l Hw Hl Hlq.
  - split; [by intros [] ? ?|]. rewrite <- Hl. destruct l. cbn in *. by subst.
  - apply chain_queries_cons in Hq as (Hq1 & Hq2 & Hq3).
    apply accepted_state_roots in Hok as [Hroot Hpost]. destruct (materialized_written sc Hne) as [Hw1 Hw2].
    assert (entries (pre_ledger sc) = entries l) as Hs by (eapply (ledger_root_inj Q); congruence || done).
    destruct (IH Hq3 (post_ledger sc) Hw2 Hpost Hq2) as [Hstart Hr].
    unfold post_ledger in Hstart, Hr. cbn [entries] in Hstart, Hr. rewrite Hs in Hstart, Hr.
    split; [by apply starts_from_previous_cons|done].
Qed.

End chains.

(** ** Theorem *)

Section chain_theorem.
Context `{SHA : Sha256} {W D : Type} `{SignatureDispatcher W D}.

(** C7: State roots chain: let the runtime accept a sequence of scenarios with
    non-empty pre-states, each naming as its pre-state root the state root the header before it committed to, the first
    one naming the root of a written ledger.  If SHA-256 has no collision among the
    strings hashed for the state roots, then every block was executed against exactly
    the state the earlier blocks left, and the last committed root is the root of the
    ledger with all the planned patches of the chain applied in order. *)
Theorem chained_blocks_apply_all_plans (rt : LocalReferenceRuntime W D) l w scs r' w' :
  written l = true ->
  chain_run rt (ledger_root l) w scs r' w' ->
  collision_free (ledger_queries l ++ chain_queries scs) ->
  starts_from_previous scs (entries l) /\
  r' = ledger_root (mk_ledger (chain_state scs (entries l)) true).
Proof.
  intros Hw Hrun HQ. eapply chain_run_state; [done|done|apply queries_r|done|done|apply queries_l].
Qed.

End chain_theorem.
