(* ===== verification/Costs.v ===== *)
(** * How many signature verifications a call performs

    Verification is the expensive step of every pipeline, and the inputs that ask for it
    come from peers.  This file bounds it, for every path of the code, failures
    included: [costs] is a small logic of resource use over the monad of the model, a
    dispatcher promises what it spends on a request ([Metered]), and the rules
    follow the code from the dispatcher through admission and block import up to
    [LocalReferenceRuntime::run]. *)

From S2P Require Import Prelude Primitives StateKeys Codec Hash Sha256 OrdMap Ssz State StateSpec.
From S2P Require Import Validation Crypto Mempool Execution Consensus Network Fixtures Cli EndToEnd.

(** ** The cost of a computation *)

Lemma sum_ones {A} (l : list A) : sum_list_with (fun _ => 1) l = length l.
Proof. induction l as [|x l IH]; cbn; by rewrite ?IH. Qed.

Section costs.
Context {W : Type} (count : W -> nat).

(** [m] spends at most [n] units, never gives any back, and spends exactly [n] when it
    succeeds. *)
Definition costs {E A} (m : M W E A) (n : nat) : Prop :=
  forall w r w', m w = (r, w') ->
    count w <= count w' <= count w + n /\ (is_ok r = true -> count w' = count w + n).

Lemma costs_ret {E A} (a : A) : costs (E := E) (ret a) 0.
Proof. intros w r w' [<- <-]%ret_eq. split; [lia|]. lia. Qed.

Lemma costs_fail {E A} (e : E) n : costs (A := A) (fail_with e) n.
Proof. intros w r w' [= <- <-]. split; [lia|done]. Qed.

Lemma costs_map_err {E F A} (f : E -> F) (m : M W E A) n : costs m n -> costs (m_map_err f m) n.
Proof.
  intros Hm w r w'. unfold m_map_err. destruct (m w) as [r0 w0] eqn:He. intros [= <- <-].
  destruct (Hm _ _ _ He) as [Hb Hs]. split; [done|]. by destruct r0.
Qed.

Lemma costs_bind {E A B} (m : M W E A) (k : A -> M W E B) n p :
  costs m n -> (forall a, costs (k a) p) -> costs (bind m k) (n + p).
Proof.
  intros Hm Hk w r w'. unfold bind. destruct (m w) as [[a|e] w0] eqn:He; destruct (Hm _ _ _ He) as [Hb Hs].
  - intros Hka. destruct (Hk _ _ _ _ Hka) as [Hb' Hs']. specialize (Hs eq_refl). split; [lia|]. intros Hr%Hs'. lia.
  - intros [= <- <-]. split; [lia|done].
Qed.

(** A step that touches no shared object is free, and what follows may use its value. *)
Lemma costs_lift {E A B} (r : result A E) (k : A -> M W E B) n :
  (forall a, r = Ok a -> costs (k a) n) -> costs (bind (lift r) k) n.
Proof.
  intros Hk w r' w'. unfold bind, lift. destruct r as [a|e]; [by apply Hk|]. by apply costs_fail.
Qed.

Lemma costs_lift_last {E A} (r : result A E) : costs (lift r) 0.
Proof. intros w r' w' [_ <-]%lift_eq. lia. Qed.

Lemma costs_then_ret {E A B} (m : M W E A) (f : A -> B) n : costs m n -> costs (let! a := m in ret (f a)) n.
Proof. intros Hm. rewrite <- (Nat.add_0_r n). apply costs_bind; [done|]. intros a. apply costs_ret. Qed.

Lemma costs_for_each {E A} (f : A -> M W E unit) (c : A -> nat) l :
  (forall x, costs (f x) (c x)) -> costs (m_for_each f l) (sum_list_with c l).
Proof. intros Hf. induction l as [|x l IH]; [apply costs_ret|]. by apply costs_bind. Qed.

Lemma costs_collect {E A B} (f : A -> M W E B) (c : A -> nat) l :
  (forall x, costs (f x) (c x)) -> costs (m_collect f l) (sum_list_with c l).
Proof.
  intros Hf. induction l as [|x l IH]; [apply costs_ret|]. apply costs_bind; [done|].
  intros y. by apply costs_then_ret.
Qed.

End costs.

Create HintDb costs.
#[export] Hint Resolve costs_ret costs_fail costs_map_err costs_lift_last costs_then_ret : costs.

(** ** What a dispatcher promises *)

Class Metered {W D} `{SignatureDispatcher W D} (count : W -> nat) (d : D) : Prop := {
  metered_transaction s rq : costs count (verify_transaction_authorization d s rq) 1;
  metered_validator s rq : costs count (verify_validator_message d s rq) 1
}.

(** The registry keeps the promise if the verifiers registered in it do: a lookup and a
    size check cost nothing. *)
Lemma verify_for_path_costs {W} (count : W -> nat) (self : VerifierRegistry (W := W)) s rq path :
  Forall (fun v => forall rq, costs count (verify v rq) 1) (verifiers self) ->
  costs count (verify_for_path self s rq path) 1.
Proof.
  intros Hv. apply costs_lift. intros v Hf. apply costs_lift. intros _ _. apply costs_map_err.
  unfold registry_verifier in Hf. destruct (find_verifier s (verifiers self)) as [v'|] eqn:He; [|done].
  injection Hf as <-. apply find_verifier_Some in He as [_ He].
  by apply (proj1 (Forall_forall _ _) Hv).
Qed.

Lemma registry_metered {W} (count : W -> nat) (self : VerifierRegistry (W := W)) :
  Forall (fun v => forall rq, costs count (verify v rq) 1) (verifiers self) -> Metered count self.
Proof. intros Hv. split; intros s rq; by apply verify_for_path_costs. Qed.

(** ** Admission and block import *)

Section pipelines.
Context `{SHA : Sha256} {W D : Type} `{SD : SignatureDispatcher W D} (count : W -> nat).

Lemma verify_authorizations_costs (pl : AdmissionPipeline D) e acc mats :
  Metered count (dispatcher pl) ->
  costs count (verify_authorizations pl e acc mats) (length (authorizations e)).
Proof.
  intros Hm. unfold verify_authorizations. case_decide as Hl; [apply costs_fail|].
  apply costs_lift. intros sr _. apply costs_then_ret. destruct (multi_authorization_policy _).
  replace (length (authorizations e)) with (sum_list_with (fun _ => 1) (zip (authorizations e) mats)).
  - apply costs_for_each. intros p. apply costs_map_err, metered_transaction.
  - rewrite sum_ones, length_zip_with. lia.
Qed.

Lemma admit_and_verify_costs (pl : AdmissionPipeline D) e view mats :
  Metered count (dispatcher pl) ->
  costs count (admit_and_verify pl e view mats) (length (authorizations e)).
Proof. intros Hm. apply costs_lift. intros acc _. by apply verify_authorizations_costs. Qed.

(** What block import spends, from what its services spend. *)
Lemma import_block_costs config h b s (services : BlockImportServices W D) (c : TransactionEnvelope -> nat) :
  Metered count (sv_dispatcher services) ->
  (forall q, costs count (resolver services q) 0) ->
  (forall tx policy, costs count (revalidator services tx policy) (c tx)) ->
  costs count (preparer services h s) 0 -> costs count (execution_engine services h b s) 0 ->
  costs count (import_block config h b s services) (1 + sum_list_with c (transactions b)).
Proof.
  intros Hm Hr Hv Hp He. apply costs_lift. intros out _. apply costs_lift. intros _ _. apply costs_bind.
  { apply (costs_bind _ _ _ 0 1); [by apply costs_map_err|]. intros cred. do 2 (apply costs_lift; intros ? _).
    apply costs_then_ret, costs_map_err, metered_validator. }
  intros _. rewrite <- (Nat.add_0_r (sum_list_with _ _)). apply costs_bind.
  { apply costs_for_each. intros tx. apply costs_map_err, Hv. }
  intros _. apply (costs_bind _ _ _ 0 0).
  { unfold verify_sidecar_binding. do 2 (case_decide; [apply costs_fail|]). by apply costs_then_ret, costs_map_err. }
  intros _. apply costs_then_ret, (costs_bind _ _ _ 0 0); [by apply costs_map_err|].
  intros out'. apply costs_lift. intros _ _. apply costs_ret.
Qed.

(** ** The reference runtime *)

(** The authorizations of the submission a block transaction is looked up as. *)
Definition submission_authorizations (index : AdmissionIndex) (tx : TransactionEnvelope) : nat :=
  from_option (fun p => length (authorizations p.1)) 0 (index !! payload_root_of (env_payload tx)).

(** The authorizations verified on admission, and again on import. *)
Definition admission_cost (sc : LocalReferenceScenario) : nat :=
  sum_list_with (fun p => length (authorizations p.1)) (submissions sc).
Definition revalidation_cost (sc : LocalReferenceScenario) : nat :=
  sum_list_with (submission_authorizations (submission_index sc)) (cb_transactions (Consensus.body (ls_block sc))).

Lemma reference_revalidate_costs (rv : ReferenceTransactionRevalidator) tx policy :
  Metered count (rv_dispatcher rv) ->
  costs count (reference_revalidate rv tx policy) (submission_authorizations (rv_admission_transactions rv) tx).
Proof.
  intros Hm. unfold reference_revalidate, submission_authorizations. rewrite payload_root_total.
  apply costs_lift. intros r [= <-]. apply costs_lift. intros [e mats] Hi.
  destruct (rv_admission_transactions rv !! _) as [p|]; [|done]. injection Hi as ->.
  by apply costs_then_ret, admit_and_verify_costs.
Qed.

Lemma admit_transactions_costs (rt : LocalReferenceRuntime W D) sc :
  Metered count (rt_dispatcher rt) -> costs count (admit_transactions rt sc) (admission_cost sc).
Proof.
  intros Hm. apply costs_collect. intros [e mats]. by apply costs_map_err, admit_and_verify_costs.
Qed.

Lemma reference_import_costs (rt : LocalReferenceRuntime W D) sc h b s index :
  Metered count (rt_dispatcher rt) -> (forall q, costs count (rt_resolver rt q) 0) ->
  costs count (validate_block_against_reference rt sc h b s index)
    (1 + sum_list_with (submission_authorizations index) (transactions b)).
Proof.
  intros Hm Hr. apply import_block_costs; cbn [reference_services sv_dispatcher resolver revalidator preparer execution_engine];
    auto with costs. intros tx policy. by apply (reference_revalidate_costs (scenario_revalidator rt index)).
Qed.

(** C13: The runtime's signature verifications are bounded by what it was given, on every
    path: with a dispatcher that spends one unit per request it accepts and at most one
    per request it refuses, and a resolver that spends none, a run, accepted or rejected at any stage, spends at most one unit per
    submitted authorization, one for the proposer's signature, and one per authorization
    of the submission that each block transaction is looked up as; an accepted run
    spends exactly that much. *)
Theorem run_verification_budget (rt : LocalReferenceRuntime W D) sc w r w' :
  Metered count (rt_dispatcher rt) ->
  (forall q, costs count (rt_resolver rt q) 0) ->
  run rt sc w = (r, w') ->
  count w <= count w' <= count w + (admission_cost sc + 1 + revalidation_cost sc) /\
  (is_ok r = true -> count w' = count w + (admission_cost sc + 1 + revalidation_cost sc)).
Proof.
  intros Hm Hr. revert w r w'.
  change (costs count (run rt sc) (admission_cost sc + 1 + revalidation_cost sc)).
  rewrite <- Nat.add_assoc. apply costs_lift. intros _ _. apply costs_bind; [by apply admit_transactions_costs|].
  intros adm. apply costs_lift. intros index [_ ->]%index_ok.
  by apply costs_then_ret, costs_map_err, reference_import_costs.
Qed.

End pipelines.
