(* ===== verification/RunErrors.v ===== *)
(** * How the reference runtime fails

    [LocalReferenceRuntime::run] fails in one of four stages: the scenario's shape,
    admission, the admission index and block import.  Each stage is characterised by
    what was done before it and what it reports, and so is the whole run. *)

From S2P Require Import Prelude Primitives StateKeys Codec Hash Sha256 OrdMap Ssz State StateSpec.
From S2P Require Import Validation Crypto Mempool Violations Execution Consensus Network Fixtures Cli EndToEnd.

Section run_errors.
Context `{SHA : Sha256} {W D : Type} `{SD : SignatureDispatcher W D}.

(** ** Shape *)

(** One list that should be as long as the block body. *)
Definition misaligned {A} (sc : LocalReferenceScenario) (l : list A) (context : string)
    : list LocalReferenceError :=
  let n := length (cb_transactions (Consensus.body (ls_block sc))) in
  violated (bool_decide (length l <> n)) (ScenarioShape (mk_shape_error n (length l) context)).

Definition shape_violations (sc : LocalReferenceScenario) : list LocalReferenceError :=
  misaligned sc (admission_transactions sc)
    "admission transactions must align one-to-one with block body transactions" ++
  misaligned sc (ls_planned_transactions sc)
    "planned transactions must align one-to-one with block body transactions" ++
  misaligned sc (transaction_authorization_materials sc)
    "authorization material entries must align one-to-one with block body transactions".

Lemma shape_report sc : validate_scenario_shape sc = report (shape_violations sc).
Proof.
  unfold validate_scenario_shape, shape_violations, misaligned. rewrite !report_app, !report_violated.
  by repeat (case_bool_decide; case_decide; try done; cbn [bind_result]).
Qed.

(** ** The admission index *)

(** The first submission whose payload root an earlier one has. *)
Definition first_duplicate (pairs : list (TransactionEnvelope * list OwnedAuthorizationMaterial)) (r : Root) : Prop :=
  exists before p after, pairs = before ++ p :: after /\ NoDup (pair_root <$> before) /\
    pair_root p = r /\ r ∈ pair_root <$> before.

Lemma index_loop_err pairs : forall m e,
  index_loop pairs m = Err e <->
  exists before p after, pairs = before ++ p :: after /\
    e = DuplicateAdmissionPayloadRoot (pair_root p) /\ NoDup (pair_root <$> before) /\
    Forall (fun q => m !! pair_root q = None) before /\
    (is_Some (m !! pair_root p) \/ pair_root p ∈ pair_root <$> before).
Proof.
  induction pairs as [|[tx ms] pairs IH]; intros m e; cbn [index_loop].
  { split; [done|]. intros (b & p & a & H & _). by destruct b. }
  rewrite payload_root_total. cbn [map_err bind_result].
  change (payload_root_of (env_payload tx)) with (pair_root (tx, ms)).
  destruct (m !! pair_root (tx, ms)) as [old|] eqn:Hm.
  - split.
    + intros [= <-]. exists [], (tx, ms), pairs.
      split_and!; [done|done|constructor|constructor|left; by exists old].
    + intros ([|q b] & p & a & Heq & -> & Hnd & Hf & Hd); injection Heq as <- ->; [done|].
      apply Forall_cons in Hf as [Hf _]. congruence.
  - rewrite IH. clear IH. split.
    + intros (b & p & a & -> & -> & Hnd & Hf & Hd). exists ((tx, ms) :: b), p, a.
      rewrite Forall_forall in Hf. rewrite fmap_cons, NoDup_cons, Forall_cons, elem_of_cons, Forall_forall.
      assert (pair_root (tx, ms) ∉ pair_root <$> b) as Hni.
      { intros (q & Hq & Hin)%list_elem_of_fmap. specialize (Hf q Hin). by rewrite Hq, lookup_insert_eq in Hf. }
      split_and!; try done.
      * intros q Hin. specialize (Hf q Hin). by apply lookup_insert_None in Hf as [? _].
      * destruct Hd as [[x Hx]|Hd]; [|auto]. apply lookup_insert_Some in Hx as [[? _]|[_ Hx]]; [auto|].
        left. by exists x.
    + intros ([|q b] & p & a & Heq & -> & Hnd & Hf & Hd); injection Heq as <- ->.
      { rewrite Hm in Hd. destruct Hd as [[? ?]|Hd]; [done|]. by apply elem_of_nil in Hd. }
      rewrite fmap_cons, NoDup_cons in Hnd. destruct Hnd as [Hni Hnd]. rewrite fmap_cons, elem_of_cons in Hd.
      apply Forall_cons in Hf as [_ Hf]. exists b, p, a. split_and!; try done.
      * rewrite Forall_forall in Hf |- *. intros q Hin. apply lookup_insert_None. split; [by apply Hf|].
        intros Heq. apply Hni. apply list_elem_of_fmap. by exists q.
      * destruct (decide (pair_root (tx, ms) = pair_root p)) as [Heq|Hne].
        { left. rewrite Heq, lookup_insert_eq. by eexists. }
        rewrite lookup_insert_ne by done. destruct Hd as [Hd|[Hd|Hd]]; [by left|congruence|by right].
Qed.

Lemma index_err sc e :
  build_admission_transactions_by_payload_root (admission_transactions sc)
    (transaction_authorization_materials sc) = Err e <->
  exists r, first_duplicate (submissions sc) r /\ e = DuplicateAdmissionPayloadRoot r.
Proof.
  unfold build_admission_transactions_by_payload_root, first_duplicate. rewrite index_loop_err.
  setoid_rewrite lookup_empty. split.
  - intros (b & p & a & Heq & -> & Hnd & _ & [[? [=]]|Hd]). exists (pair_root p). split; [|done]. by exists b, p, a.
  - intros (r & (b & p & a & Heq & Hnd & <- & Hd) & ->). exists b, p, a. split_and!; try done.
    + by apply Forall_true.
    + by right.
Qed.

(** ** Theorems *)

(** C12: How a run fails, completely: before anything is called, because a list is not as
    long as the block body, with the first such list reported; at the first submission
    that is not admitted, after the earlier ones were, with its admission error; after
    all admissions, at the first submission that repeats an earlier payload root; or
    with the error of block import over the index of the submissions, in the world
    admission left.  There is no other failure, and no primitive error. *)
Theorem run_fails_iff (rt : LocalReferenceRuntime W D) sc w e w' :
  run rt sc w = (Err e, w') <->
  (head (shape_violations sc) = Some e /\ w' = w) \/
  (shape_violations sc = [] /\
   ((exists before tx ms after outcomes w1 cause,
       submissions sc = before ++ (tx, ms) :: after /\
       m_collect (fun '(tx, ms) => m_map_err Admission (validate_transaction rt tx ms)) before w
         = (Ok outcomes, w1) /\
       validate_transaction rt tx ms w1 = (Err cause, w') /\ e = Admission cause) \/
    (exists outcomes w1, admit_transactions rt sc w = (Ok outcomes, w1) /\
       ((exists r, first_duplicate (submissions sc) r /\ e = DuplicateAdmissionPayloadRoot r /\ w' = w1) \/
        (NoDup (pair_root <$> submissions sc) /\ exists cause,
           validate_block_against_reference rt sc (scenario_header sc) (scenario_body sc) (scenario_sidecar sc)
             (submission_index sc) w1 = (Err cause, w') /\ e = RefConsensus cause))))).
Proof.
  unfold run. rewrite bind_err, lift_eq, shape_report, report_err, (symmetry_iff (=) w). apply or_iff_compat_l.
  setoid_rewrite lift_eq. split.
  - intros ([] & ? & [Hs <-] & Hrun). split; [by destruct (shape_violations sc)|].
    apply bind_err in Hrun as [Hadm|(ys & w1 & Hadm & Hrun)].
    { left. apply m_collect_err in Hadm as (l1 & [tx ms] & l2 & ys & w1 & Hz & Hys & (cause & Hc & ->)%m_map_err_err).
      by exists l1, tx, ms, l2, ys, w1, cause. }
    right. exists ys, w1. split; [done|].
    apply bind_err in Hrun as [[(r & Hd & ->)%index_err <-]%lift_eq|(idx & ? & [[Hnd ->]%index_ok <-]%lift_eq & Hrun)].
    { left. by exists r. }
    right. split; [done|]. apply bind_err in Hrun as [(cause & Hc & ->)%m_map_err_err|(? & ? & _ & [=])].
    by exists cause.
  - intros [Hs Hrest]. exists tt, w. rewrite Hs. split; [done|]. apply bind_err.
    destruct Hrest as [(l1 & tx & ms & l2 & ys & w1 & cause & Hz & Hys & Hc & ->)|(ys & w1 & Hys & Hrest)].
    { left. apply m_collect_err. exists l1, (tx, ms), l2, ys, w1. split_and!; [done..|].
      apply m_map_err_err. by exists cause. }
    right. exists ys, w1. split; [done|]. apply bind_err.
    destruct Hrest as [(r & Hd & -> & ->)|(Hnd & cause & Hc & ->)].
    { left. apply lift_eq. split; [|done]. apply index_err. by exists r. }
    right. exists (submission_index sc), w1. split; [by apply lift_eq; split; [apply index_ok|]|].
    apply bind_err. left. apply m_map_err_err. by exists cause.
Qed.

End run_errors.
