(* ===== verification/Testing.v ===== *)
(** * The vocabulary of the unit tests

    The crates carry unit tests in [#[cfg(test)]] modules.  The [Conformance] files
    translate them one by one into booleans and evaluate them: the model passes the
    tests the program passes.  This file has what the tests share: equality of the
    error and outcome types ([#[derive(PartialEq)]]) and the assertions.  A failed
    assertion panics, which is [false]. *)

From S2P Require Import Prelude Primitives StateKeys Codec Hash Sha256 OrdMap Ssz State Validation.
From S2P Require Import Crypto Mempool Execution Consensus Network Fixtures.

(** ** Equality *)

#[export] Instance MalformedSszError_eq_dec : EqDecision MalformedSszError.
Proof. solve_decision. Defined.
#[export] Instance UnsupportedPayloadVariantError_eq_dec : EqDecision UnsupportedPayloadVariantError.
Proof. solve_decision. Defined.
#[export] Instance PayloadRootMismatchError_eq_dec : EqDecision PayloadRootMismatchError.
Proof. solve_decision. Defined.
#[export] Instance SigningRootConstructionError_eq_dec : EqDecision SigningRootConstructionError.
Proof. solve_decision. Defined.
#[export] Instance AuthorizationCountError_eq_dec : EqDecision AuthorizationCountError.
Proof. solve_decision. Defined.
#[export] Instance PrimSizeError_eq_dec : EqDecision Primitives.SignatureSizeExceededError.
Proof. solve_decision. Defined.
#[export] Instance PrimitiveError_eq_dec : EqDecision PrimitiveError.
Proof. solve_decision. Defined.
#[export] Instance DomainError_eq_dec : EqDecision DomainError.
Proof. solve_decision. Defined.
#[export] Instance InvalidCredentialEncodingError_eq_dec : EqDecision InvalidCredentialEncodingError.
Proof. solve_decision. Defined.
#[export] Instance ResolutionError_eq_dec : EqDecision ProposerCredentialResolutionError.
Proof. solve_decision. Defined.

#[export] Instance WitnessOrderingError_eq_dec : EqDecision WitnessOrderingError.
Proof. solve_decision. Defined.
#[export] Instance RootContinuityError_eq_dec : EqDecision RootContinuityError.
Proof. solve_decision. Defined.
#[export] Instance StateError_eq_dec : EqDecision StateError.
Proof. solve_decision. Defined.

#[export] Instance UnsupportedSchemeError_eq_dec : EqDecision UnsupportedSchemeError.
Proof. solve_decision. Defined.
#[export] Instance CryptoSizeError_eq_dec : EqDecision Crypto.SignatureSizeExceededError.
Proof. solve_decision. Defined.
#[export] Instance VerificationFailure_eq_dec : EqDecision VerificationFailure.
Proof. solve_decision. Defined.
#[export] Instance CryptoError_eq_dec : EqDecision CryptoError.
Proof. solve_decision. Defined.

#[export] Instance FeeLane_eq_dec : EqDecision FeeLane.
Proof. solve_decision. Defined.
#[export] Instance FeeFloorError_eq_dec : EqDecision FeeFloorError.
Proof. solve_decision. Defined.
#[export] Instance NoncePolicyError_eq_dec : EqDecision NoncePolicyError.
Proof. solve_decision. Defined.
#[export] Instance SigningRootUnavailableError_eq_dec : EqDecision SigningRootUnavailableError.
Proof. solve_decision. Defined.
#[export] Instance MaterialCountError_eq_dec : EqDecision AuthorizationMaterialCountError.
Proof. solve_decision. Defined.
#[export] Instance ValidationError_eq_dec : EqDecision ValidationError.
Proof. solve_decision. Defined.
#[export] Instance MultiAuthorizationPolicy_eq_dec : EqDecision MultiAuthorizationPolicy.
Proof. solve_decision. Defined.

#[export] Instance ExecutionReceipt_eq_dec : EqDecision ExecutionReceipt.
Proof. solve_decision. Defined.
#[export] Instance TransactionExecutionOutcome_eq_dec : EqDecision TransactionExecutionOutcome.
Proof. solve_decision. Defined.
#[export] Instance BlockExecutionOutcome_eq_dec : EqDecision BlockExecutionOutcome.
Proof. solve_decision. Defined.
#[export] Instance ExecutionError_eq_dec : EqDecision ExecutionError.
Proof. solve_decision. Defined.

#[export] Instance WitnessLimitError_eq_dec : EqDecision WitnessByteLimitExceededError.
Proof. solve_decision. Defined.
#[export] Instance BodyRootError_eq_dec : EqDecision HeaderBodyRootMismatchError.
Proof. solve_decision. Defined.
#[export] Instance SidecarRootError_eq_dec : EqDecision SidecarBlockRootMismatchError.
Proof. solve_decision. Defined.
#[export] Instance SidecarCommitmentError_eq_dec : EqDecision SidecarCommitmentMismatchError.
Proof. solve_decision. Defined.
#[export] Instance ConsensusError_eq_dec : EqDecision ConsensusError.
Proof. solve_decision. Defined.

#[export] Instance FetchDecision_eq_dec : EqDecision FetchDecision.
Proof. solve_decision. Defined.
#[export] Instance PeerActionHint_eq_dec : EqDecision PeerActionHint.
Proof. solve_decision. Defined.
#[export] Instance ReputationDelta_eq_dec : EqDecision ReputationDelta.
Proof. solve_decision. Defined.
#[export] Instance PeerAction_eq_dec : EqDecision PeerAction.
Proof. solve_decision. Defined.

(** ** Assertions *)

Definition assert_eq `{EqDecision A} (left right : A) : bool := bool_decide (left = right).
Definition assert_ne `{EqDecision A} (left right : A) : bool := negb (assert_eq left right).

(** [r.expect(_)] and [r.expect_err(_)], with the rest of the test. *)
Definition expect {A E} (r : result A E) (rest : A -> bool) : bool :=
  match r with
  | Ok a => rest a
  | Err _ => false
  end.

Definition expect_err {A E} (r : result A E) (rest : E -> bool) : bool :=
  match r with
  | Ok _ => false
  | Err e => rest e
  end.

(** The array literal [b; n]. *)
Definition filled (n : nat) (b : byte) : array n := padded n (replicate n b).

(** Field updates of the test fixtures ([..Default::default()]). *)
Definition basic_with (nonce gas_limit : N) : BasicTransactionPayload :=
  mk_basic (zeros 32) (uint_wrap 64 nonce) (uint_wrap 64 gas_limit) BasicFeesPerGas_default
    (zeros 20) (zeros 32) [] (zeros 32).

Definition CreateTransactionPayload_default : CreateTransactionPayload :=
  mk_create (zeros 32) (uint_wrap 64 0) (uint_wrap 64 0) BasicFeesPerGas_default (zeros 32) [] (zeros 32).

Definition Authorization_default : Authorization := mk_authorization Byte.x00 (zeros 32) [].

Definition new_basic (p : BasicTransactionPayload) : TransactionPayloadSsz := TransactionPayloadSsz_new (Basic p).
Definition new_create (p : CreateTransactionPayload) : TransactionPayloadSsz := TransactionPayloadSsz_new (Create p).
