(* ===== verification/ConformancePrimitives.v ===== *)
(** * The unit tests of shell-primitives

    The tests of [crates/shell-primitives/src/lib.rs], in the order of the file.  Tests
    that hash are functions of the digest and evaluated under the cheap one. *)

From S2P Require Import Prelude Primitives StateKeys Codec Hash Sha256 OrdMap Ssz State Validation.
From S2P Require Import Crypto Mempool Execution Consensus Network Fixtures Testing.

(** ** Structure *)

Definition transaction_payload_tags_match_the_current_spec : bool :=
  let basic := new_basic BasicTransactionPayload_default in
  let create := new_create CreateTransactionPayload_default in
  assert_eq (protocol_tag basic) TAG_BASIC && assert_eq (protocol_tag create) TAG_CREATE.

Definition address_canonicalization_left_pads_to_bytes32 : bool :=
  let address : ExecutionAddress := filled 20 Byte.x11 in
  let key := canonicalize_execution_address address in
  assert_eq (take 12 (elems key)) (replicate 12 Byte.x00) && assert_eq (drop 12 (elems key)) (elems address).

Definition transaction_domain_tag_is_frozen_to_four_bytes : bool :=
  expect (build_signing_data (zeros 32) Primitives.TransactionAuthorization) (fun signing_data =>
  assert_eq (domain_type signing_data) DOMAIN_TX_SHELL && assert_eq DOMAIN_TYPE_WIDTH 4).

Definition state_key_sorting_uses_shared_canonical_bytes : bool :=
  let account := AccountHeader (filled 20 Byte.x11) in
  let raw := RawTreeKey (filled 32 Byte.x22) in
  assert_eq (head (encode_state_key account)) (Some Byte.x00) &&
  assert_eq (head (encode_state_key raw)) (Some Byte.x03) &&
  is_lt (compare_state_keys account raw) &&
  assert_eq (canonical_sort_key account) (encode_state_key account).

Definition StubProposerCredentialResolver : ProposerCredentialResolver unit := fun _query =>
  ret (mk_credential Byte.x07 (replicate 32 Byte.xab)).

Definition proposer_credential_resolver_trait_is_object_safe : bool :=
  let resolver := StubProposerCredentialResolver in
  expect (resolver (mk_query (filled 32 Byte.xcd) (Some (uint_wrap 64 3))) tt).1 (fun credential =>
  assert_eq (pc_scheme_id credential) Byte.x07 && assert_eq (length (pc_public_key_material credential)) 32).

Example structural_tests_pass :
  [transaction_payload_tags_match_the_current_spec; address_canonicalization_left_pads_to_bytes32;
   transaction_domain_tag_is_frozen_to_four_bytes; state_key_sorting_uses_shared_canonical_bytes;
   proposer_credential_resolver_trait_is_object_safe] = replicate 5 true.
Proof. vm_compute. reflexivity. Qed.

(** ** Wire encode and decode *)

Definition basic_payload_round_trips_through_wire_encoding : bool :=
  let original := new_basic (basic_with 42 21000) in
  expect (TransactionPayloadSsz_to_wire_bytes original) (fun wire =>
  expect (TransactionPayloadSsz_from_wire_bytes wire) (fun decoded =>
  assert_eq original decoded)).

Definition create_payload_round_trips_through_wire_encoding : bool :=
  let original := new_create (mk_create (zeros 32) (uint_wrap 64 1) (uint_wrap 64 500000)
    BasicFeesPerGas_default (zeros 32) [Byte.x60; Byte.x00; Byte.x60; Byte.x00; Byte.x52] (zeros 32)) in
  expect (TransactionPayloadSsz_to_wire_bytes original) (fun wire =>
  expect (TransactionPayloadSsz_from_wire_bytes wire) (fun decoded =>
  assert_eq original decoded)).

Definition wire_encoding_first_byte_is_the_protocol_tag : bool :=
  let basic := new_basic BasicTransactionPayload_default in
  let create := new_create CreateTransactionPayload_default in
  expect (TransactionPayloadSsz_to_wire_bytes basic) (fun b =>
  expect (TransactionPayloadSsz_to_wire_bytes create) (fun c =>
  assert_eq (head b) (Some TAG_BASIC) && assert_eq (head c) (Some TAG_CREATE))).

Definition unknown_tag_in_wire_bytes_is_rejected : bool :=
  let basic := new_basic BasicTransactionPayload_default in
  expect (TransactionPayloadSsz_to_wire_bytes basic) (fun wire =>
  let wire := <[0 := Byte.xff]> wire in
  expect_err (TransactionPayloadSsz_from_wire_bytes wire) (fun err =>
  match err with
  | UnsupportedPayloadVariant e => assert_eq (uv_tag e) Byte.xff
  | _ => false
  end)).

Definition is_malformed (err : PrimitiveError) : bool :=
  match err with
  | MalformedSsz _ => true
  | _ => false
  end.

Definition empty_wire_bytes_are_rejected_as_malformed : bool :=
  expect_err (TransactionPayloadSsz_from_wire_bytes []) is_malformed.

Definition truncated_wire_bytes_are_rejected_as_malformed : bool :=
  let truncated := [TAG_BASIC; Byte.x00; Byte.x01] in
  expect_err (TransactionPayloadSsz_from_wire_bytes truncated) is_malformed.

Example wire_tests_pass :
  [basic_payload_round_trips_through_wire_encoding; create_payload_round_trips_through_wire_encoding;
   wire_encoding_first_byte_is_the_protocol_tag; unknown_tag_in_wire_bytes_is_rejected;
   empty_wire_bytes_are_rejected_as_malformed; truncated_wire_bytes_are_rejected_as_malformed]
  = replicate 6 true.
Proof. vm_compute. reflexivity. Qed.

(** ** Roots *)

Section roots.
Context `{SHA : Sha256}.

Definition hash_tree_root_is_deterministic : bool :=
  let payload := new_basic (basic_with 7 42000) in
  expect (hash_tree_root payload) (fun root1 =>
  expect (hash_tree_root payload) (fun root2 =>
  assert_eq root1 root2)).

(** Two payloads with different roots. *)
Definition roots_differ (a b : TransactionPayloadSsz) : bool :=
  expect (hash_tree_root a) (fun root1 => expect (hash_tree_root b) (fun root2 => assert_ne root1 root2)).

Definition different_payload_variants_have_different_roots : bool :=
  roots_differ (new_basic BasicTransactionPayload_default) (new_create CreateTransactionPayload_default).

Definition hash_tree_root_changes_when_nonce_changes : bool :=
  roots_differ (new_basic (basic_with 0 0)) (new_basic (basic_with 1 0)).

Definition hash_tree_root_changes_when_input_bytes_change : bool :=
  let with_input input := new_basic (mk_basic (zeros 32) (uint_wrap 64 0) (uint_wrap 64 0)
    BasicFeesPerGas_default (zeros 20) (zeros 32) input (zeros 32)) in
  roots_differ (with_input []) (with_input [Byte.xde; Byte.xad]).

Definition payload_root_on_envelope_matches_payload_hash_tree_root : bool :=
  let payload := new_basic (basic_with 99 0) in
  let envelope := mk_envelope payload [] in
  expect (hash_tree_root payload) (fun r =>
  expect (payload_root envelope) (fun r' => assert_eq r r')).

Definition authorization_round_trips_through_wire_encoding : bool :=
  let authorization := mk_authorization Byte.x07 (filled 32 Byte.xab) [Byte.xde; Byte.xad; Byte.xbe; Byte.xef] in
  expect (encode_authorization authorization) (fun wire =>
  expect (decode_authorization wire) (fun decoded =>
  assert_eq authorization decoded)).

Definition envelope_round_trips_through_wire_encoding : bool :=
  let payload := new_basic (basic_with 42 50000) in
  expect (hash_tree_root payload) (fun payload_root =>
  let envelope := mk_envelope payload
    [mk_authorization Byte.x01 payload_root [Byte.x11; Byte.x22];
     mk_authorization Byte.x02 payload_root [Byte.x33; Byte.x44; Byte.x55]] in
  expect (to_wire_bytes envelope) (fun wire =>
  expect (from_wire_bytes wire) (fun decoded =>
  assert_eq envelope decoded))).

Definition envelope_root_is_deterministic : bool :=
  let payload := new_create (mk_create (zeros 32) (uint_wrap 64 3) (uint_wrap 64 0)
    BasicFeesPerGas_default (zeros 32) [Byte.x60; Byte.x00] (zeros 32)) in
  expect (hash_tree_root payload) (fun payload_root =>
  let envelope := mk_envelope payload [mk_authorization Byte.x09 payload_root (replicate 64 Byte.x99)] in
  expect (canonical_root envelope) (fun root1 =>
  expect (canonical_root envelope) (fun root2 => assert_eq root1 root2))).

Definition envelope_root_changes_when_authorization_signature_changes : bool :=
  let payload := new_basic BasicTransactionPayload_default in
  expect (hash_tree_root payload) (fun payload_root =>
  let first := mk_envelope payload [mk_authorization Byte.x03 payload_root [Byte.xaa]] in
  let second := mk_envelope payload [mk_authorization Byte.x03 payload_root [Byte.xaa; Byte.xbb]] in
  expect (canonical_root first) (fun r1 => expect (canonical_root second) (fun r2 => assert_ne r1 r2))).

(** ** Signing data *)

Definition signing_data_hash_tree_root_is_deterministic : bool :=
  let sd := mk_signing_data (filled 32 Byte.xab) DOMAIN_TX_SHELL in
  expect (signing_root sd) (fun root1 => expect (signing_root sd) (fun root2 => assert_eq root1 root2)).

Definition signing_roots_differ (a b : SigningData) : bool :=
  expect (signing_root a) (fun root1 => expect (signing_root b) (fun root2 => assert_ne root1 root2)).

Definition signing_data_root_changes_when_object_root_changes : bool :=
  signing_roots_differ (mk_signing_data (zeros 32) DOMAIN_TX_SHELL)
    (mk_signing_data (filled 32 Byte.x01) DOMAIN_TX_SHELL).

Definition signing_data_root_changes_when_domain_type_changes : bool :=
  signing_roots_differ (mk_signing_data (filled 32 Byte.xab) DOMAIN_TX_SHELL)
    (mk_signing_data (filled 32 Byte.xab) DOMAIN_VALIDATOR_MESSAGE).

(** ** Validation helpers *)

Definition mismatched_payload_root_in_authorization_is_rejected : bool :=
  let payload := new_basic BasicTransactionPayload_default in
  expect (hash_tree_root payload) (fun correct_root =>
  let wrong_root := xor_first 0xFF correct_root in
  let auth := mk_authorization Byte.x00 wrong_root [] in
  expect_err (check_authorization_payload_roots payload [auth]) (fun err =>
  match err with
  | PayloadRootMismatch e => assert_eq (prm_expected e) correct_root
  | _ => false
  end)).

Definition matching_payload_root_in_authorization_passes_check : bool :=
  let payload := new_basic BasicTransactionPayload_default in
  expect (hash_tree_root payload) (fun root =>
  let auth := mk_authorization Byte.x00 root [] in
  is_ok (check_authorization_payload_roots payload [auth])).

End roots.

Definition empty_authorization_list_fails_count_check : bool :=
  expect_err (check_authorization_count []) (fun err =>
  match err with
  | AuthorizationCount e => assert_eq (ac_actual e) 0%N
  | _ => false
  end).

Definition non_empty_authorization_list_passes_count_check : bool :=
  is_ok (check_authorization_count [Authorization_default]).

Definition oversized_signature_is_rejected_on_user_path : bool :=
  let sig := replicate (N.to_nat (MAX_USER_SIGNATURE_BYTES + 1)) Byte.x00 in
  expect_err (check_user_signature_size sig) (fun err =>
  match err with
  | Primitives.SignatureSizeExceeded e => assert_eq (actual_bytes e) (MAX_USER_SIGNATURE_BYTES + 1)%N
  | _ => false
  end).

Definition signature_at_exact_max_size_is_accepted_on_user_path : bool :=
  let sig := replicate (N.to_nat MAX_USER_SIGNATURE_BYTES) Byte.x00 in
  is_ok (check_user_signature_size sig).

Example validation_tests_pass :
  [empty_authorization_list_fails_count_check; non_empty_authorization_list_passes_count_check;
   oversized_signature_is_rejected_on_user_path; signature_at_exact_max_size_is_accepted_on_user_path]
  = replicate 4 true.
Proof. vm_compute. reflexivity. Qed.

(** The signing tests under SHA-256 itself. *)
Example signing_tests_pass :
  [signing_data_hash_tree_root_is_deterministic (SHA := sha2);
   signing_data_root_changes_when_object_root_changes (SHA := sha2);
   signing_data_root_changes_when_domain_type_changes (SHA := sha2)] = replicate 3 true.
Proof. vm_compute. reflexivity. Qed.

Section cheap.
#[local] Existing Instance poly_hash.

Example root_tests_pass :
  [hash_tree_root_is_deterministic; different_payload_variants_have_different_roots;
   hash_tree_root_changes_when_nonce_changes; hash_tree_root_changes_when_input_bytes_change;
   payload_root_on_envelope_matches_payload_hash_tree_root;
   authorization_round_trips_through_wire_encoding; envelope_round_trips_through_wire_encoding;
   envelope_root_is_deterministic; envelope_root_changes_when_authorization_signature_changes;
   mismatched_payload_root_in_authorization_is_rejected;
   matching_payload_root_in_authorization_passes_check] = replicate 11 true.
Proof. vm_compute. reflexivity. Qed.

End cheap.
