(* ===== verification/ConformanceBackends.v ===== *)
(** * The unit tests of shell-state and shell-crypto

    The tests of [crates/shell-state/src/lib.rs], of
    [crates/shell-state/src/reference_applier.rs] and of
    [crates/shell-crypto/src/lib.rs] and its Ed25519 scheme, in the order of the files.  State roots are
    computed with SHA-256 itself. *)

From S2P Require Import Prelude Primitives StateKeys Codec Hash Sha256 OrdMap Ssz State Validation.
From S2P Require Import Crypto Mempool Execution Consensus Network Fixtures StateSpec Signing Testing.

(** ** shell-state *)

Definition StubView : ReadOnlyStateView :=
  mk_view (fun _address => Some (uint_wrap 64 7)) (fun _address => Some (filled 32 Byte.x03)).

Definition canonicalize_execution_address_left_pads_to_bytes32 : bool :=
  let address : ExecutionAddress := filled 20 Byte.x11 in
  let key := canonicalize_execution_address address in
  assert_eq (take 12 (elems key)) (replicate 12 Byte.x00) && assert_eq (drop 12 (elems key)) (elems address).

Definition encoded_state_key_uses_stable_variant_tags : bool :=
  let first := encode_state_key (AccountHeader (zeros 20)) in
  let second := encode_state_key (RawTreeKey (zeros 32)) in
  assert_eq (head first) (Some Byte.x00) && assert_eq (head second) (Some Byte.x03) &&
  is_lt (compare_state_keys (AccountHeader (zeros 20)) (RawTreeKey (zeros 32))).

Definition witness_ordering_rejects_non_canonical_sequences : bool :=
  let witnesses := [mk_witness (RawTreeKey (filled 32 Byte.xff)) [] [];
                    mk_witness (RawTreeKey (filled 32 Byte.x00)) [] []] in
  expect_err (ensure_canonical_witness_order witnesses) (fun err =>
  assert_eq err (NonCanonicalWitnessOrdering (mk_ordering_error 1
    "witness keys must be strictly increasing in canonical StateKey order"))).

Definition state_patch_requires_matching_access_and_value_counts : bool :=
  expect_err (validate_shape (mk_patch [RawTreeKey (zeros 32)] [])) (fun err =>
  assert_eq err (TransitionShapeMismatch 1 0)).

Definition metadata_adapter_implements_shared_primitives_trait : bool :=
  let lookup := MetadataAdapter StubView in
  let address : ExecutionAddress := filled 20 Byte.xaa in
  assert_eq (sm_account_nonce lookup address) (Some (uint_wrap 64 7)) &&
  assert_eq (sm_account_balance lookup address) (Some (filled 32 Byte.x03 : U256)).

Section backend.
Context `{SHA : Sha256}.

(** The accumulator is used through the trait. *)
Definition accumulator_trait_is_object_safe : bool :=
  assert_eq (sa_state_root InMemoryAccumulator_new) (zeros 32).

Definition in_memory_accumulator_rejects_non_canonical_access_sequences : bool :=
  let address : ExecutionAddress := filled 20 Byte.xab in
  let low_key := AccountHeader address in
  let high_key := StorageSlot address (filled 32 Byte.xff) in
  let '(r, accumulator) :=
    apply_transition (mk_patch [low_key; high_key] [[Byte.x01]; [Byte.x02]]) InMemoryAccumulator_new in
  expect r (fun _ =>
  expect_err (get_witness_for_accesses accumulator [high_key; low_key]) (fun err =>
  assert_eq err (NonCanonicalWitnessOrdering (mk_ordering_error 1
    "access keys must be strictly increasing in canonical StateKey order")))).

Definition in_memory_accumulator_keeps_committed_witnesses_separate_from_derived_proof_paths : bool :=
  let address : ExecutionAddress := filled 20 Byte.x22 in
  let first_key := AccountHeader address in
  let second_key := StorageSlot address (filled 32 Byte.x10) in
  let '(r, accumulator) :=
    apply_transition (mk_patch [first_key; second_key]
      [[Byte.x01; Byte.x02; Byte.x03]; [Byte.x04; Byte.x05; Byte.x06]]) InMemoryAccumulator_new in
  expect r (fun first_root =>
  expect (get_witness_for_accesses accumulator [first_key; second_key]) (fun witnesses =>
  assert_eq (length witnesses) 2 &&
  forallb (fun witness => bool_decide (sw_proof witness = [])) witnesses &&
  match witnesses !! 1 with
  | None => false
  | Some second_witness =>
      assert_eq (sw_leaf_value second_witness : list byte) [Byte.x04; Byte.x05; Byte.x06] &&
      expect (derive_proof_path accumulator second_witness) (fun derived =>
      assert_eq (pp_expected_root derived) first_root &&
      assert_eq (pl_key (pp_leaf derived)) second_key &&
      assert_eq (pl_key <$> left_neighbor derived) (Some first_key) &&
      match right_neighbor derived with None => true | Some _ => false end &&
      is_ok (verify_witness accumulator second_witness (root accumulator)))
  end)).

Definition in_memory_accumulator_reference_root_changes_with_transition_contents : bool :=
  let address : ExecutionAddress := filled 20 Byte.x44 in
  let key := CodeChunk address (uint_wrap 32 7) in
  let root_before := root InMemoryAccumulator_new in
  let '(r1, accumulator) :=
    apply_transition (mk_patch [key] [[Byte.x09; Byte.x09]]) InMemoryAccumulator_new in
  expect r1 (fun root_after_first =>
  let '(r2, accumulator) := apply_transition (mk_patch [key] [[Byte.x09; Byte.x09; Byte.x09]]) accumulator in
  expect r2 (fun root_after_second =>
  assert_ne root_before root_after_first && assert_ne root_after_first root_after_second)).

(** ** The reference applier *)

Definition ReferenceStateApplier_default : ReferenceStateApplier :=
  ReferenceStateApplier_new InMemoryAccumulator_new.

Definition reference_state_applier_applies_canonical_transitions_sequentially : bool :=
  let address : ExecutionAddress := filled 20 Byte.x42 in
  let first_key := AccountHeader address in
  let second_key := StorageSlot address (filled 32 Byte.x07) in
  let '(r1, applier) := applier_apply_transition (zeros 32)
    (mk_patch [first_key] [[Byte.x01; Byte.x02; Byte.x03]]) ReferenceStateApplier_default in
  expect r1 (fun first =>
  let '(r2, applier) := applier_apply_transition (post_state_root first)
    (mk_patch [second_key] [[Byte.x04; Byte.x05; Byte.x06]]) applier in
  expect r2 (fun second =>
  assert_eq (applier_state_root applier) (post_state_root second) &&
  assert_ne (post_state_root first) (post_state_root second))).

Definition reference_state_applier_rejects_root_continuity_mismatches : bool :=
  let applier := ReferenceStateApplier_new InMemoryAccumulator_new in
  let patch := mk_patch [RawTreeKey (filled 32 Byte.x11)] [[Byte.xaa]] in
  let '(r, applier) := applier_apply_transition (filled 32 Byte.xff) patch applier in
  expect_err r (fun err =>
  assert_eq err (RootContinuityMismatch (mk_continuity_error (filled 32 Byte.xff) (zeros 32))) &&
  assert_eq (applier_state_root applier) (zeros 32)).

Definition reference_state_applier_preserves_state_when_patch_application_fails : bool :=
  let address : ExecutionAddress := filled 20 Byte.x24 in
  let key := AccountHeader address in
  let '(r1, applier) := applier_apply_transition (zeros 32)
    (mk_patch [key] [[Byte.x09]]) ReferenceStateApplier_default in
  expect r1 (fun established =>
  let established_root := post_state_root established in
  let '(r2, applier) := applier_apply_transition established_root
    (mk_patch [StorageSlot address (filled 32 Byte.xff); key] [[Byte.x01]; [Byte.x02]]) applier in
  expect_err r2 (fun err =>
  assert_eq err (NonCanonicalWitnessOrdering (mk_ordering_error 1
    "access keys must be strictly increasing in canonical StateKey order")) &&
  assert_eq (applier_state_root applier) established_root)).

End backend.

Example state_tests_pass :
  [canonicalize_execution_address_left_pads_to_bytes32; encoded_state_key_uses_stable_variant_tags;
   witness_ordering_rejects_non_canonical_sequences; state_patch_requires_matching_access_and_value_counts;
   metadata_adapter_implements_shared_primitives_trait; accumulator_trait_is_object_safe (SHA := sha2);
   in_memory_accumulator_rejects_non_canonical_access_sequences (SHA := sha2);
   in_memory_accumulator_keeps_committed_witnesses_separate_from_derived_proof_paths (SHA := sha2);
   in_memory_accumulator_reference_root_changes_with_transition_contents (SHA := sha2)]
  = replicate 9 true.
Proof. vm_compute. reflexivity. Qed.

Example applier_tests_pass :
  [reference_state_applier_applies_canonical_transitions_sequentially (SHA := sha2);
   reference_state_applier_rejects_root_continuity_mismatches (SHA := sha2);
   reference_state_applier_preserves_state_when_patch_application_fails (SHA := sha2)] = replicate 3 true.
Proof. vm_compute. reflexivity. Qed.

(** ** shell-crypto *)

Module CryptoTests.

Record MockVerifier : Type := mk_mock {
  mv_scheme_id : byte;
  max_user_size : option N;
  max_validator_size : option N;
  should_fail : bool
}.

Definition MockVerifier_verifier (self : MockVerifier) : SignatureVerifier unit :=
  mk_verifier (mv_scheme_id self)
    (fun path => match path with
                 | Crypto.TransactionAuthorization => max_user_size self
                 | Crypto.ValidatorMessage => max_validator_size self
                 end)
    (fun _request =>
       if should_fail self
       then fail_with (mk_failure (mv_scheme_id self) "mock verifier rejected the artifact")
       else ret tt).

Definition sample_request (signature_len : N) : SignatureVerificationRequest :=
  mk_request (replicate 32 Byte.x07) (zeros 32) (replicate (N.to_nat signature_len) Byte.x01).

Definition registry_with (config : DispatcherConfig) (v : MockVerifier) : VerifierRegistry (W := unit) :=
  (registry_register_verifier (VerifierRegistry_with_config config) (MockVerifier_verifier v)).2.

Definition registry_rejects_unknown_schemes : bool :=
  let registry : VerifierRegistry (W := unit) := VerifierRegistry_new in
  expect_err (verify_transaction_authorization registry Byte.x0b (sample_request 64) tt).1 (fun err =>
  assert_eq err (Crypto.UnsupportedScheme (mk_unsupported_scheme Byte.x0b))).

Definition user_path_limit_is_enforced_before_verification : bool :=
  let registry := registry_with DispatcherConfig_default
    (mk_mock Byte.x01 (Some (DEFAULT_USER_PATH_MAX_SIGNATURE_SIZE * 2)%N) None false) in
  expect_err (verify_transaction_authorization registry Byte.x01
    (sample_request (DEFAULT_USER_PATH_MAX_SIGNATURE_SIZE + 1)) tt).1 (fun err =>
  assert_eq err (Crypto.SignatureSizeExceeded (mk_size_exceeded DEFAULT_USER_PATH_MAX_SIGNATURE_SIZE
    (DEFAULT_USER_PATH_MAX_SIGNATURE_SIZE + 1) Crypto.TransactionAuthorization RepositoryRule))).

Definition validator_path_uses_configurable_guards : bool :=
  let registry := registry_with (mk_config DEFAULT_USER_PATH_MAX_SIGNATURE_SIZE (Some 128%N))
    (mk_mock Byte.x09 None (Some 256%N) false) in
  expect_err (verify_validator_message registry Byte.x09 (sample_request 129) tt).1 (fun err =>
  assert_eq err (Crypto.SignatureSizeExceeded
    (mk_size_exceeded 128 129 Crypto.ValidatorMessage LocalTransportGuard))).

Definition validator_path_scheme_limit_stays_consensus_relevant : bool :=
  let registry := registry_with (mk_config DEFAULT_USER_PATH_MAX_SIGNATURE_SIZE (Some 512%N))
    (mk_mock Byte.x09 None (Some 256%N) false) in
  expect_err (verify_validator_message registry Byte.x09 (sample_request 257) tt).1 (fun err =>
  assert_eq err (Crypto.SignatureSizeExceeded
    (mk_size_exceeded 256 257 Crypto.ValidatorMessage Scheme))).

Definition verifier_failures_are_normalized : bool :=
  let registry := registry_with DispatcherConfig_default (mk_mock Byte.x03 None None true) in
  expect_err (verify_transaction_authorization registry Byte.x03 (sample_request 64) tt).1 (fun err =>
  assert_eq err (Crypto.VerificationFailed (mk_failure Byte.x03 "mock verifier rejected the artifact"))).

Definition verifier_trait_is_object_safe : bool :=
  assert_eq (scheme_id (MockVerifier_verifier (mk_mock Byte.x05 None None false))) Byte.x05.

Example crypto_tests_pass :
  [registry_rejects_unknown_schemes; user_path_limit_is_enforced_before_verification;
   validator_path_uses_configurable_guards; validator_path_scheme_limit_stays_consensus_relevant;
   verifier_failures_are_normalized; verifier_trait_is_object_safe] = replicate 6 true.
Proof. vm_compute. reflexivity. Qed.

End CryptoTests.

(** ** The Ed25519 tests *)

(** Signing is [ed25519_dalek]'s; see [Signing]. *)
Section ed25519_tests.
Context `{DALEK : Ed25519Dalek} `{!Ed25519Signer}.

Definition test_ed25519_verification_success : bool :=
  let signing_key := SigningKey_from_bytes (filled 32 Byte.x01) in
  let message : Root := zeros 32 in
  let request := mk_request (elems (VerifyingKey_as_bytes (verifying_key signing_key))) message
    (elems (Signature_to_bytes (sign signing_key (elems message)))) in
  is_ok (ed25519_verify request).

Lemma ed25519_success_test_passes : test_ed25519_verification_success = true.
Proof.
  exact (f_equal (fun r => is_ok r) (ed25519_accepts_signed (SigningKey_from_bytes (filled 32 Byte.x01)) (zeros 32))).
Qed.

(** [signature[0] ^= 0xFF]. *)
Definition corrupt_first (bytes : list byte) : list byte :=
  match bytes with
  | b :: rest => byte_of_N (N.lxor (byte_val b) 0xFF) :: rest
  | [] => []
  end.

Definition test_ed25519_verification_failure_bad_sig : bool :=
  let signing_key := SigningKey_from_bytes (filled 32 Byte.x01) in
  let message : Root := zeros 32 in
  let invalid_signature := corrupt_first (elems (Signature_to_bytes (sign signing_key (elems message)))) in
  let request := mk_request (elems (VerifyingKey_as_bytes (verifying_key signing_key))) message invalid_signature in
  negb (is_ok (ed25519_verify request)).

Definition test_ed25519_verification_failure_bad_key : bool :=
  let signing_key := SigningKey_from_bytes (filled 32 Byte.x01) in
  let message : Root := zeros 32 in
  let invalid_key : array 32 := zeros 32 in
  let request := mk_request (elems invalid_key) message
    (elems (Signature_to_bytes (sign signing_key (elems message)))) in
  negb (is_ok (ed25519_verify request)).

(** What the two failure tests ask of the library: the corrupted signature does not
    parse or does not verify, and the zero key does not parse or did not sign. *)
Lemma ed25519_failure_tests_pass :
  let signing_key := SigningKey_from_bytes (filled 32 Byte.x01) in
  let message := elems (zeros 32 : Root) in
  (test_ed25519_verification_failure_bad_sig = true <->
   forall sg, Signature_from_slice (corrupt_first (elems (Signature_to_bytes (sign signing_key message)))) = Some sg ->
     key_verify (verifying_key signing_key) message sg = false) /\
  (test_ed25519_verification_failure_bad_key = true <->
   forall key, VerifyingKey_from_bytes (zeros 32) = Some key ->
     key_verify key message (sign signing_key message) = false).
Proof.
  cbn zeta. unfold test_ed25519_verification_failure_bad_sig, test_ed25519_verification_failure_bad_key, ed25519_verify.
  cbn [public_key_material rq_signing_root signature]. rewrite !array_try_elems. cbn [ok_or bind_result].
  rewrite verifying_key_parses. cbn [ok_or bind_result]. split.
  - destruct (Signature_from_slice _) as [sg|]; cbn [ok_or bind_result]; [|naive_solver].
    destruct (key_verify _ _ sg) eqn:E; naive_solver congruence.
  - destruct (VerifyingKey_from_bytes _) as [key|]; cbn [ok_or bind_result]; [|naive_solver].
    rewrite signature_parses. cbn [ok_or bind_result].
    destruct (key_verify key _ _) eqn:E; naive_solver congruence.
Qed.

End ed25519_tests.
