(* ===== verification/ConformancePipelines.v ===== *)
(** * The unit tests of shell-mempool, shell-execution, shell-consensus and shell-network

    The tests of the [lib.rs] of the first three crates and of [fetch/policy.rs],
    [gossip/filtering.rs] and [reputation/scoring.rs] of the last.  The [Cell] counters
    of the test doubles are the world the doubles run in.  Tests that compute payload
    roots are functions of the digest and evaluated under the cheap one. *)

From S2P Require Import Prelude Primitives StateKeys Codec Hash Sha256 OrdMap Ssz State Validation.
From S2P Require Import Crypto Mempool Execution Consensus Network Fixtures Testing.

(** ** shell-mempool *)

Module MempoolTests.

(** [verify_calls] is the world. *)
Record CountingDispatcher : Type := mk_counting_dispatcher { fail_on_call : option nat }.

Definition CountingDispatcher_new : CountingDispatcher := mk_counting_dispatcher None.
Definition with_failure_on_call (call : nat) : CountingDispatcher := mk_counting_dispatcher (Some call).
Definition with_failure : CountingDispatcher := with_failure_on_call 1.

#[export] Instance CountingDispatcher_dispatcher : SignatureDispatcher nat CountingDispatcher := {
  register_verifier self _verifier := (None, self);
  verifier _ _scheme_id := None;
  verify_transaction_authorization self scheme_id _request verify_calls :=
    let call := verify_calls + 1 in
    (if bool_decide (fail_on_call self = Some call)
     then Err (Crypto.VerificationFailed (mk_failure scheme_id "mock dispatcher rejected the authorization"))
     else Ok tt, call);
  verify_validator_message _ scheme_id _request :=
    fail_with (Crypto.UnsupportedScheme (mk_unsupported_scheme scheme_id))
}.

Definition FixedNonceView (nonce : N) : AdmissionStateView := fun _envelope => Some (uint_wrap 64 nonce).

Definition le_u256 (value : N) : U256 := padded 32 (le_bytes 8 value).

Definition sample_policy : AdmissionPolicy :=
  mk_policy (mk_fee_schedule (le_u256 2) (le_u256 3)) (mk_nonce_policy (uint_wrap 64 1)) Canonical RequireAll.

Definition sample_address (b : byte) : ExecutionAddress := filled 20 b.

Definition sample_authorization_materials_for_count (count : nat) : list AuthorizationMaterial :=
  (fun _ => mk_material (replicate 32 Byte.x77)) <$> seq 0 count.
Definition sample_authorization_materials : list AuthorizationMaterial :=
  [mk_material (replicate 32 Byte.x77)].

Section with_hash.
Context `{SHA : Sha256}.

Definition sample_envelope_with_authorization_count (count : nat) (rest : TransactionEnvelope -> bool) : bool :=
  let payload := new_basic (mk_basic (zeros 32) (uint_wrap 64 5) (uint_wrap 64 21000)
    (mk_fees (le_u256 5) (le_u256 1) (le_u256 7)) (sample_address Byte.x11) (zeros 32) [] (zeros 32)) in
  expect (hash_tree_root payload) (fun payload_root =>
  let authorizations := (fun index => mk_authorization Byte.x00 payload_root
    (replicate 64 (byte_of_N ((0xAB + N.of_nat index) mod 256)))) <$> seq 0 count in
  rest (mk_envelope payload authorizations)).

Definition mempool_sample_envelope (rest : TransactionEnvelope -> bool) : bool :=
  sample_envelope_with_authorization_count 1 rest.

Definition payload_root_mismatch_rejects_before_dispatch : bool :=
  let pipeline := mk_pipeline CountingDispatcher_new sample_policy in
  mempool_sample_envelope (fun envelope =>
  let envelope := mk_envelope (env_payload envelope)
    (alter (fun a => mk_authorization (auth_scheme_id a) (xor_first 0xFF (auth_payload_root a)) (auth_signature a))
       0 (authorizations envelope)) in
  let '(r, verify_calls) := admit_and_verify pipeline envelope None sample_authorization_materials 0 in
  expect_err r (fun error =>
  match error with Mempool.Primitive _ => true | _ => false end && assert_eq verify_calls 0)).

Definition fee_floor_failure_rejects_before_dispatch : bool :=
  let policy := mk_policy (mk_fee_schedule (le_u256 9) (le_u256 3)) (nonce_policy sample_policy)
    (authorization_domain sample_policy) (multi_authorization_policy sample_policy) in
  let pipeline := mk_pipeline CountingDispatcher_new policy in
  mempool_sample_envelope (fun envelope =>
  let '(r, verify_calls) := admit_and_verify pipeline envelope None sample_authorization_materials 0 in
  expect_err r (fun error =>
  match error with FeeFloor e => assert_eq (lane e) Payload | _ => false end && assert_eq verify_calls 0)).

Definition nonce_gap_policy_rejects_future_transactions : bool :=
  mempool_sample_envelope (fun envelope =>
  expect_err (screen_transaction sample_policy envelope (Some (FixedNonceView 2))) (fun error =>
  match error with NoncePolicyViolation _ => true | _ => false end)).

(** Screening and then verifying, as the next five tests do. *)
Definition screen_then_verify (pipeline : AdmissionPipeline CountingDispatcher) (envelope : TransactionEnvelope)
    (materials : list AuthorizationMaterial)
    (rest : TentativeAccepted -> result AuthorizationValidated ValidationError -> nat -> bool) : bool :=
  expect (screen_transaction (policy pipeline) envelope None) (fun accepted =>
  let '(r, verify_calls) := verify_authorizations pipeline envelope accepted materials 0 in
  rest accepted r verify_calls).

Definition canonical_domain_enables_signature_dispatch_after_t1_t2 : bool :=
  mempool_sample_envelope (fun envelope =>
  screen_then_verify (mk_pipeline CountingDispatcher_new sample_policy) envelope sample_authorization_materials
    (fun accepted r verify_calls =>
  expect r (fun authorized =>
  assert_eq (av_payload_root authorized) (ta_payload_root accepted) &&
  assert_eq (verified_authorization_count authorized) 1%N && assert_eq verify_calls 1))).

Definition explicit_domain_override_is_still_supported : bool :=
  let policy := mk_policy (fee_schedule sample_policy) (nonce_policy sample_policy) (Explicit DOMAIN_TX_SHELL)
    (multi_authorization_policy sample_policy) in
  mempool_sample_envelope (fun envelope =>
  screen_then_verify (mk_pipeline CountingDispatcher_new policy) envelope sample_authorization_materials
    (fun accepted r verify_calls =>
  expect r (fun authorized =>
  assert_eq (av_payload_root authorized) (ta_payload_root accepted) && assert_eq verify_calls 1))).

Definition is_signature_verification (error : ValidationError) : bool :=
  match error with
  | SignatureVerification _ => true
  | _ => false
  end.

Definition cryptographic_failures_are_normalized_at_t3 : bool :=
  mempool_sample_envelope (fun envelope =>
  screen_then_verify (mk_pipeline with_failure sample_policy) envelope sample_authorization_materials
    (fun _ r verify_calls =>
  expect_err r (fun error => is_signature_verification error && assert_eq verify_calls 1))).

Definition require_all_policy_verifies_every_authorization : bool :=
  sample_envelope_with_authorization_count 3 (fun envelope =>
  screen_then_verify (mk_pipeline CountingDispatcher_new sample_policy) envelope
    (sample_authorization_materials_for_count 3) (fun _ r verify_calls =>
  expect r (fun authorized =>
  assert_eq (verified_authorization_count authorized) 3%N && assert_eq verify_calls 3))).

Definition require_all_policy_rejects_when_any_authorization_fails : bool :=
  sample_envelope_with_authorization_count 3 (fun envelope =>
  screen_then_verify (mk_pipeline (with_failure_on_call 2) sample_policy) envelope
    (sample_authorization_materials_for_count 3) (fun _ r verify_calls =>
  expect_err r (fun error => is_signature_verification error && assert_eq verify_calls 2))).

End with_hash.

Definition admission_policy_defaults_multi_authorization_to_require_all : bool :=
  assert_eq (multi_authorization_policy AdmissionPolicy_default) RequireAll.

Section cheap.
#[local] Existing Instance poly_hash.

Example mempool_tests_pass :
  [payload_root_mismatch_rejects_before_dispatch; fee_floor_failure_rejects_before_dispatch;
   nonce_gap_policy_rejects_future_transactions; canonical_domain_enables_signature_dispatch_after_t1_t2;
   explicit_domain_override_is_still_supported; cryptographic_failures_are_normalized_at_t3;
   require_all_policy_verifies_every_authorization; require_all_policy_rejects_when_any_authorization_fails;
   admission_policy_defaults_multi_authorization_to_require_all] = replicate 9 true.
Proof. vm_compute. reflexivity. Qed.

End cheap.

End MempoolTests.

(** ** shell-execution *)

Module ExecutionTests.

Definition StubExecutionStateView (root : Root) : ExecutionStateView :=
  mk_execution_view (mk_metadata (fun _address => Some (uint_wrap 64 9)) (fun _address => Some (filled 32 Byte.x07)))
    root.

(** [root[i]]. *)
Definition byte_at (root : Root) (i : nat) : byte := nth i (elems root) Byte.x00.
Definition xor_byte (a b : byte) : byte := byte_of_N (N.lxor (byte_val a) (byte_val b)).

Section with_hash.
Context `{SHA : Sha256}.

#[export] Instance StubTransactionExecutor : TransactionExecutor unit := fun pre_state_root transaction =>
  let! transaction_root := lift (map_err TransactionRoot (canonical_root transaction)) in
  let marker := xor_byte (byte_at pre_state_root 0) (byte_at transaction_root 0) in
  ret (mk_plan (mk_patch [RawTreeKey transaction_root] [[marker; byte_at transaction_root 1]])
         (mk_receipt Byte.x01 [marker; byte_at transaction_root 2])).

(** The hashed description of one access; an index past [new_values] panics. *)
Definition stub_access (patch : StatePatch) (p : nat * StateKey) : result (list byte) StateError :=
  let '(index, key) := p in
  let encoded_key := encode_state_key key in
  let? value := ok_or (new_values patch !! index) (Backend "index out of bounds") in
  Ok (be_bytes 8 (N.of_nat index) ++ be_bytes 8 (len encoded_key) ++ encoded_key
        ++ be_bytes 8 (len value) ++ value).

Definition stub_apply (pre_state_root : Root) (patch : StatePatch) : result StateTransitionOutcome StateError :=
  let? parts := collect (stub_access patch) (imap (fun i key => (i, key)) (accesses patch)) in
  Ok (mk_outcome (sha256 (bytes_of_string "shell-execution/test-transition-v1" ++ elems pre_state_root
        ++ concat parts))).

#[export] Instance StubStateTransitionApplier : StateTransitionApplier unit := fun pre patch =>
  lift (stub_apply pre patch).
#[export] Instance planned_with_stub_applier : StateTransitionApplier PlannedTransactionExecutor := fun pre patch =>
  lift (stub_apply pre patch).

Definition execution_sample_transaction (nonce : N) : TransactionEnvelope :=
  mk_envelope (new_basic (basic_with nonce (21000 + nonce))) [].

(** The trait object is used once. *)
Definition transaction_executor_trait_is_object_safe : bool :=
  is_ok (execute_transaction (zeros 32) (execution_sample_transaction 0) tt).1.

Definition execution_state_view_trait_is_object_safe : bool :=
  let view := StubExecutionStateView (filled 32 Byte.x03) in
  let address : ExecutionAddress := filled 20 Byte.xaa in
  assert_eq (ev_state_root view) (filled 32 Byte.x03) &&
  assert_eq (sm_account_nonce (ev_metadata view) address) (Some (uint_wrap 64 9)) &&
  assert_eq (sm_account_balance (ev_metadata view) address) (Some (filled 32 Byte.x07 : U256)).

Definition block_execution_is_deterministic_for_identical_inputs : bool :=
  let transactions := [execution_sample_transaction 1; execution_sample_transaction 2] in
  expect (execute_block (zeros 32) transactions tt).1 (fun first =>
  expect (execute_block (zeros 32) transactions tt).1 (fun second =>
  assert_eq first second)).

Definition block_execution_preserves_block_order : bool :=
  let first := execution_sample_transaction 1 in
  let second := execution_sample_transaction 2 in
  expect (execute_block (zeros 32) [first; second] tt).1 (fun ordered =>
  expect (execute_block (zeros 32) [second; first] tt).1 (fun reversed =>
  assert_ne (be_receipts_root ordered) (be_receipts_root reversed) &&
  assert_ne (be_post_state_root ordered) (be_post_state_root reversed))).

Definition execution_outcome_compares_against_committed_roots : bool :=
  expect (execute_block (zeros 32) [execution_sample_transaction 7] tt).1 (fun outcome =>
  is_ok (ensure_matches outcome (mk_committed (be_post_state_root outcome) (be_receipts_root outcome))) &&
  expect_err (ensure_matches outcome (mk_committed (filled 32 Byte.xff) (be_receipts_root outcome))) (fun err =>
  assert_eq err (PostStateRootMismatch (filled 32 Byte.xff) (be_post_state_root outcome)))).

Definition planned_sample (transaction : TransactionEnvelope) : result PlannedTransaction PrimitiveError :=
  let? transaction_root := canonical_root transaction in
  Ok (mk_planned transaction_root
    (mk_plan (mk_patch [RawTreeKey transaction_root] [[byte_at transaction_root 0; byte_at transaction_root 1]])
       (mk_receipt Byte.x07 [byte_at transaction_root 2; byte_at transaction_root 3]))).

Definition planned_executor_replays_documented_scenarios_deterministically : bool :=
  let transactions := [execution_sample_transaction 3; execution_sample_transaction 4] in
  expect (collect planned_sample transactions) (fun planned_transactions =>
  let '(r1, first_planner) := execute_block (filled 32 Byte.x09) transactions
    (PlannedTransactionExecutor_new planned_transactions) in
  let '(r2, second_planner) := execute_block (filled 32 Byte.x09) transactions
    (PlannedTransactionExecutor_new planned_transactions) in
  expect r1 (fun first => expect r2 (fun second =>
  assert_eq first second && is_exhausted first_planner && is_exhausted second_planner))).

Definition small_plan (b : byte) : TransactionExecutionPlan :=
  mk_plan (mk_patch [RawTreeKey (filled 32 b)] [[b]]) (mk_receipt Byte.x01 [b]).

Definition planned_executor_rejects_out_of_order_transactions : bool :=
  let first := execution_sample_transaction 11 in
  let second := execution_sample_transaction 12 in
  expect (PlannedTransaction_from_transaction first (small_plan Byte.x01)) (fun p1 =>
  expect (PlannedTransaction_from_transaction second (small_plan Byte.x02)) (fun p2 =>
  expect_err (execute_block (zeros 32) [second; first] (PlannedTransactionExecutor_new [p1; p2])).1 (fun err =>
  assert_eq err (Executor "planned transaction root mismatch")))).

Definition planned_executor_reports_unconsumed_steps : bool :=
  expect (PlannedTransaction_from_transaction (execution_sample_transaction 21) (small_plan Byte.x03)) (fun p =>
  let planner := PlannedTransactionExecutor_new [p] in
  assert_eq (ensure_exhausted planner) (Err (Executor "unconsumed planned transaction steps"))).

End with_hash.

Section cheap.
#[local] Existing Instance poly_hash.

Example execution_tests_pass :
  [transaction_executor_trait_is_object_safe; execution_state_view_trait_is_object_safe;
   block_execution_is_deterministic_for_identical_inputs; block_execution_preserves_block_order;
   execution_outcome_compares_against_committed_roots;
   planned_executor_replays_documented_scenarios_deterministically;
   planned_executor_rejects_out_of_order_transactions; planned_executor_reports_unconsumed_steps]
  = replicate 8 true.
Proof. vm_compute. reflexivity. Qed.

End cheap.

End ExecutionTests.

(** ** shell-consensus *)

Module ConsensusTests.

(** The counters of the five doubles, and whether every [assert_eq!] inside them held. *)
Record Calls : Type := mk_calls {
  resolver_calls : nat;
  validator_calls : nat;
  revalidator_calls : nat;
  last_policy : MultiAuthorizationPolicy;
  preparer_calls : nat;
  engine_calls : nat;
  asserts_hold : bool
}.

Definition no_calls : Calls := mk_calls 0 0 0 RequireAll 0 0 true.

Record StubHeader : Type := mk_stub_header {
  stub_block_root : Root;
  stub_witness_bytes : N;
  stub_transactions_root : Root;
  stub_execution_witnesses_root : Root;
  stub_state_root : Root;
  stub_receipts_root : Root;
  stub_proposer_signature : list byte;
  stub_proposer_index_hint : option N
}.

Definition StubHeader_header (self : StubHeader) : ConsensusHeader :=
  mk_header (Ok (stub_block_root self)) (uint_wrap 64 (stub_witness_bytes self)) (stub_transactions_root self)
    (stub_execution_witnesses_root self) (stub_state_root self) (stub_receipts_root self)
    (stub_proposer_signature self) (uint_wrap 64 <$> stub_proposer_index_hint self).

Record StubBody : Type := mk_stub_body { stub_root : Root; stub_transactions : list TransactionEnvelope }.
Definition StubBody_body (self : StubBody) : ConsensusBody := mk_body (Ok (stub_root self)) (stub_transactions self).

Record StubSidecar : Type := mk_stub_sidecar { stub_sidecar_block_root : Root; stub_committed_root : Root }.
Definition StubSidecar_sidecar (self : StubSidecar) : ConsensusSidecar :=
  mk_sidecar (stub_sidecar_block_root self) (stub_committed_root self).

Definition CountingResolver (failure : option ProposerCredentialResolutionError)
    : ProposerCredentialResolver Calls := fun query w =>
  let ok := assert_eq (q_block_root query) (filled 32 Byte.x01) &&
            assert_eq (q_proposer_index_hint query) (Some (uint_wrap 64 7)) in
  (match failure with
   | Some error => Err error
   | None => Ok (mk_credential Byte.x09 (replicate 32 Byte.x55))
   end,
   mk_calls (resolver_calls w + 1) (validator_calls w) (revalidator_calls w) (last_policy w)
     (preparer_calls w) (engine_calls w) (asserts_hold w && ok)).

Inductive ValidatorCounter : Type := validator_counter.

#[export] Instance ValidatorCounter_dispatcher : SignatureDispatcher Calls ValidatorCounter := {
  register_verifier self _verifier := (None, self);
  verifier _ _scheme_id := None;
  verify_transaction_authorization _ scheme_id _request :=
    fail_with (Crypto.UnsupportedScheme (mk_unsupported_scheme scheme_id));
  verify_validator_message _ _scheme_id _request w :=
    (Ok tt, mk_calls (resolver_calls w) (validator_calls w + 1) (revalidator_calls w) (last_policy w)
              (preparer_calls w) (engine_calls w) (asserts_hold w))
}.

Definition CountingRevalidator : TransactionRevalidator Calls := fun _transaction policy w =>
  (Ok tt, mk_calls (resolver_calls w) (validator_calls w) (revalidator_calls w + 1) policy
            (preparer_calls w) (engine_calls w) (asserts_hold w)).

Definition CountingWitnessPreparer : WitnessPreparer Calls := fun _header _sidecar w =>
  (Ok tt, mk_calls (resolver_calls w) (validator_calls w) (revalidator_calls w) (last_policy w)
            (preparer_calls w + 1) (engine_calls w) (asserts_hold w)).

Definition FixedExecutionEngine (outcome : BlockExecutionOutcome) : BlockExecutionEngine Calls :=
  fun _header _body _sidecar w =>
  (Ok outcome, mk_calls (resolver_calls w) (validator_calls w) (revalidator_calls w) (last_policy w)
                 (preparer_calls w) (engine_calls w + 1) (asserts_hold w)).

Definition test_services (failure : option ProposerCredentialResolutionError) (outcome : BlockExecutionOutcome)
    : BlockImportServices Calls ValidatorCounter :=
  mk_services (CountingResolver failure) validator_counter CountingRevalidator CountingWitnessPreparer
    (FixedExecutionEngine outcome).

Definition BlockImportConfig_default : BlockImportConfig := mk_import_config (mk_prefilter None) RequireAll.

Section with_hash.
Context `{SHA : Sha256}.

(** [expect] on the payload root, which never fails ([payload_root_total]). *)
Definition consensus_sample_transaction (nonce : N) : TransactionEnvelope :=
  let payload := new_basic (basic_with nonce (21000 + nonce)) in
  mk_envelope payload [mk_authorization Byte.x01 (payload_root_of payload) (replicate 64 Byte.xab)].

Definition fixture_header : StubHeader :=
  mk_stub_header (filled 32 Byte.x01) 128 (filled 32 Byte.x02) (filled 32 Byte.x03) (filled 32 Byte.x04)
    (filled 32 Byte.x05) (replicate 96 Byte.x06) (Some 7%N).

Definition sample_import_fixture : StubHeader * StubBody * StubSidecar * BlockExecutionOutcome :=
  let transactions := [consensus_sample_transaction 1; consensus_sample_transaction 2] in
  let header := fixture_header in
  (header, mk_stub_body (stub_transactions_root header) transactions,
   mk_stub_sidecar (stub_block_root header) (stub_execution_witnesses_root header),
   mk_block_outcome (stub_state_root header) (stub_receipts_root header)
     [mk_tx_outcome (filled 32 Byte.xaa) (stub_state_root header) (mk_receipt Byte.x01 [Byte.xbb])]).

(** [pipeline.import_block(..)] with fresh doubles. *)
Definition test_import (config : BlockImportConfig) (failure : option ProposerCredentialResolutionError)
    (header : StubHeader) (body : StubBody) (sidecar : StubSidecar) (execution : BlockExecutionOutcome)
    : result BlockImportOutcome ConsensusError * Calls :=
  import_block config (StubHeader_header header) (StubBody_body body) (StubSidecar_sidecar sidecar)
    (test_services failure execution) no_calls.

Definition pipeline_runs_block_stages_in_order : bool :=
  let '(header, body, sidecar, execution) := sample_import_fixture in
  let config := mk_import_config (mk_prefilter (Some (uint_wrap 64 256))) RequireAll in
  let '(r, calls) := test_import config None header body sidecar execution in
  expect r (fun outcome =>
  assert_eq (bi_block_root outcome) (stub_block_root header) &&
  assert_eq (resolver_calls calls) 1 && assert_eq (validator_calls calls) 1 &&
  assert_eq (revalidator_calls calls) (length (stub_transactions body)) &&
  assert_eq (last_policy calls) RequireAll && assert_eq (preparer_calls calls) 1 &&
  assert_eq (engine_calls calls) 1 && asserts_hold calls).

Definition prefilter_rejects_oversized_witness_bytes_before_signature_work : bool :=
  let '(header, body, sidecar, execution) := sample_import_fixture in
  let header := mk_stub_header (stub_block_root header) 1024 (stub_transactions_root header)
    (stub_execution_witnesses_root header) (stub_state_root header) (stub_receipts_root header)
    (stub_proposer_signature header) (stub_proposer_index_hint header) in
  let config := mk_import_config (mk_prefilter (Some (uint_wrap 64 512))) RequireAll in
  let '(r, calls) := test_import config None header body sidecar execution in
  expect_err r (fun error =>
  assert_eq error (WitnessByteLimitExceeded (mk_witness_limit (uint_wrap 64 512) (uint_wrap 64 1024))) &&
  assert_eq (resolver_calls calls) 0 && assert_eq (validator_calls calls) 0 &&
  assert_eq (preparer_calls calls) 0 && assert_eq (engine_calls calls) 0).

Definition body_binding_failure_stops_before_signature_verification : bool :=
  let '(header, body, sidecar, execution) := sample_import_fixture in
  let body := mk_stub_body (xor_first 0xFF (stub_root body)) (stub_transactions body) in
  let '(r, calls) := test_import BlockImportConfig_default None header body sidecar execution in
  expect_err r (fun error =>
  assert_eq error (HeaderBodyRootMismatch (mk_body_mismatch (stub_transactions_root header) (stub_root body))) &&
  assert_eq (resolver_calls calls) 0 && assert_eq (validator_calls calls) 0).

Definition sidecar_binding_failure_stops_before_execution : bool :=
  let '(header, body, sidecar, execution) := sample_import_fixture in
  let sidecar := mk_stub_sidecar (stub_sidecar_block_root sidecar) (xor_first 0x01 (stub_committed_root sidecar)) in
  let '(r, calls) := test_import BlockImportConfig_default None header body sidecar execution in
  expect_err r (fun error =>
  assert_eq error (SidecarCommitmentMismatch (mk_sidecar_commitment_mismatch
    (stub_execution_witnesses_root header) (stub_committed_root sidecar))) &&
  assert_eq (preparer_calls calls) 0 && assert_eq (engine_calls calls) 0).

Definition resolver_failures_propagate_before_dispatch : bool :=
  let '(header, body, sidecar, execution) := sample_import_fixture in
  let failure := InvalidCredentialEncoding
    (mk_invalid_credential Byte.x09 "validator public key bytes failed scheme decode") in
  let '(r, calls) := test_import BlockImportConfig_default (Some failure) header body sidecar execution in
  expect_err r (fun error =>
  assert_eq error (ProposerCredentialResolution failure) &&
  assert_eq (resolver_calls calls) 1 && assert_eq (validator_calls calls) 0 &&
  assert_eq (revalidator_calls calls) 0 && assert_eq (preparer_calls calls) 0 &&
  assert_eq (engine_calls calls) 0 && asserts_hold calls).

Definition DummyVerifier : SignatureVerifier unit := mk_verifier Byte.x00 (fun _ => None) (fun _request => ret tt).
Definition DummyRevalidator : TransactionRevalidator unit := fun _transaction _policy => ret tt.
Definition DummyPreparer : WitnessPreparer unit := fun _header _sidecar => ret tt.
Definition DummyExecutionEngine : BlockExecutionEngine unit := fun _header _body _sidecar =>
  fail_with (Executor "unused").

(** Each trait object is used once. *)
Definition consensus_traits_are_object_safe : bool :=
  let header := StubHeader_header fixture_header in
  let body := StubBody_body (mk_stub_body (zeros 32) []) in
  let sidecar := StubSidecar_sidecar (mk_stub_sidecar (zeros 32) (zeros 32)) in
  let transaction := consensus_sample_transaction 1 in
  is_ok (DummyRevalidator transaction RequireAll tt).1 &&
  is_ok (DummyPreparer header sidecar tt).1 &&
  expect_err (DummyExecutionEngine header body sidecar tt).1 (fun error => assert_eq error (Executor "unused")) &&
  assert_eq (scheme_id DummyVerifier) Byte.x00 &&
  is_ok (verify DummyVerifier (mk_request [] (zeros 32) []) tt).1.

End with_hash.

Section cheap.
#[local] Existing Instance poly_hash.

Example consensus_tests_pass :
  [pipeline_runs_block_stages_in_order; prefilter_rejects_oversized_witness_bytes_before_signature_work;
   body_binding_failure_stops_before_signature_verification; sidecar_binding_failure_stops_before_execution;
   resolver_failures_propagate_before_dispatch; consensus_traits_are_object_safe] = replicate 6 true.
Proof. vm_compute. reflexivity. Qed.

End cheap.

End ConsensusTests.

(** ** shell-network *)

Module NetworkTests.

Definition test_header (block_root : byte) (witness_bytes : N) : ConsensusHeader :=
  CanonicalBlockHeader_header (mk_canonical_header (filled 32 block_root) (uint_wrap 64 1) (uint_wrap 64 1)
    (zeros 32) (uint_wrap 64 witness_bytes) (zeros 32) (zeros 32) (zeros 32) (zeros 32) [] None).

Definition oversized_witness_headers_skip_sidecar_fetch : bool :=
  let policy := mk_fetch_policy (Some (uint_wrap 64 512)) false in
  assert_eq (decide_for_header policy (test_header Byte.x07 1024) true) Skip.

Definition explicit_request_can_be_required_before_fetching_sidecars : bool :=
  let policy := mk_fetch_policy (Some (uint_wrap 64 2048)) true in
  let header := test_header Byte.x09 256 in
  assert_eq (decide_for_header policy header false) Defer &&
  assert_eq (decide_for_header policy header true) Fetch.

Definition unsolicited_sidecars_are_deferred_until_requested : bool :=
  let filter := mk_filter None (Some (uint_wrap 64 1024)) false in
  assert_eq (sidecar_fetch_decision filter (uint_wrap 64 512) false) Defer.

Definition peer_origin : NetworkOrigin := Gossip (PeerId_from (filled 32 Byte.x03)).
Definition zero_gas_price : GasPrice := zeros 32.

Definition reject_outcomes_disconnect_remote_peers : bool :=
  assert_eq (peer_action_for_validation_outcome peer_origin Reject) (Disconnect RejectedObject).

Definition local_policy_rejects_do_not_penalize_local_origins : bool :=
  assert_eq (peer_action_for_validation_outcome LocalRpc PolicyReject) (Ignore PolicyRejected).

Definition malformed_t0_transactions_disconnect_remote_peers : bool :=
  let error := Mempool.Primitive (MalformedSsz (mk_malformed "truncated tx announcement")) in
  assert_eq (peer_action_for_mempool_error peer_origin T0 error) (Disconnect MalformedAnnouncement).

Definition fee_floor_failures_lower_remote_peer_reputation : bool :=
  let error := FeeFloor (mk_fee_floor Payload zero_gas_price zero_gas_price) in
  assert_eq (peer_action_for_mempool_error peer_origin T2 error)
    (AdjustReputation (ReputationDelta_new POLICY_REPUTATION_DELTA PolicyRejected)).

Definition header_body_mismatch_disconnects_remote_peers : bool :=
  let error := HeaderBodyRootMismatch (mk_body_mismatch (zeros 32) (filled 32 Byte.x09)) in
  assert_eq (peer_action_for_consensus_error peer_origin error) (Disconnect InvalidBlock).

Definition oversized_headers_are_scored_without_disconnect : bool :=
  let error := WitnessByteLimitExceeded (mk_witness_limit (uint_wrap 64 512) (uint_wrap 64 1024)) in
  assert_eq (peer_action_for_consensus_error peer_origin error)
    (AdjustReputation (ReputationDelta_new OVERSIZED_REPUTATION_DELTA OversizedObject)).

Definition validator_transport_guards_stay_oversize_policy_events : bool :=
  let error := Consensus.Crypto (Crypto.SignatureSizeExceeded
    (mk_size_exceeded 128 129 Crypto.ValidatorMessage LocalTransportGuard)) in
  assert_eq (peer_action_for_consensus_error peer_origin error)
    (AdjustReputation (ReputationDelta_new OVERSIZED_REPUTATION_DELTA OversizedObject)).

Definition missing_proposer_credentials_disconnect_remote_peers_as_invalid_blocks : bool :=
  let error := ProposerCredentialResolution NotFound in
  assert_eq (peer_action_for_consensus_error peer_origin error) (Disconnect InvalidBlock).

Definition unavailable_resolver_stays_internal : bool :=
  let error := ProposerCredentialResolution ResolverUnavailable in
  assert_eq (peer_action_for_consensus_error peer_origin error) (Ignore InternalError).

Definition invalid_credential_encoding_disconnects_remote_peers_as_invalid_blocks : bool :=
  let error := ProposerCredentialResolution (InvalidCredentialEncoding
    (mk_invalid_credential Byte.x07 "validator public key bytes failed scheme decode")) in
  assert_eq (peer_action_for_consensus_error peer_origin error) (Disconnect InvalidBlock).

Example network_tests_pass :
  [oversized_witness_headers_skip_sidecar_fetch; explicit_request_can_be_required_before_fetching_sidecars;
   unsolicited_sidecars_are_deferred_until_requested; reject_outcomes_disconnect_remote_peers;
   local_policy_rejects_do_not_penalize_local_origins; malformed_t0_transactions_disconnect_remote_peers;
   fee_floor_failures_lower_remote_peer_reputation; header_body_mismatch_disconnects_remote_peers;
   oversized_headers_are_scored_without_disconnect; validator_transport_guards_stay_oversize_policy_events;
   missing_proposer_credentials_disconnect_remote_peers_as_invalid_blocks; unavailable_resolver_stays_internal;
   invalid_credential_encoding_disconnects_remote_peers_as_invalid_blocks] = replicate 13 true.
Proof. vm_compute. reflexivity. Qed.

End NetworkTests.
