(* ===== verification/FixtureVectors.v ===== *)
(** * shell-fixtures: the crypto, policy, ordering and peer-action vectors

    The remaining vector records of [crates/shell-fixtures/src/lib.rs], and what the
    integration tests under [crates/*/tests] do with a vector of each kind.  A driver
    returns whether all of its assertions held; [None] inside it is a panic, which is
    [false]; the comparison of a vector's id with the name of its file belongs to the loop
    over the directory ([DirectoryTests]).  [FixtureData] runs the drivers on the vectors
    of [vectors/]. *)

From S2P Require Import Prelude Primitives StateKeys Codec Hash Sha256 OrdMap Ssz State Validation.
From S2P Require Import Crypto Mempool Execution Consensus Network Fixtures Testing ConformancePipelines.

(** ** The records *)

Record CryptoExpectedError : Type := mk_crypto_expected {
  xe_kind : string;
  xe_scheme_id : option byte;
  xe_max_size : option N;
  xe_actual_size : option N;
  xe_path : option string;
  xe_limit_kind : option string;
  xe_context : option string
}.

Inductive VerificationPathInput : Type := TransactionAuthorizationInput | ValidatorMessageInput.

Record DispatcherConfigInput : Type := mk_dispatcher_config_input {
  dc_user_path_max_signature_size : option N;
  dc_validator_path_max_signature_size : option N
}.

Record CryptoInput : Type := mk_crypto_input {
  ci_scheme_id : byte;
  ci_public_key_hex : string;
  ci_signing_root_hex : string;
  ci_signature_hex : string;
  ci_verification_path : VerificationPathInput;
  ci_dispatcher_config : option DispatcherConfigInput
}.

Record CryptoVector : Type := mk_crypto_vector {
  cv_id : string;
  cv_category : string;
  cv_rule : string;
  cv_description : string;
  cv_input : CryptoInput;
  cv_expected_outcome : string;
  cv_expected_error : option CryptoExpectedError;
  cv_owned_by : string;
  cv_notes : option string
}.

Record ExpectedError : Type := mk_expected_error {
  ee_kind : string;
  ee_lane : option string;
  ee_context : option string
}.

Record ExpectedEffects : Type := mk_expected_effects {
  transaction_signature_verifications : option nat;
  proposer_credential_resolutions : option nat;
  validator_signature_verifications : option nat;
  transaction_revalidations : option nat;
  witness_preparations : option nat;
  execution_calls : option nat
}.

Record MempoolPayloadInput : Type := mk_mempool_payload {
  mp_nonce : u64;
  mp_gas_limit : u64;
  mp_regular_fee : u64;
  mp_max_priority_fee_per_gas : u64;
  mp_max_witness_priority_fee : u64;
  mp_to : string
}.

Record MempoolAuthorizationInput : Type := mk_mempool_authorization {
  ma_scheme_id : byte;
  ma_signature_hex : string;
  ma_payload_root_mode : PayloadRootMode
}.

Record AuthorizationMaterialInput : Type := mk_material_input { mi_public_key_hex : string }.

Record MempoolPolicyInput : Type := mk_policy_input {
  pi_payload_lane_base_fee : u64;
  pi_witness_lane_base_fee : u64;
  pi_max_future_nonce_gap : u64
}.

Record MempoolInput : Type := mk_mempool_input {
  mi_payload : MempoolPayloadInput;
  mi_authorizations : list MempoolAuthorizationInput;
  mi_authorization_materials : list AuthorizationMaterialInput;
  mi_policy : MempoolPolicyInput;
  mi_observed_nonce : option u64
}.

Record MempoolPolicyVector : Type := mk_policy_vector {
  pv_id : string;
  pv_category : string;
  pv_rule : string;
  pv_description : string;
  pv_input : MempoolInput;
  pv_expected_outcome : string;
  pv_expected_error : ExpectedError;
  pv_expected_effects : ExpectedEffects;
  pv_owned_by : string;
  pv_notes : option string
}.

Record ConsensusHeaderInput : Type := mk_consensus_header_input {
  chi_block_root : string;
  chi_transactions_root : string;
  chi_execution_witnesses_root : string;
  chi_state_root : string;
  chi_receipts_root : string;
  chi_witness_bytes : u64;
  chi_proposer_index : u64;
  chi_proposer_signature_hex : string
}.

Record ConsensusBodyInput : Type := mk_consensus_body_input {
  cbi_transactions_root_mode : RootMode;
  cbi_transaction_count : nat
}.

Record ConsensusSidecarInput : Type := mk_consensus_sidecar_input {
  csi_block_root_mode : RootMode;
  csi_committed_root_mode : RootMode
}.

Record ConsensusExecutionInput : Type := mk_consensus_execution_input {
  cei_post_state_root_mode : RootMode;
  cei_receipts_root_mode : RootMode
}.

Record ConsensusPrefilterInput : Type := mk_prefilter_input { cpi_max_witness_bytes : option u64 }.

Record ConsensusResolverInput : Type := mk_resolver_input {
  cri_scheme_id : byte;
  cri_public_key_hex : string
}.

Inductive SignatureOutcome : Type := SignatureAccept | SignatureReject.

Record ConsensusDispatcherInput : Type := mk_dispatcher_input { cdi_validator_signature : SignatureOutcome }.

Record ConsensusInput : Type := mk_consensus_input {
  cin_header : ConsensusHeaderInput;
  cin_body : ConsensusBodyInput;
  cin_sidecar : ConsensusSidecarInput;
  cin_execution : ConsensusExecutionInput;
  cin_prefilter : option ConsensusPrefilterInput;
  cin_resolver : ConsensusResolverInput;
  cin_dispatcher : ConsensusDispatcherInput
}.

Inductive CheapFirstInput : Type :=
| MempoolLayer (input : MempoolInput)
| ConsensusLayer (input : ConsensusInput).

Record CheapFirstVector : Type := mk_cheap_first_vector {
  cf_id : string;
  cf_category : string;
  cf_rule : string;
  cf_description : string;
  cf_input : CheapFirstInput;
  cf_expected_outcome : string;
  cf_expected_error : ExpectedError;
  cf_expected_effects : ExpectedEffects;
  cf_owned_by : string;
  cf_notes : option string
}.

Inductive OutcomeClass : Type := OutcomeAccept | OutcomeReject | OutcomePolicyReject.

Inductive NetworkOriginInput : Type :=
| OriginGossip | OriginFetch | OriginSync | OriginLocalRpc | OriginLocalBuilder | OriginTestHarness.

Inductive ValidationStageInput : Type :=
| StageT0 | StageT1 | StageT2 | StageT3 | StageT4 | StageB0 | StageB1 | StageB2 | StageB3 | StageB4 | StageB5.

Inductive FeeLaneInput : Type := LanePayload | LaneWitness.

Inductive MempoolPeerErrorInput : Type :=
| PeerMalformedSsz (context : string)
| PeerFeeFloor (lane : FeeLaneInput) (required actual : u64).

Inductive ConsensusPeerErrorInput : Type :=
| PeerCryptoVerificationFailed (scheme_id : byte) (context : string)
| PeerWitnessByteLimitExceeded (max_bytes actual_bytes : u64).

Inductive PeerActionHintInput : Type :=
| HintRejectedObject | HintMalformedAnnouncement | HintInvalidTransaction | HintInvalidBlock
| HintInvalidSignature | HintOversizedObject | HintPolicyRejected | HintInternalError.

Inductive ExpectedPeerAction : Type :=
| ExpectAccept
| ExpectIgnore (hint : PeerActionHintInput)
| ExpectAdjustReputation (delta : Z) (hint : PeerActionHintInput)
| ExpectDisconnect (hint : PeerActionHintInput).

Inductive PeerActionInput : Type :=
| FromValidationOutcome (origin : NetworkOriginInput) (outcome : OutcomeClass)
| FromMempoolError (origin : NetworkOriginInput) (stage : ValidationStageInput) (error : MempoolPeerErrorInput)
| FromConsensusError (origin : NetworkOriginInput) (error : ConsensusPeerErrorInput).

Record PeerActionVector : Type := mk_peer_action_vector {
  pa_id : string;
  pa_category : string;
  pa_rule : string;
  pa_description : string;
  pa_input : PeerActionInput;
  pa_expected_outcome : OutcomeClass;
  pa_expected_action : ExpectedPeerAction;
  pa_owned_by : string;
  pa_notes : option string
}.

#[export] Instance OutcomeClass_eq_dec : EqDecision OutcomeClass.
Proof. solve_decision. Defined.

(** ** Shared assertions *)

Definition is_space (c : Ascii.ascii) : bool :=
  let n := Ascii.N_of_ascii c in ((n =? 32) || ((9 <=? n) && (n <=? 13)))%N.

(** [!value.trim().is_empty()] for an ASCII string. *)
Fixpoint not_blank (value : string) : bool :=
  match value with
  | String.EmptyString => false
  | String.String c value => negb (is_space c) || not_blank value
  end.

(** [if let Some(expected) = .. { assert_eq!(actual, expected) }]. *)
Definition assert_optional `{EqDecision A} (expected : option A) (actual : A) : bool :=
  match expected with
  | Some expected => assert_eq actual expected
  | None => true
  end.

Definition some_and {A} (o : option A) (rest : A -> bool) : bool :=
  match o with
  | Some a => rest a
  | None => false
  end.

(** ** Peer actions: [shell-network/tests/peer_action_vectors.rs] *)

Definition network_origin (origin : NetworkOriginInput) : NetworkOrigin :=
  let peer_id := PeerId_from (filled 32 Byte.x33) in
  match origin with
  | OriginGossip => Gossip peer_id
  | OriginFetch => FetchFrom peer_id
  | OriginSync => Sync peer_id
  | OriginLocalRpc => LocalRpc
  | OriginLocalBuilder => LocalBuilder
  | OriginTestHarness => TestHarness
  end.

Definition validation_outcome (outcome : OutcomeClass) : ValidationOutcome :=
  match outcome with
  | OutcomeAccept => Accept
  | OutcomeReject => Reject
  | OutcomePolicyReject => PolicyReject
  end.

Definition validation_stage (stage : ValidationStageInput) : ValidationStage :=
  match stage with
  | StageT0 => T0 | StageT1 => T1 | StageT2 => T2 | StageT3 => T3 | StageT4 => T4
  | StageB0 => B0 | StageB1 => B1 | StageB2 => B2 | StageB3 => B3 | StageB4 => B4 | StageB5 => B5
  end.

Definition gas_price (value : u64) : GasPrice := padded 32 (le_bytes 8 (uval value)).

Definition mempool_error (error : MempoolPeerErrorInput) : ValidationError :=
  match error with
  | PeerMalformedSsz context => Mempool.Primitive (MalformedSsz (mk_malformed context))
  | PeerFeeFloor lane required actual =>
      FeeFloor (mk_fee_floor (match lane with LanePayload => Payload | LaneWitness => Witness end)
                  (gas_price required) (gas_price actual))
  end.

Definition consensus_error (error : ConsensusPeerErrorInput) : ConsensusError :=
  match error with
  | PeerCryptoVerificationFailed scheme_id context =>
      Consensus.Crypto (Crypto.VerificationFailed (mk_failure scheme_id context))
  | PeerWitnessByteLimitExceeded max_bytes actual_bytes =>
      WitnessByteLimitExceeded (mk_witness_limit max_bytes actual_bytes)
  end.

Definition peer_action_from_fixture (fixture : PeerActionVector) : PeerAction :=
  match pa_input fixture with
  | FromValidationOutcome origin outcome =>
      peer_action_for_validation_outcome (network_origin origin) (validation_outcome outcome)
  | FromMempoolError origin stage error =>
      peer_action_for_mempool_error (network_origin origin) (validation_stage stage) (mempool_error error)
  | FromConsensusError origin error =>
      peer_action_for_consensus_error (network_origin origin) (consensus_error error)
  end.

Definition peer_action_hint (hint : PeerActionHintInput) : PeerActionHint :=
  match hint with
  | HintRejectedObject => RejectedObject
  | HintMalformedAnnouncement => MalformedAnnouncement
  | HintInvalidTransaction => InvalidTransaction
  | HintInvalidBlock => InvalidBlock
  | HintInvalidSignature => InvalidSignature
  | HintOversizedObject => OversizedObject
  | HintPolicyRejected => PolicyRejected
  | HintInternalError => InternalError
  end.

Definition expected_action_from_fixture (action : ExpectedPeerAction) : PeerAction :=
  match action with
  | ExpectAccept => AcceptPeer
  | ExpectIgnore hint => Ignore (peer_action_hint hint)
  | ExpectAdjustReputation delta hint => AdjustReputation (ReputationDelta_new delta (peer_action_hint hint))
  | ExpectDisconnect hint => Disconnect (peer_action_hint hint)
  end.

Definition outcome_class_for_action (action : PeerAction) : OutcomeClass :=
  match action with
  | AcceptPeer => OutcomeAccept
  | AdjustReputation _ => OutcomePolicyReject
  | Ignore hint =>
      match hint with
      | PolicyRejected | OversizedObject => OutcomePolicyReject
      | _ => OutcomeReject
      end
  | Disconnect _ => OutcomeReject
  end.

Definition peer_action_vector_holds (fixture : PeerActionVector) : bool :=
  assert_eq (pa_category fixture) "peer-action" && assert_eq (pa_owned_by fixture) "shell-network" &&
  not_blank (pa_rule fixture) && not_blank (pa_description fixture) &&
  let actual_action := peer_action_from_fixture fixture in
  assert_eq actual_action (expected_action_from_fixture (pa_expected_action fixture)) &&
  assert_eq (outcome_class_for_action actual_action) (pa_expected_outcome fixture).

(** ** Mempool vectors: [shell-mempool/tests] *)

Section mempool_vectors.
Context `{SHA : Sha256}.

(** The double of these drivers counts its calls and refuses every one. *)
Inductive RefusingDispatcher : Type := refusing_dispatcher.

#[export] Instance RefusingDispatcher_dispatcher : SignatureDispatcher nat RefusingDispatcher := {
  register_verifier self _verifier := (None, self);
  verifier _ _scheme_id := None;
  verify_transaction_authorization _ scheme_id _request verify_calls :=
    (Err (Crypto.UnsupportedScheme (mk_unsupported_scheme scheme_id)), verify_calls + 1);
  verify_validator_message _ scheme_id _request :=
    fail_with (Crypto.UnsupportedScheme (mk_unsupported_scheme scheme_id))
}.

Definition build_policy (input : MempoolInput) : AdmissionPolicy :=
  let p := mi_policy input in
  mk_policy (mk_fee_schedule (gas_price (pi_payload_lane_base_fee p)) (gas_price (pi_witness_lane_base_fee p)))
    (mk_nonce_policy (pi_max_future_nonce_gap p)) Canonical RequireAll.

Definition build_authorization (canonical_payload_root : Root) (authorization : MempoolAuthorizationInput)
    : option Authorization :=
  sig ← parse_hex (ma_signature_hex authorization);
  Some (mk_authorization (ma_scheme_id authorization)
    (PayloadRootMode_apply (ma_payload_root_mode authorization) canonical_payload_root) sig).

Definition build_envelope (input : MempoolInput) : option TransactionEnvelope :=
  let p := mi_payload input in
  to ← parse_address (mp_to p);
  let payload := new_basic (mk_basic (zeros 32) (mp_nonce p) (mp_gas_limit p)
    (mk_fees (gas_price (mp_regular_fee p)) (gas_price (mp_max_priority_fee_per_gas p))
       (gas_price (mp_max_witness_priority_fee p))) to (zeros 32) [] (zeros 32)) in
  canonical_payload_root ← match hash_tree_root payload with Ok r => Some r | Err _ => None end;
  authorizations ← mapM (build_authorization canonical_payload_root) (mi_authorizations input);
  Some (mk_envelope payload authorizations).

Definition build_authorization_materials (input : MempoolInput) : option (list AuthorizationMaterial) :=
  mapM (fun m => mk_material <$> parse_hex (mi_public_key_hex m)) (mi_authorization_materials input).

(** [pipeline.admit_and_verify(..)] on the vector's input: the result and the calls. *)
Definition admit_input (input : MempoolInput) : option (result AuthorizationValidated ValidationError * nat) :=
  envelope ← build_envelope input;
  materials ← build_authorization_materials input;
  Some (admit_and_verify (mk_pipeline refusing_dispatcher (build_policy input)) envelope
          ((fun nonce _ => Some nonce) <$> mi_observed_nonce input) materials 0).

Definition lane_name (l : FeeLane) : string :=
  match l with
  | Payload => "payload"
  | Witness => "witness"
  end.

(** [assert_expected_error] of [policy_vectors.rs]. *)
Definition policy_expected_error (error : ValidationError) (expected : ExpectedError) : bool :=
  if decide (ee_kind expected = "FeeFloor") then
    match error with
    | FeeFloor actual => assert_optional (ee_lane expected) (lane_name (lane actual))
    | _ => false
    end
  else if decide (ee_kind expected = "NoncePolicy") then
    match error with
    | NoncePolicyViolation actual => assert_optional (ee_context expected) (np_context actual)
    | _ => false
    end
  else false.

Definition assert_policy_rejects_before_dispatch (fixture : MempoolPolicyVector) : bool :=
  some_and (admit_input (pv_input fixture)) (fun '(r, verify_calls) =>
  expect_err r (fun error =>
  assert_eq (pv_expected_outcome fixture) "policy_reject" &&
  policy_expected_error error (pv_expected_error fixture) &&
  assert_optional (transaction_signature_verifications (pv_expected_effects fixture)) verify_calls)).

Definition policy_vector_holds (fixture : MempoolPolicyVector) : bool :=
  assert_eq (pv_category fixture) "mempool-policy" && assert_eq (pv_owned_by fixture) "shell-mempool" &&
  not_blank (pv_rule fixture) && not_blank (pv_description fixture) &&
  assert_policy_rejects_before_dispatch fixture.

(** [cheap_first_vectors.rs] of shell-mempool. *)
Definition cheap_first_expected_error (error : ValidationError) (input : MempoolInput) (expected : ExpectedError)
    : bool :=
  if decide (ee_kind expected = "PayloadRootMismatch") then
    match error with Mempool.Primitive _ => true | _ => false end &&
    match ma_payload_root_mode <$> head (mi_authorizations input) with
    | Some PayloadFlipFirstByte => true
    | _ => false
    end
  else if decide (ee_kind expected = "FeeFloor") then
    match error with
    | FeeFloor actual => assert_optional (ee_lane expected) (lane_name (lane actual))
    | _ => false
    end
  else false.

Definition assert_rejects_before_dispatch (fixture : CheapFirstVector) (input : MempoolInput) : bool :=
  some_and (admit_input input) (fun '(r, verify_calls) =>
  expect_err r (fun error =>
  cheap_first_expected_error error input (cf_expected_error fixture) &&
  assert_eq (cf_expected_outcome fixture)
    (if decide (ee_kind (cf_expected_error fixture) = "FeeFloor") then "policy_reject" else "reject") &&
  assert_optional (transaction_signature_verifications (cf_expected_effects fixture)) verify_calls)).

End mempool_vectors.

(** ** Consensus ordering vectors: [shell-consensus/tests/cheap_first_vectors.rs] *)

Import ConsensusTests.

Definition FixedResolver (credential : ProposerCredential) : ProposerCredentialResolver Calls := fun _query w =>
  (Ok credential,
   mk_calls (resolver_calls w + 1) (validator_calls w) (revalidator_calls w) (last_policy w)
     (preparer_calls w) (engine_calls w) (asserts_hold w)).

Record OutcomeDispatcher : Type := mk_outcome_dispatcher { od_outcome : SignatureOutcome }.

#[export] Instance OutcomeDispatcher_dispatcher : SignatureDispatcher Calls OutcomeDispatcher := {
  register_verifier self _verifier := (None, self);
  verifier _ _scheme_id := None;
  verify_transaction_authorization _ scheme_id _request :=
    fail_with (Crypto.UnsupportedScheme (mk_unsupported_scheme scheme_id));
  verify_validator_message self scheme_id _request w :=
    (match od_outcome self with
     | SignatureAccept => Ok tt
     | SignatureReject => Err (Crypto.VerificationFailed (mk_failure scheme_id
         "shared cheap-first consensus fixture rejected the proposer signature"))
     end,
     mk_calls (resolver_calls w) (validator_calls w + 1) (revalidator_calls w) (last_policy w)
       (preparer_calls w) (engine_calls w) (asserts_hold w))
}.

Section ordering_vectors.
Context `{SHA : Sha256}.

Definition build_header (input : ConsensusInput) : option ConsensusHeader :=
  let h := cin_header input in
  block_root ← parse_root (chi_block_root h);
  transactions_root ← parse_root (chi_transactions_root h);
  execution_witnesses_root ← parse_root (chi_execution_witnesses_root h);
  state_root ← parse_root (chi_state_root h);
  receipts_root ← parse_root (chi_receipts_root h);
  proposer_signature ← parse_hex (chi_proposer_signature_hex h);
  Some (mk_header (Ok block_root) (chi_witness_bytes h) transactions_root execution_witnesses_root state_root
          receipts_root proposer_signature (Some (chi_proposer_index h))).

Definition ordering_transaction (nonce : N) : TransactionEnvelope :=
  mk_envelope (new_basic (basic_with nonce 21000)) [].

Definition build_body (input : ConsensusInput) (header : ConsensusHeader) : ConsensusBody :=
  mk_body (Ok (RootMode_apply (cbi_transactions_root_mode (cin_body input)) (h_transactions_root header)))
    ((fun index => ordering_transaction (N.of_nat index + 1)) <$> seq 0 (cbi_transaction_count (cin_body input))).

(** The stub headers and bodies return their roots. *)
Definition ok_root (r : result Root PrimitiveError) : Root :=
  match r with
  | Ok root => root
  | Err _ => zeros 32
  end.

Definition build_sidecar (input : ConsensusInput) (header : ConsensusHeader) : ConsensusSidecar :=
  mk_sidecar (RootMode_apply (csi_block_root_mode (cin_sidecar input)) (ok_root (h_canonical_root header)))
    (RootMode_apply (csi_committed_root_mode (cin_sidecar input)) (execution_witnesses_root header)).

Definition build_execution_outcome (input : ConsensusInput) (header : ConsensusHeader) : BlockExecutionOutcome :=
  let post_state_root := RootMode_apply (cei_post_state_root_mode (cin_execution input)) (h_state_root header) in
  let receipts_root := RootMode_apply (cei_receipts_root_mode (cin_execution input)) (h_receipts_root header) in
  mk_block_outcome post_state_root receipts_root
    [mk_tx_outcome (filled 32 Byte.x11) post_state_root (mk_receipt Byte.x01 [Byte.x22])].

Definition input_limit (input : ConsensusInput) : option u64 := cin_prefilter input ≫= cpi_max_witness_bytes.

Definition ordering_expected_error (fixture : CheapFirstVector) (input : ConsensusInput)
    (header : ConsensusHeader) (body : ConsensusBody) (sidecar : ConsensusSidecar) (error : ConsensusError) : bool :=
  let kind := ee_kind (cf_expected_error fixture) in
  if decide (kind = "WitnessByteLimitExceeded") then
    match error with
    | WitnessByteLimitExceeded actual =>
        some_and (input_limit input) (fun max_bytes =>
        assert_eq actual (mk_witness_limit max_bytes (witness_bytes header)) &&
        assert_eq (cf_expected_outcome fixture) "policy_reject")
    | _ => false
    end
  else if decide (kind = "TransactionsRootMismatch") then
    match error with
    | HeaderBodyRootMismatch actual =>
        assert_eq actual (mk_body_mismatch (h_transactions_root header) (ok_root (b_transactions_root body))) &&
        assert_eq (cf_expected_outcome fixture) "reject"
    | _ => false
    end
  else if decide (kind = "SignatureVerification") then
    match error with
    | Consensus.Crypto (Crypto.VerificationFailed _) => assert_eq (cf_expected_outcome fixture) "reject"
    | _ => false
    end
  else if decide (kind = "SidecarMismatch") then
    match error with
    | SidecarCommitmentMismatch actual =>
        assert_eq actual (mk_sidecar_commitment_mismatch (execution_witnesses_root header) (committed_root sidecar)) &&
        assert_eq (cf_expected_outcome fixture) "reject"
    | _ => false
    end
  else false.

Definition assert_rejects_in_stage_order (fixture : CheapFirstVector) (input : ConsensusInput) : bool :=
  some_and (build_header input) (fun header =>
  some_and (parse_hex (cri_public_key_hex (cin_resolver input))) (fun public_key_material =>
  let body := build_body input header in
  let sidecar := build_sidecar input header in
  let config := mk_import_config (mk_prefilter (input_limit input)) RequireAll in
  let services := mk_services
    (FixedResolver (mk_credential (cri_scheme_id (cin_resolver input)) public_key_material))
    (mk_outcome_dispatcher (cdi_validator_signature (cin_dispatcher input)))
    CountingRevalidator CountingWitnessPreparer
    (FixedExecutionEngine (build_execution_outcome input header)) in
  let '(r, calls) := import_block config header body sidecar services no_calls in
  expect_err r (fun error =>
  ordering_expected_error fixture input header body sidecar error &&
  let effects := cf_expected_effects fixture in
  assert_optional (proposer_credential_resolutions effects) (resolver_calls calls) &&
  assert_optional (validator_signature_verifications effects) (validator_calls calls) &&
  assert_optional (transaction_revalidations effects) (revalidator_calls calls) &&
  assert_optional (witness_preparations effects) (preparer_calls calls) &&
  assert_optional (execution_calls effects) (engine_calls calls)))).

(** The loops of both [cheap_first_vectors.rs] over [vectors/validation-order]. *)
Definition cheap_first_vector_holds (fixture : CheapFirstVector) : bool :=
  assert_eq (cf_category fixture) "validation-order" &&
  match cf_input fixture with
  | MempoolLayer input =>
      assert_eq (cf_owned_by fixture) "shell-mempool" && not_blank (cf_rule fixture) &&
      not_blank (cf_description fixture) && assert_rejects_before_dispatch fixture input
  | ConsensusLayer input =>
      assert_eq (cf_owned_by fixture) "shell-consensus" && assert_rejects_in_stage_order fixture input
  end.

End ordering_vectors.

(** ** Crypto vectors: [shell-crypto/tests/crypto_vectors.rs] *)

Section crypto_vectors.
Context `{DALEK : Ed25519Dalek}.

Definition registry_from_fixture {W} (fixture : CryptoVector) : VerifierRegistry (W := W) :=
  match ci_dispatcher_config (cv_input fixture) with
  | None => VerifierRegistry_new
  | Some config =>
      VerifierRegistry_with_config (mk_config
        (default DEFAULT_USER_PATH_MAX_SIGNATURE_SIZE (dc_user_path_max_signature_size config))
        (dc_validator_path_max_signature_size config))
  end.

Definition dispatch (fixture : CryptoVector) : option (result unit CryptoError) :=
  let registry := (registry_register_verifier (registry_from_fixture (W := unit) fixture) Ed25519Verifier).2 in
  let input := cv_input fixture in
  public_key ← parse_hex (ci_public_key_hex input);
  signing_root ← parse_root (ci_signing_root_hex input);
  signature ← parse_hex (ci_signature_hex input);
  let request := mk_request public_key signing_root signature in
  Some (match ci_verification_path input with
        | TransactionAuthorizationInput => verify_transaction_authorization registry (ci_scheme_id input) request
        | ValidatorMessageInput => verify_validator_message registry (ci_scheme_id input) request
        end tt).1.

Definition parse_verification_path (value : string) : option VerificationPath :=
  if decide (value = "transaction_authorization") then Some Crypto.TransactionAuthorization
  else if decide (value = "validator_message") then Some Crypto.ValidatorMessage
  else None.

Definition parse_signature_limit_kind (value : string) : option SignatureLimitKind :=
  if decide (value = "repository_rule") then Some RepositoryRule
  else if decide (value = "local_transport_guard") then Some LocalTransportGuard
  else if decide (value = "scheme") then Some Scheme
  else None.

Definition assert_crypto_error (expected : CryptoExpectedError) (err : CryptoError) : bool :=
  match err with
  | Crypto.UnsupportedScheme actual =>
      assert_eq (xe_kind expected) "UnsupportedScheme" &&
      assert_optional (xe_scheme_id expected) (us_scheme_id actual)
  | Crypto.SignatureSizeExceeded actual =>
      assert_eq (xe_kind expected) "SignatureSizeExceeded" &&
      assert_optional (xe_max_size expected) (se_max_size actual) &&
      assert_optional (xe_actual_size expected) (se_actual_size actual) &&
      match xe_path expected with
      | Some path => assert_eq (parse_verification_path path) (Some (se_path actual))
      | None => true
      end &&
      match xe_limit_kind expected with
      | Some kind => assert_eq (parse_signature_limit_kind kind) (Some (se_kind actual))
      | None => true
      end
  | Crypto.VerificationFailed actual =>
      assert_eq (xe_kind expected) "VerificationFailed" &&
      assert_optional (xe_scheme_id expected) (vf_scheme_id actual) &&
      assert_optional (xe_context expected) (vf_context actual)
  end.

Definition crypto_vector_holds (fixture : CryptoVector) : bool :=
  assert_eq (cv_category fixture) "crypto" && assert_eq (cv_owned_by fixture) "shell-crypto" &&
  not_blank (cv_rule fixture) && not_blank (cv_description fixture) &&
  match cv_notes fixture with Some notes => not_blank notes | None => true end &&
  some_and (dispatch fixture) (fun r =>
  if decide (cv_expected_outcome fixture = "accept") then is_ok r
  else if decide (cv_expected_outcome fixture = "reject") then
    some_and (cv_expected_error fixture) (fun expected => expect_err r (assert_crypto_error expected))
  else false).

End crypto_vectors.

(** ** The unit tests of shell-fixtures *)

Section fixture_tests.
Context `{SHA : Sha256}.

(** The body of [shared_root_check_loader_materializes_canonical_scenarios], per file. *)
Definition shared_root_check_loader_materializes_canonical_scenarios (loaded : LoadedRootCheckScenario) : bool :=
  let fixture := lo_fixture loaded in
  let scenario := lo_scenario loaded in
  assert_eq (Some (rh_transactions_root (sn_header scenario))) (parse_root (rv_transactions_root fixture)) &&
  assert_eq (Some (rh_execution_witnesses_root (sn_header scenario)))
    (parse_root (rv_execution_witnesses_root fixture)) &&
  assert_eq (Some (rh_state_root (sn_header scenario))) (parse_root (rv_state_root fixture)) &&
  assert_eq (Some (rh_receipts_root (sn_header scenario))) (parse_root (rv_receipts_root fixture)) &&
  assert_eq (length (sn_steps scenario)) (length (sn_transactions scenario)).

(** The loader passes its own test on every file it can load, whatever the files hold. *)
Lemma loaded_scenarios_pass load_tx load_w fixture loaded :
  load_root_check_scenario load_tx load_w fixture = Some loaded ->
  shared_root_check_loader_materializes_canonical_scenarios loaded = true.
Proof.
  unfold load_root_check_scenario, resolve_root_check_scenario, assemble_scenario. intros Hl. inv_some. subst.
  unfold shared_root_check_loader_materializes_canonical_scenarios, assert_eq.
  cbn [lo_fixture lo_scenario sn_header sn_steps sn_transactions rh_transactions_root
       rh_execution_witnesses_root rh_state_root rh_receipts_root].
  repeat (apply andb_true_intro; split); apply bool_decide_eq_true_2; congruence.
Qed.

(** The body of [execution_semantics_vectors_bind_materialized_pre_state_roots], per
    file; [stem] is the name of the file without its extension. *)
Definition execution_semantics_vectors_bind_materialized_pre_state_roots (stem : string)
    (fixture : ExecutionSemanticsVector) : bool :=
  some_and (ExecutionSemanticsVector_materialized_state fixture) (fun materialized_state =>
  some_and (materialize_root_check_accumulator materialized_state) (fun accumulator =>
  assert_eq stem (sv_id fixture) && assert_eq (sv_category fixture) "execution-semantics" &&
  assert_eq (sv_owned_by fixture) "shell-execution" && not_blank (sv_description fixture) &&
  assert_eq (Some (root accumulator)) (parse_root (sv_pre_state_root fixture)) &&
  assert_eq (sm_transaction_vector_ids (sv_input fixture)) (ss_transaction_vector_id <$> sm_steps (sv_input fixture)))).

End fixture_tests.
