(* ===== verification/DirectoryTests.v ===== *)
(** * The directory tests

    The integration tests that go through a category of [vectors/] and assert something
    of every file: the validation, transaction and block vectors, whose drivers are
    here, and the entry points over the drivers of [FixtureVectors].  A driver returns
    whether all of its assertions held; a panic is [false].  The records the tests of
    shell-primitives declare again for transactions are those of shell-fixtures. *)

From S2P Require Import Prelude Primitives StateKeys Codec Hash Sha256 OrdMap Ssz State Validation.
From S2P Require Import Crypto Mempool Execution Consensus Network Fixtures VectorFiles Testing ConformancePipelines FixtureVectors.

(** [if let Some(notes) = &fixture.notes { assert!(!notes.trim().is_empty()) }]. *)
Definition notes_ok (notes : option string) : bool :=
  match notes with
  | Some notes => not_blank notes
  | None => true
  end.

(** [unwrap_or_else(|| panic!(..))] of a root that is checked when it is present. *)
Definition assert_optional_root (expected : option string) (actual : Root) : bool :=
  match expected with
  | Some expected => assert_eq (parse_root expected) (Some actual)
  | None => true
  end.

(** ** [shell-primitives/tests/validation_vectors.rs] *)

Module ValidationVectors.

Record AuthorizationInput : Type := mk_authorization_input {
  ai_scheme_id : byte;
  ai_payload_root : string;
  ai_signature_hex : string
}.

Record ValidationInput : Type := mk_validation_input {
  vi_authorizations : option (list AuthorizationInput);
  vi_wire_hex : option string;
  vi_signature_size : option N
}.

Record ExpectedValidationError : Type := mk_validation_error {
  ve_kind : string;
  ve_expected_at_least : option N;
  ve_actual : option N;
  ve_expected_root : option string;
  ve_actual_root : option string;
  ve_max_bytes : option N;
  ve_actual_bytes : option N
}.

Record ValidationVector : Type := mk_validation_vector {
  vv_id : string;
  vv_category : string;
  vv_rule : string;
  vv_description : string;
  vv_input : ValidationInput;
  vv_expected_outcome : string;
  vv_expected_error : option ExpectedValidationError;
  vv_owned_by : string;
  vv_notes : option string
}.

Section driver.
Context `{SHA : Sha256}.

Definition build_authorizations (fixture : ValidationVector) : option (list Authorization) :=
  mapM (fun a =>
    payload_root ← parse_root (ai_payload_root a);
    signature ← parse_hex (ai_signature_hex a);
    Some (mk_authorization (ai_scheme_id a) payload_root signature))
    (default [] (vi_authorizations (vv_input fixture))).

Definition decode_vector_payload (fixture : ValidationVector) : option TransactionPayloadSsz :=
  wire_hex ← vi_wire_hex (vv_input fixture);
  wire ← parse_hex wire_hex;
  match TransactionPayloadSsz_from_wire_bytes wire with
  | Ok payload => Some payload
  | Err _ => None
  end.

Definition build_signature (fixture : ValidationVector) : option (list byte) :=
  (fun size => replicate (N.to_nat size) Byte.x00) <$> vi_signature_size (vv_input fixture).

(** The check a rule names, on the vector's input; [None] is a panic. *)
Definition run_rule (fixture : ValidationVector) : option (result unit PrimitiveError) :=
  if decide (vv_rule fixture = "authorization_count") then
    auths ← build_authorizations fixture;
    Some (check_authorization_count auths)
  else if decide (vv_rule fixture = "authorization_payload_roots") then
    payload ← decode_vector_payload fixture;
    auths ← build_authorizations fixture;
    Some (check_authorization_payload_roots payload auths)
  else if decide (vv_rule fixture = "user_signature_size") then
    sig ← build_signature fixture;
    Some (check_user_signature_size sig)
  else None.

Definition assert_accept (fixture : ValidationVector) : bool := some_and (run_rule fixture) is_ok.

Definition assert_authorization_count_error (expected : ExpectedValidationError) (err : PrimitiveError) : bool :=
  match err with
  | AuthorizationCount actual =>
      assert_eq (ve_kind expected) "AuthorizationCount" &&
      assert_optional (ve_expected_at_least expected) (expected_at_least actual) &&
      assert_optional (ve_actual expected) (ac_actual actual)
  | _ => false
  end.

Definition assert_payload_root_mismatch_error (expected : ExpectedValidationError) (err : PrimitiveError) : bool :=
  match err with
  | PayloadRootMismatch actual =>
      assert_eq (ve_kind expected) "PayloadRootMismatch" &&
      assert_optional_root (ve_expected_root expected) (prm_expected actual) &&
      assert_optional_root (ve_actual_root expected) (prm_actual actual)
  | _ => false
  end.

Definition assert_signature_size_error (expected : ExpectedValidationError) (err : PrimitiveError) : bool :=
  match err with
  | Primitives.SignatureSizeExceeded actual =>
      assert_eq (ve_kind expected) "SignatureSizeExceeded" &&
      match ve_max_bytes expected with
      | Some exp_max =>
          assert_eq (Primitives.max_bytes actual) exp_max && assert_eq (Primitives.max_bytes actual) MAX_USER_SIGNATURE_BYTES
      | None => true
      end &&
      assert_optional (ve_actual_bytes expected) (actual_bytes actual)
  | _ => false
  end.

(** The assertion the rule's error goes to. *)
Definition assert_rule_error (fixture : ValidationVector) (expected : ExpectedValidationError)
    (err : PrimitiveError) : bool :=
  if decide (vv_rule fixture = "authorization_count") then assert_authorization_count_error expected err
  else if decide (vv_rule fixture = "authorization_payload_roots") then
    assert_payload_root_mismatch_error expected err
  else if decide (vv_rule fixture = "user_signature_size") then assert_signature_size_error expected err
  else false.

Definition assert_reject (fixture : ValidationVector) : bool :=
  some_and (vv_expected_error fixture) (fun expected =>
  some_and (run_rule fixture) (fun r => expect_err r (assert_rule_error fixture expected))).

Definition validation_vector_holds (fixture : ValidationVector) : bool :=
  assert_eq (vv_category fixture) "validation" && assert_eq (vv_owned_by fixture) "shell-primitives" &&
  not_blank (vv_description fixture) && notes_ok (vv_notes fixture) &&
  if decide (vv_expected_outcome fixture = "accept") then assert_accept fixture
  else if decide (vv_expected_outcome fixture = "reject") then assert_reject fixture
  else false.

Definition validation_vectors_match_the_closed_t1_rules (fs : FileSystem) `{Deserialize ValidationVector} : bool :=
  check_directory fs vv_id validation_vector_holds (fixture_paths fs "validation").

End driver.
End ValidationVectors.

(** ** [shell-primitives/tests/transaction_vectors.rs] *)

Module TransactionVectors.
Section driver.
Context `{SHA : Sha256}.

Definition assert_accept_fixture (fixture : TransactionVector) : bool :=
  some_and (TransactionVector_payload fixture) (fun payload =>
  expect (TransactionPayloadSsz_to_wire_bytes payload) (fun wire =>
  expect (TransactionPayloadSsz_from_wire_bytes wire) (fun decoded =>
  expect (hash_tree_root payload) (fun root =>
  assert_eq payload decoded &&
  some_and (tv_payload_tag fixture) (fun expected_tag =>
  assert_eq (protocol_tag payload) expected_tag &&
  some_and (tv_payload_root fixture ≫= parse_root) (fun expected_root =>
  assert_eq root expected_root &&
  expect (hash_tree_root decoded) (fun decoded_root =>
  assert_eq decoded_root expected_root &&
  some_and (wire_hex (tv_input fixture) ≫= parse_hex) (fun expected_wire =>
  assert_eq wire expected_wire &&
  assert_eq (tv_authorization_count fixture) (Some 0%N))))))))).

Definition assert_reject_fixture (fixture : TransactionVector) : bool :=
  some_and (wire_hex (tv_input fixture) ≫= parse_hex) (fun wire =>
  expect_err (TransactionPayloadSsz_from_wire_bytes wire) (fun error =>
  some_and (tv_expected_error fixture) (fun expected =>
  match error with
  | UnsupportedPayloadVariant actual =>
      assert_eq (te_kind expected) "UnsupportedPayloadVariant" && assert_eq (Some (uv_tag actual)) (te_tag expected)
  | MalformedSsz actual =>
      assert_eq (te_kind expected) "MalformedSsz" && assert_eq (Some (ms_context actual)) (te_context expected)
  | _ => false
  end))).

Definition transaction_vector_holds (fixture : TransactionVector) : bool :=
  assert_eq (tv_category fixture) "transaction" && assert_eq (tv_owned_by fixture) "shell-primitives" &&
  not_blank (tv_description fixture) && notes_ok (tv_notes fixture) &&
  if decide (tv_expected_outcome fixture = "accept") then assert_accept_fixture fixture
  else if decide (tv_expected_outcome fixture = "reject") then assert_reject_fixture fixture
  else false.

Definition transaction_vectors_match_the_closed_codec_and_root_contract (fs : FileSystem)
    `{Deserialize TransactionVector} : bool :=
  check_directory fs tv_id transaction_vector_holds (transaction_fixture_paths fs).

End driver.
End TransactionVectors.

(** ** [shell-consensus/tests/consensus_vectors.rs] *)

Module BlockVectors.

Record BlockHeaderInput : Type := mk_block_header_input {
  bh_block_number : u64;
  bh_timestamp : u64;
  bh_proposer_index : u64;
  bh_parent_root : string;
  bh_transactions_root : string;
  bh_execution_witnesses_root : string;
  bh_state_root : string;
  bh_receipts_root : string;
  bh_witness_bytes : u64;
  bh_proposer_signature_hex : string
}.

Record BlockBodyInput : Type := mk_block_body_input { bi_transaction_vector_ids : list string }.

Record BlockSidecarInput : Type := mk_block_sidecar_input {
  bsi_block_root : string;
  bsi_witness_vector_ids : list string
}.

Record LocalLimitsInput : Type := mk_local_limits { li_max_witness_bytes : option u64 }.

Record ExecutionResultInput : Type := mk_execution_result {
  xr_post_state_root : string;
  xr_receipts_root : string
}.

Record ConsensusExpectedError : Type := mk_consensus_expected {
  ce_kind : string;
  ce_expected_root : option string;
  ce_actual_root : option string;
  ce_max_bytes : option u64;
  ce_actual_bytes : option u64
}.

Record BlockInput : Type := mk_block_input {
  bv_header : BlockHeaderInput;
  bv_body : option BlockBodyInput;
  bv_sidecar : option BlockSidecarInput;
  computed_transactions_root : option string;
  computed_block_root : option string;
  computed_sidecar_root : option string;
  local_limits : option LocalLimitsInput;
  execution_result : option ExecutionResultInput
}.

Record ConsensusVector : Type := mk_consensus_vector {
  bv_id : string;
  bv_category : string;
  bv_rule : string;
  bv_description : string;
  bv_input : BlockInput;
  bv_expected_outcome : string;
  bv_expected_error : option ConsensusExpectedError;
  bv_owned_by : string;
  bv_notes : option string;
  bv_transactions_root : option string;
  bv_execution_witnesses_root : option string;
  bv_state_root : option string;
  bv_receipts_root : option string
}.

(** [.map_or([0u8; 32], parse_root)]. *)
Definition root_or_zero (value : option string) : option Root :=
  match value with
  | Some value => parse_root value
  | None => Some (zeros 32)
  end.

Definition build_vector_header (fixture : ConsensusVector) : option CanonicalBlockHeader :=
  let h := bv_header (bv_input fixture) in
  _ ← assert_that (0 < uval (bh_block_number h))%N;
  _ ← assert_that (0 < uval (bh_timestamp h))%N;
  parent_root ← parse_root (bh_parent_root h);
  block_root ← root_or_zero (computed_block_root (bv_input fixture));
  transactions_root ← parse_root (bh_transactions_root h);
  execution_witnesses_root ← parse_root (bh_execution_witnesses_root h);
  state_root ← parse_root (bh_state_root h);
  receipts_root ← parse_root (bh_receipts_root h);
  proposer_signature ← parse_hex (bh_proposer_signature_hex h);
  Some (mk_canonical_header block_root (bh_block_number h) (bh_timestamp h) parent_root (bh_witness_bytes h)
          transactions_root execution_witnesses_root state_root receipts_root proposer_signature
          (Some (bh_proposer_index h))).

(** The ids a vector refers to: at least one, none blank. *)
Definition ids_ok (ids : list string) : Prop := ids <> [] /\ Forall (fun id => not_blank id = true) ids.

#[export] Instance ids_ok_dec ids : Decision (ids_ok ids).
Proof. unfold ids_ok. apply _. Defined.

Definition build_body_binding_case (fixture : ConsensusVector)
    : option (CanonicalBlockHeader * CanonicalBlockBody) :=
  header ← build_vector_header fixture;
  body ← bv_body (bv_input fixture);
  _ ← assert_that (ids_ok (bi_transaction_vector_ids body));
  transactions_root ← computed_transactions_root (bv_input fixture) ≫= parse_root;
  Some (header, mk_canonical_body [] transactions_root).

Definition build_sidecar_case (fixture : ConsensusVector)
    : option (CanonicalBlockHeader * CanonicalBlockSidecar) :=
  header ← build_vector_header fixture;
  sidecar ← bv_sidecar (bv_input fixture);
  _ ← assert_that (ids_ok (bsi_witness_vector_ids sidecar));
  block_root ← parse_root (bsi_block_root sidecar);
  execution_witnesses_root ← computed_sidecar_root (bv_input fixture) ≫= parse_root;
  Some (header, mk_canonical_sidecar block_root execution_witnesses_root []).

(** The doubles hold no state; the services a check does not call refuse. *)
Definition NoopWitnessPreparer : WitnessPreparer unit := fun _header _sidecar => ret tt.

Definition FixedOutcomeEngine (outcome : BlockExecutionOutcome) : BlockExecutionEngine unit :=
  fun _header _body _sidecar => ret outcome.

Definition UncalledEngine : BlockExecutionEngine unit :=
  fun _header _body _sidecar => fail_with (Executor "not called").

Definition vector_services (engine : BlockExecutionEngine unit)
    : BlockImportServices unit (VerifierRegistry (W := unit)) :=
  mk_services (fun _query => fail_with ResolverUnavailable) VerifierRegistry_new
    (fun _transaction _policy => fail_with (Mempool.Primitive (MalformedSsz (mk_malformed "not called"))))
    NoopWitnessPreparer engine.

Definition build_execution_case (fixture : ConsensusVector)
    : option (CanonicalBlockHeader * CanonicalBlockBody * CanonicalBlockSidecar * BlockExecutionOutcome) :=
  '(header, body) ← build_body_binding_case fixture;
  '(_, sidecar) ← build_sidecar_case fixture;
  execution ← execution_result (bv_input fixture);
  post_state_root ← parse_root (xr_post_state_root execution);
  receipts_root ← parse_root (xr_receipts_root execution);
  Some (header, body, sidecar, mk_block_outcome post_state_root receipts_root
    [mk_tx_outcome (filled 32 Byte.x11) post_state_root (mk_receipt Byte.x01 [Byte.x22])]).

(** The call a rule names, and whether it failed; [None] is a panic. *)
Definition run_block_rule (fixture : ConsensusVector) : option (result unit ConsensusError) :=
  let drop {A} (r : result A ConsensusError) := let? _ := r in Ok tt in
  if decide (bv_rule fixture = "transactions_root_binding") then
    '(header, body) ← build_body_binding_case fixture;
    Some (verify_body_binding (CanonicalBlockHeader_header header) (CanonicalBlockBody_body body))
  else if decide (bv_rule fixture = "sidecar_commitment") then
    '(header, sidecar) ← build_sidecar_case fixture;
    block_root ← computed_block_root (bv_input fixture) ≫= parse_root;
    Some (verify_sidecar_binding (CanonicalBlockHeader_header header) block_root
            (CanonicalBlockSidecar_sidecar sidecar) (vector_services UncalledEngine) tt).1
  else if decide (bv_rule fixture = "header_witness_bytes_prefilter") then
    header ← build_vector_header fixture;
    let config := mk_prefilter (local_limits (bv_input fixture) ≫= li_max_witness_bytes) in
    Some (drop (prefilter_header (CanonicalBlockHeader_header header) config))
  else if decide (bv_rule fixture = "execution_root_comparison") then
    '(header, body, sidecar, outcome) ← build_execution_case fixture;
    Some (drop (execute_and_compare (CanonicalBlockHeader_header header) (CanonicalBlockBody_body body)
            (CanonicalBlockSidecar_sidecar sidecar) (vector_services (FixedOutcomeEngine outcome)) tt).1)
  else None.

Definition assert_root_mismatch (expected : ConsensusExpectedError) (actual_expected actual_actual : Root) : bool :=
  assert_optional_root (ce_expected_root expected) actual_expected &&
  assert_optional_root (ce_actual_root expected) actual_actual.

Definition assert_consensus_error (expected : ConsensusExpectedError) (err : ConsensusError) : bool :=
  match err with
  | HeaderBodyRootMismatch actual =>
      assert_eq (ce_kind expected) "TransactionsRootMismatch" &&
      assert_root_mismatch expected (hb_expected actual) (hb_actual actual)
  | SidecarCommitmentMismatch actual =>
      assert_eq (ce_kind expected) "SidecarMismatch" &&
      assert_root_mismatch expected (sc_expected actual) (sc_actual actual)
  | WitnessByteLimitExceeded actual =>
      assert_eq (ce_kind expected) "WitnessByteLimitExceeded" &&
      assert_optional (ce_max_bytes expected) (wl_max_bytes actual) &&
      assert_optional (ce_actual_bytes expected) (wl_actual_bytes actual)
  | Consensus.Execution (PostStateRootMismatch actual_expected actual_actual) =>
      assert_eq (ce_kind expected) "PostStateRootMismatch" &&
      assert_root_mismatch expected actual_expected actual_actual
  | Consensus.Execution (ReceiptsRootMismatch actual_expected actual_actual) =>
      assert_eq (ce_kind expected) "ReceiptsRootMismatch" &&
      assert_root_mismatch expected actual_expected actual_actual
  | _ => false
  end.

Definition assert_block_accept (fixture : ConsensusVector) : bool := some_and (run_block_rule fixture) is_ok.

Definition assert_block_reject (fixture : ConsensusVector) : bool :=
  some_and (bv_expected_error fixture) (fun expected =>
  some_and (run_block_rule fixture) (fun r => expect_err r (assert_consensus_error expected))).

(** A root stated next to the input is the header's. *)
Definition top_level_root_ok (root : option string) (of_header : string) : bool :=
  match root with
  | Some root => some_and (parse_root root) (fun r => assert_eq (Some r) (parse_root of_header))
  | None => true
  end.

Definition block_vector_holds (fixture : ConsensusVector) : bool :=
  let h := bv_header (bv_input fixture) in
  assert_eq (bv_category fixture) "block" && assert_eq (bv_owned_by fixture) "shell-consensus" &&
  not_blank (bv_rule fixture) && not_blank (bv_description fixture) && notes_ok (bv_notes fixture) &&
  top_level_root_ok (bv_transactions_root fixture) (bh_transactions_root h) &&
  top_level_root_ok (bv_execution_witnesses_root fixture) (bh_execution_witnesses_root h) &&
  top_level_root_ok (bv_state_root fixture) (bh_state_root h) &&
  top_level_root_ok (bv_receipts_root fixture) (bh_receipts_root h) &&
  if decide (bv_expected_outcome fixture = "accept") then assert_block_accept fixture
  else if decide (bv_expected_outcome fixture = "reject") then assert_block_reject fixture
  else false.

(** This test unwraps every entry of the directory. *)
Definition block_fixture_paths (fs : FileSystem) : option (list PathBuf) :=
  entries ← read_dir fs "blocks";
  _ ← mapM (fun entry => entry) entries;
  Some (json_paths "blocks" entries).

Definition consensus_vectors_cover_minimal_block_header_sidecar_contracts (fs : FileSystem)
    `{Deserialize ConsensusVector} : bool :=
  check_directory fs bv_id block_vector_holds (block_fixture_paths fs).

End BlockVectors.

(** ** [validator_path_crypto_vectors.rs] of shell-consensus and shell-network *)

Module ValidatorPath.
Import ConsensusTests.

(** The vectors both tests select. *)
Definition validator_path_reject (fixture : CryptoVector) : bool :=
  negb (bool_decide (cv_expected_outcome fixture <> "reject")) &&
  match ci_verification_path (cv_input fixture) with
  | ValidatorMessageInput => true
  | TransactionAuthorizationInput => false
  end.

Record RegistryDispatcher : Type := mk_registry_dispatcher { rd_registry : VerifierRegistry (W := Calls) }.

#[export] Instance RegistryDispatcher_dispatcher : SignatureDispatcher Calls RegistryDispatcher := {
  register_verifier self v :=
    let '(replaced, registry) := registry_register_verifier (rd_registry self) v in
    (replaced, mk_registry_dispatcher registry);
  verifier self scheme_id := registry_verifier (rd_registry self) scheme_id;
  verify_transaction_authorization self scheme_id request :=
    verify_transaction_authorization (rd_registry self) scheme_id request;
  verify_validator_message self scheme_id request w :=
    verify_validator_message (rd_registry self) scheme_id request
      (mk_calls (resolver_calls w) (validator_calls w + 1) (revalidator_calls w) (last_policy w)
         (preparer_calls w) (engine_calls w) (asserts_hold w))
}.

(** [unreachable!]: the call panics. *)
Definition UnreachableEngine : BlockExecutionEngine Calls := fun _header _body _sidecar w =>
  (Err (Executor "validator-path negative fixtures should never execute blocks"),
   mk_calls (resolver_calls w) (validator_calls w) (revalidator_calls w) (last_policy w)
     (preparer_calls w) (engine_calls w + 1) false).

Section driver.
Context `{SHA : Sha256} `{DALEK : Ed25519Dalek}.

Definition RegistryDispatcher_from_fixture (fixture : CryptoVector) : RegistryDispatcher :=
  mk_registry_dispatcher (registry_register_verifier (registry_from_fixture fixture) Ed25519Verifier).2.

Definition validator_path_stops_at_b1 (fixture : CryptoVector) : bool :=
  some_and (parse_hex (ci_signature_hex (cv_input fixture))) (fun proposer_signature =>
  some_and (parse_hex (ci_public_key_hex (cv_input fixture))) (fun public_key_material =>
  some_and (cv_expected_error fixture) (fun expected =>
  let header := StubHeader_header (mk_stub_header (filled 32 Byte.x11) 128 (filled 32 Byte.x22)
    (filled 32 Byte.x33) (filled 32 Byte.x44) (filled 32 Byte.x55) proposer_signature (Some 7%N)) in
  let body := StubBody_body (mk_stub_body (filled 32 Byte.x22) [ordering_transaction 1]) in
  let sidecar := StubSidecar_sidecar (mk_stub_sidecar (filled 32 Byte.x11) (filled 32 Byte.x33)) in
  let services := mk_services
    (FixedResolver (mk_credential (ci_scheme_id (cv_input fixture)) public_key_material))
    (RegistryDispatcher_from_fixture fixture) CountingRevalidator CountingWitnessPreparer UnreachableEngine in
  let '(r, calls) := import_block BlockImportConfig_default header body sidecar services no_calls in
  expect_err r (fun error =>
  match error with
  | Consensus.Crypto actual => assert_crypto_error expected actual
  | _ => false
  end &&
  assert_eq (resolver_calls calls) 1 && assert_eq (validator_calls calls) 1 &&
  assert_eq (revalidator_calls calls) 0 && assert_eq (preparer_calls calls) 0 &&
  assert_eq (engine_calls calls) 0 && asserts_hold calls)))).

Definition validator_path_negative_crypto_vectors_stop_consensus_at_b1 (fs : FileSystem)
    `{Deserialize CryptoVector} : bool :=
  check_selected fs validator_path_reject (fun _path fixture => validator_path_stops_at_b1 fixture)
    (crypto_fixture_paths fs).

End driver.

Definition expected_crypto_error (expected : CryptoExpectedError) : option CryptoError :=
  if decide (xe_kind expected = "UnsupportedScheme") then
    scheme_id ← xe_scheme_id expected;
    Some (Crypto.UnsupportedScheme (mk_unsupported_scheme scheme_id))
  else if decide (xe_kind expected = "SignatureSizeExceeded") then
    max_size ← xe_max_size expected;
    actual_size ← xe_actual_size expected;
    path ← xe_path expected ≫= parse_verification_path;
    kind ← xe_limit_kind expected ≫= parse_signature_limit_kind;
    Some (Crypto.SignatureSizeExceeded (mk_size_exceeded max_size actual_size path kind))
  else if decide (xe_kind expected = "VerificationFailed") then
    scheme_id ← xe_scheme_id expected;
    context ← xe_context expected;
    Some (Crypto.VerificationFailed (mk_failure scheme_id context))
  else None.

Definition validator_path_classified (fixture : CryptoVector) : bool :=
  some_and (cv_expected_error fixture) (fun expected =>
  some_and (expected_crypto_error expected) (fun error =>
  let action := peer_action_for_consensus_error (Gossip (PeerId_from (filled 32 Byte.x07))) (Consensus.Crypto error) in
  let expected_action :=
    if decide (xe_limit_kind expected = Some "local_transport_guard")
    then AdjustReputation (ReputationDelta_new (-5) OversizedObject)
    else Disconnect InvalidSignature in
  assert_eq action expected_action)).

Definition validator_path_negative_crypto_vectors_keep_network_classification_stable (fs : FileSystem)
    `{Deserialize CryptoVector} : bool :=
  check_selected fs validator_path_reject (fun _path fixture => validator_path_classified fixture)
    (crypto_fixture_paths fs).

End ValidatorPath.

(** ** The entry points over the drivers of [FixtureVectors] *)

Section entry_points.
Context (fs : FileSystem).

Definition shared_peer_action_vectors_cover_network_mapping_contract `{Deserialize PeerActionVector} : bool :=
  check_directory fs pa_id peer_action_vector_holds (peer_action_fixture_paths fs).

Definition crypto_vectors_match_the_dispatch_contract `{Ed25519Dalek} `{Deserialize CryptoVector} : bool :=
  check_directory fs cv_id crypto_vector_holds (crypto_fixture_paths fs).

Context `{SHA : Sha256}.

Definition fixture_driven_vectors_cover_mempool_fee_and_nonce_policy `{Deserialize MempoolPolicyVector} : bool :=
  check_directory fs pv_id policy_vector_holds (mempool_policy_fixture_paths fs).

(** Each layer's test passes over the vectors of the other. *)
Definition is_mempool_vector (fixture : CheapFirstVector) : bool :=
  match cf_input fixture with
  | MempoolLayer _ => true
  | ConsensusLayer _ => false
  end.

Definition ordering_vector_checked (path : PathBuf) (fixture : CheapFirstVector) : bool :=
  bool_decide (file_stem path = Some (cf_id fixture)) && cheap_first_vector_holds fixture.

Definition shared_cheap_first_vectors_cover_mempool_ordering_contract `{Deserialize CheapFirstVector} : bool :=
  check_selected fs is_mempool_vector ordering_vector_checked (validation_order_fixture_paths fs).

Definition shared_cheap_first_vectors_cover_consensus_ordering_contract `{Deserialize CheapFirstVector} : bool :=
  check_selected fs (fun fixture => negb (is_mempool_vector fixture)) ordering_vector_checked
    (validation_order_fixture_paths fs).

(** The two tests of shell-fixtures itself. *)
Definition shared_loader_test `{Deserialize TransactionVector, Deserialize WitnessVector,
    Deserialize RootCheckVector} : bool :=
  some_and (root_check_fixture_paths fs) (fun paths =>
  negb (bool_decide (paths = [])) &&
  forallb (fun path => some_and (load_root_check_scenario_at fs path)
             shared_root_check_loader_materializes_canonical_scenarios) (sort_paths paths)).

Definition semantics_pre_state_test `{Deserialize ExecutionSemanticsVector} : bool :=
  some_and (execution_semantics_fixture_paths fs) (fun paths =>
  negb (bool_decide (paths = [])) &&
  forallb (fun path => some_and (load_fixture fs path) (fun fixture =>
             some_and (file_stem path) (fun stem =>
             execution_semantics_vectors_bind_materialized_pre_state_roots stem fixture))) (sort_paths paths)).

End entry_points.
