(* ===== verification/ScenarioTests.v ===== *)
(** * The witness, execution and root-check tests

    The integration tests over [vectors/witnesses], [vectors/execution-semantics] and
    [vectors/root-checks]: [shell-state/tests/witness_vectors.rs], both tests of
    [shell-execution/tests] and [shell-consensus/tests/root_check_vectors.rs].  A driver
    returns whether all of its assertions held; a panic is [false].  The records the
    tests of shell-state declare again are those of shell-fixtures. *)

From S2P Require Import Prelude Primitives StateKeys Codec Hash Sha256 OrdMap Ssz State Validation.
From S2P Require Import Crypto Mempool Execution Consensus Network Fixtures VectorFiles Testing ConformancePipelines FixtureVectors DirectoryTests.

(** ** [shell-state/tests/witness_vectors.rs] *)

Module WitnessVectors.

(** [if let Some(kind) = .. { assert!(!kind.trim().is_empty()) }]. *)
Definition present_not_blank (value : option string) : bool :=
  match value with
  | Some value => not_blank value
  | None => true
  end.

Definition build_witnesses (fixture : WitnessVector) : option (list StateWitness) :=
  witnesses ← wi_witnesses (wv_input fixture);
  mapM to_state_witness witnesses.

Definition shape_witnesses (fixture : WitnessVector) : option (list StateWitness) :=
  match wi_witness (wv_input fixture) with
  | Some witness => (fun w => [w]) <$> to_state_witness witness
  | None =>
      match wi_witnesses (wv_input fixture) with
      | Some witnesses => mapM to_state_witness witnesses
      | None => Some []
      end
  end.

Definition assert_fixture_proof_shape_kind (fixture : WitnessVector) : bool :=
  match (match wi_proof_shape_kind (wv_input fixture) with
         | Some declared => Some declared
         | None => wv_proof_shape_kind fixture
         end) with
  | None => true
  | Some declared =>
      some_and (shape_witnesses fixture) (fun witnesses =>
      match witnesses with
      | [] => true
      | _ :: _ =>
          let actual :=
            if forallb (fun w => assert_eq (WitnessProofShape_as_str (proof_shape w)) "reference_empty") witnesses
            then "reference_empty" else "placeholder_committed_nodes" in
          assert_eq actual declared
      end)
  end.

Definition assert_state_error (expected : WitnessExpectedError) (err : StateError) : bool :=
  match err with
  | NonCanonicalWitnessOrdering actual =>
      assert_eq (we_kind expected) "NonCanonicalWitnessOrdering" &&
      assert_optional (we_index expected) (N.of_nat (wo_index actual)) &&
      assert_optional (we_context expected) (wo_context actual)
  | UnsupportedProofShape actual =>
      assert_eq (we_kind expected) "UnsupportedProofShape" && assert_optional (we_context expected) actual
  | WitnessVerificationFailed actual =>
      assert_eq (we_kind expected) "WitnessVerificationFailed" && assert_optional (we_context expected) actual
  | _ => false
  end.

Section driver.
Context `{SHA : Sha256}.

Definition build_reference_proof_case (fixture : WitnessVector) : option (InMemoryAccumulator * StateWitness) :=
  entries ← wi_materialized_state (wv_input fixture);
  entries ← mapM to_entry entries;
  let materialized := sort_entries entries in
  accumulator ←
    match materialized with
    | [] => Some InMemoryAccumulator_new
    | _ :: _ =>
        match apply_transition (entries_patch materialized) InMemoryAccumulator_new with
        | (Ok _, accumulator) => Some accumulator
        | (Err _, _) => None
        end
    end;
  witness ← wi_witness (wv_input fixture);
  witness ← to_state_witness witness;
  Some (accumulator, witness).

(** The calls of the rule up to the first error; [None] is a panic. *)
Definition run_witness_rule (fixture : WitnessVector) : option (result unit StateError) :=
  if decide (wv_rule fixture = "canonical_state_key_ordering") then
    witnesses ← build_witnesses fixture;
    Some (ensure_canonical_witness_order witnesses)
  else if decide (wv_rule fixture = "reference_proof_reconstruction") then
    '(accumulator, witness) ← build_reference_proof_case fixture;
    match ensure_reference_backend_proof_shape witness with
    | Ok _ =>
        expected_root ← wi_expected_state_root (wv_input fixture) ≫= parse_root;
        Some (verify_witness accumulator witness expected_root)
    | Err err => Some (Err err)
    end
  else None.

Definition assert_witness_accept (fixture : WitnessVector) : bool :=
  some_and (run_witness_rule fixture) is_ok &&
  (if decide (wv_rule fixture = "canonical_state_key_ordering")
   then match wi_ordering_is_canonical (wv_input fixture) with Some expected => expected | None => true end
   else true).

Definition assert_witness_reject (fixture : WitnessVector) : bool :=
  some_and (wv_expected_error fixture) (fun expected =>
  some_and (run_witness_rule fixture) (fun r => expect_err r (assert_state_error expected))).

Definition witness_vector_holds (fixture : WitnessVector) : bool :=
  assert_eq (wv_category fixture) "witness" && assert_eq (wv_owned_by fixture) "shell-state" &&
  not_blank (wv_rule fixture) && not_blank (wv_description fixture) && notes_ok (wv_notes fixture) &&
  match wv_state_keys fixture with
  | Some state_keys => negb (bool_decide (state_keys = []))
  | None => true
  end &&
  present_not_blank (wv_proof_shape_kind fixture) && present_not_blank (wi_proof_shape_kind (wv_input fixture)) &&
  assert_fixture_proof_shape_kind fixture &&
  if decide (wv_expected_outcome fixture = "accept") then assert_witness_accept fixture
  else if decide (wv_expected_outcome fixture = "reject") then assert_witness_reject fixture
  else false.

Definition witness_vectors_match_the_reference_proof_contract (fs : FileSystem) `{Deserialize WitnessVector} : bool :=
  check_directory fs wv_id witness_vector_holds (witness_fixture_paths fs).

End driver.
End WitnessVectors.

(** ** [shell-execution/tests/execution_semantics_vectors.rs] *)

Module SemanticsVectors.

Section driver.
Context `{SHA : Sha256}.
Context (load_transaction : string -> option TransactionVector).

Record FixtureExecution : Type := mk_fixture_execution {
  fe_pre_state_root : Root;
  fe_planner_exhausted : bool;
  fe_final_applier_root : Root;
  fe_manual_post_state_roots : list Root;
  fe_manual_receipt_roots : list Root;
  fe_outcome : result BlockExecutionOutcome ExecutionError
}.

Definition load_envelope (id : string) : option TransactionEnvelope :=
  load_transaction id ≫= TransactionVector_envelope.

Definition step_receipt (step : ExecutionSemanticsStep) : option ExecutionReceipt :=
  mk_receipt (ss_receipt_status_code step) <$> ExecutionSemanticsStep_receipt_output step.

Definition step_plan (step : ExecutionSemanticsStep) : option TransactionExecutionPlan :=
  state_patch ← ExecutionSemanticsStep_state_patch step;
  receipt ← step_receipt step;
  Some (mk_plan state_patch receipt).

Definition planned_step_of (step : ExecutionSemanticsStep) : option PlannedTransaction :=
  transaction ← load_envelope (ss_transaction_vector_id step);
  plan ← step_plan step;
  match PlannedTransaction_from_transaction transaction plan with
  | Ok planned => Some planned
  | Err _ => None
  end.

(** The loop over the steps with an applier of its own: a receipt root for every step
    reached, a state root for every step applied, and a stop at the first refusal. *)
Fixpoint manual_loop (plans : list TransactionExecutionPlan) (current_state_root : Root)
    (applier : ReferenceStateApplier) : list Root * list Root :=
  match plans with
  | [] => ([], [])
  | plan :: plans =>
      let receipt_root := receipt_canonical_root (receipt plan) in
      match applier_apply_transition current_state_root (state_patch plan) applier with
      | (Ok outcome, applier) =>
          let '(post_state_roots, receipt_roots) := manual_loop plans (post_state_root outcome) applier in
          (post_state_root outcome :: post_state_roots, receipt_root :: receipt_roots)
      | (Err _, _) => ([], [receipt_root])
      end
  end.

Definition execute_fixture (fixture : ExecutionSemanticsVector) : option FixtureExecution :=
  initial_materialized_state ← ExecutionSemanticsVector_materialized_state fixture;
  accumulator ← materialize_root_check_accumulator initial_materialized_state;
  let pre_state_root := root accumulator in
  transactions ← mapM load_envelope (sm_transaction_vector_ids (sv_input fixture));
  planned_transactions ← mapM planned_step_of (sm_steps (sv_input fixture));
  plans ← mapM step_plan (sm_steps (sv_input fixture));
  let '(outcome, (planner, applier)) :=
    execute_block pre_state_root transactions
      (PlannedTransactionExecutor_new planned_transactions, ReferenceStateApplier_new accumulator) in
  let '(manual_post_state_roots, manual_receipt_roots) :=
    manual_loop plans pre_state_root (ReferenceStateApplier_new accumulator) in
  Some (mk_fixture_execution pre_state_root (is_exhausted planner) (applier_state_root applier)
          manual_post_state_roots manual_receipt_roots outcome).

(** The body of the loop over the steps and their outcomes. *)
Definition step_holds (execution : FixtureExecution) (index : nat) (step : ExecutionSemanticsStep)
    (transaction_outcome : TransactionExecutionOutcome) : bool :=
  some_and (load_envelope (ss_transaction_vector_id step)) (fun transaction =>
  expect (canonical_root transaction) (fun expected_transaction_root =>
  some_and (ss_expected_post_state_root step ≫= parse_root) (fun expected_post_state_root =>
  some_and (ss_expected_receipt_root step ≫= parse_root) (fun expected_receipt_root =>
  some_and (ExecutionSemanticsStep_receipt_output step) (fun receipt_output =>
  assert_eq (to_transaction_root transaction_outcome) expected_transaction_root &&
  assert_eq (to_post_state_root transaction_outcome) expected_post_state_root &&
  assert_eq (fe_manual_post_state_roots execution !! index) (Some expected_post_state_root) &&
  assert_eq (status_code (to_receipt transaction_outcome)) (ss_receipt_status_code step) &&
  assert_eq (output (to_receipt transaction_outcome)) receipt_output &&
  assert_eq (receipt_canonical_root (to_receipt transaction_outcome)) expected_receipt_root &&
  assert_eq (fe_manual_receipt_roots execution !! index) (Some expected_receipt_root)))))).

Fixpoint steps_hold (execution : FixtureExecution) (index : nat) (steps : list ExecutionSemanticsStep)
    (outcomes : list TransactionExecutionOutcome) : bool :=
  match steps, outcomes with
  | step :: steps, transaction_outcome :: outcomes =>
      step_holds execution index step transaction_outcome && steps_hold execution (S index) steps outcomes
  | _, _ => true
  end.

Definition assert_semantics_accept (fixture : ExecutionSemanticsVector) (execution : FixtureExecution) : bool :=
  let steps := sm_steps (sv_input fixture) in
  expect (fe_outcome execution) (fun outcome =>
  some_and (parse_root (sv_pre_state_root fixture)) (fun expected_pre_state_root =>
  some_and (sv_post_state_root fixture ≫= parse_root) (fun expected_post_state_root =>
  some_and (sv_receipts_root fixture ≫= parse_root) (fun expected_receipts_root =>
  some_and (mapM step_receipt steps) (fun receipts =>
  assert_eq (fe_pre_state_root execution) expected_pre_state_root &&
  assert_eq (length (sm_transaction_vector_ids (sv_input fixture))) (length steps) &&
  assert_eq (sm_transaction_vector_ids (sv_input fixture)) (ss_transaction_vector_id <$> steps) &&
  assert_eq (fe_planner_exhausted execution) (default true (sv_planner_exhausted fixture)) &&
  assert_eq (fe_final_applier_root execution) expected_post_state_root &&
  assert_eq (be_post_state_root outcome) expected_post_state_root &&
  assert_eq (be_receipts_root outcome) expected_receipts_root &&
  assert_eq (compute_receipts_root receipts) expected_receipts_root &&
  assert_eq (length (transaction_outcomes outcome)) (length steps) &&
  assert_eq (length (fe_manual_post_state_roots execution)) (length steps) &&
  steps_hold execution 0 steps (transaction_outcomes outcome)))))).

Definition assert_semantics_error (expected : ExecutionSemanticsExpectedError) (err : ExecutionError) : bool :=
  match err with
  | StateTransition (NonCanonicalWitnessOrdering actual) =>
      assert_eq (Fixtures.xe_kind expected) "NonCanonicalWitnessOrdering" &&
      assert_eq (Some (N.of_nat (wo_index actual))) (xe_index expected) &&
      assert_eq (Some (wo_context actual)) (Fixtures.xe_context expected)
  | _ => false
  end.

Definition assert_semantics_reject (fixture : ExecutionSemanticsVector) (execution : FixtureExecution) : bool :=
  expect_err (fe_outcome execution) (fun err =>
  some_and (sv_expected_error fixture) (fun expected =>
  some_and (parse_root (sv_pre_state_root fixture)) (fun expected_pre_state_root =>
  some_and (sv_post_state_root fixture ≫= parse_root) (fun expected_post_state_root =>
  assert_eq (fe_pre_state_root execution) expected_pre_state_root &&
  assert_eq (fe_final_applier_root execution) expected_post_state_root &&
  assert_eq (fe_planner_exhausted execution) (default false (sv_planner_exhausted fixture)) &&
  assert_semantics_error expected err)))).

Definition semantics_vector_holds (fixture : ExecutionSemanticsVector) : bool :=
  some_and (execute_fixture fixture) (fun execution =>
  assert_eq (sv_category fixture) "execution-semantics" && assert_eq (sv_owned_by fixture) "shell-execution" &&
  not_blank (sv_description fixture) &&
  if decide (sv_expected_outcome fixture = "accept") then assert_semantics_accept fixture execution
  else if decide (sv_expected_outcome fixture = "reject") then assert_semantics_reject fixture execution
  else false).

(** The engine does what the loop by hand does: wherever a block executes, the roots
    collected by hand are those of its outcomes, whatever the vector holds. *)
Lemma manual_loop_agrees r w txs outs r' w' :
  executes r w txs outs r' w' -> forall planned k applier,
  w = (mk_planned_executor planned k, applier) ->
  w'.1 = mk_planned_executor planned (k + length txs) /\
  manual_loop (pt_plan <$> take (length txs) (drop k planned)) r applier =
    (to_post_state_root <$> outs, (fun o => receipt_canonical_root (to_receipt o)) <$> outs).
Proof.
  induction 1 as [r w|r w tx txs plan w1 tr w2 outs r' w' Hex Hap _ IH]; intros planned k applier ->.
  { by rewrite Nat.add_0_r. }
  unfold execute_transaction, pair_executor, zoom in Hex. cbn [fst snd] in Hex.
  unfold execute_transaction, PlannedTransactionExecutor_execute in Hex.
  cbn [planned_transactions next_index] in Hex. rewrite envelope_root_total in Hex.
  destruct (planned !! k) as [p|] eqn:Hk; [|done]. cbn [ok_or bind_result map_err] in Hex.
  case_decide; [done|]. injection Hex as <- <-.
  unfold applier_apply_transition, pair_applier, zoom in Hap. cbn [fst snd] in Hap.
  rewrite (drop_S _ _ _ Hk). cbn [length take fmap list_fmap manual_loop].
  destruct (applier_apply_transition r (state_patch (pt_plan p)) applier) as [rt applier1].
  injection Hap as -> <-. destruct (IH planned (k + 1) applier1 eq_refl) as [Hw Hl].
  rewrite Nat.add_1_r in Hl. rewrite Hl, Hw. split; [f_equal; lia|done].
Qed.

Lemma planned_steps_plans (steps : list ExecutionSemanticsStep) (planned : list PlannedTransaction)
    (plans : list TransactionExecutionPlan) :
  mapM planned_step_of steps = Some planned -> mapM step_plan steps = Some plans -> pt_plan <$> planned = plans.
Proof.
  revert planned plans. induction steps as [|step steps IH]; intros planned plans Hp Hq; cbn in *.
  { by injection Hp as <-; injection Hq as <-. }
  apply bind_Some in Hp as (p & Hp & (ps & Hps & [= <-])%bind_Some).
  apply bind_Some in Hq as (q & Hq & (qs & Hqs & [= <-])%bind_Some).
  rewrite fmap_cons, (IH _ _ Hps Hqs). f_equal. unfold planned_step_of in Hp.
  apply bind_Some in Hp as (tx & _ & (q' & Hq' & Hp)%bind_Some).
  unfold PlannedTransaction_from_transaction in Hp. rewrite envelope_root_total in Hp.
  cbn [map_err bind_result] in Hp. simplify_eq. done.
Qed.

(** On every vector that executes with all of its steps consumed, the assertions about
    the roots collected by hand cannot fail. *)
Lemma executed_fixture_agrees fixture execution outcome :
  execute_fixture fixture = Some execution -> fe_outcome execution = Ok outcome ->
  fe_planner_exhausted execution = true ->
  fe_manual_post_state_roots execution = to_post_state_root <$> transaction_outcomes outcome /\
  fe_manual_receipt_roots execution =
    (fun o => receipt_canonical_root (to_receipt o)) <$> transaction_outcomes outcome.
Proof.
  unfold execute_fixture. intros Hf Ho Hx.
  apply bind_Some in Hf as (ms & _ & (acc & _ & (txs & _ & (planned & Hp & (plans & Hq & Hf)%bind_Some)%bind_Some)%bind_Some)%bind_Some).
  destruct (execute_block (root acc) txs _) as [out [planner applier]] eqn:Hb.
  destruct (manual_loop plans (root acc) _) as [posts receipts] eqn:Hm. injection Hf as <-.
  cbn [fe_outcome fe_planner_exhausted fe_manual_post_state_roots fe_manual_receipt_roots] in *. subst out.
  apply bind_ok in Hb as ([[r rs] os] & w1 & (outs & Hex & -> & ->)%execute_loop_ok & Hret).
  injection Hret as <- ->.
  cbn [transaction_outcomes app]. destruct (manual_loop_agrees _ _ _ _ _ _ Hex _ _ _ eq_refl) as [Hw Hl].
  cbn [fst] in Hw. subst planner. apply Nat.eqb_eq in Hx. cbn in Hx. rewrite Hx, drop_0, firstn_all in Hl.
  rewrite (planned_steps_plans _ _ _ Hp Hq), Hm in Hl. by injection Hl as -> ->.
Qed.

End driver.

Definition execution_semantics_vectors_cover_reference_local_execution_contracts `{Sha256} (fs : FileSystem)
    `{Deserialize TransactionVector, Deserialize ExecutionSemanticsVector} : bool :=
  check_directory fs sv_id (semantics_vector_holds (load_transaction_fixture_by_id fs))
    (execution_semantics_fixture_paths fs).

End SemanticsVectors.

(** ** [root_check_vectors.rs] of shell-execution and shell-consensus *)

Module RootChecks.
Import ConsensusTests.

(** The expected error of a root-check vector against the two roots of an error. *)
Definition assert_roots (expected : RootCheckExpectedError) (actual_expected actual_actual : Root) : bool :=
  assert_eq (Some actual_expected) (parse_root (re_expected_root expected)) &&
  assert_eq (Some actual_actual) (parse_root (re_actual_root expected)).

Definition assert_execution_error (expected : RootCheckExpectedError) (err : ExecutionError) : bool :=
  match err with
  | PostStateRootMismatch actual_expected actual_actual =>
      assert_eq (re_kind expected) "PostStateRootMismatch" && assert_roots expected actual_expected actual_actual
  | ReceiptsRootMismatch actual_expected actual_actual =>
      assert_eq (re_kind expected) "ReceiptsRootMismatch" && assert_roots expected actual_expected actual_actual
  | _ => false
  end.

Definition scenario_step_plan (step : RootCheckScenarioStep) : TransactionExecutionPlan :=
  mk_plan (mk_patch [st_key step] [st_new_leaf_value step])
    (mk_receipt (st_receipt_status_code step) (st_receipt_output step)).

(** [FixtureTransactionExecutor]: steps are taken in order; a missing step or a root
    that differs is a panic, which the flag records. *)
Record FixtureTransactionExecutor : Type := mk_fixture_executor {
  fx_steps : list RootCheckScenarioStep;
  fx_cursor : nat;
  fx_panicked : bool
}.

Definition canonical_block_from_scenario (resolved : RootCheckScenario) : CanonicalBlock :=
  let h := sn_header resolved in
  mk_block
    (mk_canonical_header (rh_block_root h) (rh_block_number h) (rh_timestamp h) (rh_parent_root h)
       (rh_witness_bytes h) (rh_transactions_root h) (rh_execution_witnesses_root h) (rh_state_root h)
       (rh_receipts_root h) (rh_proposer_signature h) (Some (rh_proposer_index h)))
    (mk_canonical_body (sn_transactions resolved) (rh_transactions_root h))
    (mk_canonical_sidecar (rs_block_root (sn_sidecar resolved)) (rh_execution_witnesses_root h)
       (sn_witnesses resolved)).

Section driver.
Context `{SHA : Sha256}.

Definition execute_scenario (resolved : RootCheckScenario) : option BlockExecutionOutcome :=
  let planner := PlannedTransactionExecutor_new
    ((fun step => mk_planned (st_transaction_root step) (scenario_step_plan step)) <$> sn_steps resolved) in
  accumulator ← materialize_root_check_accumulator (sn_materialized_state resolved);
  let applier := ReferenceStateApplier_new accumulator in
  witness_accumulator ← materialize_root_check_accumulator (sn_materialized_state resolved);
  match verify_witnesses witness_accumulator (sn_witnesses resolved) (sn_pre_state_root resolved) with
  | Ok _ =>
      match execute_block (sn_pre_state_root resolved) (sn_transactions resolved) (planner, applier) with
      | (Ok outcome, (planner, _)) =>
          match ensure_exhausted planner with
          | Ok _ => Some outcome
          | Err _ => None
          end
      | (Err _, _) => None
      end
  | Err _ => None
  end.

Definition execution_root_check_holds (loaded : LoadedRootCheckScenario) : bool :=
  let fixture := lo_fixture loaded in
  let resolved := lo_scenario loaded in
  some_and (execute_scenario resolved) (fun outcome =>
  let committed := mk_committed (rh_state_root (sn_header resolved)) (rh_receipts_root (sn_header resolved)) in
  assert_eq (rv_category fixture) "root-check" &&
  assert_eq (rv_rule fixture) "witness_execution_consensus_root_check" &&
  assert_eq (rv_owned_by fixture) "shell-consensus" && not_blank (rv_description fixture) &&
  if decide (rv_expected_outcome fixture = "accept") then is_ok (ensure_matches outcome committed)
  else if decide (rv_expected_outcome fixture = "reject") then
    some_and (rv_expected_error fixture) (fun expected =>
    expect_err (ensure_matches outcome committed) (assert_execution_error expected))
  else false).

#[local] Instance FixtureTransactionExecutor_execute : TransactionExecutor FixtureTransactionExecutor :=
  fun _pre_state_root transaction self =>
    let panic := (Err (Executor "panic"), mk_fixture_executor (fx_steps self) (fx_cursor self) true) in
    match fx_steps self !! fx_cursor self with
    | None => panic
    | Some step =>
        match canonical_root transaction with
        | Err e => (Err (TransactionRoot e), self)
        | Ok transaction_root =>
            if decide (transaction_root <> st_transaction_root step) then panic
            else (Ok (scenario_step_plan step),
                  mk_fixture_executor (fx_steps self) (fx_cursor self + 1) (fx_panicked self))
        end
    end.

#[local] Instance fixture_pair_executor : TransactionExecutor (FixtureTransactionExecutor * ReferenceStateApplier) :=
  fun pre tx => zoom fst (fun x w => (x, w.2)) (execute_transaction pre tx).
#[local] Instance fixture_pair_applier : StateTransitionApplier (FixtureTransactionExecutor * ReferenceStateApplier) :=
  fun pre patch => zoom snd (fun y w => (w.1, y)) (applier_apply_transition pre patch).

(** A call of one of the doubles, counted, and whether it panicked. *)
Definition count_preparer (w : Calls) (panicked : bool) : Calls :=
  mk_calls (resolver_calls w) (validator_calls w) (revalidator_calls w) (last_policy w)
    (preparer_calls w + 1) (engine_calls w) (asserts_hold w && negb panicked).
Definition count_engine (w : Calls) (panicked : bool) : Calls :=
  mk_calls (resolver_calls w) (validator_calls w) (revalidator_calls w) (last_policy w)
    (preparer_calls w) (engine_calls w + 1) (asserts_hold w && negb panicked).

Definition FixtureWitnessPreparer (resolved : RootCheckScenario) : WitnessPreparer Calls :=
  fun _header _sidecar w =>
    match materialize_root_check_accumulator (sn_materialized_state resolved) with
    | Some accumulator =>
        (verify_witnesses accumulator (sn_witnesses resolved) (sn_pre_state_root resolved), count_preparer w false)
    | None => (Err (Backend "panic"), count_preparer w true)
    end.

Definition FixtureExecutionEngine (resolved : RootCheckScenario) : BlockExecutionEngine Calls :=
  fun _header body _sidecar w =>
    match materialize_root_check_accumulator (sn_materialized_state resolved) with
    | Some accumulator =>
        let '(outcome, (planner, _)) :=
          execute_block (sn_pre_state_root resolved) (transactions body)
            (mk_fixture_executor (sn_steps resolved) 0 false, ReferenceStateApplier_new accumulator) in
        (outcome, count_engine w (fx_panicked planner))
    | None => (Err (Executor "panic"), count_engine w true)
    end.

Definition consensus_root_check_holds (loaded : LoadedRootCheckScenario) : bool :=
  let fixture := lo_fixture loaded in
  let resolved := lo_scenario loaded in
  let block := canonical_block_from_scenario resolved in
  let services := mk_services (FixedResolver (mk_credential Byte.x01 (replicate 32 Byte.x11)))
    (mk_outcome_dispatcher SignatureAccept) CountingRevalidator (FixtureWitnessPreparer resolved)
    (FixtureExecutionEngine resolved) in
  let '(result, calls) := import_block BlockImportConfig_default
    (CanonicalBlockHeader_header (Consensus.header block)) (CanonicalBlockBody_body (Consensus.body block))
    (CanonicalBlockSidecar_sidecar (Consensus.sidecar block)) services no_calls in
  assert_eq (rv_category fixture) "root-check" && assert_eq (rv_owned_by fixture) "shell-consensus" &&
  (if decide (rv_expected_outcome fixture = "accept") then
     expect result (fun outcome =>
     assert_eq (bi_block_root outcome) (ch_block_root (Consensus.header block)) &&
     assert_eq (bi_post_state_root outcome) (ch_state_root (Consensus.header block)) &&
     assert_eq (bi_receipts_root outcome) (ch_receipts_root (Consensus.header block)))
   else if decide (rv_expected_outcome fixture = "reject") then
     some_and (rv_expected_error fixture) (fun expected =>
     expect_err result (fun err =>
       match err with
       | Consensus.Execution err => assert_execution_error expected err
       | _ => false
       end))
   else false) &&
  assert_eq (resolver_calls calls) 1 && assert_eq (validator_calls calls) 1 &&
  assert_eq (revalidator_calls calls) (length (cb_transactions (Consensus.body block))) &&
  assert_eq (preparer_calls calls) 1 && assert_eq (engine_calls calls) 1 && asserts_hold calls.

(** The loop of both tests over the directory. *)
Definition check_scenarios (fs : FileSystem) `{Deserialize TransactionVector, Deserialize WitnessVector,
    Deserialize RootCheckVector} (body : LoadedRootCheckScenario -> bool) : bool :=
  some_and (root_check_fixture_paths fs) (fun paths =>
  negb (bool_decide (paths = [])) &&
  forallb (fun path =>
    some_and (load_root_check_scenario_at fs path) (fun loaded =>
    assert_eq (file_stem path) (Some (rv_id (lo_fixture loaded))) && body loaded)) (sort_paths paths)).

Definition end_to_end_root_check_vectors_cover_execution_commitments (fs : FileSystem)
    `{Deserialize TransactionVector, Deserialize WitnessVector, Deserialize RootCheckVector} : bool :=
  check_scenarios fs execution_root_check_holds.

Definition root_check_vectors_cover_consensus_execution_comparison_end_to_end (fs : FileSystem)
    `{Deserialize TransactionVector, Deserialize WitnessVector, Deserialize RootCheckVector} : bool :=
  check_scenarios fs consensus_root_check_holds.

End driver.
End RootChecks.
