(* ===== verification/RuntimeTests.v ===== *)
(** * The integration tests of shell-cli

    [crates/shell-cli/tests]: the reference runtime, the gossip adapters, several
    authorizations and corrupted witnesses.  Every test starts from a scenario loaded
    from [vectors/root-checks]; here that scenario is its argument, and
    [RuntimeData] loads them.  A test returns whether all of its assertions held; a panic
    is [false]. *)

From S2P Require Import Prelude Primitives StateKeys Codec Hash Sha256 OrdMap Ssz State Validation.
From S2P Require Import Crypto Mempool Execution Consensus Network Fixtures VectorFiles Cli Testing ConformancePipelines FixtureVectors.

#[export] Instance ScenarioShapeError_eq_dec : EqDecision ScenarioShapeError.
Proof. solve_decision. Defined.
#[export] Instance LocalReferenceError_eq_dec : EqDecision LocalReferenceError.
Proof. solve_decision. Defined.
#[export] Instance ProposerCredentialQuery_eq_dec : EqDecision ProposerCredentialQuery.
Proof. solve_decision. Defined.

(** ** The doubles *)

(** What the doubles record: calls, the resolver's last query, and whether every
    [assert_eq!] inside them held. *)
Record CallLog : Type := mk_log {
  lg_transaction_calls : nat;
  lg_validator_calls : nat;
  lg_resolver_calls : nat;
  lg_last_query : option ProposerCredentialQuery;
  lg_asserts_hold : bool
}.

Definition no_log : CallLog := mk_log 0 0 0 None true.

Definition log_transaction (w : CallLog) : CallLog :=
  mk_log (lg_transaction_calls w + 1) (lg_validator_calls w) (lg_resolver_calls w) (lg_last_query w)
    (lg_asserts_hold w).
Definition log_validator (w : CallLog) : CallLog :=
  mk_log (lg_transaction_calls w) (lg_validator_calls w + 1) (lg_resolver_calls w) (lg_last_query w)
    (lg_asserts_hold w).

Inductive PermissiveDispatcher : Type := permissive_dispatcher.

#[export] Instance PermissiveDispatcher_dispatcher : SignatureDispatcher CallLog PermissiveDispatcher := {
  register_verifier self _verifier := (None, self);
  verifier _ _scheme_id := None;
  verify_transaction_authorization _ _scheme_id _request w := (Ok tt, log_transaction w);
  verify_validator_message _ _scheme_id _request w := (Ok tt, log_validator w)
}.

Record HarnessDispatcher : Type := mk_harness { rejected_signature : option (list byte) }.

Definition HarnessDispatcher_permissive : HarnessDispatcher := mk_harness None.
Definition HarnessDispatcher_reject_signature (signature : list byte) : HarnessDispatcher :=
  mk_harness (Some signature).

#[export] Instance HarnessDispatcher_dispatcher : SignatureDispatcher CallLog HarnessDispatcher := {
  register_verifier self _verifier := (None, self);
  verifier _ _scheme_id := None;
  verify_transaction_authorization self scheme_id request w :=
    (if decide (rejected_signature self = Some (signature request))
     then Err (Crypto.VerificationFailed (mk_failure scheme_id
            "mock dispatcher rejected the extra required authorization"))
     else Ok tt, log_transaction w);
  verify_validator_message _ _scheme_id _request w := (Ok tt, log_validator w)
}.

Record TestDispatcher : Type := mk_test_dispatcher {
  transaction_error : option CryptoError;
  validator_error : option CryptoError
}.

Definition TestDispatcher_permissive : TestDispatcher := mk_test_dispatcher None None.
Definition reject_transaction_signature : TestDispatcher :=
  mk_test_dispatcher
    (Some (Crypto.VerificationFailed (mk_failure Byte.x00 "mock dispatcher rejected the transaction authorization")))
    (validator_error TestDispatcher_permissive).

(** [error.map_or(Ok(()), Err)]. *)
Definition refuse_with (error : option CryptoError) : result unit CryptoError :=
  match error with
  | Some error => Err error
  | None => Ok tt
  end.

#[export] Instance TestDispatcher_dispatcher : SignatureDispatcher CallLog TestDispatcher := {
  register_verifier self _verifier := (None, self);
  verifier _ _scheme_id := None;
  verify_transaction_authorization self _scheme_id _request w := (refuse_with (transaction_error self), log_transaction w);
  verify_validator_message self _scheme_id _request w := (refuse_with (validator_error self), log_validator w)
}.

Definition ConstantResolver : ProposerCredentialResolver CallLog := fun _query =>
  ret (mk_credential Byte.x00 (replicate 32 Byte.x44)).

Definition resolver_query (scenario : LocalReferenceScenario) : ProposerCredentialQuery :=
  mk_query (ch_block_root (Consensus.header (ls_block scenario)))
    (ch_proposer_index_hint (Consensus.header (ls_block scenario))).

Record ResolverFixture : Type := mk_resolver_fixture {
  expected_query : ProposerCredentialQuery;
  rf_result : result ProposerCredential ProposerCredentialResolutionError
}.

Definition ResolverFixture_success (scenario : LocalReferenceScenario) : ResolverFixture :=
  mk_resolver_fixture (resolver_query scenario) (Ok (mk_credential Byte.x00 (replicate 32 Byte.x44))).
Definition ResolverFixture_failure (scenario : LocalReferenceScenario) (error : ProposerCredentialResolutionError)
    : ResolverFixture := mk_resolver_fixture (resolver_query scenario) (Err error).

Definition FixtureResolver (fixture : ResolverFixture) : ProposerCredentialResolver CallLog := fun query w =>
  (rf_result fixture,
   mk_log (lg_transaction_calls w) (lg_validator_calls w) (lg_resolver_calls w + 1) (Some query)
     (lg_asserts_hold w && assert_eq query (expected_query fixture))).

Inductive DerivedNonceMode : Type := Exact | ReplayReject | FutureGapReject.

Definition DerivedNonceView (mode : DerivedNonceMode) : AdmissionStateView := fun envelope =>
  let nonce := transaction_nonce envelope in
  Some match mode with
       | Exact => nonce
       | ReplayReject => uint_wrap 64 (saturating_add nonce (uint_wrap 64 1))
       | FutureGapReject => uint_wrap 64 (uval nonce - 1)
       end.

(** ** Changes to a scenario *)

(** [Vec::pop], which returns nothing used here. *)
Definition pop {A} (l : list A) : list A := take (length l - 1) l.

Definition with_admission_transactions (sc : LocalReferenceScenario) (txs : list TransactionEnvelope)
    : LocalReferenceScenario :=
  mk_local_scenario (ls_block sc) txs (ls_pre_state_root sc) (ls_materialized_state sc)
    (ls_planned_transactions sc) (transaction_authorization_materials sc).
Definition with_planned_transactions (sc : LocalReferenceScenario) (planned : list PlannedTransaction)
    : LocalReferenceScenario :=
  mk_local_scenario (ls_block sc) (admission_transactions sc) (ls_pre_state_root sc) (ls_materialized_state sc)
    planned (transaction_authorization_materials sc).
Definition with_materials (sc : LocalReferenceScenario) (materials : list (list OwnedAuthorizationMaterial))
    : LocalReferenceScenario :=
  mk_local_scenario (ls_block sc) (admission_transactions sc) (ls_pre_state_root sc) (ls_materialized_state sc)
    (ls_planned_transactions sc) materials.
Definition with_block (sc : LocalReferenceScenario) (block : CanonicalBlock) : LocalReferenceScenario :=
  mk_local_scenario block (admission_transactions sc) (ls_pre_state_root sc) (ls_materialized_state sc)
    (ls_planned_transactions sc) (transaction_authorization_materials sc).

Definition authorization_count (sc : LocalReferenceScenario) : nat :=
  sum_list ((fun tx => length (authorizations tx)) <$> admission_transactions sc).

Definition is_accept (r : result ValidationOutcome ConsensusError) : bool :=
  expect r (fun outcome => assert_eq outcome Accept).

Definition test_origin (b : byte) : NetworkOrigin := Gossip (PeerId_from (filled 32 b)).

Section tests.
Context `{SHA : Sha256}.

Definition default_runtime {D} (dispatcher : D) (resolver : ProposerCredentialResolver CallLog)
    : LocalReferenceRuntime CallLog D :=
  LocalReferenceRuntime_new dispatcher resolver AdmissionPolicy_default ConsensusTests.BlockImportConfig_default.

(** [runtime.run(&scenario)] from fresh doubles. *)
Definition run_scenario {D} `{SignatureDispatcher CallLog D} (runtime : LocalReferenceRuntime CallLog D)
    (scenario : LocalReferenceScenario) : result LocalReferenceFlowOutcome LocalReferenceError * CallLog :=
  run runtime scenario no_log.

(** [try_new(..).expect(..)] and then [validate_gossip_block] of the scenario's block. *)
Definition gossip_block {D} `{SignatureDispatcher CallLog D} (origin : NetworkOrigin)
    (runtime : LocalReferenceRuntime CallLog D) (scenario : LocalReferenceScenario) (body : CanonicalBlockBody)
    (w : CallLog) (rest : result ValidationOutcome ConsensusError -> CallLog -> bool) : bool :=
  expect (consensus_adapter_try_new runtime scenario) (fun adapter =>
  let '(r, w) := consensus_adapter_validate adapter origin (scenario_header scenario)
    (CanonicalBlockBody_body body) (scenario_sidecar scenario) w in
  rest r w).

Definition gossip_transaction {D} `{SignatureDispatcher CallLog D} (origin : NetworkOrigin)
    (runtime : LocalReferenceRuntime CallLog D) (scenario : LocalReferenceScenario) (transaction : TransactionEnvelope)
    (w : CallLog) (rest : result ValidationOutcome ValidationError -> CallLog -> bool) : bool :=
  expect (mempool_adapter_try_new runtime scenario) (fun adapter =>
  let '(r, w) := mempool_adapter_validate adapter origin transaction w in
  rest r w).

Definition block_body_of (sc : LocalReferenceScenario) : CanonicalBlockBody := Consensus.body (ls_block sc).
Definition block_header_of (sc : LocalReferenceScenario) : CanonicalBlockHeader := Consensus.header (ls_block sc).

(** The import outcome is the header's. *)
Definition outcome_matches_header (outcome : BlockImportOutcome) (sc : LocalReferenceScenario) : bool :=
  assert_eq (bi_block_root outcome) (ch_block_root (block_header_of sc)) &&
  assert_eq (bi_post_state_root outcome) (ch_state_root (block_header_of sc)) &&
  assert_eq (bi_receipts_root outcome) (ch_receipts_root (block_header_of sc)).

(** ** reference_runtime.rs *)

Definition local_reference_runtime_imports_the_documented_match_flow (scenario : LocalReferenceScenario) : bool :=
  let '(r, calls) := run_scenario (default_runtime permissive_dispatcher ConstantResolver) scenario in
  expect r (fun outcome =>
  assert_eq (length (admissions outcome)) (length (cb_transactions (block_body_of scenario))) &&
  outcome_matches_header (import_outcome outcome) scenario &&
  assert_eq (lg_transaction_calls calls) (authorization_count scenario * 2) &&
  assert_eq (lg_validator_calls calls) 1).

Definition local_reference_runtime_accepts_reference_flow_with_admission_state_nonce_checks
    (scenario : LocalReferenceScenario) : bool :=
  let runtime := with_admission_state_view (default_runtime permissive_dispatcher ConstantResolver)
    (DerivedNonceView Exact) in
  let '(r, calls) := run_scenario runtime scenario in
  expect r (fun outcome =>
  assert_eq (length (admissions outcome)) (length (cb_transactions (block_body_of scenario))) &&
  assert_eq (bi_block_root (import_outcome outcome)) (ch_block_root (block_header_of scenario)) &&
  assert_eq (lg_transaction_calls calls) (authorization_count scenario * 2) &&
  assert_eq (lg_validator_calls calls) 1).

(** The argument is the scenario of the state-mismatch vector. *)
Definition local_reference_runtime_preserves_state_root_mismatch_failures (scenario : LocalReferenceScenario) : bool :=
  expect_err (run_scenario (default_runtime permissive_dispatcher ConstantResolver) scenario).1 (fun error =>
  match error with
  | RefConsensus (Consensus.Execution (PostStateRootMismatch _ _)) => true
  | _ => false
  end).

(** The argument is the scenario of the receipts-mismatch vector. *)
Definition local_reference_runtime_preserves_receipts_root_mismatch_failures (scenario : LocalReferenceScenario)
    : bool :=
  expect_err (run_scenario (default_runtime permissive_dispatcher ConstantResolver) scenario).1 (fun error =>
  match error with
  | RefConsensus (Consensus.Execution (ReceiptsRootMismatch _ _)) => true
  | _ => false
  end).

(** The three shape tests: the run fails before any call. *)
Definition shape_mismatch_reported (scenario altered : LocalReferenceScenario) (context : string) : bool :=
  let expected := length (cb_transactions (block_body_of scenario)) in
  let '(r, calls) := run_scenario (default_runtime permissive_dispatcher ConstantResolver) altered in
  expect_err r (fun error =>
  assert_eq error (ScenarioShape (mk_shape_error expected (expected - 1) context)) &&
  assert_eq (lg_transaction_calls calls) 0 && assert_eq (lg_validator_calls calls) 0).

Definition local_reference_runtime_rejects_admission_transaction_shape_mismatches_before_validation
    (scenario : LocalReferenceScenario) : bool :=
  shape_mismatch_reported scenario
    (with_admission_transactions scenario (pop (admission_transactions scenario)))
    "admission transactions must align one-to-one with block body transactions".

Definition local_reference_runtime_rejects_planned_transaction_shape_mismatches_before_execution
    (scenario : LocalReferenceScenario) : bool :=
  shape_mismatch_reported scenario
    (with_planned_transactions scenario (pop (ls_planned_transactions scenario)))
    "planned transactions must align one-to-one with block body transactions".

Definition local_reference_runtime_rejects_authorization_material_shape_mismatches_before_admission
    (scenario : LocalReferenceScenario) : bool :=
  shape_mismatch_reported scenario
    (with_materials scenario (pop (transaction_authorization_materials scenario)))
    "authorization material entries must align one-to-one with block body transactions".

Definition local_reference_runtime_rejects_duplicate_admission_payload_roots_before_import
    (scenario : LocalReferenceScenario) : bool :=
  match admission_transactions scenario with
  | first :: second :: rest =>
      expect (payload_root first) (fun duplicate_root =>
      let altered := with_admission_transactions scenario (first :: first :: rest) in
      let '(r, calls) := run_scenario (default_runtime permissive_dispatcher ConstantResolver) altered in
      expect_err r (fun error =>
      assert_eq error (DuplicateAdmissionPayloadRoot duplicate_root) &&
      assert_eq (lg_transaction_calls calls) (authorization_count scenario) &&
      assert_eq (lg_validator_calls calls) 0))
  | _ => false
  end.

Definition nonce_refused (runtime : LocalReferenceRuntime CallLog PermissiveDispatcher)
    (scenario : LocalReferenceScenario) (context : string) : bool :=
  let '(r, calls) := run_scenario runtime scenario in
  expect_err r (fun error =>
  assert_eq error (Admission (NoncePolicyViolation (mk_nonce_error context))) &&
  assert_eq (lg_transaction_calls calls) 0 && assert_eq (lg_validator_calls calls) 0).

Definition local_reference_runtime_rejects_replayed_nonces_via_admission_state_view
    (scenario : LocalReferenceScenario) : bool :=
  nonce_refused
    (with_admission_state_view (default_runtime permissive_dispatcher ConstantResolver) (DerivedNonceView ReplayReject))
    scenario "transaction nonce is lower than the observed replay lane nonce".

Definition local_reference_runtime_rejects_future_nonce_gap_via_admission_state_view
    (scenario : LocalReferenceScenario) : bool :=
  let policy := mk_policy (fee_schedule AdmissionPolicy_default) (mk_nonce_policy (uint_wrap 64 0))
    (authorization_domain AdmissionPolicy_default) (multi_authorization_policy AdmissionPolicy_default) in
  nonce_refused
    (with_admission_state_view
       (LocalReferenceRuntime_new permissive_dispatcher ConstantResolver policy ConsensusTests.BlockImportConfig_default)
       (DerivedNonceView FutureGapReject))
    scenario "transaction nonce exceeds the configured future replay lane gap".

(** ** reference_flow_integration.rs *)

(** Gossip of every submission through the mempool adapter, each accepted. *)
Fixpoint submissions_accepted {D} `{SignatureDispatcher CallLog D} (origin : NetworkOrigin)
    (adapter : LocalReferenceNetworkMempoolAdapter (W := CallLog) (D := D)) (txs : list TransactionEnvelope)
    (w : CallLog) (rest : CallLog -> bool) : bool :=
  match txs with
  | [] => rest w
  | tx :: txs =>
      let '(r, w) := mempool_adapter_validate adapter origin tx w in
      expect r (fun outcome =>
      assert_eq outcome Accept &&
      assert_eq (peer_action_for_validation_outcome origin outcome) AcceptPeer) &&
      submissions_accepted origin adapter txs w rest
  end.

Definition local_reference_harness_runs_fixture_backed_happy_path_end_to_end (scenario : LocalReferenceScenario)
    : bool :=
  let runtime := default_runtime permissive_dispatcher ConstantResolver in
  let origin := test_origin Byte.x21 in
  expect (mempool_adapter_try_new runtime scenario) (fun mempool_adapter =>
  expect (consensus_adapter_try_new runtime scenario) (fun consensus_adapter =>
  let '(r, w) := run_scenario runtime scenario in
  expect r (fun runtime_outcome =>
  assert_eq (length (admissions runtime_outcome)) (length (admission_transactions scenario)) &&
  forallb (fun '(admission, transaction) =>
    assert_eq (Ok (av_payload_root admission)) (payload_root transaction) &&
    assert_eq (verified_authorization_count admission) (len (authorizations transaction)))
    (zip (admissions runtime_outcome) (admission_transactions scenario)) &&
  outcome_matches_header (import_outcome runtime_outcome) scenario &&
  submissions_accepted origin mempool_adapter (admission_transactions scenario) w (fun w =>
  let '(r, calls) := consensus_adapter_validate consensus_adapter origin (scenario_header scenario)
    (scenario_body scenario) (scenario_sidecar scenario) w in
  expect r (fun block_outcome =>
  assert_eq block_outcome Accept &&
  assert_eq (peer_action_for_validation_outcome origin block_outcome) AcceptPeer &&
  assert_eq (lg_transaction_calls calls) (authorization_count scenario * 4) &&
  assert_eq (lg_validator_calls calls) 2))))).

(** The block is refused as [matches] says, and both peer actions disconnect: what the
    state-mismatch test and the witness tests assert. *)
Definition rejected_coherently (scenario : LocalReferenceScenario) (matches : ConsensusError -> bool) : bool :=
  let runtime := default_runtime permissive_dispatcher ConstantResolver in
  let origin := test_origin Byte.x21 in
  expect (consensus_adapter_try_new runtime scenario) (fun consensus_adapter =>
  let '(r, w) := run_scenario runtime scenario in
  expect_err r (fun error =>
  match error with
  | RefConsensus consensus_error =>
      matches consensus_error &&
      assert_eq (peer_action_for_consensus_error origin consensus_error) (Disconnect InvalidBlock)
  | _ => false
  end &&
  let '(r, _) := consensus_adapter_validate consensus_adapter origin (scenario_header scenario)
    (scenario_body scenario) (scenario_sidecar scenario) w in
  expect r (fun outcome =>
  assert_eq outcome Reject &&
  assert_eq (peer_action_for_validation_outcome origin outcome) (Disconnect RejectedObject)))).

(** The argument is the scenario of the state-mismatch vector. *)
Definition local_reference_harness_keeps_invalid_block_rejections_coherent_for_peers
    (scenario : LocalReferenceScenario) : bool :=
  rejected_coherently scenario (fun error =>
    match error with
    | Consensus.Execution (PostStateRootMismatch _ _) => true
    | _ => false
    end).

(** ** reference_multi_auth_integration.rs *)

Definition SECOND_AUTH_SIGNATURE_BYTE : byte := Byte.x5a.

Definition add_required_authorization (transaction : TransactionEnvelope)
    (materials : list OwnedAuthorizationMaterial)
    : option (TransactionEnvelope * list OwnedAuthorizationMaterial) :=
  match payload_root transaction with
  | Ok payload_root =>
      Some (mk_envelope (env_payload transaction)
              (authorizations transaction ++
                 [mk_authorization Byte.x00 payload_root (replicate 64 SECOND_AUTH_SIGNATURE_BYTE)]),
            materials ++ [reference_default])
  | Err _ => None
  end.

Definition multi_authorization_scenario (scenario : LocalReferenceScenario) : option LocalReferenceScenario :=
  match admission_transactions scenario, transaction_authorization_materials scenario with
  | transaction :: transactions, materials :: rest =>
      '(transaction, materials) ← add_required_authorization transaction materials;
      Some (with_materials (with_admission_transactions scenario (transaction :: transactions)) (materials :: rest))
  | _, _ => None
  end.

Definition local_reference_harness_accepts_multi_authorization_transactions_under_require_all
    (loaded : LocalReferenceScenario) : bool :=
  some_and (multi_authorization_scenario loaded) (fun scenario =>
  let runtime := default_runtime HarnessDispatcher_permissive ConstantResolver in
  let origin := test_origin Byte.x2a in
  expect (mempool_adapter_try_new runtime scenario) (fun mempool_adapter =>
  let '(r, w) := run_scenario runtime scenario in
  expect r (fun outcome =>
  assert_eq (verified_authorization_count <$> head (admissions outcome)) (Some 2%N) &&
  submissions_accepted origin mempool_adapter (admission_transactions scenario) w (fun w =>
  gossip_block origin runtime scenario (block_body_of scenario) w (fun r calls =>
  is_accept r &&
  assert_eq (lg_transaction_calls calls) (authorization_count scenario * 4) &&
  assert_eq (lg_validator_calls calls) 2))))).

Definition local_reference_harness_rejects_when_any_required_authorization_fails
    (loaded : LocalReferenceScenario) : bool :=
  some_and (multi_authorization_scenario loaded) (fun scenario =>
  let runtime := default_runtime
    (HarnessDispatcher_reject_signature (replicate 64 SECOND_AUTH_SIGNATURE_BYTE)) ConstantResolver in
  let origin := test_origin Byte.x2a in
  some_and (head (admission_transactions scenario)) (fun first =>
  gossip_transaction origin runtime scenario first no_log (fun r w =>
  expect r (fun outcome => assert_eq outcome Reject) &&
  gossip_block origin runtime scenario (block_body_of scenario) w (fun r calls =>
  expect r (fun outcome => assert_eq outcome Reject) &&
  assert_eq (lg_transaction_calls calls) 4 && assert_eq (lg_validator_calls calls) 1)))).

(** ** witness_failure_integration.rs *)

(** The block with other witnesses, and header and sidecar committed to them. *)
Definition rebind_execution_witnesses_root (scenario : LocalReferenceScenario) (witnesses : list StateWitness)
    : LocalReferenceScenario :=
  let committed_root := compute_execution_witnesses_root witnesses in
  let h := block_header_of scenario in
  with_block scenario (mk_block
    (mk_canonical_header (ch_block_root h) (ch_block_number h) (ch_timestamp h) (ch_parent_root h)
       (ch_witness_bytes h) (ch_transactions_root h) committed_root (ch_state_root h) (ch_receipts_root h)
       (ch_proposer_signature h) (ch_proposer_index_hint h))
    (block_body_of scenario)
    (mk_canonical_sidecar (cs_block_root (Consensus.sidecar (ls_block scenario))) committed_root witnesses)).

Definition assert_witness_failure (scenario : LocalReferenceScenario) (expected_state_error : StateError) : bool :=
  rejected_coherently scenario (fun error => assert_eq error (Consensus.State expected_state_error)).

(** [witnesses[0] = vector.witness().expect(..)]. *)
Definition replace_first_witness (scenario : LocalReferenceScenario) (vector : WitnessVector)
    : option LocalReferenceScenario :=
  witness ← single_witness vector;
  match witnesses (Consensus.sidecar (ls_block scenario)) with
  | _ :: rest => Some (rebind_execution_witnesses_root scenario (witness :: rest))
  | [] => None
  end.

(** The second argument is the witness vector the test loads. *)
Definition local_reference_harness_preserves_noncanonical_witness_order_vectors_as_typed_rejects
    (scenario : LocalReferenceScenario) (vector : WitnessVector) : bool :=
  some_and (WitnessVector_witnesses vector) (fun witnesses =>
  assert_witness_failure (rebind_execution_witnesses_root scenario witnesses)
    (NonCanonicalWitnessOrdering (mk_ordering_error 1
       "witness keys must be strictly increasing in canonical StateKey order"))).

Definition local_reference_harness_preserves_shared_witness_leaf_boundary_vectors_as_typed_rejects
    (scenario : LocalReferenceScenario) (vector : WitnessVector) : bool :=
  some_and (replace_first_witness scenario vector) (fun scenario =>
  assert_witness_failure scenario
    (WitnessVerificationFailed "reference proof leaf does not match witness value")).

Definition local_reference_harness_maps_invalid_committed_witness_shapes_to_invalid_block_rejects
    (scenario : LocalReferenceScenario) (vector : WitnessVector) : bool :=
  some_and (replace_first_witness scenario vector) (fun scenario =>
  assert_witness_failure scenario (UnsupportedProofShape REFERENCE_BACKEND_PROOF_SHAPE_CONTEXT)).

(** ** network_adapters.rs *)

Definition adapter_origin : NetworkOrigin := test_origin Byte.x07.

(** Gossip of the scenario's first submission, from fresh doubles. *)
Definition gossip_first {D} `{SignatureDispatcher CallLog D} (runtime : LocalReferenceRuntime CallLog D)
    (scenario : LocalReferenceScenario)
    (rest : TransactionEnvelope -> result ValidationOutcome ValidationError -> CallLog -> bool) : bool :=
  some_and (head (admission_transactions scenario)) (fun first =>
  gossip_transaction adapter_origin runtime scenario first no_log (rest first)).

Definition mempool_adapter_accepts_reference_transactions (scenario : LocalReferenceScenario) : bool :=
  gossip_first (default_runtime TestDispatcher_permissive ConstantResolver) scenario (fun _ r _ =>
  expect r (fun outcome => assert_eq outcome Accept)).

Definition mempool_adapter_maps_fee_policy_failures_to_policy_reject (scenario : LocalReferenceScenario) : bool :=
  let policy := mk_policy (mk_fee_schedule (gas_price (uint_wrap 64 10000)) (gas_price (uint_wrap 64 10000)))
    (nonce_policy AdmissionPolicy_default) (authorization_domain AdmissionPolicy_default)
    (multi_authorization_policy AdmissionPolicy_default) in
  gossip_first
    (LocalReferenceRuntime_new TestDispatcher_permissive ConstantResolver policy
       ConsensusTests.BlockImportConfig_default) scenario (fun _ r _ =>
  expect r (fun outcome => assert_eq outcome PolicyReject)).

Definition mempool_adapter_maps_invalid_signatures_to_reject (scenario : LocalReferenceScenario) : bool :=
  gossip_first (default_runtime reject_transaction_signature ConstantResolver) scenario (fun _ r _ =>
  expect r (fun outcome => assert_eq outcome Reject)).

(** [transaction_authorization_materials[0].clear()]. *)
Definition clear_first_materials (scenario : LocalReferenceScenario) : option LocalReferenceScenario :=
  match transaction_authorization_materials scenario with
  | _ :: rest => Some (with_materials scenario ([] :: rest))
  | [] => None
  end.

Definition mempool_adapter_preserves_missing_authorization_material_errors (loaded : LocalReferenceScenario) : bool :=
  some_and (clear_first_materials loaded) (fun scenario =>
  gossip_first (default_runtime TestDispatcher_permissive ConstantResolver) scenario (fun first r calls =>
  expect_err r (fun error =>
  assert_eq error (AuthorizationMaterialCount (mk_material_count (len (authorizations first)) 0)) &&
  assert_eq (lg_transaction_calls calls) 0))).

(** [nonce.wrapping_add(1)]. *)
Definition alter_transaction_payload (transaction : TransactionEnvelope) : TransactionEnvelope :=
  let altered_payload :=
    match payload (env_payload transaction) with
    | Basic p => Basic (mk_basic (b_chain_id p) (uint_wrap 64 (uval (b_nonce p) + 1)) (b_gas_limit p) (b_fees p)
                          (b_to p) (b_value p) (b_input p) (b_access_commitment p))
    | Create p => Create (mk_create (c_chain_id p) (uint_wrap 64 (uval (c_nonce p) + 1)) (c_gas_limit p) (c_fees p)
                            (c_value p) (c_initcode p) (c_access_commitment p))
    end in
  mk_envelope (TransactionPayloadSsz_new altered_payload) (authorizations transaction).

Definition mempool_adapter_fails_closed_for_altered_gossip_payloads (scenario : LocalReferenceScenario) : bool :=
  some_and (head (admission_transactions scenario)) (fun first =>
  let altered_transaction := alter_transaction_payload first in
  gossip_transaction adapter_origin (default_runtime TestDispatcher_permissive ConstantResolver) scenario
    altered_transaction no_log (fun r calls =>
  expect_err r (fun error =>
  assert_eq error (AuthorizationMaterialCount (mk_material_count (len (authorizations altered_transaction)) 0)) &&
  assert_eq (lg_transaction_calls calls) 0))).

Definition consensus_adapter_accepts_reference_blocks (scenario : LocalReferenceScenario) : bool :=
  gossip_block adapter_origin
    (default_runtime TestDispatcher_permissive (FixtureResolver (ResolverFixture_success scenario))) scenario
    (block_body_of scenario) no_log (fun r calls =>
  is_accept r && assert_eq (lg_resolver_calls calls) 1 &&
  assert_eq (lg_last_query calls) (Some (resolver_query scenario)) &&
  assert_eq (lg_validator_calls calls) 1 && lg_asserts_hold calls).

Definition consensus_adapter_maps_header_prefilter_failures_to_policy_reject (scenario : LocalReferenceScenario)
    : bool :=
  let bytes := ch_witness_bytes (block_header_of scenario) in
  let config := mk_import_config (mk_prefilter (Some (uint_wrap 64 (uval bytes - 1))))
    (bc_multi_authorization_policy ConsensusTests.BlockImportConfig_default) in
  (0 <? uval bytes)%N &&
  gossip_block adapter_origin
    (LocalReferenceRuntime_new TestDispatcher_permissive ConstantResolver AdmissionPolicy_default config) scenario
    (block_body_of scenario) no_log (fun r _ =>
  expect r (fun outcome => assert_eq outcome PolicyReject)).

(** The argument is the scenario of the state-mismatch vector. *)
Definition consensus_adapter_maps_invalid_reference_blocks_to_reject (scenario : LocalReferenceScenario) : bool :=
  gossip_block adapter_origin (default_runtime TestDispatcher_permissive ConstantResolver) scenario
    (block_body_of scenario) no_log (fun r _ =>
  expect r (fun outcome => assert_eq outcome Reject)).

Definition resolution_cases : list ProposerCredentialResolutionError :=
  [NotFound;
   InvalidCredentialEncoding (mk_invalid_credential Byte.x00 "fixture resolver returned malformed proposer key")].

Definition consensus_adapter_rejects_consensus_invalid_resolution_failures (scenario : LocalReferenceScenario) : bool :=
  forallb (fun error =>
    gossip_block adapter_origin
      (default_runtime TestDispatcher_permissive (FixtureResolver (ResolverFixture_failure scenario error))) scenario
      (block_body_of scenario) no_log (fun r calls =>
    expect r (fun outcome => assert_eq outcome Reject) && assert_eq (lg_resolver_calls calls) 1 &&
    assert_eq (lg_last_query calls) (Some (resolver_query scenario)) &&
    assert_eq (lg_validator_calls calls) 0 && lg_asserts_hold calls)) resolution_cases.

Definition consensus_adapter_preserves_missing_authorization_material_errors (loaded : LocalReferenceScenario) : bool :=
  some_and (clear_first_materials loaded) (fun scenario =>
  gossip_block adapter_origin (default_runtime TestDispatcher_permissive ConstantResolver) scenario
    (block_body_of scenario) no_log (fun r calls =>
  expect_err r (fun error =>
  assert_eq error (TransactionValidation (AuthorizationMaterialCount (mk_material_count 1 0))) &&
  assert_eq (lg_transaction_calls calls) 0))).

Definition consensus_adapter_rejects_altered_gossip_block_inputs (scenario : LocalReferenceScenario) : bool :=
  let altered_body := mk_canonical_body (cb_transactions (block_body_of scenario))
    (xor_first 0xFF (cb_transactions_root (block_body_of scenario))) in
  gossip_block adapter_origin (default_runtime TestDispatcher_permissive ConstantResolver) scenario altered_body
    no_log (fun r calls =>
  expect r (fun outcome => assert_eq outcome Reject) && assert_eq (lg_transaction_calls calls) 0).

Definition consensus_adapter_preserves_internal_resolution_errors (scenario : LocalReferenceScenario) : bool :=
  gossip_block adapter_origin
    (default_runtime TestDispatcher_permissive
       (FixtureResolver (ResolverFixture_failure scenario ResolverUnavailable))) scenario
    (block_body_of scenario) no_log (fun r calls =>
  expect_err r (fun error =>
  assert_eq error (ProposerCredentialResolution ResolverUnavailable) && assert_eq (lg_resolver_calls calls) 1 &&
  assert_eq (lg_last_query calls) (Some (resolver_query scenario)) &&
  assert_eq (lg_validator_calls calls) 0 && lg_asserts_hold calls)).

(** ** Loading *)

(** [load_scenario(name)] of the tests, by the name of the file. *)
Definition load_reference_scenario (fs : FileSystem) `{Deserialize TransactionVector, Deserialize WitnessVector,
    Deserialize RootCheckVector} (name : string) : option LocalReferenceScenario :=
  loaded ← load_root_check_scenario_at fs (mk_path "root-checks" name);
  Some (from_root_check_scenario (lo_scenario loaded)).

(** ** The shape tests hold of every loaded file *)

Lemma length_pop {A} (l : list A) : length (pop l) = length l - 1.
Proof. unfold pop. rewrite length_take. lia. Qed.

(** A shape error ends the run before any call. *)
Lemma shape_mismatch_reported_if scenario altered context :
  validate_scenario_shape altered =
    Err (ScenarioShape (mk_shape_error (length (cb_transactions (block_body_of scenario)))
           (length (cb_transactions (block_body_of scenario)) - 1) context)) ->
  shape_mismatch_reported scenario altered context = true.
Proof.
  intros Hs. unfold shape_mismatch_reported, run_scenario, run.
  rewrite Hs. cbn. unfold assert_eq. by rewrite bool_decide_eq_true_2.
Qed.

(** Whatever a root-check file holds, if it loads and its block is not empty, the three
    shape tests pass on its scenario. *)
Lemma shape_tests_pass (fs : FileSystem) `{Deserialize TransactionVector, Deserialize WitnessVector,
    Deserialize RootCheckVector} name scenario :
  load_reference_scenario fs name = Some scenario -> cb_transactions (block_body_of scenario) <> [] ->
  local_reference_runtime_rejects_admission_transaction_shape_mismatches_before_validation scenario = true /\
  local_reference_runtime_rejects_planned_transaction_shape_mismatches_before_execution scenario = true /\
  local_reference_runtime_rejects_authorization_material_shape_mismatches_before_admission scenario = true.
Proof.
  unfold load_reference_scenario, load_root_check_scenario_at, load_root_check_scenario. intros Hl Hne.
  inv_some. subst.
  match goal with H : resolve_root_check_scenario _ _ _ = Some _ |- _ =>
    apply resolve_consistent in H as (_ & _ & _ & _ & _ & Hsteps%Forall2_length & _) end.
  cbn in Hne, Hsteps.
  split_and!; apply shape_mismatch_reported_if; unfold validate_scenario_shape; cbn -[pop];
    rewrite ?length_pop, ?length_fmap, <- ?Hsteps;
    destruct (sn_transactions _) as [|tx txs]; try done; cbn -[pop Nat.sub];
    repeat (first [rewrite decide_True by lia | rewrite decide_False by lia]); done.
Qed.

End tests.
