(* ===== verification/FixtureData.v ===== *)
(** * The crypto, policy, ordering and peer-action vectors, evaluated

    Every file of [vectors/crypto], [vectors/mempool-policy], [vectors/validation-order]
    and [vectors/peer-actions] as the record [shell-fixtures] reads it into, and the
    evaluation of the drivers of [FixtureVectors] on all of them: the model does on each
    vector what the repository records.  Payload roots are computed under the cheap
    digest; no vector here records one. *)

From S2P Require Import Prelude Primitives Hash Sha256 Crypto Fixtures Testing FixtureVectors.

(** ** vectors/crypto *)

Definition sig_supported_invalid_001 : CryptoVector :=
  mk_crypto_vector "sig-supported-invalid-001" "crypto" "ed25519_dispatch"
    "A corrupted Ed25519 signature is rejected as a verification failure on the transaction-authorization path."
    (mk_crypto_input Byte.x00
      "0x8a88e3dd7409f195fd52db2d3cba5d72ca6709bf1d94121bf3748801b40f6f5c"
      "0xabababababababababababababababababababababababababababababababab"
      "0x4acb8d5f58cd3aea4e44d1ebbebb386bda26e5a3996fc0f13193c84ec689d1fd61c59e7056d6b3a1e789fff8eb95202b8323de5c32e61487f41119cece42ec01"
      TransactionAuthorizationInput None)
    "reject" (Some (mk_crypto_expected "VerificationFailed" (Some Byte.x00) None None None None
      (Some "Signature verification failed"))) "shell-crypto"
    (Some "Only the first signature byte differs from sig-supported-valid-001; the vector proves verification is byte-sensitive and fails closed.").

Definition sig_supported_valid_001 : CryptoVector :=
  mk_crypto_vector "sig-supported-valid-001" "crypto" "ed25519_dispatch"
    "A valid Ed25519 signature on the transaction-authorization path verifies successfully through the registry dispatcher."
    (mk_crypto_input Byte.x00
      "0x8a88e3dd7409f195fd52db2d3cba5d72ca6709bf1d94121bf3748801b40f6f5c"
      "0xabababababababababababababababababababababababababababababababab"
      "0xb5cb8d5f58cd3aea4e44d1ebbebb386bda26e5a3996fc0f13193c84ec689d1fd61c59e7056d6b3a1e789fff8eb95202b8323de5c32e61487f41119cece42ec01"
      TransactionAuthorizationInput None)
    "accept" None "shell-crypto"
    (Some "Deterministic Ed25519 fixture derived from the 32-byte private key 0x01..01 and a 32-byte signing root of 0xab..ab.").

Definition sig_unsupported_scheme_001 : CryptoVector :=
  mk_crypto_vector "sig-unsupported-scheme-001" "crypto" "dispatcher_lookup"
    "A scheme_id with no registered verifier is rejected before any scheme-specific verification work starts."
    (mk_crypto_input Byte.x63
      "0x8a88e3dd7409f195fd52db2d3cba5d72ca6709bf1d94121bf3748801b40f6f5c"
      "0xabababababababababababababababababababababababababababababababab"
      "0xb5cb8d5f58cd3aea4e44d1ebbebb386bda26e5a3996fc0f13193c84ec689d1fd61c59e7056d6b3a1e789fff8eb95202b8323de5c32e61487f41119cece42ec01"
      TransactionAuthorizationInput None)
    "reject" (Some (mk_crypto_expected "UnsupportedScheme" (Some Byte.x63) None None None None
      None)) "shell-crypto"
    (Some "This covers the fast dispatcher rejection path independently of the Ed25519 verifier implementation.").

Definition sig_user_oversize_001 : CryptoVector :=
  mk_crypto_vector "sig-user-oversize-001" "crypto" "ed25519_dispatch"
    "A transaction-authorization signature larger than the Ed25519 fixed-size contract is rejected before cryptographic verification."
    (mk_crypto_input Byte.x00
      "0x8a88e3dd7409f195fd52db2d3cba5d72ca6709bf1d94121bf3748801b40f6f5c"
      "0xabababababababababababababababababababababababababababababababab"
      "0x1111111111111111111111111111111111111111111111111111111111111111111111111111111111111111111111111111111111111111111111111111111111"
      TransactionAuthorizationInput None)
    "reject" (Some (mk_crypto_expected "SignatureSizeExceeded" None (Some 64%N) (Some 65%N) (Some "transaction_authorization") None
      None)) "shell-crypto"
    (Some "For Ed25519 the dispatcher resolves the effective max size to 64 bytes, so the size guard fires before verifier parsing or signature math.").

Definition sig_validator_invalid_001 : CryptoVector :=
  mk_crypto_vector "sig-validator-invalid-001" "crypto" "ed25519_dispatch"
    "A corrupted Ed25519 validator-message signature is rejected as a cryptographic verification failure."
    (mk_crypto_input Byte.x00
      "0x8a88e3dd7409f195fd52db2d3cba5d72ca6709bf1d94121bf3748801b40f6f5c"
      "0x5555555555555555555555555555555555555555555555555555555555555555"
      "0x9d982c5b3e535a01abc689e041e24f1db10f30214c9750918e1b5a91a0a5b466e8163f02942cfcd1fa02741473800fd7717c108986588e573cfc347d38e62d03"
      ValidatorMessageInput None)
    "reject" (Some (mk_crypto_expected "VerificationFailed" (Some Byte.x00) None None None None
      (Some "Signature verification failed"))) "shell-crypto"
    (Some "Only the first signature byte differs from sig-validator-valid-001; consensus should still surface this as an invalid validator-path signature rather than as a transport-policy event.").

Definition sig_validator_local_guard_001 : CryptoVector :=
  mk_crypto_vector "sig-validator-local-guard-001" "crypto" "validator_transport_guard"
    "A validator-message signature that exceeds the configured local transport guard is rejected before cryptographic verification and remains distinguishable from scheme-native consensus failures."
    (mk_crypto_input Byte.x00
      "0x8a88e3dd7409f195fd52db2d3cba5d72ca6709bf1d94121bf3748801b40f6f5c"
      "0x5555555555555555555555555555555555555555555555555555555555555555"
      "0x1111111111111111111111111111111111111111111111111111111111111111111111111111111111111111111111111111111111111111111111111111111111"
      ValidatorMessageInput (Some (mk_dispatcher_config_input None (Some 32%N))))
    "reject" (Some (mk_crypto_expected "SignatureSizeExceeded" None (Some 32%N) (Some 65%N) (Some "validator_message") (Some "local_transport_guard")
      None)) "shell-crypto"
    (Some "The same 65-byte artifact would also exceed Ed25519's native 64-byte size, but this vector proves the dispatcher preserves the stricter validator-path transport classification when the local guard fires first.").

Definition sig_validator_unsupported_scheme_001 : CryptoVector :=
  mk_crypto_vector "sig-validator-unsupported-scheme-001" "crypto" "dispatcher_lookup"
    "A validator-message scheme_id with no registered verifier is rejected before any scheme-specific verification work starts."
    (mk_crypto_input Byte.x63
      "0x8a88e3dd7409f195fd52db2d3cba5d72ca6709bf1d94121bf3748801b40f6f5c"
      "0x5555555555555555555555555555555555555555555555555555555555555555"
      "0x9c982c5b3e535a01abc689e041e24f1db10f30214c9750918e1b5a91a0a5b466e8163f02942cfcd1fa02741473800fd7717c108986588e573cfc347d38e62d03"
      ValidatorMessageInput None)
    "reject" (Some (mk_crypto_expected "UnsupportedScheme" (Some Byte.x63) None None None None
      None)) "shell-crypto"
    (Some "This covers the fast validator-path dispatcher rejection path and gives consensus and network tests a canonical invalid-signature fixture that does not depend on cryptographic math.").

Definition sig_validator_valid_001 : CryptoVector :=
  mk_crypto_vector "sig-validator-valid-001" "crypto" "ed25519_dispatch"
    "A valid Ed25519 signature on the validator-message path verifies successfully through the same dispatcher contract."
    (mk_crypto_input Byte.x00
      "0x8a88e3dd7409f195fd52db2d3cba5d72ca6709bf1d94121bf3748801b40f6f5c"
      "0x5555555555555555555555555555555555555555555555555555555555555555"
      "0x9c982c5b3e535a01abc689e041e24f1db10f30214c9750918e1b5a91a0a5b466e8163f02942cfcd1fa02741473800fd7717c108986588e573cfc347d38e62d03"
      ValidatorMessageInput None)
    "accept" None "shell-crypto"
    (Some "This keeps validator-path verification under the same vector-driven harness without freezing any higher-level validator credential policy.").

(** ** vectors/mempool-policy *)

Definition fee_payload_insufficient_001 : MempoolPolicyVector :=
  mk_policy_vector "fee-payload-insufficient-001" "mempool-policy" "payload_fee_floor"
    "A transaction whose payload-lane fee stays below the local base fee is soft-rejected before transaction-path signature verification runs."
    (mk_mempool_input
      (mk_mempool_payload (uint_wrap 64 5) (uint_wrap 64 21000) (uint_wrap 64 5) (uint_wrap 64 1) (uint_wrap 64 7)
         "0x1111111111111111111111111111111111111111")
      [mk_mempool_authorization Byte.x00
         "0xabababababababababababababababababababababababababababababababababababababababababababababababababababababababababababababababab" PayloadCanonical]
      [mk_material_input "0x7777777777777777777777777777777777777777777777777777777777777777"]
      (mk_policy_input (uint_wrap 64 9) (uint_wrap 64 3) (uint_wrap 64 1)) None)
    "policy_reject" (mk_expected_error "FeeFloor" (Some "payload")
      None)
    (mk_expected_effects (Some 0) None None None None None)
    "shell-mempool"
    (Some "This vector freezes the local distinction between a soft fee-floor rejection and a malformed transaction.").

Definition fee_witness_insufficient_001 : MempoolPolicyVector :=
  mk_policy_vector "fee-witness-insufficient-001" "mempool-policy" "witness_fee_floor"
    "A transaction whose witness-lane fee stays below the local witness base fee is soft-rejected before transaction-path signature verification runs."
    (mk_mempool_input
      (mk_mempool_payload (uint_wrap 64 5) (uint_wrap 64 21000) (uint_wrap 64 5) (uint_wrap 64 1) (uint_wrap 64 7)
         "0x1111111111111111111111111111111111111111")
      [mk_mempool_authorization Byte.x00
         "0xabababababababababababababababababababababababababababababababababababababababababababababababababababababababababababababababab" PayloadCanonical]
      [mk_material_input "0x7777777777777777777777777777777777777777777777777777777777777777"]
      (mk_policy_input (uint_wrap 64 2) (uint_wrap 64 9) (uint_wrap 64 1)) None)
    "policy_reject" (mk_expected_error "FeeFloor" (Some "witness")
      None)
    (mk_expected_effects (Some 0) None None None None None)
    "shell-mempool"
    (Some "The witness lane has its own local floor and must fail before any expensive cryptographic work.").

Definition nonce_replay_conflict_001 : MempoolPolicyVector :=
  mk_policy_vector "nonce-replay-conflict-001" "mempool-policy" "nonce_replay_conflict"
    "A transaction whose nonce is lower than the observed replay-lane nonce is soft-rejected before transaction-path signature verification runs."
    (mk_mempool_input
      (mk_mempool_payload (uint_wrap 64 5) (uint_wrap 64 21000) (uint_wrap 64 5) (uint_wrap 64 1) (uint_wrap 64 7)
         "0x1111111111111111111111111111111111111111")
      [mk_mempool_authorization Byte.x00
         "0xabababababababababababababababababababababababababababababababababababababababababababababababababababababababababababababababab" PayloadCanonical]
      [mk_material_input "0x7777777777777777777777777777777777777777777777777777777777777777"]
      (mk_policy_input (uint_wrap 64 2) (uint_wrap 64 3) (uint_wrap 64 1)) (Some (uint_wrap 64 6)))
    "policy_reject" (mk_expected_error "NoncePolicy" None
      (Some "transaction nonce is lower than the observed replay lane nonce"))
    (mk_expected_effects (Some 0) None None None None None)
    "shell-mempool"
    (Some "Replay-lane conflicts stay local-policy failures rather than malformed-object rejections.").

Definition nonce_too_high_001 : MempoolPolicyVector :=
  mk_policy_vector "nonce-too-high-001" "mempool-policy" "nonce_future_gap"
    "A transaction whose nonce exceeds the configured future gap is soft-rejected before transaction-path signature verification runs."
    (mk_mempool_input
      (mk_mempool_payload (uint_wrap 64 5) (uint_wrap 64 21000) (uint_wrap 64 5) (uint_wrap 64 1) (uint_wrap 64 7)
         "0x1111111111111111111111111111111111111111")
      [mk_mempool_authorization Byte.x00
         "0xabababababababababababababababababababababababababababababababababababababababababababababababababababababababababababababababab" PayloadCanonical]
      [mk_material_input "0x7777777777777777777777777777777777777777777777777777777777777777"]
      (mk_policy_input (uint_wrap 64 2) (uint_wrap 64 3) (uint_wrap 64 1)) (Some (uint_wrap 64 2)))
    "policy_reject" (mk_expected_error "NoncePolicy" None
      (Some "transaction nonce exceeds the configured future replay lane gap"))
    (mk_expected_effects (Some 0) None None None None None)
    "shell-mempool"
    (Some "Future-gap policy should short-circuit before the node spends work on cryptographic verification.").

(** ** vectors/validation-order *)

Definition order_body_root_before_signature_001 : CheapFirstVector :=
  mk_cheap_first_vector "order-body-root-before-signature-001" "validation-order" "body_root_before_signature"
    "A body/header transactions_root mismatch is rejected before proposer credential resolution and validator signature verification run."
    (ConsensusLayer (mk_consensus_input
      (mk_consensus_header_input "0x0101010101010101010101010101010101010101010101010101010101010101"
         "0x0202020202020202020202020202020202020202020202020202020202020202"
         "0x0303030303030303030303030303030303030303030303030303030303030303"
         "0x0404040404040404040404040404040404040404040404040404040404040404"
         "0x0505050505050505050505050505050505050505050505050505050505050505"
         (uint_wrap 64 128) (uint_wrap 64 7) "0x9999")
      (mk_consensus_body_input RootFlipFirstByte 2) (mk_consensus_sidecar_input RootCanonical RootCanonical)
      (mk_consensus_execution_input RootCanonical RootCanonical) None
      (mk_resolver_input Byte.x09 "0x5555555555555555555555555555555555555555555555555555555555555555")
      (mk_dispatcher_input SignatureAccept)))
    "reject" (mk_expected_error "TransactionsRootMismatch" None
      None)
    (mk_expected_effects None (Some 0) (Some 0) (Some 0) (Some 0) (Some 0))
    "shell-consensus"
    (Some "The body-binding failure is still a cheap commitment check and must stay ahead of validator-path cryptography and all downstream witness work.").

Definition order_fee_before_signature_001 : CheapFirstVector :=
  mk_cheap_first_vector "order-fee-before-signature-001" "validation-order" "fee_before_signature"
    "A payload-lane fee-floor failure is classified as a policy rejection before the transaction signature dispatcher runs."
    (MempoolLayer (mk_mempool_input
      (mk_mempool_payload (uint_wrap 64 5) (uint_wrap 64 21000) (uint_wrap 64 5) (uint_wrap 64 1) (uint_wrap 64 7)
         "0x1111111111111111111111111111111111111111")
      [mk_mempool_authorization Byte.x00
         "0xabababababababababababababababababababababababababababababababababababababababababababababababababababababababababababababababab" PayloadCanonical]
      [mk_material_input "0x7777777777777777777777777777777777777777777777777777777777777777"]
      (mk_policy_input (uint_wrap 64 9) (uint_wrap 64 3) (uint_wrap 64 1)) None))
    "policy_reject" (mk_expected_error "FeeFloor" (Some "payload")
      None)
    (mk_expected_effects (Some 0) None None None None None)
    "shell-mempool"
    (Some "The vector uses the same shared contract as consensus ordering fixtures, but records the mempool-specific distinction between malformed-object rejection and soft local policy rejection.").

Definition order_header_before_signature_001 : CheapFirstVector :=
  mk_cheap_first_vector "order-header-before-signature-001" "validation-order" "header_prefilter_before_signature"
    "An oversized witness_bytes value is rejected by the header prefilter before proposer credential resolution, signature verification, witness preparation, or execution."
    (ConsensusLayer (mk_consensus_input
      (mk_consensus_header_input "0x0101010101010101010101010101010101010101010101010101010101010101"
         "0x0202020202020202020202020202020202020202020202020202020202020202"
         "0x0303030303030303030303030303030303030303030303030303030303030303"
         "0x0404040404040404040404040404040404040404040404040404040404040404"
         "0x0505050505050505050505050505050505050505050505050505050505050505"
         (uint_wrap 64 1024) (uint_wrap 64 7) "0x9999")
      (mk_consensus_body_input RootCanonical 2) (mk_consensus_sidecar_input RootCanonical RootCanonical)
      (mk_consensus_execution_input RootCanonical RootCanonical) (Some (mk_prefilter_input (Some (uint_wrap 64 512))))
      (mk_resolver_input Byte.x09 "0x5555555555555555555555555555555555555555555555555555555555555555")
      (mk_dispatcher_input SignatureAccept)))
    "policy_reject" (mk_expected_error "WitnessByteLimitExceeded" None
      None)
    (mk_expected_effects None (Some 0) (Some 0) (Some 0) (Some 0) (Some 0))
    "shell-consensus"
    (Some "This consensus-side ordering vector shows that the configurable ingress guard remains cheap-first and does not accidentally trigger later block-import stages.").

Definition order_payload_before_signature_001 : CheapFirstVector :=
  mk_cheap_first_vector "order-payload-before-signature-001" "validation-order" "payload_before_signature"
    "A payload_root mismatch is rejected in T1 without calling the transaction signature dispatcher."
    (MempoolLayer (mk_mempool_input
      (mk_mempool_payload (uint_wrap 64 5) (uint_wrap 64 21000) (uint_wrap 64 5) (uint_wrap 64 1) (uint_wrap 64 7)
         "0x1111111111111111111111111111111111111111")
      [mk_mempool_authorization Byte.x00
         "0xabababababababababababababababababababababababababababababababababababababababababababababababababababababababababababababababab" PayloadFlipFirstByte]
      [mk_material_input "0x7777777777777777777777777777777777777777777777777777777777777777"]
      (mk_policy_input (uint_wrap 64 2) (uint_wrap 64 3) (uint_wrap 64 1)) None))
    "reject" (mk_expected_error "PayloadRootMismatch" None
      None)
    (mk_expected_effects (Some 0) None None None None None)
    "shell-mempool"
    (Some "This shared ordering vector freezes the local rule that payload binding must fail closed before any expensive transaction-path cryptography runs.").

Definition order_sidecar_before_execution_001 : CheapFirstVector :=
  mk_cheap_first_vector "order-sidecar-before-execution-001" "validation-order" "sidecar_before_execution"
    "A sidecar commitment mismatch stops block import after signature verification and transaction revalidation but before witness preparation and execution."
    (ConsensusLayer (mk_consensus_input
      (mk_consensus_header_input "0x0101010101010101010101010101010101010101010101010101010101010101"
         "0x0202020202020202020202020202020202020202020202020202020202020202"
         "0x0303030303030303030303030303030303030303030303030303030303030303"
         "0x0404040404040404040404040404040404040404040404040404040404040404"
         "0x0505050505050505050505050505050505050505050505050505050505050505"
         (uint_wrap 64 128) (uint_wrap 64 7) "0x9999")
      (mk_consensus_body_input RootCanonical 2) (mk_consensus_sidecar_input RootCanonical RootFlipFirstByte)
      (mk_consensus_execution_input RootCanonical RootCanonical) None
      (mk_resolver_input Byte.x09 "0x5555555555555555555555555555555555555555555555555555555555555555")
      (mk_dispatcher_input SignatureAccept)))
    "reject" (mk_expected_error "SidecarMismatch" None
      None)
    (mk_expected_effects None (Some 1) (Some 1) (Some 2) (Some 0) (Some 0))
    "shell-consensus"
    (Some "This vector keeps the sidecar binding gate explicit: execution is only reachable after signature checks, transaction revalidation, and exact witness commitment validation all succeed.").

Definition order_signature_before_witness_001 : CheapFirstVector :=
  mk_cheap_first_vector "order-signature-before-witness-001" "validation-order" "signature_before_witness"
    "A failed proposer signature stops block import before transaction revalidation, witness preparation, or execution begin."
    (ConsensusLayer (mk_consensus_input
      (mk_consensus_header_input "0x0101010101010101010101010101010101010101010101010101010101010101"
         "0x0202020202020202020202020202020202020202020202020202020202020202"
         "0x0303030303030303030303030303030303030303030303030303030303030303"
         "0x0404040404040404040404040404040404040404040404040404040404040404"
         "0x0505050505050505050505050505050505050505050505050505050505050505"
         (uint_wrap 64 128) (uint_wrap 64 7) "0x9999")
      (mk_consensus_body_input RootCanonical 2) (mk_consensus_sidecar_input RootCanonical RootCanonical)
      (mk_consensus_execution_input RootCanonical RootCanonical) None
      (mk_resolver_input Byte.x09 "0x5555555555555555555555555555555555555555555555555555555555555555")
      (mk_dispatcher_input SignatureReject)))
    "reject" (mk_expected_error "SignatureVerification" None
      None)
    (mk_expected_effects None (Some 1) (Some 1) (Some 0) (Some 0) (Some 0))
    "shell-consensus"
    (Some "The shared ordering contract explicitly proves that validator-path signature checks remain ahead of witness reconstruction and execution.").

(** ** vectors/peer-actions *)

Definition peer_fee_spam_001 : PeerActionVector :=
  mk_peer_action_vector "peer-fee-spam-001" "peer-action" "soft_score_fee_spam"
    "A fee-floor failure remains a policy rejection and lowers remote peer reputation without disconnecting."
    (FromMempoolError OriginGossip StageT2
      (PeerFeeFloor LanePayload (uint_wrap 64 9) (uint_wrap 64 5)))
    OutcomePolicyReject (ExpectAdjustReputation (-10) HintPolicyRejected) "shell-network"
    (Some "This vector proves shell-network translates the typed mempool policy error into a reputation delta instead of treating it as malformed protocol data.").

Definition peer_invalid_signature_001 : PeerActionVector :=
  mk_peer_action_vector "peer-invalid-signature-001" "peer-action" "disconnect_on_invalid_signature"
    "A consensus-stage invalid signature from a remote peer maps to disconnect."
    (FromConsensusError OriginFetch
      (PeerCryptoVerificationFailed Byte.x07 "shared peer-action vector invalidated proposer signature"))
    OutcomeReject (ExpectDisconnect HintInvalidSignature) "shell-network"
    (Some "The network layer consumes the structured ConsensusError::Crypto surface rather than re-running signature logic.").

Definition peer_local_policy_reject_001 : PeerActionVector :=
  mk_peer_action_vector "peer-local-policy-reject-001" "peer-action" "avoid_local_penalties"
    "A local policy rejection stays non-penalizing even though it preserves the policy_reject classification."
    (FromValidationOutcome OriginLocalRpc OutcomePolicyReject)
    OutcomePolicyReject (ExpectIgnore HintPolicyRejected) "shell-network"
    (Some "Local origins should not accrue reputation changes for lower-layer policy failures.").

Definition peer_malformed_ssz_001 : PeerActionVector :=
  mk_peer_action_vector "peer-malformed-ssz-001" "peer-action" "disconnect_on_malformed_announcement"
    "A malformed transaction announcement at the T0 decode stage maps to disconnect for a remote peer."
    (FromMempoolError OriginGossip StageT0
      (PeerMalformedSsz "truncated tx announcement"))
    OutcomeReject (ExpectDisconnect HintMalformedAnnouncement) "shell-network"
    (Some "The vector consumes the existing PrimitiveError::MalformedSsz surface emitted by lower layers.").

Definition peer_oversize_sidecar_001 : PeerActionVector :=
  mk_peer_action_vector "peer-oversize-sidecar-001" "peer-action" "score_oversize_sidecar_pressure"
    "A witness-byte ceiling breach is treated as oversize policy pressure and scores the peer without disconnecting."
    (FromConsensusError OriginSync
      (PeerWitnessByteLimitExceeded (uint_wrap 64 512) (uint_wrap 64 1024)))
    OutcomePolicyReject (ExpectAdjustReputation (-5) HintOversizedObject) "shell-network"
    (Some "The vector uses the shared witness-byte guard outcome from shell-consensus instead of inventing a network-only oversize validator.").

Definition peer_reject_outcome_001 : PeerActionVector :=
  mk_peer_action_vector "peer-reject-outcome-001" "peer-action" "disconnect_remote_rejects"
    "A remote validation rejection maps directly to a disconnect-grade peer action."
    (FromValidationOutcome OriginGossip OutcomeReject)
    OutcomeReject (ExpectDisconnect HintRejectedObject) "shell-network"
    (Some "This vector uses the shared lower-layer ValidationOutcome contract instead of introducing a network-only rejection classification.").

(** ** Evaluation *)

(** Peer actions. *)
Example peer_action_vectors_hold :
  Forall (fun v => peer_action_vector_holds v = true)
    [peer_fee_spam_001; peer_invalid_signature_001; peer_local_policy_reject_001;
     peer_malformed_ssz_001; peer_oversize_sidecar_001; peer_reject_outcome_001].
Proof. repeat (apply Forall_cons; split; [vm_compute; reflexivity|]). apply Forall_nil_2. Qed.

Section cheap.
#[local] Existing Instance poly_hash.

(** Fee and nonce policy. *)
Example policy_vectors_hold :
  Forall (fun v => policy_vector_holds v = true)
    [fee_payload_insufficient_001; fee_witness_insufficient_001; nonce_replay_conflict_001;
     nonce_too_high_001].
Proof. repeat (apply Forall_cons; split; [vm_compute; reflexivity|]). apply Forall_nil_2. Qed.

(** Cheap checks first, in admission and in import. *)
Example cheap_first_vectors_hold :
  Forall (fun v => cheap_first_vector_holds v = true)
    [order_body_root_before_signature_001; order_fee_before_signature_001; order_header_before_signature_001;
     order_payload_before_signature_001; order_sidecar_before_execution_001; order_signature_before_witness_001].
Proof. repeat (apply Forall_cons; split; [vm_compute; reflexivity|]). apply Forall_nil_2. Qed.

End cheap.

(** Ed25519 itself is not modelled: the stand-in parses any 32-byte key and any 64-byte
    signature, and accepts the signatures the two accepting vectors record. *)
Definition recorded_signatures : list (option (list byte * list byte * list byte)) :=
  (fun v => let i := cv_input v in
     k ← parse_hex (ci_public_key_hex i); r ← parse_hex (ci_signing_root_hex i);
     s ← parse_hex (ci_signature_hex i); Some (k, r, s)) <$> [sig_supported_valid_001; sig_validator_valid_001].

Definition recorded_dalek : Ed25519Dalek := {|
  VerifyingKey := array 32;
  VerifyingKey_from_bytes := Some;
  Signature := array 64;
  Signature_BYTE_SIZE := 64;
  Signature_from_slice := array_try 64;
  key_verify key message sg := bool_decide (Some (elems key, message, elems sg) ∈ recorded_signatures)
|}.

(** Dispatch, size limits and verification. *)
Example crypto_vectors_hold :
  Forall (fun v => crypto_vector_holds (DALEK := recorded_dalek) v = true)
    [sig_supported_invalid_001; sig_supported_valid_001; sig_unsupported_scheme_001;
     sig_user_oversize_001; sig_validator_invalid_001; sig_validator_local_guard_001;
     sig_validator_unsupported_scheme_001; sig_validator_valid_001].
Proof. repeat (apply Forall_cons; split; [vm_compute; reflexivity|]). apply Forall_nil_2. Qed.

