(* ===== verification/Vectors.v ===== *)
(** * Test vectors

    Some of the JSON vectors of [vectors/], as the records [shell-fixtures] reads them
    into, evaluated in the model with the concrete SHA-256: the model computes the very
    roots the vectors record.  The end-to-end witnesses use the same scenario; since
    they hash thousands of strings they run under the cheap digest, with the recorded
    roots replaced by that digest's. *)

From S2P Require Import Prelude Primitives StateKeys Codec Hash Sha256 OrdMap Ssz State Validation.
From S2P Require Import Crypto Mempool Execution Consensus Network Fixtures Cli StateSpec EndToEnd Commitments Chain Costs.
From S2P Require Import Testing FixtureVectors.

(** ** The vectors *)

Definition tx_basic_valid_001 : TransactionVector :=
  mk_transaction_vector "tx-basic-valid-001" "transaction"
    "BasicTransactionPayload tag 0 round-trips through the canonical wire codec and produces the expected payload root."
    (mk_transaction_input (Some (BasicInput "0x0100000000000000000000000000000000000000000000000000000000000000"
      (uint_wrap 64 42) (uint_wrap 64 21000)
      (mk_fee_input "0x0200000000000000000000000000000000000000000000000000000000000000"
      "0x0300000000000000000000000000000000000000000000000000000000000000"
      "0x0400000000000000000000000000000000000000000000000000000000000000")
      "0x1111111111111111111111111111111111111111"
      "0x0500000000000000000000000000000000000000000000000000000000000000"
      "0xdeadbeef"
      "0x2222222222222222222222222222222222222222222222222222222222222222"))
      (Some "0x0001000000000000000000000000000000000000000000000000000000000000002a00000000000000085200000000000002000000000000000000000000000000000000000000000000000000000000000300000000000000000000000000000000000000000000000000000000000000040000000000000000000000000000000000000000000000000000000000000011111111111111111111111111111111111111110500000000000000000000000000000000000000000000000000000000000000e80000002222222222222222222222222222222222222222222222222222222222222222deadbeef"))
    "accept" None "shell-primitives"
    (Some "Closed transaction codec/root vector for the current tag-0 payload variant.")
    (Some Byte.x00)
    (Some "0xed88c8d3d9203ca32ac85bb3669c3ce93aff60599e0a9a1665319574c98d6060") (Some 0%N).

Definition tx_create_valid_001 : TransactionVector :=
  mk_transaction_vector "tx-create-valid-001" "transaction"
    "CreateTransactionPayload tag 1 round-trips through the canonical wire codec and produces the expected payload root."
    (mk_transaction_input (Some (CreateInput "0x0700000000000000000000000000000000000000000000000000000000000000"
      (uint_wrap 64 9) (uint_wrap 64 500000)
      (mk_fee_input "0x0a00000000000000000000000000000000000000000000000000000000000000"
      "0x0b00000000000000000000000000000000000000000000000000000000000000"
      "0x0c00000000000000000000000000000000000000000000000000000000000000")
      "0x0d00000000000000000000000000000000000000000000000000000000000000"
      "0x6001600055"
      "0x3333333333333333333333333333333333333333333333333333333333333333"))
      (Some "0x010700000000000000000000000000000000000000000000000000000000000000090000000000000020a10700000000000a000000000000000000000000000000000000000000000000000000000000000b000000000000000000000000000000000000000000000000000000000000000c000000000000000000000000000000000000000000000000000000000000000d00000000000000000000000000000000000000000000000000000000000000d400000033333333333333333333333333333333333333333333333333333333333333336001600055"))
    "accept" None "shell-primitives"
    (Some "Closed transaction codec/root vector for the current tag-1 payload variant.")
    (Some Byte.x01)
    (Some "0xc73178bb9e66b22f2d6b206b6d19a1d9dfedf5d26ed877c1356817249562df45") (Some 0%N).

Definition witness_proof_valid_001 : WitnessVector :=
  mk_witness_vector "witness-proof-valid-001" "witness" "reference_proof_reconstruction"
    "A committed witness that matches a materialized reference-state leaf can be verified against the expected state root."
    (mk_witness_input None (Some "reference_empty")
      (Some "0xc29b19be933adb914c312f0ef305668d27189058d8fbde447d5c36d0e81fce1b")
      None
      (Some (mk_witness_fixture (AccountHeaderInput "0x1111111111111111111111111111111111111111"
        (Some "0x000000000000000000000000001111111111111111111111111111111111111111")) "0xdeadbeef" []))
      (Some [mk_leaf_fixture (AccountHeaderInput "0x1111111111111111111111111111111111111111"
        (Some "0x000000000000000000000000001111111111111111111111111111111111111111")) "0xdeadbeef"]))
    "accept" None "shell-state"
    (Some "This is grounded in the current in-memory reference backend: the committed witness carries no interpreted proof bytes, and verification succeeds because the derived local proof path matches the materialized state leaf and reference root.")
    (Some ["0x000000000000000000000000001111111111111111111111111111111111111111"]) (Some "reference_empty").

Definition witness_proof_valid_002 : WitnessVector :=
  mk_witness_vector "witness-proof-valid-002" "witness" "reference_proof_reconstruction"
    "A reference-backend witness for the first key in a two-leaf pre-state verifies against the shared expected state root used by end-to-end root-check vectors."
    (mk_witness_input None (Some "reference_empty")
      (Some "0x54cf5a159f1646c7fc12fa79eeeee9cdf70d1cca45a3a2c73665f631df541a04")
      None
      (Some (mk_witness_fixture (AccountHeaderInput "0x1111111111111111111111111111111111111111"
        (Some "0x000000000000000000000000001111111111111111111111111111111111111111")) "0xdeadbeef" []))
      (Some [mk_leaf_fixture (AccountHeaderInput "0x1111111111111111111111111111111111111111"
        (Some "0x000000000000000000000000001111111111111111111111111111111111111111")) "0xdeadbeef"; mk_leaf_fixture (StorageSlotInput "0x1111111111111111111111111111111111111111"
        "0x0101010101010101010101010101010101010101010101010101010101010101"
        (Some "0x0100000000000000000000000011111111111111111111111111111111111111110101010101010101010101010101010101010101010101010101010101010101")) "0xcafe"]))
    "accept" None "shell-state"
    (Some "This keeps the shared end-to-end root-check path grounded in canonical witness fixtures rather than crate-local test scaffolding.")
    (Some ["0x000000000000000000000000001111111111111111111111111111111111111111"; "0x0100000000000000000000000011111111111111111111111111111111111111110101010101010101010101010101010101010101010101010101010101010101"]) (Some "reference_empty").

Definition witness_proof_valid_003 : WitnessVector :=
  mk_witness_vector "witness-proof-valid-003" "witness" "reference_proof_reconstruction"
    "A reference-backend witness for the second key in the shared two-leaf pre-state verifies against the same expected state root used by end-to-end root-check vectors."
    (mk_witness_input None (Some "reference_empty")
      (Some "0x54cf5a159f1646c7fc12fa79eeeee9cdf70d1cca45a3a2c73665f631df541a04")
      None
      (Some (mk_witness_fixture (StorageSlotInput "0x1111111111111111111111111111111111111111"
        "0x0101010101010101010101010101010101010101010101010101010101010101"
        (Some "0x0100000000000000000000000011111111111111111111111111111111111111110101010101010101010101010101010101010101010101010101010101010101")) "0xcafe" []))
      (Some [mk_leaf_fixture (AccountHeaderInput "0x1111111111111111111111111111111111111111"
        (Some "0x000000000000000000000000001111111111111111111111111111111111111111")) "0xdeadbeef"; mk_leaf_fixture (StorageSlotInput "0x1111111111111111111111111111111111111111"
        "0x0101010101010101010101010101010101010101010101010101010101010101"
        (Some "0x0100000000000000000000000011111111111111111111111111111111111111110101010101010101010101010101010101010101010101010101010101010101")) "0xcafe"]))
    "accept" None "shell-state"
    (Some "The paired multi-leaf witness vectors let execution and consensus tests share one real reference pre-state without inventing a block-local witness codec.")
    (Some ["0x000000000000000000000000001111111111111111111111111111111111111111"; "0x0100000000000000000000000011111111111111111111111111111111111111110101010101010101010101010101010101010101010101010101010101010101"]) (Some "reference_empty").

Definition root_check_match_001 : RootCheckVector :=
  mk_root_check_vector "root-check-end-to-end-match-001" "root-check" "witness_execution_consensus_root_check"
    "Canonical witness fixtures, execution patches, and final block-import commitments agree on transactions_root, execution_witnesses_root, state_root, and receipts_root."
    (mk_root_check_input (mk_header_input "0x9999999999999999999999999999999999999999999999999999999999999999"
      (uint_wrap 64 7) (uint_wrap 64 1001000) (uint_wrap 64 8)
      "0x1212121212121212121212121212121212121212121212121212121212121212"
      "0x0c1806d9a4aaccbb36324ead7e50118eca3ad93bf457e7140418682b955aa423"
      "0x75b389ee7f488d71ea41a415ec5ad50b1131784673fa0275fafcdf22eff1e363"
      "0xb7ee5c7b575618aa048d08a080d266a374653387963d032b77cd9a1018d8abc9"
      "0x90728de98fb08f68cc10cf496b7f121ff65eec03e56fa2cf33f1cb6637c5ec76"
      (uint_wrap 64 192) "0x1234")
      (mk_body_input ["tx-basic-valid-001"; "tx-create-valid-001"])
      (mk_sidecar_input "0x9999999999999999999999999999999999999999999999999999999999999999" ["witness-proof-valid-002"; "witness-proof-valid-003"])
      (mk_execution_input [mk_execution_step "tx-basic-valid-001" "witness-proof-valid-002" "0x01020304" Byte.x01 "0xaa"; mk_execution_step "tx-create-valid-001" "witness-proof-valid-003" "0x0506070809" Byte.x01 "0xbbcc"]))
    "accept" None "shell-consensus"
    (Some "The transactions_root and execution_witnesses_root use repository-local fixture hashers so execution and consensus tests can share concrete vectors before a final block-sidecar wire codec is frozen.")
    "0x0c1806d9a4aaccbb36324ead7e50118eca3ad93bf457e7140418682b955aa423"
    "0x75b389ee7f488d71ea41a415ec5ad50b1131784673fa0275fafcdf22eff1e363"
    "0xb7ee5c7b575618aa048d08a080d266a374653387963d032b77cd9a1018d8abc9"
    "0x90728de98fb08f68cc10cf496b7f121ff65eec03e56fa2cf33f1cb6637c5ec76".

Definition semantics_lineage_001 : ExecutionSemanticsVector :=
  mk_semantics_vector "execution-semantics-lineage-and-receipts-001" "execution-semantics" "cumulative_state_lineage_and_receipt_commitments"
    "Two planned transactions update reference state cumulatively in block order while receipt roots stay sensitive to the status code even when the output bytes are identical."
    (mk_semantics_input ["tx-basic-valid-001"; "tx-create-valid-001"]
      [mk_leaf_fixture (RawTreeKeyInput "0x1111111111111111111111111111111111111111111111111111111111111111" None) "0xaabb"; mk_leaf_fixture (RawTreeKeyInput "0x2222222222222222222222222222222222222222222222222222222222222222" None) "0xbbcc"]
      [mk_semantics_step "tx-basic-valid-001"
        (mk_semantics_patch [mk_leaf_fixture (RawTreeKeyInput "0x1111111111111111111111111111111111111111111111111111111111111111" None) "0x0102"; mk_leaf_fixture (RawTreeKeyInput "0x3333333333333333333333333333333333333333333333333333333333333333" None) "0x99"])
        Byte.x01 "0x55"
        (Some "0x51a394ffc299e2063f4709eb9ebf86943383094595f4e14f98fef0cf6ec35114")
        (Some "0xa5114dade6ed47e66c17732a81050164a7e8c80dd743ad01a5c002e7bba881e5"); mk_semantics_step "tx-create-valid-001"
        (mk_semantics_patch [mk_leaf_fixture (RawTreeKeyInput "0x2222222222222222222222222222222222222222222222222222222222222222" None) "0x030405"; mk_leaf_fixture (RawTreeKeyInput "0x4444444444444444444444444444444444444444444444444444444444444444" None) "0xbbccdd"])
        Byte.x00 "0x55"
        (Some "0x86cf5e7120d16b832c80081e066f882a60e52fd3a641b5331fb40c727e4642e0")
        (Some "0x0b0ddc3c597fd20ffe9b3e061ad35d45c474ac20d5bc8ad62575ea2021ec82e7")])
    "accept" None "shell-execution"
    (Some "The two receipts intentionally reuse the same output bytes so the vector proves that status_code remains part of the canonical receipt commitment.")
    "0xe913d4ccc169fa669a55af74cf8ed9e16f608cbfb96f13e35be63af6caee1e81"
    (Some "0x86cf5e7120d16b832c80081e066f882a60e52fd3a641b5331fb40c727e4642e0")
    (Some "0x80a9d3fb39ce7dbb22e2aa11107461d7e17cd08884a14bcb19eb66f0da378281") (Some true).

Definition semantics_noncanonical_001 : ExecutionSemanticsVector :=
  mk_semantics_vector "execution-semantics-noncanonical-patch-reject-001" "execution-semantics" "noncanonical_patch_order_rejects_before_state_mutation"
    "Execution rejects a planned patch whose accesses are not in canonical StateKey order and preserves the pre-state root after the failure."
    (mk_semantics_input ["tx-basic-valid-001"; "tx-create-valid-001"]
      [mk_leaf_fixture (RawTreeKeyInput "0x1111111111111111111111111111111111111111111111111111111111111111" None) "0x0a"; mk_leaf_fixture (RawTreeKeyInput "0x2222222222222222222222222222222222222222222222222222222222222222" None) "0x0b"]
      [mk_semantics_step "tx-basic-valid-001"
        (mk_semantics_patch [mk_leaf_fixture (RawTreeKeyInput "0xffffffffffffffffffffffffffffffffffffffffffffffffffffffffffffffff" None) "0xaa"; mk_leaf_fixture (RawTreeKeyInput "0x0000000000000000000000000000000000000000000000000000000000000000" None) "0xbb"])
        Byte.x01 "0x55"
        None
        None; mk_semantics_step "tx-create-valid-001"
        (mk_semantics_patch [mk_leaf_fixture (RawTreeKeyInput "0x3333333333333333333333333333333333333333333333333333333333333333" None) "0xcc"])
        Byte.x01 "0x55"
        None
        None])
    "reject" (Some (mk_semantics_expected "NonCanonicalWitnessOrdering" (Some 1%N)
      (Some "access keys must be strictly increasing in canonical StateKey order"))) "shell-execution"
    (Some "The second step remains intentionally unconsumed so the fixture also proves that execution aborts on the first failing transition.")
    "0x706e306517cfdaa358c4761535efa61a357e2c378ff535c011eaac4565e216fe"
    (Some "0x706e306517cfdaa358c4761535efa61a357e2c378ff535c011eaac4565e216fe")
    None (Some false).

Definition semantics_empty_block_001 : ExecutionSemanticsVector :=
  mk_semantics_vector "execution-semantics-empty-block-001" "execution-semantics" "empty_block_preserves_materialized_state"
    "An empty block keeps the pre-materialized state root unchanged and uses the canonical empty receipts root."
    (mk_semantics_input []
      [mk_leaf_fixture (RawTreeKeyInput "0x1111111111111111111111111111111111111111111111111111111111111111" None) "0xaabb"; mk_leaf_fixture (RawTreeKeyInput "0x2222222222222222222222222222222222222222222222222222222222222222" None) "0xbbcc"]
      [])
    "accept" None "shell-execution"
    (Some "This stays harness-local and proves that execution does not invent state transitions or receipts when the block body is empty.")
    "0xe913d4ccc169fa669a55af74cf8ed9e16f608cbfb96f13e35be63af6caee1e81"
    (Some "0xe913d4ccc169fa669a55af74cf8ed9e16f608cbfb96f13e35be63af6caee1e81")
    (Some "0xdd4d7638f40aef3c24693d88a242e3a9dc41b81764d0826b5b12a110e98c00a5") (Some true).

Definition load_tx (id : string) : option TransactionVector :=
  if decide (id = "tx-basic-valid-001") then Some tx_basic_valid_001
  else if decide (id = "tx-create-valid-001") then Some tx_create_valid_001 else None.

Definition load_witness (id : string) : option WitnessVector :=
  if decide (id = "witness-proof-valid-001") then Some witness_proof_valid_001
  else if decide (id = "witness-proof-valid-002") then Some witness_proof_valid_002
  else if decide (id = "witness-proof-valid-003") then Some witness_proof_valid_003 else None.

(** ** Roots recorded in the vectors, under SHA-256 *)

Definition unwrap {A} (d : A) (o : option A) : A := default d o.
Definition basic_payload : TransactionPayloadSsz :=
  Eval vm_compute in unwrap TransactionPayloadSsz_default (TransactionVector_payload tx_basic_valid_001).
Definition create_payload : TransactionPayloadSsz :=
  Eval vm_compute in unwrap TransactionPayloadSsz_default (TransactionVector_payload tx_create_valid_001).

(** The [payload_root] of [tx-basic-valid-001]. *)
Example tx_basic_root :
  Some (payload_root_of (SHA := sha2) basic_payload) =
  parse_root "0xed88c8d3d9203ca32ac85bb3669c3ce93aff60599e0a9a1665319574c98d6060".
Proof. vm_compute. reflexivity. Qed.

(** The wire encodings of both transaction vectors. *)
Example tx_wires :
  (fun b => decode_payload b) <$> (wire_hex (tv_input tx_basic_valid_001) ≫= parse_hex) = Some (Ok basic_payload) /\
  (fun b => decode_payload b) <$> (wire_hex (tv_input tx_create_valid_001) ≫= parse_hex) = Some (Ok create_payload) /\
  encode_payload basic_payload = Ok (unwrap [] (wire_hex (tv_input tx_basic_valid_001) ≫= parse_hex)) /\
  encode_payload create_payload = Ok (unwrap [] (wire_hex (tv_input tx_create_valid_001) ≫= parse_hex)).
Proof. vm_compute. auto. Qed.

Definition state_of (v : WitnessVector) : list (StateKey * list byte) :=
  unwrap [] (WitnessVector_materialized_state v).

(** The [expected_state_root]s of the witness vectors. *)
Example witness_state_roots :
  root <$> materialize_root_check_accumulator (SHA := sha2) (state_of witness_proof_valid_001) =
    parse_root "0xc29b19be933adb914c312f0ef305668d27189058d8fbde447d5c36d0e81fce1b" /\
  root <$> materialize_root_check_accumulator (SHA := sha2) (state_of witness_proof_valid_002) =
    parse_root "0x54cf5a159f1646c7fc12fa79eeeee9cdf70d1cca45a3a2c73665f631df541a04".
Proof. vm_compute. auto. Qed.

(** The [execution_witnesses_root], [state_root] and [receipts_root] of
    [root-check-end-to-end-match-001]. *)
Definition match_witnesses : list StateWitness :=
  Eval vm_compute in
    base.omap (fun v => unwrap None (WitnessVector_witness v)) [witness_proof_valid_002; witness_proof_valid_003].

Definition nth_witness (i : nat) : StateWitness :=
  nth i match_witnesses (mk_witness (RawTreeKey (zeros 32)) [] []).

Example match_witnesses_root :
  Some (compute_execution_witnesses_root (SHA := sha2) match_witnesses) =
  parse_root (rv_execution_witnesses_root root_check_match_001).
Proof. vm_compute. reflexivity. Qed.

Example match_post_state_root :
  Some (root (apply_transition (SHA := sha2) (mk_patch [sw_key (nth_witness 1)] [[Byte.x05; Byte.x06; Byte.x07; Byte.x08; Byte.x09]])
    (apply_transition (SHA := sha2) (mk_patch [sw_key (nth_witness 0)] [[Byte.x01; Byte.x02; Byte.x03; Byte.x04]])
      (apply_transition (SHA := sha2) (entries_patch (state_of witness_proof_valid_002)) InMemoryAccumulator_new).2).2).2) =
  parse_root (rv_state_root root_check_match_001).
Proof. vm_compute. reflexivity. Qed.

Example match_receipts_root :
  Some (compute_receipts_root (SHA := sha2) [mk_receipt Byte.x01 [Byte.xaa]; mk_receipt Byte.x01 [Byte.xbb; Byte.xcc]]) =
  parse_root (rv_receipts_root root_check_match_001).
Proof. vm_compute. reflexivity. Qed.

(** ** Execution-semantics vectors, under SHA-256 *)

(** The vector's state, and the answers of the applier to its patches in order, up to
    the first refusal. *)
Fixpoint apply_patches `{Sha256} (patches : list StatePatch) (applier : ReferenceStateApplier)
    : list (result StateTransitionOutcome StateError) * ReferenceStateApplier :=
  match patches with
  | [] => ([], applier)
  | patch :: patches =>
      match ReferenceStateApplier_apply (applier_state_root applier) patch applier with
      | (Ok outcome, applier) =>
          let '(outcomes, applier) := apply_patches patches applier in (Ok outcome :: outcomes, applier)
      | (Err error, applier) => ([Err error], applier)
      end
  end.

Definition semantics_applier `{Sha256} (v : ExecutionSemanticsVector) : ReferenceStateApplier :=
  ReferenceStateApplier_new (unwrap InMemoryAccumulator_new
    (ExecutionSemanticsVector_materialized_state v ≫= materialize_root_check_accumulator)).

Definition semantics_patches (v : ExecutionSemanticsVector) : list StatePatch :=
  unwrap [] (mapM ExecutionSemanticsStep_state_patch (sm_steps (sv_input v))).

Definition semantics_run `{Sha256} (v : ExecutionSemanticsVector) :=
  apply_patches (semantics_patches v) (semantics_applier v).

Definition semantics_receipts (v : ExecutionSemanticsVector) : list ExecutionReceipt :=
  (fun step => mk_receipt (ss_receipt_status_code step) (unwrap [] (ExecutionSemanticsStep_receipt_output step)))
    <$> sm_steps (sv_input v).

(** Pre-state, per-step post-states, receipt roots and the receipts root. *)
Example semantics_lineage_roots :
  Some (applier_state_root (semantics_applier (H := sha2) semantics_lineage_001)) =
    parse_root (sv_pre_state_root semantics_lineage_001) /\
  Some <$> (semantics_run (H := sha2) semantics_lineage_001).1 =
    (fun step => r ← ss_expected_post_state_root step; r ← parse_root r; Some (Ok (mk_outcome r)))
      <$> sm_steps (sv_input semantics_lineage_001) /\
  Some <$> (receipt_canonical_root (SHA := sha2) <$> semantics_receipts semantics_lineage_001) =
    (fun step => r ← ss_expected_receipt_root step; parse_root r) <$> sm_steps (sv_input semantics_lineage_001) /\
  Some (compute_receipts_root (SHA := sha2) (semantics_receipts semantics_lineage_001)) =
    (r ← sv_receipts_root semantics_lineage_001; parse_root r).
Proof. vm_compute. auto. Qed.

(** A patch out of canonical order is refused at index 1 and the state keeps its root. *)
Example semantics_noncanonical_rejected :
  let '(answers, applier) := semantics_run (H := sha2) semantics_noncanonical_001 in
  answers = [Err (NonCanonicalWitnessOrdering (mk_ordering_error 1
    "access keys must be strictly increasing in canonical StateKey order"))] /\
  Some (applier_state_root applier) = parse_root (sv_pre_state_root semantics_noncanonical_001).
Proof. vm_compute. auto. Qed.

Example semantics_empty_block_roots :
  Some (applier_state_root (semantics_run (H := sha2) semantics_empty_block_001).2) =
    parse_root (sv_pre_state_root semantics_empty_block_001) /\
  Some (compute_receipts_root (SHA := sha2) []) =
    (r ← sv_receipts_root semantics_empty_block_001; parse_root r).
Proof. vm_compute. auto. Qed.

(** ** The end-to-end scenario *)

Section end_to_end.
#[local] Existing Instance poly_hash.

Definition root_hex (r : Root) : string :=
  String.String (Ascii.ascii_of_N 48) (String.String (Ascii.ascii_of_N 120) (hex_string (elems r))).

Definition hashed_pre_root : Root :=
  Eval vm_compute in
    from_option root (zeros 32) (materialize_root_check_accumulator (state_of witness_proof_valid_002)).

Definition match_transactions : list TransactionEnvelope :=
  [mk_envelope basic_payload []; mk_envelope create_payload []].

Definition hashed_transactions_root : Root :=
  Eval vm_compute in
    match compute_transactions_root match_transactions with Ok r => r | Err _ => zeros 32 end.

Definition hashed_witnesses_root : Root :=
  Eval vm_compute in compute_execution_witnesses_root match_witnesses.

Definition hashed_post_root : Root :=
  Eval vm_compute in
  root (apply_transition (mk_patch [sw_key (nth_witness 1)] [[Byte.x05; Byte.x06; Byte.x07; Byte.x08; Byte.x09]])
    (apply_transition (mk_patch [sw_key (nth_witness 0)] [[Byte.x01; Byte.x02; Byte.x03; Byte.x04]])
      (apply_transition (entries_patch (state_of witness_proof_valid_002)) InMemoryAccumulator_new).2).2).2.

Definition hashed_receipts_root : Root :=
  Eval vm_compute in
  compute_receipts_root [mk_receipt Byte.x01 [Byte.xaa]; mk_receipt Byte.x01 [Byte.xbb; Byte.xcc]].

(** The vectors with the digest's roots in place of SHA-256's. *)
Definition rehash_witness_vector (v : WitnessVector) : WitnessVector :=
  let i := wv_input v in
  mk_witness_vector (wv_id v) (wv_category v) (wv_rule v) (wv_description v)
    (mk_witness_input (wi_ordering_is_canonical i) (wi_proof_shape_kind i) (Some (root_hex hashed_pre_root))
       (wi_witnesses i) (wi_witness i) (wi_materialized_state i))
    (wv_expected_outcome v) (wv_expected_error v) (wv_owned_by v) (wv_notes v) (wv_state_keys v)
    (wv_proof_shape_kind v).

Definition rehash_root_check (v : RootCheckVector) : RootCheckVector :=
  let i := rv_input v in
  let h := ri_header i in
  mk_root_check_vector (rv_id v) (rv_category v) (rv_rule v) (rv_description v)
    (mk_root_check_input
       (mk_header_input (hi_block_root h) (hi_block_number h) (hi_timestamp h) (hi_proposer_index h)
          (hi_parent_root h) (root_hex hashed_transactions_root) (root_hex hashed_witnesses_root)
          (root_hex hashed_post_root) (root_hex hashed_receipts_root) (hi_witness_bytes h)
          (hi_proposer_signature_hex h))
       (ri_body i) (ri_sidecar i) (ri_execution i))
    (rv_expected_outcome v) (rv_expected_error v) (rv_owned_by v) (rv_notes v)
    (root_hex hashed_transactions_root) (root_hex hashed_witnesses_root)
    (root_hex hashed_post_root) (root_hex hashed_receipts_root).

Definition hashed_vector : RootCheckVector := Eval vm_compute in rehash_root_check root_check_match_001.
Definition load_hashed_witness (id : string) : option WitnessVector := rehash_witness_vector <$> load_witness id.

Definition resolved_scenario : RootCheckScenario :=
  Eval vm_compute in
    match resolve_root_check_scenario load_tx load_hashed_witness hashed_vector with
    | Some s => s
    | None => mk_scenario (mk_scenario_header (zeros 32) (uint_wrap 64 0) (uint_wrap 64 0) (uint_wrap 64 0)
        (zeros 32) (zeros 32) (zeros 32) (zeros 32) (zeros 32) (uint_wrap 64 0) [])
        (mk_scenario_sidecar (zeros 32)) [] [] [] (zeros 32) []
    end.

Example scenario_resolves :
  resolve_root_check_scenario load_tx load_hashed_witness hashed_vector = Some resolved_scenario.
Proof. vm_compute. reflexivity. Qed.

Lemma resolved_scenario_consistent_witness : scenario_consistent resolved_scenario.
Proof.
  apply (resolved_scenario_consistent load_tx load_hashed_witness hashed_vector).
  exact scenario_resolves.
Defined.

(** Keys [0x00] verify user authorizations and the proposer's signature. *)
Definition e2e_registry : VerifierRegistry (W := nat) :=
  (registry_register_verifier (VerifierRegistry_with_config DispatcherConfig_default)
     (counting_verifier Byte.x00 None)).2.

Definition e2e_runtime : LocalReferenceRuntime nat (VerifierRegistry (W := nat)) :=
  LocalReferenceRuntime_new e2e_registry (fun _ => ret (mk_credential Byte.x00 [Byte.x01]))
    AdmissionPolicy_default (mk_import_config (mk_prefilter (Some (uint_wrap 64 192))) RequireAll).

Definition e2e_scenario : LocalReferenceScenario :=
  Eval vm_compute in from_root_check_scenario resolved_scenario.

Definition e2e_flow : LocalReferenceFlowOutcome :=
  Eval vm_compute in
    match (run e2e_runtime e2e_scenario 0).1 with
    | Ok flow => flow
    | Err _ => mk_flow_outcome [] (mk_import_outcome (zeros 32) (zeros 32) (zeros 32))
    end.

(** Five verifications: two admissions, the proposer's, two revalidations. *)
Example e2e_runs : run e2e_runtime e2e_scenario 0 = (Ok e2e_flow, 5).
Proof. vm_compute. reflexivity. Qed.

Lemma run_accepts_sound_witness :
  length (admissions e2e_flow) = 2 /\
  exists acc acc',
    materialize_accumulator (ls_materialized_state e2e_scenario) = Ok acc /\
    verify_witnesses acc (witnesses (Consensus.sidecar (ls_block e2e_scenario))) (root acc) = Ok tt /\
    bi_post_state_root (import_outcome e2e_flow) = root acc'.
Proof.
  destruct (run_accepts_sound e2e_runtime e2e_scenario 0 e2e_flow 5 e2e_runs)
    as (Hlen & acc & acc' & Hacc & _ & _ & Hver & _ & _ & _ & _ & Hpost & _).
  split; [exact Hlen|]. exists acc, acc'. auto.
Defined.

Lemma consistent_scenario_progress_witness :
  exists out, forall w,
    execution_engine (reference_services e2e_runtime (from_root_check_scenario resolved_scenario) ∅)
      (scenario_header (from_root_check_scenario resolved_scenario))
      (scenario_body (from_root_check_scenario resolved_scenario))
      (scenario_sidecar (from_root_check_scenario resolved_scenario)) w = (Ok out, w).
Proof.
  apply (consistent_scenario_progress e2e_runtime resolved_scenario ∅).
  eapply resolve_consistent, scenario_resolves.
Defined.

Definition e2e_adapter : LocalReferenceNetworkMempoolAdapter (W := nat) (D := VerifierRegistry (W := nat)) :=
  match mempool_adapter_try_new e2e_runtime e2e_scenario with
  | Ok adapter => adapter
  | Err _ => mk_local_mempool_adapter e2e_runtime ∅
  end.

Definition e2e_transaction : TransactionEnvelope :=
  Eval vm_compute in nth 0 (admission_transactions e2e_scenario) unsigned_sample.

Lemma mempool_adapter_verdicts_witness :
  exists mats v,
    ma_authorization_materials e2e_adapter !! payload_root_of (env_payload e2e_transaction) = Some mats /\
    validate_transaction (ma_runtime e2e_adapter) e2e_transaction mats 0 = (Ok v, 1).
Proof.
  apply (mempool_adapter_verdicts e2e_adapter LocalRpc e2e_transaction 0 (Ok Accept) 1).
  vm_compute. reflexivity.
Defined.

Lemma witnesses_root_binding_witness :
  match_witnesses = [nth_witness 0; nth_witness 1].
Proof.
  apply (witnesses_root_binding match_witnesses [nth_witness 0; nth_witness 1]);
    try (repeat (apply Forall_cons; split; [split; reflexivity|]); apply Forall_nil_2).
  - reflexivity.
  - reflexivity.
  - apply collision_free_b_ok. vm_compute. reflexivity.
  - vm_compute. reflexivity.
Defined.

Lemma transactions_root_binding_witness :
  match_transactions = sn_transactions resolved_scenario.
Proof.
  apply (transactions_root_binding match_transactions (sn_transactions resolved_scenario)
           hashed_transactions_root);
    try (repeat (apply Forall_cons; split; [split_and!; [discriminate..|apply Forall_nil_2]|]); apply Forall_nil_2).
  - reflexivity.
  - reflexivity.
  - apply collision_free_b_ok. vm_compute. reflexivity.
  - vm_compute. reflexivity.
  - vm_compute. reflexivity.
Defined.

Definition e2e_index : AdmissionIndex :=
  match build_admission_transactions_by_payload_root (admission_transactions e2e_scenario)
    (transaction_authorization_materials e2e_scenario) with
  | Ok index => index
  | Err _ => ∅
  end.

(** The unsigned block body passes because the signed admission transactions do. *)
Lemma revalidation_ignores_block_authorizations_witness :
  revalidate_body_transactions (scenario_body e2e_scenario)
    (reference_services e2e_runtime e2e_scenario e2e_index) RequireAll 0 = (Ok tt, 2).
Proof.
  rewrite (revalidation_ignores_block_authorizations e2e_runtime e2e_scenario e2e_index _
    (CanonicalBlockBody_body (mk_canonical_body (admission_transactions e2e_scenario) (zeros 32)))
    RequireAll 0) by reflexivity.
  vm_compute. reflexivity.
Defined.

(** What [run] established about the vector's header. *)
Lemma e2e_commitments : commitments_hold e2e_runtime (from_root_check_scenario resolved_scenario).
Proof.
  assert (run e2e_runtime (from_root_check_scenario resolved_scenario) 0 = (Ok e2e_flow, 5)) as Hrun
    by (vm_compute; reflexivity).
  apply run_ok in Hrun as (w1 & w2 & _ & _ & _ & _ & Hc & _). exact Hc.
Qed.

Lemma e2e_admits : Forall (admits e2e_runtime) (sn_transactions resolved_scenario).
Proof.
  repeat (apply Forall_cons; split; [|]); [..|apply Forall_nil_2];
    (split; [split; vm_compute; discriminate|split; [by intros view [=]|]]);
    intros w; exists (S w); vm_compute; reflexivity.
Qed.

Lemma consistent_scenario_accepted_witness :
  exists flow w', run e2e_runtime (from_root_check_scenario resolved_scenario) 0 = (Ok flow, w') /\
    import_outcome flow = scenario_outcome (from_root_check_scenario resolved_scenario) /\
    length (admissions flow) = 2.
Proof.
  apply (consistent_scenario_accepted e2e_runtime resolved_scenario 0).
  - eapply resolve_consistent, scenario_resolves.
  - apply (bool_decide_unpack (NoDup _)). vm_compute. exact I.
  - apply e2e_admits.
  - intros w. exists (S w). eexists _, w. split; [reflexivity|]. vm_compute. reflexivity.
  - intros m [= <-]. vm_compute. discriminate.
  - apply e2e_commitments.
  - apply e2e_commitments.
Defined.

(** The block with the signed envelopes in place of the unsigned ones, under the same
    header, is another accepted scenario. *)
Definition signed_scenario : LocalReferenceScenario :=
  with_envelopes e2e_scenario (admission_transactions e2e_scenario).

Example signed_scenario_differs : signed_scenario <> e2e_scenario.
Proof.
  intros Heq. apply (f_equal (fun sc => cb_transactions (Consensus.body (ls_block sc)))) in Heq.
  vm_compute in Heq. discriminate.
Qed.

Lemma accepted_block_envelopes_replaceable_witness : run e2e_runtime signed_scenario 0 = (Ok e2e_flow, 5).
Proof. apply (accepted_block_envelopes_replaceable e2e_runtime); [reflexivity|exact e2e_runs]. Defined.

Lemma accepted_header_binds_execution_witness :
  scenario_witnesses e2e_scenario = scenario_witnesses signed_scenario /\
  entries (post_ledger e2e_scenario) = entries (post_ledger signed_scenario) /\
  planned_receipts e2e_scenario = planned_receipts signed_scenario /\
  (ls_pre_state_root e2e_scenario = ls_pre_state_root signed_scenario ->
   entries (pre_ledger e2e_scenario) = entries (pre_ledger signed_scenario)).
Proof.
  apply (accepted_header_binds_execution e2e_runtime e2e_runtime _ _ 0 0 e2e_flow e2e_flow 5 5).
  - exact e2e_runs.
  - vm_compute. reflexivity.
  - split_and!; reflexivity.
  - discriminate.
  - discriminate.
  - split; [repeat (apply Forall_cons; split; [split; reflexivity|]); apply Forall_nil_2|reflexivity].
  - split; [repeat (apply Forall_cons; split; [split; reflexivity|]); apply Forall_nil_2|reflexivity].
  - apply collision_free_b_ok. vm_compute. reflexivity.
Defined.

(** A second block on the state the first one left, with the same transactions, other
    patches and receipts, and a witness for one of the updated entries. *)
Definition next_state : list (StateKey * list byte) :=
  Eval vm_compute in sorted_entries (entries (post_ledger e2e_scenario)).

Definition next_plans : list PlannedTransaction :=
  Eval vm_compute in
    zip_with (fun p v => mk_planned (pt_transaction_root p)
        (mk_plan (mk_patch [sw_key (nth_witness 0)] [[v]]) (mk_receipt v [])))
      (ls_planned_transactions e2e_scenario) [Byte.x0a; Byte.x0b].

Definition next_witnesses : list StateWitness :=
  Eval vm_compute in (fun p => mk_witness p.1 p.2 []) <$> take 1 next_state.

Definition next_scenario : LocalReferenceScenario :=
  Eval vm_compute in
  let h := Consensus.header (ls_block e2e_scenario) in
  let pre := mk_ledger (list_to_map next_state) true in
  let wroot := compute_execution_witnesses_root next_witnesses in
  mk_local_scenario
    (mk_block
       (mk_canonical_header (filled 32 Byte.x77) (uint_wrap 64 2) (ch_timestamp h) (ch_block_root h)
          (ch_witness_bytes h) (ch_transactions_root h) wroot
          (ledger_root (mk_ledger (apply_plans next_plans (entries pre)) true))
          (compute_receipts_root ((fun p => receipt (pt_plan p)) <$> next_plans))
          (ch_proposer_signature h) (ch_proposer_index_hint h))
       (Consensus.body (ls_block e2e_scenario))
       (mk_canonical_sidecar (filled 32 Byte.x77) wroot next_witnesses))
    (admission_transactions e2e_scenario) (ledger_root pre) next_state next_plans
    (transaction_authorization_materials e2e_scenario).

Definition next_flow : LocalReferenceFlowOutcome :=
  Eval vm_compute in from_option id e2e_flow (match (run e2e_runtime next_scenario 5).1 with Ok f => Some f | Err _ => None end).

Lemma chained_blocks_apply_all_plans_witness :
  starts_from_previous [e2e_scenario; next_scenario] (entries (pre_ledger e2e_scenario)) /\
  committed_state_root next_scenario =
    ledger_root (mk_ledger (chain_state [e2e_scenario; next_scenario] (entries (pre_ledger e2e_scenario))) true).
Proof.
  apply (chained_blocks_apply_all_plans e2e_runtime (pre_ledger e2e_scenario) 0 _ _ 10).
  - reflexivity.
  - eapply chain_block; [exact e2e_runs|vm_compute; reflexivity|discriminate|].
    apply (chain_block e2e_runtime _ _ _ next_flow 10);
      [vm_compute; reflexivity|vm_compute; reflexivity|discriminate|apply chain_done].
  - apply collision_free_b_ok. vm_compute. reflexivity.
Defined.

Lemma run_verification_budget_witness :
  0 <= 5 <= 0 + (admission_cost e2e_scenario + 1 + revalidation_cost e2e_scenario) /\
  5 = 0 + (admission_cost e2e_scenario + 1 + revalidation_cost e2e_scenario).
Proof.
  destruct (run_verification_budget (fun w : nat => w) e2e_runtime e2e_scenario 0 (Ok e2e_flow) 5) as [Hb Hs].
  - apply registry_metered, Forall_singleton. intros rq w r w' [= <- <-]. cbn. lia.
  - intros q. apply costs_ret.
  - exact e2e_runs.
  - split; [exact Hb|]. by apply Hs.
Defined.

End end_to_end.

(** The unit test of shell-fixtures on the three execution-semantics files. *)
Example semantics_vectors_bind_pre_state_roots :
  execution_semantics_vectors_bind_materialized_pre_state_roots (SHA := sha2)
    "execution-semantics-lineage-and-receipts-001" semantics_lineage_001 &&
  execution_semantics_vectors_bind_materialized_pre_state_roots (SHA := sha2)
    "execution-semantics-noncanonical-patch-reject-001" semantics_noncanonical_001 &&
  execution_semantics_vectors_bind_materialized_pre_state_roots (SHA := sha2)
    "execution-semantics-empty-block-001" semantics_empty_block_001 = true.
Proof. vm_compute. reflexivity. Qed.
