(* ===== verification/DirectoryData.v ===== *)
(** * The vector directories, evaluated

    The files of [vectors/validation] and [vectors/blocks] and the two rejected
    transactions as the records the tests read them into, a file system that holds the
    vectors of the repository, and the evaluation of the directory tests on it.  Reading
    a file of this system yields its stem, and decoding looks the record up by that:
    JSON is not modelled. *)

From S2P Require Import Prelude Primitives Codec Hash Sha256 OrdMap Ssz State Crypto Fixtures VectorFiles Testing FixtureVectors FixtureData.
From S2P Require Import DirectoryTests Vectors.
Import ValidationVectors BlockVectors.

(** ** vectors/validation *)

Definition auth_count_empty_001 : ValidationVector :=
  mk_validation_vector "auth-count-empty-001" "validation" "authorization_count"
    "An empty authorization list is rejected by check_authorization_count because the closed rule requires at least one authorization."
    (mk_validation_input (Some [])
      None None)
    "reject" (Some (mk_validation_error "AuthorizationCount" (Some 1%N) (Some 0%N)
      None
      None
      None None)) "shell-primitives"
    (Some "Closed T1 rule: zero authorizations must be caught before any signature dispatch.").

Definition auth_count_multiple_001 : ValidationVector :=
  mk_validation_vector "auth-count-multiple-001" "validation" "authorization_count"
    "An authorization list with three entries clears the minimum-one rule; the count check does not impose an upper bound."
    (mk_validation_input (Some [mk_authorization_input Byte.x00
         "0x0000000000000000000000000000000000000000000000000000000000000000" "0x";
       mk_authorization_input Byte.x01
         "0x0000000000000000000000000000000000000000000000000000000000000000" "0x";
       mk_authorization_input Byte.x02
         "0x0000000000000000000000000000000000000000000000000000000000000000" "0x"])
      None None)
    "accept" None "shell-primitives"
    (Some "len > 1 is accepted; the rule is a floor, not a ceiling.").

Definition auth_count_single_001 : ValidationVector :=
  mk_validation_vector "auth-count-single-001" "validation" "authorization_count"
    "A single-entry authorization list satisfies the minimum-one closed rule and is accepted."
    (mk_validation_input (Some [mk_authorization_input Byte.x00
         "0x0000000000000000000000000000000000000000000000000000000000000000" "0x"])
      None None)
    "accept" None "shell-primitives"
    (Some "Exact lower boundary: len == 1 satisfies the >= 1 closed rule.").

Definition auth_root_match_001 : ValidationVector :=
  mk_validation_vector "auth-root-match-001" "validation" "authorization_payload_roots"
    "An authorization whose payload_root equals the canonical hash_tree_root of the accompanying payload passes the binding check."
    (mk_validation_input (Some [mk_authorization_input Byte.x00
         "0xed88c8d3d9203ca32ac85bb3669c3ce93aff60599e0a9a1665319574c98d6060" "0x"])
      (Some "0x0001000000000000000000000000000000000000000000000000000000000000002a00000000000000085200000000000002000000000000000000000000000000000000000000000000000000000000000300000000000000000000000000000000000000000000000000000000000000040000000000000000000000000000000000000000000000000000000000000011111111111111111111111111111111111111110500000000000000000000000000000000000000000000000000000000000000e80000002222222222222222222222222222222222222222222222222222222222222222deadbeef") None)
    "accept" None "shell-primitives"
    (Some "The payload_root is the authoritative hash_tree_root of the tag-0 basic fixture payload used in tx-basic-valid-001.").

Definition auth_root_mismatch_001 : ValidationVector :=
  mk_validation_vector "auth-root-mismatch-001" "validation" "authorization_payload_roots"
    "An authorization whose payload_root does not match the canonical hash_tree_root of the accompanying payload is rejected before any cryptographic dispatch."
    (mk_validation_input (Some [mk_authorization_input Byte.x00
         "0x0000000000000000000000000000000000000000000000000000000000000000" "0x"])
      (Some "0x0001000000000000000000000000000000000000000000000000000000000000002a00000000000000085200000000000002000000000000000000000000000000000000000000000000000000000000000300000000000000000000000000000000000000000000000000000000000000040000000000000000000000000000000000000000000000000000000000000011111111111111111111111111111111111111110500000000000000000000000000000000000000000000000000000000000000e80000002222222222222222222222222222222222222222222222222222222222222222deadbeef") None)
    "reject" (Some (mk_validation_error "PayloadRootMismatch" None None
      (Some "0xed88c8d3d9203ca32ac85bb3669c3ce93aff60599e0a9a1665319574c98d6060")
      (Some "0x0000000000000000000000000000000000000000000000000000000000000000")
      None None)) "shell-primitives"
    (Some "The authorization presents an all-zero payload_root; the correct root for this payload is ed88c8d3….").

Definition auth_root_no_auths_001 : ValidationVector :=
  mk_validation_vector "auth-root-no-auths-001" "validation" "authorization_payload_roots"
    "With no authorizations the payload-root loop is vacuously satisfied; check_authorization_payload_roots returns Ok."
    (mk_validation_input (Some [])
      (Some "0x0001000000000000000000000000000000000000000000000000000000000000002a00000000000000085200000000000002000000000000000000000000000000000000000000000000000000000000000300000000000000000000000000000000000000000000000000000000000000040000000000000000000000000000000000000000000000000000000000000011111111111111111111111111111111111111110500000000000000000000000000000000000000000000000000000000000000e80000002222222222222222222222222222222222222222222222222222222222222222deadbeef") None)
    "accept" None "shell-primitives"
    (Some "Vacuous case: the for-loop over an empty slice never evaluates the mismatch predicate.").

Definition auth_root_second_mismatch_001 : ValidationVector :=
  mk_validation_vector "auth-root-second-mismatch-001" "validation" "authorization_payload_roots"
    "When multiple authorizations are provided the loop stops at the first mismatch; the second authorization carries a wrong root so the check fails on it."
    (mk_validation_input (Some [mk_authorization_input Byte.x00
         "0xed88c8d3d9203ca32ac85bb3669c3ce93aff60599e0a9a1665319574c98d6060" "0x";
       mk_authorization_input Byte.x01
         "0xffffffffffffffffffffffffffffffffffffffffffffffffffffffffffffffff" "0x"])
      (Some "0x0001000000000000000000000000000000000000000000000000000000000000002a00000000000000085200000000000002000000000000000000000000000000000000000000000000000000000000000300000000000000000000000000000000000000000000000000000000000000040000000000000000000000000000000000000000000000000000000000000011111111111111111111111111111111111111110500000000000000000000000000000000000000000000000000000000000000e80000002222222222222222222222222222222222222222222222222222222222222222deadbeef") None)
    "reject" (Some (mk_validation_error "PayloadRootMismatch" None None
      (Some "0xed88c8d3d9203ca32ac85bb3669c3ce93aff60599e0a9a1665319574c98d6060")
      (Some "0xffffffffffffffffffffffffffffffffffffffffffffffffffffffffffffffff")
      None None)) "shell-primitives"
    (Some "First authorization is correct; the check must still catch the second mismatched one.").

Definition sig_size_at_limit_001 : ValidationVector :=
  mk_validation_vector "sig-size-at-limit-001" "validation" "user_signature_size"
    "A signature of exactly 8192 bytes is at the closed 8 KB limit and must be accepted (the rule rejects strictly-greater-than)."
    (mk_validation_input None
      None (Some 8192%N))
    "accept" None "shell-primitives"
    (Some "Exact boundary: len == MAX_USER_SIGNATURE_BYTES (8192) is the inclusive upper bound.").

Definition sig_size_below_limit_001 : ValidationVector :=
  mk_validation_vector "sig-size-below-limit-001" "validation" "user_signature_size"
    "A signature of 8191 bytes is one byte below the closed 8 KB limit and is accepted."
    (mk_validation_input None
      None (Some 8191%N))
    "accept" None "shell-primitives"
    (Some "Boundary: MAX_USER_SIGNATURE_BYTES - 1 must pass the strict less-than-or-equal check.").

Definition sig_size_over_limit_001 : ValidationVector :=
  mk_validation_vector "sig-size-over-limit-001" "validation" "user_signature_size"
    "A signature of 8193 bytes exceeds the closed 8 KB limit by one byte and is rejected before any cryptographic verification."
    (mk_validation_input None
      None (Some 8193%N))
    "reject" (Some (mk_validation_error "SignatureSizeExceeded" None None
      None
      None
      (Some 8192%N) (Some 8193%N))) "shell-primitives"
    (Some "Exact boundary: len == MAX_USER_SIGNATURE_BYTES + 1 is the first byte that must be refused.").

Definition sig_size_zero_001 : ValidationVector :=
  mk_validation_vector "sig-size-zero-001" "validation" "user_signature_size"
    "An empty signature (zero bytes) is well below the 8 KB limit and is accepted."
    (mk_validation_input None
      None (Some 0%N))
    "accept" None "shell-primitives"
    (Some "Edge case: zero-byte signature is valid from a sizing perspective; scheme-specific rules may further reject it.").

(** ** vectors/blocks *)

Definition block_execution_roots_match_001 : ConsensusVector :=
  mk_consensus_vector "block-execution-roots-match-001" "block" "execution_root_comparison"
    "A block whose execution result matches the committed header state_root and receipts_root passes the final comparison gate."
    (mk_block_input (mk_block_header_input (uint_wrap 64 3) (uint_wrap 64 1000002) (uint_wrap 64 4)
         "0x2222222222222222222222222222222222222222222222222222222222222222"
         "0xaaaaaaaaaaaaaaaaaaaaaaaaaaaaaaaaaaaaaaaaaaaaaaaaaaaaaaaaaaaaaaaa"
         "0x5555555555555555555555555555555555555555555555555555555555555555"
         "0xeeeeeeeeeeeeeeeeeeeeeeeeeeeeeeeeeeeeeeeeeeeeeeeeeeeeeeeeeeeeeeee"
         "0xffffffffffffffffffffffffffffffffffffffffffffffffffffffffffffffff"
         (uint_wrap 64 160) "0x")
      (Some (mk_block_body_input ["tx-basic-valid-001"]))
      (Some (mk_block_sidecar_input "0x7777777777777777777777777777777777777777777777777777777777777777" ["witness-proof-valid-001"]))
      (Some "0xaaaaaaaaaaaaaaaaaaaaaaaaaaaaaaaaaaaaaaaaaaaaaaaaaaaaaaaaaaaaaaaa")
      (Some "0x7777777777777777777777777777777777777777777777777777777777777777")
      (Some "0x5555555555555555555555555555555555555555555555555555555555555555")
      None
      (Some (mk_execution_result "0xeeeeeeeeeeeeeeeeeeeeeeeeeeeeeeeeeeeeeeeeeeeeeeeeeeeeeeeeeeeeeeee"
         "0xffffffffffffffffffffffffffffffffffffffffffffffffffffffffffffffff")))
    "accept" None "shell-consensus"
    (Some "This fixture isolates the B5 root comparison contract without freezing a concrete execution engine.")
    None
    None
    None
    None.

Definition block_execution_roots_mismatch_001 : ConsensusVector :=
  mk_consensus_vector "block-execution-roots-mismatch-001" "block" "execution_root_comparison"
    "A block whose computed post-state root differs from the committed header state_root is rejected at the final execution comparison gate."
    (mk_block_input (mk_block_header_input (uint_wrap 64 4) (uint_wrap 64 1000003) (uint_wrap 64 5)
         "0x3333333333333333333333333333333333333333333333333333333333333333"
         "0xaaaaaaaaaaaaaaaaaaaaaaaaaaaaaaaaaaaaaaaaaaaaaaaaaaaaaaaaaaaaaaaa"
         "0x5555555555555555555555555555555555555555555555555555555555555555"
         "0xeeeeeeeeeeeeeeeeeeeeeeeeeeeeeeeeeeeeeeeeeeeeeeeeeeeeeeeeeeeeeeee"
         "0xffffffffffffffffffffffffffffffffffffffffffffffffffffffffffffffff"
         (uint_wrap 64 160) "0x")
      (Some (mk_block_body_input ["tx-basic-valid-001"]))
      (Some (mk_block_sidecar_input "0x8888888888888888888888888888888888888888888888888888888888888888" ["witness-proof-valid-001"]))
      (Some "0xaaaaaaaaaaaaaaaaaaaaaaaaaaaaaaaaaaaaaaaaaaaaaaaaaaaaaaaaaaaaaaaa")
      (Some "0x8888888888888888888888888888888888888888888888888888888888888888")
      (Some "0x5555555555555555555555555555555555555555555555555555555555555555")
      None
      (Some (mk_execution_result "0x9999999999999999999999999999999999999999999999999999999999999999"
         "0xffffffffffffffffffffffffffffffffffffffffffffffffffffffffffffffff")))
    "reject" (Some (mk_consensus_expected "PostStateRootMismatch"
      (Some "0xeeeeeeeeeeeeeeeeeeeeeeeeeeeeeeeeeeeeeeeeeeeeeeeeeeeeeeeeeeeeeeee")
      (Some "0x9999999999999999999999999999999999999999999999999999999999999999")
      None None)) "shell-consensus"
    (Some "This fixture isolates the B5 post-state-root mismatch path after body and sidecar bindings have already succeeded.")
    None
    None
    None
    None.

Definition block_header_witness_bytes_reject_001 : ConsensusVector :=
  mk_consensus_vector "block-header-witness-bytes-reject-001" "block" "header_witness_bytes_prefilter"
    "A block header that advertises witness bytes above the local ingress ceiling is rejected before signature verification or sidecar work starts."
    (mk_block_input (mk_block_header_input (uint_wrap 64 2) (uint_wrap 64 1000001) (uint_wrap 64 3)
         "0x1111111111111111111111111111111111111111111111111111111111111111"
         "0xaaaaaaaaaaaaaaaaaaaaaaaaaaaaaaaaaaaaaaaaaaaaaaaaaaaaaaaaaaaaaaaa"
         "0xbbbbbbbbbbbbbbbbbbbbbbbbbbbbbbbbbbbbbbbbbbbbbbbbbbbbbbbbbbbbbbbb"
         "0xcccccccccccccccccccccccccccccccccccccccccccccccccccccccccccccccc"
         "0xdddddddddddddddddddddddddddddddddddddddddddddddddddddddddddddddd"
         (uint_wrap 64 1024) "0x")
      None
      None
      None
      (Some "0x6666666666666666666666666666666666666666666666666666666666666666")
      None
      (Some (mk_local_limits (Some (uint_wrap 64 512))))
      None)
    "reject" (Some (mk_consensus_expected "WitnessByteLimitExceeded"
      None
      None
      (Some (uint_wrap 64 512)) (Some (uint_wrap 64 1024)))) "shell-consensus"
    (Some "This fixture isolates the B0 witness-bytes prefilter. The ceiling is explicitly local policy, not a frozen consensus constant.")
    None
    None
    None
    None.

Definition block_sidecar_root_match_001 : ConsensusVector :=
  mk_consensus_vector "block-sidecar-root-match-001" "block" "sidecar_commitment"
    "A block sidecar whose committed root and block_root both match the declared header bindings passes the sidecar commitment gate."
    (mk_block_input (mk_block_header_input (uint_wrap 64 1) (uint_wrap 64 1000000) (uint_wrap 64 0)
         "0x0000000000000000000000000000000000000000000000000000000000000000"
         "0xaaaaaaaaaaaaaaaaaaaaaaaaaaaaaaaaaaaaaaaaaaaaaaaaaaaaaaaaaaaaaaaa"
         "0x5555555555555555555555555555555555555555555555555555555555555555"
         "0xcccccccccccccccccccccccccccccccccccccccccccccccccccccccccccccccc"
         "0xdddddddddddddddddddddddddddddddddddddddddddddddddddddddddddddddd"
         (uint_wrap 64 160) "0x")
      None
      (Some (mk_block_sidecar_input "0x7777777777777777777777777777777777777777777777777777777777777777" ["witness-proof-valid-001"]))
      None
      (Some "0x7777777777777777777777777777777777777777777777777777777777777777")
      (Some "0x5555555555555555555555555555555555555555555555555555555555555555")
      None
      None)
    "accept" None "shell-consensus"
    (Some "This fixture models the double-binding expected by future block import: the sidecar must bind to the header block root and its committed witness root must equal header.execution_witnesses_root. The witness payload is referenced through a repository-local witness fixture rather than a finalized block-sidecar wire codec.")
    (Some "0xaaaaaaaaaaaaaaaaaaaaaaaaaaaaaaaaaaaaaaaaaaaaaaaaaaaaaaaaaaaaaaaa")
    (Some "0x5555555555555555555555555555555555555555555555555555555555555555")
    (Some "0xcccccccccccccccccccccccccccccccccccccccccccccccccccccccccccccccc")
    (Some "0xdddddddddddddddddddddddddddddddddddddddddddddddddddddddddddddddd").

Definition block_sidecar_root_mismatch_001 : ConsensusVector :=
  mk_consensus_vector "block-sidecar-root-mismatch-001" "block" "sidecar_commitment"
    "A block sidecar whose computed commitment root differs from the header execution_witnesses_root is rejected before execution begins."
    (mk_block_input (mk_block_header_input (uint_wrap 64 1) (uint_wrap 64 1000000) (uint_wrap 64 0)
         "0x0000000000000000000000000000000000000000000000000000000000000000"
         "0xaaaaaaaaaaaaaaaaaaaaaaaaaaaaaaaaaaaaaaaaaaaaaaaaaaaaaaaaaaaaaaaa"
         "0x5555555555555555555555555555555555555555555555555555555555555555"
         "0xcccccccccccccccccccccccccccccccccccccccccccccccccccccccccccccccc"
         "0xdddddddddddddddddddddddddddddddddddddddddddddddddddddddddddddddd"
         (uint_wrap 64 160) "0x")
      None
      (Some (mk_block_sidecar_input "0x7777777777777777777777777777777777777777777777777777777777777777" ["witness-proof-valid-001"]))
      None
      (Some "0x7777777777777777777777777777777777777777777777777777777777777777")
      (Some "0x9999999999999999999999999999999999999999999999999999999999999999")
      None
      None)
    "reject" (Some (mk_consensus_expected "SidecarMismatch"
      (Some "0x5555555555555555555555555555555555555555555555555555555555555555")
      (Some "0x9999999999999999999999999999999999999999999999999999999999999999")
      None None)) "shell-consensus"
    (Some "This vector isolates sidecar commitment failure while holding the sidecar.block_root match fixed. A future consensus importer should fail it at the sidecar-binding stage, before any execution or post-state root comparison.")
    (Some "0xaaaaaaaaaaaaaaaaaaaaaaaaaaaaaaaaaaaaaaaaaaaaaaaaaaaaaaaaaaaaaaaa")
    (Some "0x5555555555555555555555555555555555555555555555555555555555555555")
    (Some "0xcccccccccccccccccccccccccccccccccccccccccccccccccccccccccccccccc")
    (Some "0xdddddddddddddddddddddddddddddddddddddddddddddddddddddddddddddddd").

Definition block_transactions_root_match_001 : ConsensusVector :=
  mk_consensus_vector "block-transactions-root-match-001" "block" "transactions_root_binding"
    "A block body whose transaction list root matches the header transactions_root passes the body-to-header binding check."
    (mk_block_input (mk_block_header_input (uint_wrap 64 1) (uint_wrap 64 1000000) (uint_wrap 64 0)
         "0x0000000000000000000000000000000000000000000000000000000000000000"
         "0xaaaaaaaaaaaaaaaaaaaaaaaaaaaaaaaaaaaaaaaaaaaaaaaaaaaaaaaaaaaaaaaa"
         "0xbbbbbbbbbbbbbbbbbbbbbbbbbbbbbbbbbbbbbbbbbbbbbbbbbbbbbbbbbbbbbbbb"
         "0xcccccccccccccccccccccccccccccccccccccccccccccccccccccccccccccccc"
         "0xdddddddddddddddddddddddddddddddddddddddddddddddddddddddddddddddd"
         (uint_wrap 64 160) "0x")
      (Some (mk_block_body_input ["tx-basic-valid-001"; "tx-create-valid-001"]))
      None
      (Some "0xaaaaaaaaaaaaaaaaaaaaaaaaaaaaaaaaaaaaaaaaaaaaaaaaaaaaaaaaaaaaaaaa")
      None
      None
      None
      None)
    "accept" None "shell-consensus"
    (Some "This is a block-binding fixture for the future consensus harness. Until canonical block containers land, the vector intentionally focuses on body/header root equality using repository-local transaction fixture references rather than inventing a finalized block wire codec.")
    (Some "0xaaaaaaaaaaaaaaaaaaaaaaaaaaaaaaaaaaaaaaaaaaaaaaaaaaaaaaaaaaaaaaaa")
    (Some "0xbbbbbbbbbbbbbbbbbbbbbbbbbbbbbbbbbbbbbbbbbbbbbbbbbbbbbbbbbbbbbbbb")
    (Some "0xcccccccccccccccccccccccccccccccccccccccccccccccccccccccccccccccc")
    (Some "0xdddddddddddddddddddddddddddddddddddddddddddddddddddddddddddddddd").

Definition block_transactions_root_mismatch_001 : ConsensusVector :=
  mk_consensus_vector "block-transactions-root-mismatch-001" "block" "transactions_root_binding"
    "A block body whose computed transaction list root differs from the header transactions_root is rejected before sidecar or execution work starts."
    (mk_block_input (mk_block_header_input (uint_wrap 64 1) (uint_wrap 64 1000000) (uint_wrap 64 0)
         "0x0000000000000000000000000000000000000000000000000000000000000000"
         "0x2222222222222222222222222222222222222222222222222222222222222222"
         "0xbbbbbbbbbbbbbbbbbbbbbbbbbbbbbbbbbbbbbbbbbbbbbbbbbbbbbbbbbbbbbbbb"
         "0xcccccccccccccccccccccccccccccccccccccccccccccccccccccccccccccccc"
         "0xdddddddddddddddddddddddddddddddddddddddddddddddddddddddddddddddd"
         (uint_wrap 64 160) "0x")
      (Some (mk_block_body_input ["tx-basic-valid-001"]))
      None
      (Some "0xaaaaaaaaaaaaaaaaaaaaaaaaaaaaaaaaaaaaaaaaaaaaaaaaaaaaaaaaaaaaaaaa")
      None
      None
      None
      None)
    "reject" (Some (mk_consensus_expected "TransactionsRootMismatch"
      (Some "0x2222222222222222222222222222222222222222222222222222222222222222")
      (Some "0xaaaaaaaaaaaaaaaaaaaaaaaaaaaaaaaaaaaaaaaaaaaaaaaaaaaaaaaaaaaaaaaa")
      None None)) "shell-consensus"
    (Some "This vector isolates the cheap body/header binding failure. A future consensus importer should reject it before any sidecar binding, witness reconstruction, or execution stage is entered.")
    (Some "0x2222222222222222222222222222222222222222222222222222222222222222")
    (Some "0xbbbbbbbbbbbbbbbbbbbbbbbbbbbbbbbbbbbbbbbbbbbbbbbbbbbbbbbbbbbbbbbb")
    (Some "0xcccccccccccccccccccccccccccccccccccccccccccccccccccccccccccccccc")
    (Some "0xdddddddddddddddddddddddddddddddddddddddddddddddddddddddddddddddd").

(** ** vectors/transactions *)

Definition tx_malformed_ssz_001 : TransactionVector :=
  mk_transaction_vector "tx-malformed-ssz-001" "transaction"
    "A tag-only transaction payload is structurally malformed because the fixed SSZ fields are missing."
    (mk_transaction_input None
      (Some "0x00"))
    "reject" (Some (mk_transaction_expected "MalformedSsz" None (Some "BasicTransactionPayload too short for fixed fields"))) "shell-primitives"
    (Some "This fixture exercises the low-level decode failure path for truncated SSZ bytes.")
    None
    None None.

Definition tx_unknown_tag_001 : TransactionVector :=
  mk_transaction_vector "tx-unknown-tag-001" "transaction"
    "A transaction payload tag outside the locally supported set is rejected before any payload decode."
    (mk_transaction_input None
      (Some "0x02"))
    "reject" (Some (mk_transaction_expected "UnsupportedPayloadVariant" (Some Byte.x02) None)) "shell-primitives"
    (Some "This fixture stays focused on the closed tag gate without inventing future payload semantics.")
    None
    None None.

Definition validation_vectors : list ValidationVector :=
  [auth_count_empty_001; auth_count_multiple_001; auth_count_single_001;
   auth_root_match_001; auth_root_mismatch_001; auth_root_no_auths_001;
   auth_root_second_mismatch_001; sig_size_at_limit_001; sig_size_below_limit_001;
   sig_size_over_limit_001; sig_size_zero_001].

Definition block_vectors : list ConsensusVector :=
  [block_execution_roots_match_001; block_execution_roots_mismatch_001; block_header_witness_bytes_reject_001;
   block_sidecar_root_match_001; block_sidecar_root_mismatch_001; block_transactions_root_match_001;
   block_transactions_root_mismatch_001].

Definition transaction_vectors : list TransactionVector :=
  [tx_basic_valid_001; tx_create_valid_001; tx_malformed_ssz_001;
   tx_unknown_tag_001].

Definition crypto_vectors : list CryptoVector :=
  [sig_supported_invalid_001; sig_supported_valid_001; sig_unsupported_scheme_001;
   sig_user_oversize_001; sig_validator_invalid_001; sig_validator_local_guard_001;
   sig_validator_unsupported_scheme_001; sig_validator_valid_001].

Definition policy_vectors : list MempoolPolicyVector :=
  [fee_payload_insufficient_001; fee_witness_insufficient_001; nonce_replay_conflict_001;
   nonce_too_high_001].

Definition ordering_vectors : list CheapFirstVector :=
  [order_body_root_before_signature_001; order_fee_before_signature_001; order_header_before_signature_001;
   order_payload_before_signature_001; order_sidecar_before_execution_001; order_signature_before_witness_001].

Definition peer_action_vectors : list PeerActionVector :=
  [peer_fee_spam_001; peer_invalid_signature_001; peer_local_policy_reject_001;
   peer_malformed_ssz_001; peer_oversize_sidecar_001; peer_reject_outcome_001].

(** ** The file system *)

Definition json_names (ids : list string) : list (option string) := (fun id => Some (id +:+ ".json")) <$> ids.

Definition vector_names (category : string) : option (list (option string)) :=
  if decide (category = "validation") then Some (json_names (vv_id <$> validation_vectors))
  else if decide (category = "blocks") then Some (json_names (bv_id <$> block_vectors))
  else if decide (category = "transactions") then Some (json_names (tv_id <$> transaction_vectors))
  else if decide (category = "crypto") then Some (json_names (cv_id <$> crypto_vectors))
  else if decide (category = "mempool-policy") then Some (json_names (pv_id <$> policy_vectors))
  else if decide (category = "validation-order") then Some (json_names (cf_id <$> ordering_vectors))
  else if decide (category = "peer-actions") then Some (json_names (pa_id <$> peer_action_vectors))
  else None.

Definition vectors_fs : FileSystem := {|
  read_dir := vector_names;
  read path :=
    names ← vector_names (path_category path);
    if decide (Some (path_file_name path) ∈ names) then bytes_of_string <$> file_stem path else None
|}.

Fixpoint find_by_id {T} (id_of : T -> string) (vectors : list T) (bytes : list byte) : option T :=
  match vectors with
  | [] => None
  | v :: vectors =>
      if decide (bytes_of_string (id_of v) = bytes) then Some v else find_by_id id_of vectors bytes
  end.

#[local] Instance validation_decoder : Deserialize ValidationVector := find_by_id vv_id validation_vectors.
#[local] Instance block_decoder : Deserialize ConsensusVector := find_by_id bv_id block_vectors.
#[local] Instance transaction_decoder : Deserialize TransactionVector := find_by_id tv_id transaction_vectors.
#[local] Instance crypto_decoder : Deserialize CryptoVector := find_by_id cv_id crypto_vectors.
#[local] Instance policy_decoder : Deserialize MempoolPolicyVector := find_by_id pv_id policy_vectors.
#[local] Instance ordering_decoder : Deserialize CheapFirstVector := find_by_id cf_id ordering_vectors.
#[local] Instance peer_action_decoder : Deserialize PeerActionVector := find_by_id pa_id peer_action_vectors.

(** ** Evaluation *)

(** The recorded payload roots are SHA-256 roots; [sha2_table] computes the same
    digests as [sha2] ([sha2_table_correct]). *)
Example primitives_directory_tests_pass :
  [@validation_vectors_match_the_closed_t1_rules sha2_table vectors_fs _;
   @TransactionVectors.transaction_vectors_match_the_closed_codec_and_root_contract sha2_table vectors_fs _]
  = [true; true].
Proof. vm_compute. reflexivity. Qed.

Section cheap.
#[local] Existing Instance poly_hash.

(** The other categories record no payload root: the cheap digest serves. *)
Example directory_tests_pass :
  [consensus_vectors_cover_minimal_block_header_sidecar_contracts vectors_fs;
   shared_peer_action_vectors_cover_network_mapping_contract vectors_fs;
   fixture_driven_vectors_cover_mempool_fee_and_nonce_policy vectors_fs;
   shared_cheap_first_vectors_cover_mempool_ordering_contract vectors_fs;
   shared_cheap_first_vectors_cover_consensus_ordering_contract vectors_fs;
   @crypto_vectors_match_the_dispatch_contract vectors_fs recorded_dalek _;
   @ValidatorPath.validator_path_negative_crypto_vectors_stop_consensus_at_b1 _ recorded_dalek vectors_fs _;
   ValidatorPath.validator_path_negative_crypto_vectors_keep_network_classification_stable vectors_fs]
  = replicate 8 true.
Proof. vm_compute. reflexivity. Qed.

End cheap.

