(* ===== verification/ScenarioData.v ===== *)
(** * The witness, execution and root-check vectors, evaluated

    The remaining files of [vectors/witnesses] and [vectors/root-checks] as the records
    the tests read them into, the file system with these directories, and the evaluation
    of [ScenarioTests] on it under SHA-256 (with the table of zero trees): the roots the
    vectors record are the roots the model computes. *)

From S2P Require Import Prelude Primitives Codec Hash Sha256 OrdMap Ssz State Fixtures VectorFiles Testing FixtureVectors.
From S2P Require Import DirectoryTests ScenarioTests Vectors DirectoryData.

(** ** vectors/witnesses *)

Definition witness_order_canonical_001 : WitnessVector :=
  mk_witness_vector "witness-order-canonical-001" "witness" "canonical_state_key_ordering"
    "A witness list that is already sorted by the shared canonical StateKey byte encoding is accepted before proof reconstruction."
    (mk_witness_input (Some true) (Some "reference_empty")
      (Some "0x235bf652c6d3c8bfa24b4e9cfb345fa22591efdf3da21ce74b211bbd62c409ca")
      (Some [mk_witness_fixture (AccountHeaderInput "0x1111111111111111111111111111111111111111"
        (Some "0x000000000000000000000000001111111111111111111111111111111111111111")) "0xdeadbeef" []; mk_witness_fixture (StorageSlotInput "0x3333333333333333333333333333333333333333"
        "0x4444444444444444444444444444444444444444444444444444444444444444"
        (Some "0x0100000000000000000000000033333333333333333333333333333333333333334444444444444444444444444444444444444444444444444444444444444444")) "0xaa" []; mk_witness_fixture (RawTreeKeyInput "0x9999999999999999999999999999999999999999999999999999999999999999" (Some "0x039999999999999999999999999999999999999999999999999999999999999999")) "0xbb" []])
      None
      None)
    "accept" None "shell-state"
    (Some "This vector uses the repository-local StateKeyBytes path frozen in shell-primitives. The committed witness proof bytes stay empty because the current reference backend derives proof paths locally.")
    (Some ["0x000000000000000000000000001111111111111111111111111111111111111111"; "0x0100000000000000000000000033333333333333333333333333333333333333334444444444444444444444444444444444444444444444444444444444444444"; "0x039999999999999999999999999999999999999999999999999999999999999999"]) (Some "reference_empty").

Definition witness_order_canonical_002 : WitnessVector :=
  mk_witness_vector "witness-order-canonical-002" "witness" "canonical_state_key_ordering"
    "A witness list that walks the current AccountHeader, StorageSlot, CodeChunk, RawTreeKey, and Stem tag boundaries in canonical byte order is accepted before any proof reconstruction."
    (mk_witness_input (Some true) (Some "reference_empty")
      None
      (Some [mk_witness_fixture (AccountHeaderInput "0x1111111111111111111111111111111111111111"
        (Some "0x000000000000000000000000001111111111111111111111111111111111111111")) "0x01" []; mk_witness_fixture (StorageSlotInput "0x1111111111111111111111111111111111111111"
        "0x2222222222222222222222222222222222222222222222222222222222222222"
        (Some "0x0100000000000000000000000011111111111111111111111111111111111111112222222222222222222222222222222222222222222222222222222222222222")) "0x0203" []; mk_witness_fixture (CodeChunkInput "0x3333333333333333333333333333333333333333" (uint_wrap 32 7)
        (Some "0x02000000000000000000000000333333333333333333333333333333333333333300000007")) "0x04" []; mk_witness_fixture (RawTreeKeyInput "0x4444444444444444444444444444444444444444444444444444444444444444" (Some "0x034444444444444444444444444444444444444444444444444444444444444444")) "0x050607" []; mk_witness_fixture (StemInput "0x55555555555555555555555555555555555555555555555555555555555555"
        (Some "0x0455555555555555555555555555555555555555555555555555555555555555")) "0x08" []])
      None
      None)
    "accept" None "shell-state"
    (Some "This remains a repository-local comparator contract only: it pins the current canonical StateKey ordering across every provisional witness key family without claiming a finalized witness compression or proof-node wire format.")
    (Some ["0x000000000000000000000000001111111111111111111111111111111111111111"; "0x0100000000000000000000000011111111111111111111111111111111111111112222222222222222222222222222222222222222222222222222222222222222"; "0x02000000000000000000000000333333333333333333333333333333333333333300000007"; "0x034444444444444444444444444444444444444444444444444444444444444444"; "0x0455555555555555555555555555555555555555555555555555555555555555"]) (Some "reference_empty").

Definition witness_order_noncanonical_001 : WitnessVector :=
  mk_witness_vector "witness-order-noncanonical-001" "witness" "canonical_state_key_ordering"
    "A witness list whose StateKeys are not strictly increasing in canonical byte order is rejected before any proof work starts."
    (mk_witness_input (Some false) (Some "reference_empty")
      None
      (Some [mk_witness_fixture (RawTreeKeyInput "0x9999999999999999999999999999999999999999999999999999999999999999" (Some "0x039999999999999999999999999999999999999999999999999999999999999999")) "0xbb" []; mk_witness_fixture (AccountHeaderInput "0x1111111111111111111111111111111111111111"
        (Some "0x000000000000000000000000001111111111111111111111111111111111111111")) "0xdeadbeef" []])
      None
      None)
    "reject" (Some (mk_witness_expected "NonCanonicalWitnessOrdering" (Some 1%N) (Some "witness keys must be strictly increasing in canonical StateKey order"))) "shell-state"
    (Some "The only failure here is ordering: RawTreeKey sorts after AccountHeader under the shared byte comparator, so shell-state must reject at the ordering gate before any reconstruction path is attempted.")
    (Some ["0x039999999999999999999999999999999999999999999999999999999999999999"; "0x000000000000000000000000001111111111111111111111111111111111111111"]) (Some "reference_empty").

Definition witness_order_noncanonical_002 : WitnessVector :=
  mk_witness_vector "witness-order-noncanonical-002" "witness" "canonical_state_key_ordering"
    "A witness list with repeated canonical StateKey bytes is rejected because the current ordering contract requires keys to be strictly increasing, not merely non-decreasing."
    (mk_witness_input (Some false) (Some "reference_empty")
      None
      (Some [mk_witness_fixture (StorageSlotInput "0x1111111111111111111111111111111111111111"
        "0xaaaaaaaaaaaaaaaaaaaaaaaaaaaaaaaaaaaaaaaaaaaaaaaaaaaaaaaaaaaaaaaa"
        (Some "0x010000000000000000000000001111111111111111111111111111111111111111aaaaaaaaaaaaaaaaaaaaaaaaaaaaaaaaaaaaaaaaaaaaaaaaaaaaaaaaaaaaaaaa")) "0xaa" []; mk_witness_fixture (StorageSlotInput "0x1111111111111111111111111111111111111111"
        "0xaaaaaaaaaaaaaaaaaaaaaaaaaaaaaaaaaaaaaaaaaaaaaaaaaaaaaaaaaaaaaaaa"
        (Some "0x010000000000000000000000001111111111111111111111111111111111111111aaaaaaaaaaaaaaaaaaaaaaaaaaaaaaaaaaaaaaaaaaaaaaaaaaaaaaaaaaaaaaaa")) "0xbb" []])
      None
      None)
    "reject" (Some (mk_witness_expected "NonCanonicalWitnessOrdering" (Some 1%N) (Some "witness keys must be strictly increasing in canonical StateKey order"))) "shell-state"
    (Some "Duplicate committed witness keys are a current local reject path at the canonical ordering gate. That strictness is exercised intentionally while the detailed witness/proof wire format stays provisional.")
    (Some ["0x010000000000000000000000001111111111111111111111111111111111111111aaaaaaaaaaaaaaaaaaaaaaaaaaaaaaaaaaaaaaaaaaaaaaaaaaaaaaaaaaaaaaaa"; "0x010000000000000000000000001111111111111111111111111111111111111111aaaaaaaaaaaaaaaaaaaaaaaaaaaaaaaaaaaaaaaaaaaaaaaaaaaaaaaaaaaaaaaa"]) (Some "reference_empty").

Definition witness_proof_invalid_001 : WitnessVector :=
  mk_witness_vector "witness-proof-invalid-001" "witness" "reference_proof_reconstruction"
    "A reference-backend witness that carries unexpected committed proof bytes is rejected as an unsupported proof shape."
    (mk_witness_input None (Some "placeholder_committed_nodes")
      (Some "0xc29b19be933adb914c312f0ef305668d27189058d8fbde447d5c36d0e81fce1b")
      None
      (Some (mk_witness_fixture (AccountHeaderInput "0x1111111111111111111111111111111111111111"
        (Some "0x000000000000000000000000001111111111111111111111111111111111111111")) "0xdeadbeef" ["0xaaaaaaaaaaaaaaaaaaaaaaaaaaaaaaaaaaaaaaaaaaaaaaaaaaaaaaaaaaaaaaaa"]))
      (Some [mk_leaf_fixture (AccountHeaderInput "0x1111111111111111111111111111111111111111"
        (Some "0x000000000000000000000000001111111111111111111111111111111111111111")) "0xdeadbeef"]))
    "reject" (Some (mk_witness_expected "UnsupportedProofShape" None (Some "reference backend derives proof paths locally and does not interpret committed proof bytes"))) "shell-state"
    (Some "This vector stays honest about current repository behavior: detailed witness proof-node layout is still provisional, so the reference backend rejects any non-empty committed proof payload instead of pretending to decode a finalized wire proof. The shared fixture shape now labels that committed form as placeholder_committed_nodes rather than implying a finalized proof codec.")
    (Some ["0x000000000000000000000000001111111111111111111111111111111111111111"]) (Some "placeholder_committed_nodes").

Definition witness_proof_invalid_002 : WitnessVector :=
  mk_witness_vector "witness-proof-invalid-002" "witness" "reference_proof_reconstruction"
    "A reference-backend witness whose committed leaf value does not match the materialized pre-state is rejected as a local witness verification failure."
    (mk_witness_input None (Some "reference_empty")
      (Some "0x54cf5a159f1646c7fc12fa79eeeee9cdf70d1cca45a3a2c73665f631df541a04")
      None
      (Some (mk_witness_fixture (AccountHeaderInput "0x1111111111111111111111111111111111111111"
        (Some "0x000000000000000000000000001111111111111111111111111111111111111111")) "0xdeadbe00" []))
      (Some [mk_leaf_fixture (AccountHeaderInput "0x1111111111111111111111111111111111111111"
        (Some "0x000000000000000000000000001111111111111111111111111111111111111111")) "0xdeadbeef"; mk_leaf_fixture (StorageSlotInput "0x1111111111111111111111111111111111111111"
        "0x0101010101010101010101010101010101010101010101010101010101010101"
        (Some "0x0100000000000000000000000011111111111111111111111111111111111111110101010101010101010101010101010101010101010101010101010101010101")) "0xcafe"]))
    "reject" (Some (mk_witness_expected "WitnessVerificationFailed" None (Some "reference proof leaf does not match witness value"))) "shell-state"
    (Some "This vector documents the current local boundary only: the reference backend still derives proof paths internally, but a committed witness value that does not match the materialized leaf must fail closed as a typed reject.")
    (Some ["0x000000000000000000000000001111111111111111111111111111111111111111"; "0x0100000000000000000000000011111111111111111111111111111111111111110101010101010101010101010101010101010101010101010101010101010101"]) (Some "reference_empty").

Definition witness_proof_invalid_003 : WitnessVector :=
  mk_witness_vector "witness-proof-invalid-003" "witness" "reference_proof_reconstruction"
    "A reference-backend witness that is checked against a different expected pre-state root is rejected before any provisional proof-node layout is treated as consensus."
    (mk_witness_input None (Some "reference_empty")
      (Some "0xc29b19be933adb914c312f0ef305668d27189058d8fbde447d5c36d0e81fce1b")
      None
      (Some (mk_witness_fixture (AccountHeaderInput "0x1111111111111111111111111111111111111111"
        (Some "0x000000000000000000000000001111111111111111111111111111111111111111")) "0xdeadbeef" []))
      (Some [mk_leaf_fixture (AccountHeaderInput "0x1111111111111111111111111111111111111111"
        (Some "0x000000000000000000000000001111111111111111111111111111111111111111")) "0xdeadbeef"; mk_leaf_fixture (StorageSlotInput "0x1111111111111111111111111111111111111111"
        "0x0101010101010101010101010101010101010101010101010101010101010101"
        (Some "0x0100000000000000000000000011111111111111111111111111111111111111110101010101010101010101010101010101010101010101010101010101010101")) "0xcafe"]))
    "reject" (Some (mk_witness_expected "WitnessVerificationFailed" None (Some "reference proof path was built against a different state root"))) "shell-state"
    (Some "The witness/proof design is still provisional, but the current local contract is explicit about state-root binding: verification must fail closed when a valid witness is paired with the wrong expected pre-state root.")
    (Some ["0x000000000000000000000000001111111111111111111111111111111111111111"; "0x0100000000000000000000000011111111111111111111111111111111111111110101010101010101010101010101010101010101010101010101010101010101"]) (Some "reference_empty").

(** ** vectors/root-checks *)

Definition root_check_receipts_mismatch_001 : RootCheckVector :=
  mk_root_check_vector "root-check-end-to-end-receipts-mismatch-001" "root-check" "witness_execution_consensus_root_check"
    "The same end-to-end witness and execution path rejects when the committed header receipts_root differs from the computed receipts root."
    (mk_root_check_input (mk_header_input "0x9797979797979797979797979797979797979797979797979797979797979797"
      (uint_wrap 64 9) (uint_wrap 64 1001002) (uint_wrap 64 10)
      "0x3434343434343434343434343434343434343434343434343434343434343434"
      "0x0c1806d9a4aaccbb36324ead7e50118eca3ad93bf457e7140418682b955aa423"
      "0x75b389ee7f488d71ea41a415ec5ad50b1131784673fa0275fafcdf22eff1e363"
      "0xb7ee5c7b575618aa048d08a080d266a374653387963d032b77cd9a1018d8abc9"
      "0xbbbbbbbbbbbbbbbbbbbbbbbbbbbbbbbbbbbbbbbbbbbbbbbbbbbbbbbbbbbbbbbb"
      (uint_wrap 64 192) "0x1234")
      (mk_body_input ["tx-basic-valid-001"; "tx-create-valid-001"])
      (mk_sidecar_input "0x9797979797979797979797979797979797979797979797979797979797979797" ["witness-proof-valid-002"; "witness-proof-valid-003"])
      (mk_execution_input [mk_execution_step "tx-basic-valid-001" "witness-proof-valid-002" "0x01020304" Byte.x01 "0xaa"; mk_execution_step "tx-create-valid-001" "witness-proof-valid-003" "0x0506070809" Byte.x01 "0xbbcc"]))
    "reject" (Some (mk_root_check_expected "ReceiptsRootMismatch"
      "0xbbbbbbbbbbbbbbbbbbbbbbbbbbbbbbbbbbbbbbbbbbbbbbbbbbbbbbbbbbbbbbbb"
      "0x90728de98fb08f68cc10cf496b7f121ff65eec03e56fa2cf33f1cb6637c5ec76")) "shell-consensus"
    (Some "This vector keeps witness verification and state-root calculation stable while proving the final receipts-root comparison fails closed.")
    "0x0c1806d9a4aaccbb36324ead7e50118eca3ad93bf457e7140418682b955aa423"
    "0x75b389ee7f488d71ea41a415ec5ad50b1131784673fa0275fafcdf22eff1e363"
    "0xb7ee5c7b575618aa048d08a080d266a374653387963d032b77cd9a1018d8abc9"
    "0xbbbbbbbbbbbbbbbbbbbbbbbbbbbbbbbbbbbbbbbbbbbbbbbbbbbbbbbbbbbbbbbb".

Definition root_check_state_mismatch_001 : RootCheckVector :=
  mk_root_check_vector "root-check-end-to-end-state-mismatch-001" "root-check" "witness_execution_consensus_root_check"
    "The full witness-to-execution path succeeds, but the committed header state_root drifts from the computed post-state root and must fail closed."
    (mk_root_check_input (mk_header_input "0x9898989898989898989898989898989898989898989898989898989898989898"
      (uint_wrap 64 8) (uint_wrap 64 1001001) (uint_wrap 64 9)
      "0x2323232323232323232323232323232323232323232323232323232323232323"
      "0x0c1806d9a4aaccbb36324ead7e50118eca3ad93bf457e7140418682b955aa423"
      "0x75b389ee7f488d71ea41a415ec5ad50b1131784673fa0275fafcdf22eff1e363"
      "0xaaaaaaaaaaaaaaaaaaaaaaaaaaaaaaaaaaaaaaaaaaaaaaaaaaaaaaaaaaaaaaaa"
      "0x90728de98fb08f68cc10cf496b7f121ff65eec03e56fa2cf33f1cb6637c5ec76"
      (uint_wrap 64 192) "0x1234")
      (mk_body_input ["tx-basic-valid-001"; "tx-create-valid-001"])
      (mk_sidecar_input "0x9898989898989898989898989898989898989898989898989898989898989898" ["witness-proof-valid-002"; "witness-proof-valid-003"])
      (mk_execution_input [mk_execution_step "tx-basic-valid-001" "witness-proof-valid-002" "0x01020304" Byte.x01 "0xaa"; mk_execution_step "tx-create-valid-001" "witness-proof-valid-003" "0x0506070809" Byte.x01 "0xbbcc"]))
    "reject" (Some (mk_root_check_expected "PostStateRootMismatch"
      "0xaaaaaaaaaaaaaaaaaaaaaaaaaaaaaaaaaaaaaaaaaaaaaaaaaaaaaaaaaaaaaaaa"
      "0xb7ee5c7b575618aa048d08a080d266a374653387963d032b77cd9a1018d8abc9")) "shell-consensus"
    (Some "This keeps the earlier transaction and sidecar bindings constant so the failure isolates the final execution-to-consensus state-root comparison.")
    "0x0c1806d9a4aaccbb36324ead7e50118eca3ad93bf457e7140418682b955aa423"
    "0x75b389ee7f488d71ea41a415ec5ad50b1131784673fa0275fafcdf22eff1e363"
    "0xaaaaaaaaaaaaaaaaaaaaaaaaaaaaaaaaaaaaaaaaaaaaaaaaaaaaaaaaaaaaaaaa"
    "0x90728de98fb08f68cc10cf496b7f121ff65eec03e56fa2cf33f1cb6637c5ec76".

Definition witness_vectors : list WitnessVector :=
  [witness_order_canonical_001; witness_order_canonical_002; witness_order_noncanonical_001;
   witness_order_noncanonical_002; witness_proof_invalid_001; witness_proof_invalid_002;
   witness_proof_invalid_003; witness_proof_valid_001; witness_proof_valid_002;
   witness_proof_valid_003].

Definition root_check_vectors : list RootCheckVector :=
  [root_check_match_001; root_check_receipts_mismatch_001; root_check_state_mismatch_001].

Definition semantics_vectors : list ExecutionSemanticsVector :=
  [semantics_empty_block_001; semantics_lineage_001; semantics_noncanonical_001].

(** ** The file system *)

Definition scenario_names (category : string) : option (list (option string)) :=
  if decide (category = "transactions") then Some (json_names (tv_id <$> transaction_vectors))
  else if decide (category = "witnesses") then Some (json_names (wv_id <$> witness_vectors))
  else if decide (category = "root-checks") then Some (json_names (rv_id <$> root_check_vectors))
  else if decide (category = "execution-semantics") then Some (json_names (sv_id <$> semantics_vectors))
  else None.

Definition scenario_fs : FileSystem := {|
  read_dir := scenario_names;
  read path :=
    names ← scenario_names (path_category path);
    if decide (Some (path_file_name path) ∈ names) then bytes_of_string <$> file_stem path else None
|}.

#[local] Existing Instance transaction_decoder.
#[local] Instance witness_decoder : Deserialize WitnessVector := find_by_id wv_id witness_vectors.
#[local] Instance root_check_decoder : Deserialize RootCheckVector := find_by_id rv_id root_check_vectors.
#[local] Instance semantics_decoder : Deserialize ExecutionSemanticsVector := find_by_id sv_id semantics_vectors.

(** ** Evaluation *)

Section evaluated.
#[local] Existing Instance sha2_table.

Example witness_tests_pass : WitnessVectors.witness_vectors_match_the_reference_proof_contract scenario_fs = true.
Proof. vm_compute. reflexivity. Qed.

Example semantics_tests_pass :
  SemanticsVectors.execution_semantics_vectors_cover_reference_local_execution_contracts scenario_fs = true.
Proof. vm_compute. reflexivity. Qed.

Example root_check_tests_pass :
  RootChecks.check_scenarios scenario_fs (fun loaded =>
    RootChecks.execution_root_check_holds loaded && RootChecks.consensus_root_check_holds loaded) = true.
Proof. vm_compute. reflexivity. Qed.

End evaluated.

