(* ===== verification/RuntimeData.v ===== *)
(** * The integration tests of shell-cli, evaluated

    [RuntimeTests] on the match scenario of [vectors/root-checks] and on its two
    variants.  The tests compare verdicts, errors and calls, not recorded digests, so
    they run under the cheap digest on the end-to-end scenario of [Vectors];
    [ScenarioData] loads the three files under SHA-256 itself. *)

From S2P Require Import Prelude Primitives Codec Hash Sha256 OrdMap Ssz State Execution Consensus Fixtures Cli Testing FixtureVectors.
From S2P Require Import RuntimeTests ScenarioData Vectors.

(** A header that commits to another state root or receipts root, as in the two
    mismatch files. *)
Definition with_header_roots (sc : LocalReferenceScenario) (state_root receipts_root : Root)
    : LocalReferenceScenario :=
  let h := block_header_of sc in
  with_block sc (mk_block
    (mk_canonical_header (ch_block_root h) (ch_block_number h) (ch_timestamp h) (ch_parent_root h)
       (ch_witness_bytes h) (ch_transactions_root h) (ch_execution_witnesses_root h) state_root receipts_root
       (ch_proposer_signature h) (ch_proposer_index_hint h))
    (block_body_of sc) (Consensus.sidecar (ls_block sc))).

Definition state_mismatch_scenario : LocalReferenceScenario :=
  with_header_roots e2e_scenario (xor_first 0xFF (ch_state_root (block_header_of e2e_scenario)))
    (ch_receipts_root (block_header_of e2e_scenario)).
Definition receipts_mismatch_scenario : LocalReferenceScenario :=
  with_header_roots e2e_scenario (ch_state_root (block_header_of e2e_scenario))
    (xor_first 0xFF (ch_receipts_root (block_header_of e2e_scenario))).

Section evaluated.
#[local] Existing Instance poly_hash.

(** [reference_runtime.rs]. *)
Example runtime_tests_pass :
  forallb (fun test => test e2e_scenario)
    [local_reference_runtime_imports_the_documented_match_flow;
     local_reference_runtime_accepts_reference_flow_with_admission_state_nonce_checks;
     local_reference_runtime_rejects_admission_transaction_shape_mismatches_before_validation;
     local_reference_runtime_rejects_planned_transaction_shape_mismatches_before_execution;
     local_reference_runtime_rejects_authorization_material_shape_mismatches_before_admission;
     local_reference_runtime_rejects_duplicate_admission_payload_roots_before_import;
     local_reference_runtime_rejects_replayed_nonces_via_admission_state_view;
     local_reference_runtime_rejects_future_nonce_gap_via_admission_state_view] &&
  local_reference_runtime_preserves_state_root_mismatch_failures state_mismatch_scenario &&
  local_reference_runtime_preserves_receipts_root_mismatch_failures receipts_mismatch_scenario = true.
Proof. vm_compute. reflexivity. Qed.

(** [reference_flow_integration.rs] and [reference_multi_auth_integration.rs]. *)
Example flow_tests_pass :
  forallb (fun test => test e2e_scenario)
    [local_reference_harness_runs_fixture_backed_happy_path_end_to_end;
     local_reference_harness_accepts_multi_authorization_transactions_under_require_all;
     local_reference_harness_rejects_when_any_required_authorization_fails] &&
  local_reference_harness_keeps_invalid_block_rejections_coherent_for_peers state_mismatch_scenario = true.
Proof. vm_compute. reflexivity. Qed.

(** [witness_failure_integration.rs]. *)
Example witness_failure_tests_pass :
  (let scenario := e2e_scenario in
    local_reference_harness_preserves_noncanonical_witness_order_vectors_as_typed_rejects scenario
      witness_order_noncanonical_002 &&
    local_reference_harness_preserves_shared_witness_leaf_boundary_vectors_as_typed_rejects scenario
      witness_proof_invalid_002 &&
    local_reference_harness_maps_invalid_committed_witness_shapes_to_invalid_block_rejects scenario
      witness_proof_invalid_001) = true.
Proof. vm_compute. reflexivity. Qed.

(** [network_adapters.rs]. *)
Example adapter_tests_pass :
  forallb (fun test => test e2e_scenario)
    [mempool_adapter_accepts_reference_transactions;
     mempool_adapter_maps_fee_policy_failures_to_policy_reject;
     mempool_adapter_maps_invalid_signatures_to_reject;
     mempool_adapter_preserves_missing_authorization_material_errors;
     mempool_adapter_fails_closed_for_altered_gossip_payloads;
     consensus_adapter_accepts_reference_blocks;
     consensus_adapter_maps_header_prefilter_failures_to_policy_reject;
     consensus_adapter_rejects_consensus_invalid_resolution_failures;
     consensus_adapter_preserves_missing_authorization_material_errors;
     consensus_adapter_rejects_altered_gossip_block_inputs;
     consensus_adapter_preserves_internal_resolution_errors] &&
  consensus_adapter_maps_invalid_reference_blocks_to_reject state_mismatch_scenario = true.
Proof. vm_compute. reflexivity. Qed.

End evaluated.
